(** * pivotal_import: the entity migration pipeline

    A shallow embedding of [pivotal-import/pivotal_import.py]: the Entity
    Builder ([build_entity]), the linkage of stories to epics and iterations,
    the [EntityCollector] with its [commit], the two emitters (the dry-run
    [mock_emitter] and the live [sc_creator]), the CSV files they write, and
    the reading of the export ([process_pt_csv_export]) with the lookup of
    the comments in the database ([add_attached_files_in_comments]).

    Conventions.
    - A Python value is a [value]; a dict with str keys is an association
      list in insertion order ([dict]).
    - A Python exception is [Raise e]; a function that can raise returns a
      [result].
    - Code that mutates EntityRecords, the collector or the files runs in
      the monad [M]: the records live in a heap and are named by references,
      so that a record mutated through one list is seen through every other
      list that holds it.  The state reached when an exception is raised is
      kept.
    - [lib.py] is not part of the sources: [sc_post], [sc_upload_files],
      [parse_row], the clock, the files of the stories and the answers of
      the database are parameters of the development.  A write to one of
      the CSV files can fail: the state holds the outcomes of the writes to
      come. *)

From Stdlib Require Import String Ascii List ZArith Bool Lia PeanoNat Permutation.
From Stdlib Require Import DecimalString.
Import ListNotations.
Open Scope string_scope.
Open Scope list_scope.


Set Warnings "-register-all".
Set Default Proof Using "Type".

(* ================================================================== *)
(** ** Python values *)
(* ================================================================== *)

(** The module-level label constants.  They are str objects created once;
    the importer refers to them by name, and [collect_epic_label_mapping]
    compares label names with them by identity ([is not]). *)
Inductive label_const :=
| PIVOTAL_TO_SHORTCUT_LABEL
| PIVOTAL_TO_SHORTCUT_RUN_LABEL
| PIVOTAL_RELEASE_TYPE_LABEL
| PIVOTAL_HAD_REVIEW_LABEL.

(** [VStr s] is a str object made at run time (read from the export, built
    by a format or a join, or a literal of the code); [VConstStr c] is the
    object of the module-level constant [c].  Both have characters, and
    [==], hashing and truthiness only see the characters. *)
Inductive value :=
| VNone
| VBool (b : bool)
| VInt (z : Z)
| VStr (s : string)
| VConstStr (c : label_const)
| VList (l : list value)
| VDict (kv : list (string * value)).

Definition dict := list (string * value).

Inductive exn :=
| KeyError (k : value)
| TypeError
| AttributeError
| ValueError
| IndexError
| UnboundLocalError
| StopIteration
| RuntimeError (msg : string)
| BackendError (msg : string).

Inductive result (A : Type) :=
| Ok (a : A)
| Raise (e : exn).
Arguments Ok {A} a.
Arguments Raise {A} e.

Definition rbind {A B} (r : result A) (f : A -> result B) : result B :=
  match r with
  | Ok a => f a
  | Raise e => Raise e
  end.

Notation "x <- e ;; k" := (rbind e (fun x => k))
  (at level 61, e at next level, right associativity).

Fixpoint rmap {A B} (f : A -> result B) (l : list A) : result (list B) :=
  match l with
  | [] => Ok []
  | x :: r => y <- f x ;; ys <- rmap f r ;; Ok (y :: ys)
  end.

Definition label_const_eqb (a b : label_const) : bool :=
  match a, b with
  | PIVOTAL_TO_SHORTCUT_LABEL, PIVOTAL_TO_SHORTCUT_LABEL => true
  | PIVOTAL_TO_SHORTCUT_RUN_LABEL, PIVOTAL_TO_SHORTCUT_RUN_LABEL => true
  | PIVOTAL_RELEASE_TYPE_LABEL, PIVOTAL_RELEASE_TYPE_LABEL => true
  | PIVOTAL_HAD_REVIEW_LABEL, PIVOTAL_HAD_REVIEW_LABEL => true
  | _, _ => false
  end.

(* ------------------------------------------------------------------ *)
(** *** Dicts with str keys *)

(** [k in d] and [d.get(k)] at the level of the association list. *)
Fixpoint dict_get (d : dict) (k : string) : option value :=
  match d with
  | [] => None
  | (k', v) :: r => if String.eqb k' k then Some v else dict_get r k
  end.

Definition dict_has (d : dict) (k : string) : bool :=
  match dict_get d k with Some _ => true | None => false end.

(** [d[k] = v]: the value of an existing key is replaced where it stands, a
    new key goes last. *)
Fixpoint dict_set (d : dict) (k : string) (v : value) : dict :=
  match d with
  | [] => [(k, v)]
  | (k', v') :: r =>
      if String.eqb k' k then (k, v) :: r else (k', v') :: dict_set r k v
  end.

(** [del d[k]] for a key that is present, [d.pop(k, default)] for any. *)
Fixpoint dict_del (d : dict) (k : string) : dict :=
  match d with
  | [] => []
  | (k', v') :: r =>
      if String.eqb k' k then r else (k', v') :: dict_del r k
  end.

Definition dict_keys (d : dict) : list string := map fst d.

(** [d.get(k)] (default None) and [d.get(k, default)]. *)
Definition py_get (d : dict) (k : string) : value :=
  match dict_get d k with Some v => v | None => VNone end.

Definition py_get_default (d : dict) (k : string) (default : value) : value :=
  match dict_get d k with Some v => v | None => default end.

(** [d[k]] on a dict with str keys. *)
Definition dict_index (d : dict) (k : string) : result value :=
  match dict_get d k with Some v => Ok v | None => Raise (KeyError (VStr k)) end.

(** [v[k]] with a str literal [k] on an arbitrary value. *)
Definition py_index (v : value) (k : string) : result value :=
  match v with
  | VDict d => dict_index d k
  | _ => Raise TypeError
  end.

Section Run.

(** The minute at which the importer was started, as formatted into
    [_current_datetime]. *)
Variable current_datetime : string.

Definition const_chars (c : label_const) : string :=
  match c with
  | PIVOTAL_TO_SHORTCUT_LABEL => "pivotal->shortcut"
  | PIVOTAL_TO_SHORTCUT_RUN_LABEL => ("pivotal->shortcut " ++ current_datetime)%string
  | PIVOTAL_RELEASE_TYPE_LABEL => "pivotal-release"
  | PIVOTAL_HAD_REVIEW_LABEL => "pivotal-had-review"
  end.

(** The characters of a str object. *)
Definition str_chars (v : value) : option string :=
  match v with
  | VStr s => Some s
  | VConstStr c => Some (const_chars c)
  | _ => None
  end.

(** [v == "lit"] for a str literal. *)
Definition str_is (v : value) (lit : string) : bool :=
  match str_chars v with Some s => String.eqb s lit | None => false end.

(** [v is c] for a module-level constant [c]. *)
Definition is_const (v : value) (c : label_const) : bool :=
  match v with VConstStr c' => label_const_eqb c' c | _ => false end.

(** Truth value of [if v:]. *)
Definition truthy (v : value) : bool :=
  match v with
  | VNone => false
  | VBool b => b
  | VInt z => negb (Z.eqb z 0)
  | VStr s => negb (String.eqb s "")
  | VConstStr c => negb (String.eqb (const_chars c) "")
  | VList l => match l with [] => false | _ => true end
  | VDict kv => match kv with [] => false | _ => true end
  end.

Fixpoint string_chars (s : string) : list value :=
  match s with
  | EmptyString => []
  | String c r => VStr (String c EmptyString) :: string_chars r
  end.

(** What [for x in v] or [zip(v, ...)] draws from [v]. *)
Definition py_iter (v : value) : result (list value) :=
  match v with
  | VList l => Ok l
  | VStr s => Ok (string_chars s)
  | VConstStr c => Ok (string_chars (const_chars c))
  | VDict kv => Ok (map (fun p => VStr (fst p)) kv)
  | _ => Raise TypeError
  end.

(** Keys of the value kinds that hash: a bool hashes and compares as the
    int 0 or 1, a list or a dict does not hash. *)
Inductive hkey :=
| KNone
| KInt (z : Z)
| KStr (s : string).

Definition hash_key (v : value) : result hkey :=
  match v with
  | VNone => Ok KNone
  | VBool b => Ok (KInt (if b then 1 else 0)%Z)
  | VInt z => Ok (KInt z)
  | VStr s => Ok (KStr s)
  | VConstStr c => Ok (KStr (const_chars c))
  | VList _ | VDict _ => Raise TypeError
  end.

(** The mappings of the run context are loaded from CSV files: their keys
    are str.  [cfg_mem m k] is [k in m], [cfg_get m k] is [m.get(k)] and
    [cfg_index m k] is [m[k]], for an arbitrary value [k]. *)
Definition cfg_mem (m : dict) (k : value) : result bool :=
  h <- hash_key k ;;
  Ok (match h with KStr s => dict_has m s | _ => false end).

Definition cfg_get (m : dict) (k : value) : result value :=
  h <- hash_key k ;;
  Ok (match h with KStr s => py_get m s | _ => VNone end).

Definition cfg_index (m : dict) (k : value) : result value :=
  h <- hash_key k ;;
  match h with
  | KStr s => match dict_get m s with
              | Some v => Ok v
              | None => Raise (KeyError k)
              end
  | _ => Raise (KeyError k)
  end.

(* ================================================================== *)
(** ** The Entity Builder *)
(* ================================================================== *)

Definition select_keys (type : string) : option (list string) :=
  if String.eqb type "story" then
    Some [ "comments"; "created_at"; "custom_fields"; "deadline";
           "description"; "estimate"; "external_id"; "external_links";
           "follower_ids"; "group_id"; "iteration_id"; "labels"; "name";
           "owner_ids"; "requested_by_id"; "story_type"; "tasks";
           "workflow_state_id" ]
  else if String.eqb type "epic" then
    Some [ "created_at"; "description"; "external_id"; "group_ids";
           "labels"; "name" ]
  else None.

Definition nl : string := String (ascii_of_nat 10) EmptyString.

Definition review_as_comment_text_prefix : string :=
  ("\[Pivotal Importer\] Reviewers have been added as followers on this Shortcut Story."
   ++ nl ++ nl ++
   "The following table describes the state of their reviews when they were imported into Shortcut from Pivotal Tracker:"
   ++ nl ++ nl ++
   "| Reviewer | Review Type | Review Status |"
   ++ nl ++
   "|---|---|---|")%string.

(** [s.replace("|", "\\|")] *)
Fixpoint escape_md_table_syntax (s : string) : string :=
  match s with
  | EmptyString => EmptyString
  | String c r =>
      if Ascii.eqb c "|"%char
      then String "\"%char (String "|"%char (escape_md_table_syntax r))
      else String c (escape_md_table_syntax r)
  end.

(** An entity returned by the target system (or fabricated by the dry run):
    its assigned id, its kind, its URL and the rest of its attributes. *)
Record created := {
  created_id : Z;
  entity_type : string;
  app_url : string;
  payload : dict
}.

(** The EntityRecord.  [iteration] is the iteration key (None or a str);
    [pt_iteration_id] is the raw source iteration id ([VNone] where the
    record has none); [imported_entity] and [error_message] are absent until
    a creation attempt sets them. *)
Record item := {
  type_ : string;
  entity : dict;
  iteration : option string;
  pt_iteration_id : value;
  parsed_row : option dict;
  imported_entity : option created;
  error_message : option string
}.

(** Assignments to one key of a record. *)
Definition with_entity (it : item) (e : dict) : item :=
  {| type_ := type_ it; entity := e; iteration := iteration it;
     pt_iteration_id := pt_iteration_id it; parsed_row := parsed_row it;
     imported_entity := imported_entity it; error_message := error_message it |}.

Definition with_imported_entity (it : item) (c : created) : item :=
  {| type_ := type_ it; entity := entity it; iteration := iteration it;
     pt_iteration_id := pt_iteration_id it; parsed_row := parsed_row it;
     imported_entity := Some c; error_message := error_message it |}.

Definition with_error_message (it : item) (msg : string) : item :=
  {| type_ := type_ it; entity := entity it; iteration := iteration it;
     pt_iteration_id := pt_iteration_id it; parsed_row := parsed_row it;
     imported_entity := imported_entity it; error_message := Some msg |}.

(** A change of the comments of the entity.  The list under "comments" is
    one object for the entity and for the parsed row of a record:
    [build_entity] stores it in the row and copies the reference into the
    entity, and nothing rebinds either key afterwards.  A change of a
    comment, or of the list, through the entity is therefore a change of
    the parsed row, when the row has comments. *)
Definition with_comments (it : item) (cs : list value) : item :=
  {| type_ := type_ it;
     entity := dict_set (entity it) "comments" (VList cs);
     iteration := iteration it;
     pt_iteration_id := pt_iteration_id it;
     parsed_row := match parsed_row it with
                   | Some d => Some (if dict_has d "comments"
                                     then dict_set d "comments" (VList cs)
                                     else d)
                   | None => None
                   end;
     imported_entity := imported_entity it; error_message := error_message it |}.

(** The run context built by [build_ctx]. *)
Record context := {
  group_id : value;
  priority_config : dict;
  priority_custom_field_id : value;
  user_config : dict;
  workflow_config : dict
}.

Definition label_named (c : label_const) : value :=
  VDict [("name", VConstStr c)].

Definition build_run_label_entity : item :=
  {| type_ := "label";
     entity := [("name", VConstStr PIVOTAL_TO_SHORTCUT_RUN_LABEL)];
     iteration := None;
     pt_iteration_id := VNone;
     parsed_row := None;
     imported_entity := None;
     error_message := None |}.

(** [d.setdefault("labels", []).extend(new)]; [append] is [extend] with one
    element.  A value under "labels" that is not a list has neither
    method. *)
Definition labels_extend (d : dict) (new : list value) : result dict :=
  match dict_get d "labels" with
  | None => Ok (dict_set d "labels" (VList new))
  | Some (VList l) => Ok (dict_set d "labels" (VList (l ++ new)))
  | Some _ => Raise AttributeError
  end.

(** The body of the loop over the comments of the row. *)
Definition build_comment (ctx : context) (comment : value) : result value :=
  match comment with
  | VDict new_comment =>
      let author := py_get new_comment "author" in
      if truthy author then
        let new_comment := dict_del new_comment "author" in
        author_id <- cfg_get (user_config ctx) author ;;
        if truthy author_id
        then Ok (VDict (dict_set new_comment "author_id" author_id))
        else Ok (VDict new_comment)
      else Ok (VDict new_comment)
  | _ => Raise AttributeError
  end.

(** [[{"description": title, "complete": state == "completed"} for ...]] *)
Definition build_tasks (titles states : list value) : list value :=
  map (fun p => VDict [("description", fst p);
                       ("complete", VBool (str_is (snd p) "completed"))])
      (combine titles states).

(** [[user_to_sc_id[u] for u in users if u in user_to_sc_id]] *)
Fixpoint resolve_users (user_to_sc_id : dict) (users : list value)
  : result (list value) :=
  match users with
  | [] => Ok []
  | u :: r =>
      known <- cfg_mem user_to_sc_id u ;;
      if known : bool then
        sc_id <- cfg_index user_to_sc_id u ;;
        ids <- resolve_users user_to_sc_id r ;;
        Ok (sc_id :: ids)
      else resolve_users user_to_sc_id r
  end.

(** [escape_md_table_syntax(v)] on a value: only a str has [replace]. *)
Definition escape_cell (v : value) : result string :=
  match str_chars v with
  | Some s => Ok (escape_md_table_syntax s)
  | None => Raise AttributeError
  end.

Fixpoint zip3 {A} (a b c : list A) : list (A * A * A) :=
  match a, b, c with
  | x :: a', y :: b', z :: c' => (x, y, z) :: zip3 a' b' c'
  | _, _, _ => []
  end.

(** One pass of the loop that grows [comment_text]. *)
Definition review_row (t : value * value * value) : result string :=
  let '(reviewer, review_type, review_status) := t in
  reviewer <- escape_cell reviewer ;;
  review_type <- escape_cell review_type ;;
  review_status <- escape_cell review_status ;;
  Ok (nl ++ "|" ++ reviewer ++ "|" ++ review_type ++ "|" ++ review_status ++ "|")%string.

Fixpoint review_rows (comment_text : string) (ts : list (value * value * value))
  : result string :=
  match ts with
  | [] => Ok comment_text
  | t :: r => row <- review_row t ;; review_rows (comment_text ++ row)%string r
  end.

(** ["|".join(parts)]: every part must be a str. *)
Fixpoint join_pipe (parts : list value) : result string :=
  match parts with
  | [] => Ok ""
  | [p] => match str_chars p with Some s => Ok s | None => Raise TypeError end
  | p :: r =>
      match str_chars p with
      | Some s => rest <- join_pipe r ;; Ok (s ++ "|" ++ rest)%string
      | None => Raise TypeError
      end
  end.

(** [{k: d[k] for k in keys if k in d}] *)
Fixpoint project (keys : list string) (d : dict) : dict :=
  match keys with
  | [] => []
  | k :: r =>
      match dict_get d k with
      | Some v => (k, v) :: project r d
      | None => project r d
      end
  end.

(** The paragraphs of [build_entity] under [if type == "story":], each on
    the row [d] as the paragraphs before it left it. *)

(** process workflow state *)
Definition process_workflow_state (ctx : context) (d : dict) : result dict :=
  let pt_state := py_get d "pt_state" in
  if truthy pt_state
  then ws <- cfg_index (workflow_config ctx) pt_state ;;
       Ok (dict_set d "workflow_state_id" ws)
  else Ok d.

(** process tasks *)
Definition process_tasks (d : dict) : result dict :=
  task_titles <- py_iter (py_get_default d "task_titles" (VList [])) ;;
  task_states <- py_iter (py_get_default d "task_states" (VList [])) ;;
  match build_tasks task_titles task_states with
  | [] => Ok d
  | tasks => Ok (dict_set d "tasks" (VList tasks))
  end.

(** process user fields: the requester *)
Definition process_requester (ctx : context) (d : dict) : result dict :=
  let user_to_sc_id := user_config ctx in
  let requester := py_get d "requester" in
  if truthy requester
  then
    (* if requester isn't found, this will cause the api to use the owner
       of the token as the requester *)
    sc_requester_id <- cfg_get user_to_sc_id requester ;;
    if truthy sc_requester_id
    then Ok (dict_set d "requested_by_id" sc_requester_id)
    else Ok d
  else Ok d.

(** process user fields: the owners *)
Definition process_owners (ctx : context) (d : dict) : result dict :=
  let user_to_sc_id := user_config ctx in
  let owners := py_get d "owners" in
  if truthy owners
  then os <- py_iter owners ;;
       ids <- resolve_users user_to_sc_id os ;;
       Ok (dict_set d "owner_ids" (VList ids))
  else Ok d.

(** process user fields: the reviewers *)
Definition process_reviewers (ctx : context) (reviewers : value) (d : dict)
  : result dict :=
  let user_to_sc_id := user_config ctx in
  if truthy reviewers
  then rs <- py_iter reviewers ;;
       ids <- resolve_users user_to_sc_id rs ;;
       labels_extend (dict_set d "follower_ids" (VList ids))
                     [label_named PIVOTAL_HAD_REVIEW_LABEL]
  else Ok d.

(** format table of all reviewers, types, and statuses as a comment on the
    imported story *)
Definition review_comment (reviewers : value) (d : dict) (comments : list value)
  : result (list value) :=
  if truthy reviewers
  then rs <- py_iter (py_get_default d "reviewers" (VList [])) ;;
       ts <- py_iter (py_get_default d "review_types" (VList [])) ;;
       ss <- py_iter (py_get_default d "review_states" (VList [])) ;;
       comment_text <- review_rows review_as_comment_text_prefix (zip3 rs ts ss) ;;
       Ok (comments ++
           [VDict [("author_id", py_get d "requested_by_id");
                   ("text", VStr comment_text)]])
  else Ok comments.

(** Custom Fields: process priority as Priority custom field *)
Definition process_priority (ctx : context) (d : dict) : result dict :=
  let pt_priority := py_get d "priority" in
  custom_fields <- (if truthy pt_priority
                    then value_id <- cfg_index (priority_config ctx) pt_priority ;;
                         Ok [VDict [("field_id", priority_custom_field_id ctx);
                                    ("value_id", value_id)]]
                    else Ok []) ;;
  match custom_fields with
  | [] => Ok d
  | _ => Ok (dict_set d "custom_fields" (VList custom_fields))
  end.

(** The iteration key of the row. *)
Definition iteration_key (pt_iteration_id : value) (d : dict) : result (option string) :=
  if truthy pt_iteration_id
  then start_date <- dict_index d "pt_iteration_start_date" ;;
       end_date <- dict_index d "pt_iteration_end_date" ;;
       key <- join_pipe [pt_iteration_id; start_date; end_date] ;;
       Ok (Some key)
  else Ok None.

(** as a last step, ensure comments (both those that were comments in
    Pivotal, and those we add during import to fill feature gaps) are all
    added to the d dict *)
Definition store_comments (comments : list value) (d : dict) : dict :=
  match comments with
  | [] => if dict_has d "comments" then dict_del d "comments" else d
  | _ => dict_set d "comments" (VList comments)
  end.

(** The branch [if type == "story":]: the row as mutated and the iteration
    key. *)
Definition build_story (ctx : context) (d : dict) (comments : list value)
           (pt_iteration_id : value) : result (dict * option string) :=
  (* assign to team/group *)
  let d := dict_set d "group_id" (group_id ctx) in
  d <- process_workflow_state ctx d ;;
  d <- process_tasks d ;;
  d <- process_requester ctx d ;;
  d <- process_owners ctx d ;;
  let reviewers := py_get d "reviewers" in
  d <- process_reviewers ctx reviewers d ;;
  comments <- review_comment reviewers d comments ;;
  d <- process_priority ctx d ;;
  iteration <- iteration_key pt_iteration_id d ;;
  Ok (store_comments comments d, iteration).

Definition build_entity (ctx : context) (d : dict) : result item :=
  (* ensure Shortcut entities have a Label that identifies this import *)
  d <- labels_extend d [label_named PIVOTAL_TO_SHORTCUT_LABEL;
                        label_named PIVOTAL_TO_SHORTCUT_RUN_LABEL] ;;
  (* reconcile entity types *)
  story_type <- dict_index d "story_type" ;;
  let type := if str_is story_type "epic" then "epic" else "story" in
  (* process comments *)
  cs <- py_iter (py_get_default d "comments" (VList [])) ;;
  comments <- rmap (build_comment ctx) cs ;;
  (* releases become Shortcut Stories of type "chore" *)
  d <- (if str_is story_type "release"
        then labels_extend (dict_set d "story_type" (VStr "chore"))
                           [label_named PIVOTAL_RELEASE_TYPE_LABEL]
        else Ok d) ;;
  let pt_iteration_id := py_get d "pt_iteration_id" in
  di <- (if String.eqb type "story"
         then build_story ctx d comments pt_iteration_id
         else
           (* the Team/Group assignment of an epic is a list *)
           Ok (dict_set d "group_ids"
                 (VList (match group_id ctx with VNone => [] | g => [g] end)),
               None)) ;;
  let '(d, iteration) := di in
  keys <- match select_keys type with
          | Some keys => Ok keys
          | None => Raise (KeyError (VStr type))
          end ;;
  Ok {| type_ := type;
        entity := project keys d;
        iteration := iteration;
        pt_iteration_id := pt_iteration_id;
        parsed_row := Some d;
        imported_entity := None;
        error_message := None |}.

(* ================================================================== *)
(** ** Linking stories to epics and iterations *)
(* ================================================================== *)

(** A loop whose body updates what it works on or raises: the value
    reached when it raises is kept. *)
Fixpoint loop {A S} (body : S -> A -> result S) (s : S) (xs : list A)
  : S * option exn :=
  match xs with
  | [] => (s, None)
  | x :: r =>
      match body s x with
      | Ok s' => loop body s' r
      | Raise e => (s, Some e)
      end
  end.

Definition hkey_eqb (a b : hkey) : bool :=
  match a, b with
  | KNone, KNone => true
  | KInt x, KInt y => Z.eqb x y
  | KStr x, KStr y => String.eqb x y
  | _, _ => false
  end.

(** A dict from label names to epic ids. *)
Definition epic_map := list (hkey * Z).

Fixpoint emap_get (m : epic_map) (k : hkey) : option Z :=
  match m with
  | [] => None
  | (k', v) :: r => if hkey_eqb k' k then Some v else emap_get r k
  end.

Fixpoint emap_set (m : epic_map) (k : hkey) (v : Z) : epic_map :=
  match m with
  | [] => [(k, v)]
  | (k', v') :: r =>
      if hkey_eqb k' k then (k, v) :: r else (k', v') :: emap_set r k v
  end.

(** [item["imported_entity"]] *)
Definition imported_of (it : item) : result created :=
  match imported_entity it with
  | Some c => Ok c
  | None => Raise (KeyError (VStr "imported_entity"))
  end.

(** The body of the inner loop of [collect_epic_label_mapping]. *)
Definition collect_label (epic : item) (epic_label_map : epic_map) (label : value)
  : result epic_map :=
  label_name <- py_index label "name" ;;
  if negb (is_const label_name PIVOTAL_TO_SHORTCUT_LABEL)
     && negb (is_const label_name PIVOTAL_TO_SHORTCUT_RUN_LABEL)
  then
    imported <- imported_of epic ;;
    k <- hash_key label_name ;;
    Ok (emap_set epic_label_map k (created_id imported))
  else Ok epic_label_map.

Definition collect_epic (epic_label_map : epic_map) (epic : item)
  : result epic_map :=
  labels <- dict_index (entity epic) "labels" ;;
  labels <- py_iter labels ;;
  match loop (collect_label epic) epic_label_map labels with
  | (m, None) => Ok m
  | (_, Some e) => Raise e
  end.

(** Return a dict mapping label names to Shortcut Epic ID. *)
Definition collect_epic_label_mapping (epics : list item) : result epic_map :=
  match loop collect_epic [] epics with
  | (m, None) => Ok m
  | (_, Some e) => Raise e
  end.

(** The body of the inner loop of [assign_stories_to_epics], on the entity
    of the story. *)
Definition assign_label (epic_label_map : epic_map) (story_entity : dict)
           (label : value) : result dict :=
  label_name <- py_index label "name" ;;
  k <- hash_key label_name ;;
  match emap_get epic_label_map k with
  | Some epic_id => Ok (dict_set story_entity "epic_id" (VInt epic_id))
  | None => Ok story_entity
  end.

(** The body of the outer loop: the entity of the story as it is mutated,
    and the exception if one is raised on the way. *)
Definition assign_story_to_epic (epic_label_map : epic_map) (story_entity : dict)
  : dict * option exn :=
  match py_iter (py_get_default story_entity "labels" (VList [])) with
  | Ok labels => loop (assign_label epic_label_map) story_entity labels
  | Raise e => (story_entity, Some e)
  end.

(** [str(v)] for the values an iteration id takes: a str is itself, an int
    is written in decimal. *)
Definition decimal (z : Z) : string := NilZero.string_of_int (Z.to_int z).

Variable repr_container : value -> string.

Definition py_str (v : value) : string :=
  match v with
  | VNone => "None"
  | VBool true => "True"
  | VBool false => "False"
  | VInt z => decimal z
  | VStr s => s
  | VConstStr c => const_chars c
  | VList _ | VDict _ => repr_container v
  end.

(** Return a dict mapping Pivotal iteration IDs to their corresponding
    Shortcut Iteration IDs: a later iteration with the same id replaces an
    earlier one. *)
Definition iteration_map := list (string * Z).

Fixpoint imap_get (m : iteration_map) (k : string) : option Z :=
  match m with
  | [] => None
  | (k', v) :: r => if String.eqb k' k then Some v else imap_get r k
  end.

Fixpoint imap_set (m : iteration_map) (k : string) (v : Z) : iteration_map :=
  match m with
  | [] => [(k, v)]
  | (k', v') :: r =>
      if String.eqb k' k then (k, v) :: r else (k', v') :: imap_set r k v
  end.

Definition collect_iteration (d : iteration_map) (iteration : item)
  : result iteration_map :=
  imported <- imported_of iteration ;;
  Ok (imap_set d (py_str (pt_iteration_id iteration)) (created_id imported)).

Definition collect_pt_iteration_mapping (iterations : list item)
  : result iteration_map :=
  match loop collect_iteration [] iterations with
  | (m, None) => Ok m
  | (_, Some e) => Raise e
  end.

(** The body of the loop of [assign_stories_to_iterations]: the lookup of
    the target iteration id of a story that has a source iteration id, and
    the assignment to the entity of the story. *)
Definition lookup_iteration (pt_iteration_mapping : iteration_map) (story : item)
  : result (option Z) :=
  let id := pt_iteration_id story in
  if truthy id then
    match imap_get pt_iteration_mapping (py_str id) with
    | Some sc_iteration_id => Ok (Some sc_iteration_id)
    | None => Raise (KeyError (VStr (py_str id)))
    end
  else Ok None.

Definition set_iteration_id (sc_iteration_id : option Z) (story : item) : item :=
  match sc_iteration_id with
  | Some id => with_entity story (dict_set (entity story) "iteration_id" (VInt id))
  | None => story
  end.

(** The entity of the story after the pass. *)
Definition assign_story_to_iteration (pt_iteration_mapping : iteration_map)
           (story : item) : result dict :=
  sc_iteration_id <- lookup_iteration pt_iteration_mapping story ;;
  Ok (entity (set_iteration_id sc_iteration_id story)).

(* ================================================================== *)
(** ** The state of a run *)
(* ================================================================== *)

(** A reference to an EntityRecord: its index in the heap. *)
Definition ref := nat.

(** The EntityCollector object, without its emitter and its dry-run flag,
    which never change and are parameters of its methods below.
    [iteration_strings] is a set: a list without duplicates. *)
Record EntityCollector := {
  stories : list ref;
  epics : list ref;
  files : list ref;
  iteration_strings : list string;
  iterations : list ref;
  labels : list ref
}.

(** A line of [shortcut_imported_entities_csv], the record of what was
    created: the header, or a type and an id (written in decimal). *)
Inductive line :=
| Header
| Row (ty : string) (id : Z).

(** A row of [data/failed_stories.csv]. *)
Record failed_story := {
  story_name : value;
  external_id : value;
  fs_error_message : string;
  story_payload : dict;
  fs_timestamp : string
}.

(** A file entity returned by an upload.  [file_key] is its entity type and
    id, when it has both. *)
Record uploaded := {
  file_key : option (string * Z);
  filename : string;
  url : string
}.

(** A failed upload, and a row of [data/failed_files.csv]. *)
Record failed_file := {
  ff_filename : string;
  ff_error : string;
  ff_story_id : option value;
  ff_timestamp : option string
}.

(** The state of the target system. *)
Variable B : Type.

(** [sc_post(path, entity)] on "/epics", "/iterations", "/labels" and
    "/stories"; [sc_post("/stories/bulk", {"stories": entities})];
    [sc_upload_files(paths)]. *)
Variable sc_post : string -> dict -> B -> result created * B.
Variable sc_post_bulk : list dict -> B -> result (list created) * B.
Variable sc_upload_files : list string -> B -> (list uploaded * list failed_file) * B.

(** The attachments on disk: [None] when [data/{pt_id}] is not a directory,
    else the dict [all_story_files] from file name to path. *)
Variable story_files : value -> option (list (string * string)).

(** [datetime.now()] as formatted for the remediation files. *)
Variable current_time : string.

(** The order in which a set of str is iterated. *)
Variable set_order : list string -> list string.

(** What the file system does of an attempt to write lines to a file: the
    file is opened and every line is written; [open] raises and the file is
    left as it is; or the file is opened and a write raises after [n]
    lines. *)
Inductive io_outcome :=
| io_ok
| io_open_fails
| io_write_fails (n : nat).

(** [imported_entities_csv], [failed_stories_csv] and [failed_files_csv]
    are the three files the importer writes (None: the file does not
    exist).  [io] holds the outcomes of the attempts to write a file that
    are to come, in order; when none is left an attempt succeeds. *)
Record state := {
  heap : list item;
  self : EntityCollector;
  backend : B;
  imported_entities_csv : list line;
  failed_stories_csv : option (list failed_story);
  failed_files_csv : option (list failed_file);
  mock_global_id : Z;
  io : list io_outcome
}.

Definition M (A : Type) := state -> result A * state.

Definition ret {A} (a : A) : M A := fun st => (Ok a, st).

Definition raise {A} (e : exn) : M A := fun st => (Raise e, st).

Definition bind {A C} (m : M A) (f : A -> M C) : M C :=
  fun st =>
    match m st with
    | (Ok a, st') => f a st'
    | (Raise e, st') => (Raise e, st')
    end.

Notation "x <-- e ;; k" := (bind e (fun x => k))
  (at level 61, e at next level, right associativity).
Notation "e ;;; k" := (bind e (fun _ => k))
  (at level 61, right associativity).

Definition lift {A} (r : result A) : M A := fun st => (r, st).

(** [try: m  except Exception as e: handler(e)] *)
Definition try_except {A} (m : M A) (handler : exn -> M A) : M A :=
  fun st =>
    match m st with
    | (Ok a, st') => (Ok a, st')
    | (Raise e, st') => handler e st'
    end.

Fixpoint for_each {A} (xs : list A) (body : A -> M unit) : M unit :=
  match xs with
  | [] => ret tt
  | x :: r => body x ;;; for_each r body
  end.

(** A loop that carries local variables. *)
Fixpoint fold_m {A S} (body : S -> A -> M S) (s : S) (xs : list A) : M S :=
  match xs with
  | [] => ret s
  | x :: r => s' <-- body s x ;; fold_m body s' r
  end.

Definition get_state : M state := fun st => (Ok st, st).

(** Reading and writing a record through a reference.  A reference handed
    out by [new_item] is never dangling. *)
Definition get_item (r : ref) : M item :=
  fun st =>
    match nth_error (heap st) r with
    | Some it => (Ok it, st)
    | None => (Raise (RuntimeError "dangling reference"), st)
    end.

Fixpoint list_set {A} (l : list A) (n : nat) (a : A) : list A :=
  match l, n with
  | [], _ => []
  | _ :: r, O => a :: r
  | x :: r, S n' => x :: list_set r n' a
  end.

Definition set_heap (st : state) (h : list item) : state :=
  {| heap := h; self := self st; backend := backend st;
     imported_entities_csv := imported_entities_csv st;
     failed_stories_csv := failed_stories_csv st;
     failed_files_csv := failed_files_csv st;
     mock_global_id := mock_global_id st; io := io st |}.

Definition set_self (st : state) (c : EntityCollector) : state :=
  {| heap := heap st; self := c; backend := backend st;
     imported_entities_csv := imported_entities_csv st;
     failed_stories_csv := failed_stories_csv st;
     failed_files_csv := failed_files_csv st;
     mock_global_id := mock_global_id st; io := io st |}.

Definition set_backend (st : state) (b : B) : state :=
  {| heap := heap st; self := self st; backend := b;
     imported_entities_csv := imported_entities_csv st;
     failed_stories_csv := failed_stories_csv st;
     failed_files_csv := failed_files_csv st;
     mock_global_id := mock_global_id st; io := io st |}.

Definition set_imported_entities_csv (st : state) (l : list line) : state :=
  {| heap := heap st; self := self st; backend := backend st;
     imported_entities_csv := l;
     failed_stories_csv := failed_stories_csv st;
     failed_files_csv := failed_files_csv st;
     mock_global_id := mock_global_id st; io := io st |}.

Definition set_failed_stories_csv (st : state) (f : option (list failed_story)) : state :=
  {| heap := heap st; self := self st; backend := backend st;
     imported_entities_csv := imported_entities_csv st;
     failed_stories_csv := f;
     failed_files_csv := failed_files_csv st;
     mock_global_id := mock_global_id st; io := io st |}.

Definition set_failed_files_csv (st : state) (f : option (list failed_file)) : state :=
  {| heap := heap st; self := self st; backend := backend st;
     imported_entities_csv := imported_entities_csv st;
     failed_stories_csv := failed_stories_csv st;
     failed_files_csv := f;
     mock_global_id := mock_global_id st; io := io st |}.

Definition set_mock_global_id (st : state) (n : Z) : state :=
  {| heap := heap st; self := self st; backend := backend st;
     imported_entities_csv := imported_entities_csv st;
     failed_stories_csv := failed_stories_csv st;
     failed_files_csv := failed_files_csv st;
     mock_global_id := n; io := io st |}.

Definition set_io (st : state) (l : list io_outcome) : state :=
  {| heap := heap st; self := self st; backend := backend st;
     imported_entities_csv := imported_entities_csv st;
     failed_stories_csv := failed_stories_csv st;
     failed_files_csv := failed_files_csv st;
     mock_global_id := mock_global_id st; io := l |}.

Definition put_item (r : ref) (it : item) : M unit :=
  fun st => (Ok tt, set_heap st (list_set (heap st) r it)).

(** An assignment to a key of the record behind [r]: the record is changed
    as it is at that moment. *)
Definition update_item (r : ref) (f : item -> item) : M unit :=
  it <-- get_item r ;;
  put_item r (f it).

Definition new_item (it : item) : M ref :=
  fun st => (Ok (length (heap st)), set_heap st (heap st ++ [it])).

Definition deref (rs : list ref) : M (list item) :=
  fold_m (fun acc r => it <-- get_item r ;; ret (acc ++ [it])) [] rs.

Definition get_self : M EntityCollector := fun st => (Ok (self st), st).

Definition put_self (c : EntityCollector) : M unit :=
  fun st => (Ok tt, set_self st c).

(** An assignment to an attribute of the collector. *)
Definition update_self (f : EntityCollector -> EntityCollector) : M unit :=
  c <-- get_self ;;
  put_self (f c).

(** A call of the target system. *)
Definition call {A} (f : B -> result A * B) : M A :=
  fun st => let (r, b) := f (backend st) in (r, set_backend st b).

(* ================================================================== *)
(** ** The files of a run *)
(* ================================================================== *)

Inductive mode := mode_w | mode_a.

(** The outcome of the attempt to write a file that comes now, and the
    state with the outcomes of the attempts after it. *)
Definition take_io (st : state) : io_outcome * state :=
  match io st with
  | [] => (io_ok, st)
  | o :: r => (o, set_io st r)
  end.

(** The lines of [lines] that reach the file: None when the file is not
    opened. *)
Definition io_lines {A} (o : io_outcome) (lines : list A) : option (list A) :=
  match o with
  | io_ok => Some lines
  | io_open_fails => None
  | io_write_fails n => Some (firstn n lines)
  end.

(** The rows to write before an entity without type or id stops the
    writing (the exception is caught and reported). *)
Fixpoint rows_written (entities : list (option (string * Z))) : list line :=
  match entities with
  | Some (ty, id) :: r => Row ty id :: rows_written r
  | _ => []
  end.

(** Write created entities to CSV file for future deletion.  [entities]
    holds the type and id of each entity.  Mode 'w' empties the file when
    it is opened and writes the header first; whatever is raised, by the
    file system or by an entity, is caught and reported. *)
Definition write_to_imported_entities_csv
           (entities : list (option (string * Z))) (m : mode) : M unit :=
  match entities with
  | [] => ret tt
  | _ => fun st =>
      let (o, st) := take_io st in
      (Ok tt,
       match io_lines o ((match m with mode_w => [Header] | mode_a => [] end)
                         ++ rows_written entities) with
       | Some lines =>
           set_imported_entities_csv st
             ((match m with
               | mode_w => []
               | mode_a => imported_entities_csv st
               end) ++ lines)
       | None => st
       end)
  end.

Definition created_key (c : created) : option (string * Z) :=
  Some (entity_type c, created_id c).

Definition failed_story_row (story : item) : failed_story :=
  {| story_name := py_get_default (entity story) "name" (VStr "Unknown");
     external_id := py_get_default (entity story) "external_id" (VStr "Unknown");
     fs_error_message := match error_message story with
                         | Some msg => msg
                         | None => "Unknown error"
                         end;
     story_payload := entity story;
     fs_timestamp := current_time |}.

(** The rows of [rows] that reach a file opened for appending, whose
    header is written first when the file is new: None when the file is not
    opened. *)
Definition io_rows {A} (o : io_outcome) (file_exists : bool) (rows : list A)
  : option (list A) :=
  match o with
  | io_ok => Some rows
  | io_open_fails => None
  | io_write_fails n => Some (firstn (n - (if file_exists then 0 else 1)) rows)
  end.

(** Write failed story creation attempts to CSV, appending to existing
    file.  An IOError is caught and reported. *)
Definition write_failed_stories (failed_stories : list ref) : M unit :=
  match failed_stories with
  | [] => ret tt
  | _ =>
      items <-- deref failed_stories ;;
      fun st =>
        let (o, st) := take_io st in
        (Ok tt,
         match io_rows o (match failed_stories_csv st with
                          | Some _ => true
                          | None => false
                          end)
                       (map failed_story_row items) with
         | Some rows =>
             set_failed_stories_csv st
               (Some (match failed_stories_csv st with
                      | Some old => old
                      | None => []
                      end ++ rows))
         | None => st
         end)
  end.

Definition with_timestamp (f : failed_file) : failed_file :=
  {| ff_filename := ff_filename f; ff_error := ff_error f;
     ff_story_id := ff_story_id f; ff_timestamp := Some current_time |}.

Definition with_story_id (pt_id : value) (f : failed_file) : failed_file :=
  {| ff_filename := ff_filename f; ff_error := ff_error f;
     ff_story_id := Some pt_id; ff_timestamp := ff_timestamp f |}.

(** Write failed file uploads to CSV, appending to existing file.  An
    IOError is caught and reported. *)
Definition write_failed_files_csv (failed_files : list failed_file) : M unit :=
  match failed_files with
  | [] => ret tt
  | _ => fun st =>
      let (o, st) := take_io st in
      (Ok tt,
       match io_rows o (match failed_files_csv st with
                        | Some _ => true
                        | None => false
                        end)
                     (map with_timestamp failed_files) with
       | Some rows =>
           set_failed_files_csv st
             (Some (match failed_files_csv st with
                    | Some old => old
                    | None => []
                    end ++ rows))
       | None => st
       end)
  end.

(* ================================================================== *)
(** ** File attachments *)
(* ================================================================== *)

Fixpoint basename_from (acc : string) (path : string) : string :=
  match path with
  | EmptyString => acc
  | String c r =>
      if Ascii.eqb c "/"%char then basename_from EmptyString r
      else basename_from (acc ++ String c EmptyString)%string r
  end.

Definition basename (path : string) : string := basename_from EmptyString path.

Fixpoint assoc_get (m : list (string * string)) (k : string) : option string :=
  match m with
  | [] => None
  | (k', v) :: r => if String.eqb k' k then Some v else assoc_get r k
  end.

(** [[all_story_files[a['filename']] for a in comment_attachments
      if a['filename'] in all_story_files]] *)
Fixpoint attachment_paths (all_story_files : list (string * string))
         (comment_attachments : list value) : result (list string) :=
  match comment_attachments with
  | [] => Ok []
  | attachment :: r =>
      name <- py_index attachment "filename" ;;
      k <- hash_key name ;;
      match (match k with KStr s => assoc_get all_story_files s | _ => None end) with
      | Some path => paths <- attachment_paths all_story_files r ;; Ok (path :: paths)
      | None => attachment_paths all_story_files r
      end
  end.

(** [s.startswith(prefix)] *)
Fixpoint startswith (s prefix : string) : bool :=
  match prefix, s with
  | EmptyString, _ => true
  | String p pr, String c r => Ascii.eqb c p && startswith r pr
  | String _ _, EmptyString => false
  end.

(** The Markdown link of each uploaded file. *)
Fixpoint attachment_strings (successful_files : list uploaded)
         (comment_attachments : list value) : result (list string) :=
  match successful_files, comment_attachments with
  | file_entity :: fr, attachment :: ar =>
      content_type <- py_index attachment "content_type" ;;
      match str_chars content_type with
      | Some ct =>
          let is_image := startswith ct "image/" in
          let attachment_string :=
            ((if is_image then "!" else "") ++ "[" ++ filename file_entity ++ "]("
             ++ url file_entity ++ ")")%string in
          rest <- attachment_strings fr ar ;;
          Ok (attachment_string :: rest)
      | None => Raise AttributeError
      end
  | _, _ => Ok []
  end.

(** [text += s] for a str [s]. *)
Definition iadd_str (text : value) (s : string) : result value :=
  match text with
  | VStr t => Ok (VStr (t ++ s))
  | VConstStr c => Ok (VStr (const_chars c ++ s))
  | VList l => Ok (VList (l ++ string_chars s))
  | _ => Raise TypeError
  end%string.

(** The comment at index [i] of the story, as the object the loop works
    on: a change of the comment is a change of the entity. *)
Definition with_comment (i : nat) (comment : value) (it : item) : item :=
  match dict_get (entity it) "comments" with
  | Some (VList cs) => with_comments it (list_set cs i comment)
  | _ => it
  end.

Definition set_comment (story : ref) (i : nat) (comment : value) : M unit :=
  update_item story (with_comment i comment).

Definition mock_upload (path : string) : uploaded :=
  {| file_key := None;
     filename := basename path;
     url := ("https://mock-url/" ++ basename path)%string |}.

(** One pass of the loop over the comments of a story: whether the loop
    breaks with the story failed, and the failed files so far. *)
Definition process_comment (is_dry_run : bool) (story : ref) (pt_id : value)
           (all_story_files : list (string * string)) (i : nat) (comment : value)
           (all_failed_files : list failed_file) : M (bool * list failed_file) :=
  match comment with
  | VDict c =>
      let comment_attachments := py_get_default c "attachments" (VList []) in
      let c := dict_del c "attachments" in
      set_comment story i (VDict c) ;;;
      if negb (truthy comment_attachments) then ret (false, all_failed_files)
      else
        atts <-- lift (py_iter comment_attachments) ;;
        comment_file_paths <-- lift (attachment_paths all_story_files atts) ;;
        match comment_file_paths with
        | [] => ret (false, all_failed_files)
        | _ =>
            up <-- (if is_dry_run
                    then ret (map mock_upload comment_file_paths, [])
                    else
                      up <-- call (fun b =>
                                     let (r, b') := sc_upload_files comment_file_paths b in
                                     (Ok r, b')) ;;
                      (* Write successful files to CSV immediately after upload *)
                      write_to_imported_entities_csv (map file_key (fst up)) mode_a ;;;
                      ret up) ;;
            let '(successful_files, failed_files) := up in
            match failed_files with
            | _ :: _ =>
                (* If any files failed to upload, mark the story as failed *)
                let failed_files := map (with_story_id pt_id) failed_files in
                update_item story
                  (fun it =>
                     with_error_message it
                       ("Failed to upload files: "
                        ++ String.concat ", " (map ff_filename failed_files))%string) ;;;
                ret (true, all_failed_files ++ failed_files)
            | [] =>
                file_attachment_strings <--
                  lift (attachment_strings successful_files atts) ;;
                match file_attachment_strings with
                | [] => ret (false, all_failed_files)
                | _ =>
                    text <-- lift (dict_index c "text") ;;
                    text <-- lift (iadd_str text
                                     (nl ++ nl ++ String.concat nl file_attachment_strings
                                      ++ nl)%string) ;;
                    set_comment story i (VDict (dict_set c "text" text)) ;;;
                    ret (false, all_failed_files)
                end
            end
        end
  | VList _ => raise TypeError
  | _ => raise AttributeError
  end.

Fixpoint process_comments (is_dry_run : bool) (story : ref) (pt_id : value)
         (all_story_files : list (string * string)) (i : nat)
         (comments : list value) (all_failed_files : list failed_file)
  : M (bool * list failed_file) :=
  match comments with
  | [] => ret (false, all_failed_files)
  | comment :: rest =>
      r <-- process_comment is_dry_run story pt_id all_story_files i comment
              all_failed_files ;;
      if fst r then ret r
      else process_comments is_dry_run story pt_id all_story_files (S i) rest (snd r)
  end.

(** One pass of the loop over the stories of the batch, on the local
    variables [successful_stories], [failed_stories], [all_failed_files]. *)
Definition process_story_files (is_dry_run : bool)
           (acc : list ref * list ref * list failed_file) (story : ref)
  : M (list ref * list ref * list failed_file) :=
  let '(successful_stories, failed_stories, all_failed_files) := acc in
  it <-- get_item story ;;
  pt_id <-- lift (dict_index (entity it) "external_id") ;;
  match story_files pt_id with
  | None => ret (successful_stories ++ [story], failed_stories, all_failed_files)
  | Some all_story_files =>
      comments <-- lift (py_iter (py_get_default (entity it) "comments" (VList []))) ;;
      r <-- process_comments is_dry_run story pt_id all_story_files 0 comments
              all_failed_files ;;
      if fst r
      then ret (successful_stories, failed_stories ++ [story], snd r)
      else ret (successful_stories ++ [story], failed_stories, snd r)
  end.

(** Process file attachments for a batch of stories; returns the stories
    that were successfully processed (all files uploaded). *)
Definition process_files_for_stories (stories_batch : list ref) (is_dry_run : bool)
  : M (list ref) :=
  r <-- fold_m (process_story_files is_dry_run) ([], [], []) stories_batch ;;
  let '(successful_stories, failed_stories, all_failed_files) := r in
  (if is_dry_run then ret tt
   else write_failed_files_csv all_failed_files ;;;
        write_failed_stories failed_stories) ;;;
  ret successful_stories.

(** [comment.pop("attachments", None)] *)
Definition pop_attachments (comment : value) : result value :=
  match comment with
  | VDict c => Ok (VDict (dict_del c "attachments"))
  | VList _ => Raise TypeError
  | _ => Raise AttributeError
  end.

(** A loop that mutates the elements of a list one after the other. *)
Fixpoint mutate_each {A} (body : A -> result A) (xs : list A)
  : list A * option exn :=
  match xs with
  | [] => ([], None)
  | x :: r =>
      match body x with
      | Ok x' => let (r', e) := mutate_each body r in (x' :: r', e)
      | Raise e => (x :: r, Some e)
      end
  end.

Definition clean_story (story : ref) : M ref :=
  it <-- get_item story ;;
  match dict_get (entity it) "comments" with
  | None => ret story
  | Some (VList cs) =>
      let (cs', e) := mutate_each pop_attachments cs in
      update_item story (fun it => with_comments it cs') ;;;
      match e with
      | Some e => raise e
      | None => ret story
      end
  | Some v =>
      (* the elements of a str or the keys of a dict have no [pop] *)
      xs <-- lift (py_iter v) ;;
      match xs with
      | [] => ret story
      | _ => raise AttributeError
      end
  end.

(* ================================================================== *)
(** ** The creation backends *)
(* ================================================================== *)

(** The batch size when running in batch mode *)
Definition BATCH_SIZE : nat := 100.

(** [str(e)] for an exception. *)
Variable exn_str : exn -> string.

(** [story["imported_entity"] = created] *)
Definition set_imported (p : created * ref) : M unit :=
  update_item (snd p) (fun it => with_imported_entity it (fst p)).

(** The bulk creation with its fallback to one story at a time.  Nothing
    in the importer calls it. *)
Definition create_stories (stories : list ref) : M (list ref) :=
  r <-- try_except
          (items <-- deref stories ;;
           let entities := map entity items in
           created_entities <-- call (sc_post_bulk entities) ;;
           (* Match created entities with original stories *)
           for_each (combine created_entities stories) set_imported ;;;
           ret (map snd (combine created_entities stories), []))
          (fun e =>
             (* If bulk creation fails, try creating stories one by one *)
             fold_m (fun acc story =>
                       let '(successful_stories, failed_stories) := acc in
                       it <-- get_item story ;;
                       try_except
                         (created <-- call (sc_post "/stories" (entity it)) ;;
                          set_imported (created, story) ;;;
                          ret (successful_stories ++ [story], failed_stories))
                         (fun story_error =>
                            update_item story
                              (fun it => with_error_message it (exn_str story_error)) ;;;
                            ret (successful_stories, failed_stories ++ [story])))
                    ([], []) stories) ;;
  let '(successful_stories, failed_stories) := r in
  (* Write failed stories to CSV *)
  write_failed_stories failed_stories ;;;
  ret successful_stories.

(** The dry run: [_get_next_id] and [mock_emitter]. *)
Definition _get_next_id : M Z :=
  fun st => (Ok (mock_global_id st), set_mock_global_id st (mock_global_id st + 1)%Z).

Definition mock_emit (item : ref) : M unit :=
  entity_id <-- _get_next_id ;;
  it <-- get_item item ;;
  let created_entity :=
    {| created_id := entity_id;
       entity_type := type_ it;
       app_url := ("https://example.com/entity/" ++ decimal entity_id)%string;
       payload := entity it |} in
  set_imported (created_entity, item) ;;;
  (* the progress line formats item["entity"]["name"] *)
  _ <-- lift (dict_index (entity it) "name") ;;
  ret tt.

Definition mock_emitter (items : list ref) : M (list ref) :=
  for_each items mock_emit ;;;
  ret items.

(** The nested function [process_batch] of [sc_creator], on the local
    variables [batch_stories] and [all_successful_items] of its closure. *)
Definition process_batch (batch_stories : list ref) (all_successful_items : list ref)
  : M (list ref) :=
  match batch_stories with
  | [] => ret all_successful_items
  | _ =>
      (* First process all files for this batch *)
      processed_stories <-- process_files_for_stories batch_stories false ;;
      (* Clean all stories to remove 'attachments' property from comments *)
      processed_stories <--
        fold_m (fun acc story => story <-- clean_story story ;; ret (acc ++ [story]))
               [] processed_stories ;;
      (* Then create the stories using bulk API *)
      try_except
        (items <-- deref processed_stories ;;
         let entities := map entity items in
         created_entities <-- call (sc_post_bulk entities) ;;
         (* Update stories with created entities *)
         for_each (combine created_entities processed_stories) set_imported ;;;
         (* Write successful stories to CSV *)
         write_to_imported_entities_csv (map created_key created_entities) mode_a ;;;
         ret (all_successful_items
              ++ map snd (combine created_entities processed_stories)))
        (fun e =>
           write_failed_stories processed_stories ;;;
           ret all_successful_items)
  end.

(** One pass of the first loop of [sc_creator]: the items that are not
    stories. *)
Definition create_non_story (all_successful_items : list ref) (item : ref)
  : M (list ref) :=
  it <-- get_item item ;;
  if String.eqb (type_ it) "story" then ret all_successful_items
  else
    try_except
      (res <-- (if String.eqb (type_ it) "epic"
                then call (sc_post "/epics" (entity it))
                else if String.eqb (type_ it) "iteration"
                then call (sc_post "/iterations" (entity it))
                else if String.eqb (type_ it) "label"
                then call (sc_post "/labels" (entity it))
                else raise (RuntimeError ("Unknown entity type " ++ type_ it)%string)) ;;
       set_imported (res, item) ;;;
       write_to_imported_entities_csv [created_key res] mode_a ;;;
       ret (all_successful_items ++ [item]))
      (fun e =>
         (* the handler calls write_failed_stories with two arguments; the
            function takes one *)
         raise TypeError).

(** One pass of the second loop: the stories, in batches. *)
Definition batch_story (acc : list ref * list ref) (item : ref)
  : M (list ref * list ref) :=
  let '(batch_stories, all_successful_items) := acc in
  it <-- get_item item ;;
  if String.eqb (type_ it) "story" then
    let batch_stories := batch_stories ++ [item] in
    if Nat.leb BATCH_SIZE (length batch_stories) then
      all_successful_items <-- process_batch batch_stories all_successful_items ;;
      ret ([], all_successful_items)
    else ret (batch_stories, all_successful_items)
  else ret acc.

(** Creates entities in Shortcut via API calls. *)
Definition sc_creator (items : list ref) : M (list ref) :=
  (* Initialize CSV file *)
  write_to_imported_entities_csv [] mode_w ;;;
  (* Process non-story items first *)
  all_successful_items <-- fold_m create_non_story [] items ;;
  (* Process stories in batches *)
  r <-- fold_m batch_story ([], all_successful_items) items ;;
  (* Process remaining stories *)
  process_batch (fst r) (snd r).

(* ================================================================== *)
(** ** The EntityCollector *)
(* ================================================================== *)

Definition set_add {A} (eqb : A -> A -> bool) (s : list A) (x : A) : list A :=
  if existsb (eqb x) s then s else s ++ [x].

Definition set_update {A} (eqb : A -> A -> bool) (s : list A) (xs : list A) : list A :=
  fold_left (set_add eqb) xs s.

Definition key_eqb (a b : string * Z) : bool :=
  String.eqb (fst a) (fst b) && Z.eqb (snd a) (snd b).

Definition with_stories (c : EntityCollector) (l : list ref) (its : list string) :=
  {| stories := l; epics := epics c; files := files c; iteration_strings := its;
     iterations := iterations c; labels := labels c |}.

Definition with_epics (c : EntityCollector) (l : list ref) :=
  {| stories := stories c; epics := l; files := files c;
     iteration_strings := iteration_strings c;
     iterations := iterations c; labels := labels c |}.

Definition with_iterations (c : EntityCollector) (l : list ref) :=
  {| stories := stories c; epics := epics c; files := files c;
     iteration_strings := iteration_strings c;
     iterations := l; labels := labels c |}.

Definition with_labels (c : EntityCollector) (l : list ref) :=
  {| stories := stories c; epics := epics c; files := files c;
     iteration_strings := iteration_strings c;
     iterations := iterations c; labels := l |}.

(** [EntityCollector.collect]; the dict [{item["type"]: 1}] it returns is
    the pair of its key and its value. *)
Definition collect (item : ref) : M (string * nat) :=
  it <-- get_item item ;;
  (if String.eqb (type_ it) "story" then
     update_self
       (fun c => with_stories c (stories c ++ [item])
                   (match iteration it with
                    | Some key =>
                        if String.eqb key "" then iteration_strings c
                        else set_add String.eqb (iteration_strings c) key
                    | None => iteration_strings c
                    end))
   else if String.eqb (type_ it) "epic" then
     update_self (fun c => with_epics c (epics c ++ [item]))
   else if String.eqb (type_ it) "label" then
     update_self (fun c => with_labels c (labels c ++ [item]))
   else raise (RuntimeError ("Unknown entity type " ++ type_ it)%string)) ;;;
  ret (type_ it, 1).

(** Mutate the [stories] to set an epic_id if that story is assigned to
    that epic. *)
Definition assign_stories_to_epics (stories epics : list ref) : M (list ref) :=
  epics <-- deref epics ;;
  epic_label_map <-- lift (collect_epic_label_mapping epics) ;;
  for_each stories
    (fun story =>
       it <-- get_item story ;;
       let raised := snd (assign_story_to_epic epic_label_map (entity it)) in
       update_item story
         (fun it => with_entity it (fst (assign_story_to_epic epic_label_map (entity it)))) ;;;
       match raised with
       | Some ex => raise ex
       | None => ret tt
       end) ;;;
  ret stories.

(** Mutate the [stories] to set an iteration_id if that story is assigned
    to that iteration. *)
Definition assign_stories_to_iterations (stories iterations : list ref)
  : M (list ref) :=
  iterations <-- deref iterations ;;
  pt_iteration_mapping <-- lift (collect_pt_iteration_mapping iterations) ;;
  for_each stories
    (fun story =>
       it <-- get_item story ;;
       sc_iteration_id <-- lift (lookup_iteration pt_iteration_mapping it) ;;
       update_item story (set_iteration_id sc_iteration_id)) ;;;
  ret stories.

(** [s.split("|")] *)
Fixpoint split_pipe_from (acc : string) (s : string) : list string :=
  match s with
  | EmptyString => [acc]
  | String c r =>
      if Ascii.eqb c "|"%char then acc :: split_pipe_from EmptyString r
      else split_pipe_from (acc ++ String c EmptyString)%string r
  end.

Definition split_pipe (s : string) : list string := split_pipe_from EmptyString s.

(** The iteration to create for an iteration key. *)
Definition iteration_entity (iteration_string : string) : result item :=
  match split_pipe iteration_string with
  | [id; start_date; end_date] =>
      Ok {| type_ := "iteration";
            entity := [("name", VStr ("PT " ++ id)%string);
                       ("start_date", VStr start_date);
                       ("end_date", VStr end_date)];
            iteration := None;
            pt_iteration_id := VStr id;
            parsed_row := None;
            imported_entity := None;
            error_message := None |}
  | _ => Raise ValueError
  end.

Fixpoint chunks_from {A} (fuel n : nat) (l : list A) : list (list A) :=
  match fuel with
  | O => []
  | S fuel' =>
      match l with
      | [] => []
      | _ => firstn n l :: chunks_from fuel' n (skipn n l)
      end
  end.

(** [[l[i:i + n] for i in range(0, len(l), n)]] *)
Definition chunks {A} (n : nat) (l : list A) : list (list A) :=
  chunks_from (length l) n l.

(** The local variables of [commit]. *)
Record commit_locals := {
  created_entities : list created;
  written_entities : list (string * Z)
}.

Section Collector.

(** The emitter and the dry-run flag the collector was made with. *)
Variable emitter : list ref -> M (list ref).
Variable is_dry_run : bool.

(** Process a batch of stories including their file attachments. *)
Definition process_story_batch (batch : list ref) : M (list ref) :=
  (* First process all files for this batch *)
  processed_stories <-- process_files_for_stories batch is_dry_run ;;
  (* Then create the stories using bulk API *)
  try_except
    (emitter processed_stories)
    (fun e => write_failed_stories processed_stories ;;; ret []).

(** [[x["imported_entity"] for x in xs]] *)
Definition imported_entities (xs : list ref) : M (list created) :=
  items <-- deref xs ;;
  lift (rmap imported_of items).

(** Create all the default labels *)
Definition commit_labels (l : commit_locals) : M commit_locals :=
  c <-- get_self ;;
  new_labels <-- emitter (labels c) ;;
  update_self (fun c => with_labels c new_labels) ;;;
  written <-- (if is_dry_run then ret (written_entities l)
               else
                 label_entities <-- imported_entities new_labels ;;
                 (* Initialize file with labels *)
                 write_to_imported_entities_csv (map created_key label_entities) mode_w ;;;
                 ret (set_update key_eqb (written_entities l)
                        (map (fun e => ("label", created_id e)) label_entities))) ;;
  created <-- imported_entities new_labels ;;
  items <-- deref new_labels ;;
  for_each items
    (fun label =>
       name <-- lift (dict_index (entity label) "name") ;;
       if str_is name (const_chars PIVOTAL_TO_SHORTCUT_RUN_LABEL)
       then (* the progress line shows label["imported_entity"]["app_url"] *)
            _ <-- lift (imported_of label) ;; ret tt
       else ret tt) ;;;
  ret {| created_entities := created_entities l ++ created;
         written_entities := written |}.

(** [[e for e in entities if (type, e['id']) not in written_entities]] *)
Definition not_written (type : string) (written : list (string * Z))
           (entities : list created) : list created :=
  filter (fun e => negb (existsb (key_eqb (type, created_id e)) written)) entities.

(** Create all the epics *)
Definition commit_epics (l : commit_locals) : M commit_locals :=
  c <-- get_self ;;
  new_epics_list <-- emitter (epics c) ;;
  update_self (fun c => with_epics c new_epics_list) ;;;
  written <-- (if is_dry_run then ret (written_entities l)
               else
                 epic_entities <-- imported_entities new_epics_list ;;
                 let new_epics := not_written "epic" (written_entities l) epic_entities in
                 (* Append epics *)
                 write_to_imported_entities_csv (map created_key new_epics) mode_a ;;;
                 ret (set_update key_eqb (written_entities l)
                        (map (fun e => ("epic", created_id e)) new_epics))) ;;
  created <-- imported_entities new_epics_list ;;
  ret {| created_entities := created_entities l ++ created;
         written_entities := written |}.

(** Create all iterations *)
Definition commit_iterations (l : commit_locals) : M commit_locals :=
  c <-- get_self ;;
  iteration_entities <--
    fold_m (fun acc iteration_string =>
              it <-- lift (iteration_entity iteration_string) ;;
              r <-- new_item it ;;
              ret (acc ++ [r]))
           [] (set_order (iteration_strings c)) ;;
  new_iterations_list <-- emitter iteration_entities ;;
  update_self (fun c => with_iterations c new_iterations_list) ;;;
  written <-- (if is_dry_run then ret (written_entities l)
               else
                 iteration_entities <-- imported_entities new_iterations_list ;;
                 let new_iterations :=
                   not_written "iteration" (written_entities l) iteration_entities in
                 write_to_imported_entities_csv (map created_key new_iterations) mode_a ;;;
                 ret (set_update key_eqb (written_entities l)
                        (map (fun e => ("iteration", created_id e)) new_iterations))) ;;
  created <-- imported_entities new_iterations_list ;;
  ret {| created_entities := created_entities l ++ created;
         written_entities := written |}.

(** One pass of the loop over the batches of stories. *)
Definition commit_story_batch (l : commit_locals) (batch : list ref)
  : M commit_locals :=
  c <-- get_self ;;
  (* Link epics and iterations before processing *)
  _ <-- assign_stories_to_epics batch (epics c) ;;
  _ <-- assign_stories_to_iterations batch (iterations c) ;;
  (* Process the batch *)
  created_batch <-- process_story_batch batch ;;
  if negb is_dry_run then
    (* Write successful stories to CSV immediately *)
    created <-- imported_entities created_batch ;;
    let r := fold_left
               (fun acc e =>
                  if existsb (key_eqb ("story", created_id e)) (snd acc) then acc
                  else (fst acc ++ [e], snd acc ++ [("story", created_id e)]))
               created ([], written_entities l) in
    let new_stories := fst r in
    write_to_imported_entities_csv (map created_key new_stories) mode_a ;;;
    ret {| created_entities := created_entities l ++ new_stories;
           written_entities := snd r |}
  else
    (* In dry run, just add to created_entities without writing to CSV *)
    created <-- imported_entities created_batch ;;
    ret {| created_entities := created_entities l ++ created;
           written_entities := written_entities l |}.

(** Process stories in batches *)
Definition commit_stories (l : commit_locals) : M commit_locals :=
  c <-- get_self ;;
  fold_m commit_story_batch l (chunks BATCH_SIZE (stories c)).

Definition commit : M (list created) :=
  l <-- commit_labels {| created_entities := []; written_entities := [] |} ;;
  l <-- commit_epics l ;;
  l <-- commit_iterations l ;;
  l <-- commit_stories l ;;
  ret (created_entities l).

End Collector.

(* ================================================================== *)
(** ** The export *)
(* ================================================================== *)

(** A row of the query of [add_attached_files_in_comments]: the id and the
    text of a comment, the name and the content type of one of its files
    (None when it has none). *)
Record db_row := {
  db_id : Z;
  db_text : value;
  db_filename : value;
  db_content_type : value
}.

(** [processed_comments]: the comments by id in the order their ids come
    first, each with its text and its attachments. *)
Definition processed := list (Z * (value * list value)).

Fixpoint add_attachment (p : processed) (id : Z) (a : value) : processed :=
  match p with
  | [] => []
  | (id', (text, atts)) :: r =>
      if Z.eqb id' id then (id', (text, atts ++ [a])) :: r
      else (id', (text, atts)) :: add_attachment r id a
  end.

(** The body of the loop over [db_comments]. *)
Definition group_comment (p : processed) (comment : db_row) : processed :=
  let comment_id := db_id comment in
  let p := if existsb (Z.eqb comment_id) (map fst p) then p
           else p ++ [(comment_id,
                       (if truthy (db_text comment) then db_text comment else VStr "",
                        []))] in
  if truthy (db_filename comment)
  then add_attachment p comment_id
         (VDict [("filename", db_filename comment);
                 ("content_type", db_content_type comment)])
  else p.

Definition processed_values (p : processed) : list value :=
  map (fun e => VDict [("id", VInt (fst e)); ("text", fst (snd e));
                       ("attachments", VList (snd (snd e)))]) p.

(** The loop over [enumerate(row_info['comments'])]: the comment at index
    [i] takes the text and the attachments of the processed comment at
    index [i]. *)
Fixpoint attach_each (db_comments : list (value * list value)) (comments : list value)
  : result (list value) :=
  match comments with
  | [] => Ok []
  | comment :: rest =>
      match db_comments with
      | [] => Raise IndexError
      | (text, atts) :: db_rest =>
          match comment with
          | VDict c =>
              rest' <- attach_each db_rest rest ;;
              Ok (VDict (dict_set (dict_set c "text" text)
                                  "attachments" (VList atts)) :: rest')
          | _ => Raise TypeError
          end
      end
  end.

(** [connected]: whether [sqlite3.connect] returns; [query external_id]:
    the rows fetched for a story, None when the query raises an error of
    the database. *)
Definition add_attached_files_in_comments
           (connected : bool) (query : value -> option (list db_row))
           (row_info : dict) : result dict :=
  if negb connected then
    (* the handler reports the error, then [finally] reads [conn] *)
    Raise UnboundLocalError
  else if dict_has row_info "external_id" && dict_has row_info "comments" then
    match query (py_get row_info "external_id") with
    | None => Ok row_info
    | Some db_comments =>
        let p := fold_left group_comment db_comments [] in
        let row_info := dict_set row_info "db_comments" (VList (processed_values p)) in
        let comments := py_get row_info "comments" in
        cs <- py_iter comments ;;
        cs' <- attach_each (map snd p) cs ;;
        Ok (match comments with
            | VList _ => dict_set row_info "comments" (VList cs')
            | _ => row_info
            end)
    end
  else Ok row_info.

(** [parse_row(row, header)], of [lib.py], and [str.lower]. *)
Variable parse_row : list string -> list string -> result dict.
Variable str_lower : string -> string.

(** The database [pivotal_dump.db] as the lookup made for the row at index
    [i] of the export finds it. *)
Record database := {
  connects : bool;
  query : value -> option (list db_row)
}.

Variable pivotal_dump : nat -> database.

(** One pass of the loop of [process_pt_csv_export], on the row at index
    [i] after the header. *)
Definition export_row (ctx : context) (header : list string)
           (indexed_row : nat * list string) : M unit :=
  let (i, row) := indexed_row in
  row_info <-- lift (parse_row row header) ;;
  row_info <-- lift (add_attached_files_in_comments
                      (connects (pivotal_dump i)) (query (pivotal_dump i)) row_info) ;;
  entity <-- lift (build_entity ctx row_info) ;;
  r <-- new_item entity ;;
  _ <-- collect r ;;
  ret tt.

(** [process_pt_csv_export].  [lines] are the lines [csv.reader] reads of
    the export, the header first, and [stop] is the exception that ends the
    reading, if one does (when the file cannot be opened no line is read).
    The run label is collected first, then the record built from each
    row. *)
Definition process_pt_csv_export (ctx : context) (lines : list (list string))
           (stop : option exn) : M unit :=
  label <-- new_item build_run_label_entity ;;
  _ <-- collect label ;;
  match lines with
  | [] =>
      (* [next(reader)] on a file without a line *)
      raise (match stop with Some e => e | None => StopIteration end)
  | header :: rows =>
      let header := map str_lower header in
      for_each (combine (seq 0 (length rows)) rows) (export_row ctx header) ;;;
      match stop with
      | Some e => raise e
      | None => ret tt
      end
  end.

(* ================================================================== *)
(** ** Properties of dicts *)
(* ================================================================== *)

(** Drops the parameters of the run a proof does not speak of. *)
Ltac forget_run :=
  try clear pivotal_dump; try clear str_lower; try clear parse_row;
  try clear exn_str; try clear set_order; try clear current_time;
  try clear story_files; try clear sc_upload_files; try clear sc_post_bulk;
  try clear sc_post; try clear B; try clear repr_container;
  try clear current_datetime.

Lemma dict_get_set_same (d : dict) k v : dict_get (dict_set d k v) k = Some v.
Proof.
  induction d as [|[k' v'] d IH]; simpl.
  - now rewrite String.eqb_refl.
  - destruct (String.eqb k' k) eqn:E; simpl.
    + now rewrite String.eqb_refl.
    + now rewrite E.
Qed.

Lemma dict_get_set_other (d : dict) k k' v :
  k <> k' -> dict_get (dict_set d k v) k' = dict_get d k'.
Proof.
  intros Hne. apply String.eqb_neq in Hne.
  induction d as [|[k0 v0] d IH]; simpl.
  - now rewrite Hne.
  - destruct (String.eqb k0 k) eqn:E; simpl.
    + apply String.eqb_eq in E. subst k0. now rewrite Hne.
    + now rewrite IH.
Qed.

Lemma dict_get_del_other (d : dict) k k' :
  k <> k' -> dict_get (dict_del d k) k' = dict_get d k'.
Proof.
  intros Hne. apply String.eqb_neq in Hne.
  induction d as [|[k0 v0] d IH]; simpl; [reflexivity|].
  destruct (String.eqb k0 k) eqn:E; simpl.
  - apply String.eqb_eq in E. subst k0. now rewrite Hne.
  - now rewrite IH.
Qed.

Lemma dict_get_In_keys (d : dict) k v : dict_get d k = Some v -> In k (dict_keys d).
Proof.
  induction d as [|[k0 v0] d IH]; simpl; [discriminate|].
  destruct (String.eqb k0 k) eqn:E.
  - apply String.eqb_eq in E. now left.
  - intros H. right. now apply IH.
Qed.

Lemma dict_keys_set (d : dict) k v x :
  In x (dict_keys (dict_set d k v)) -> x = k \/ In x (dict_keys d).
Proof.
  induction d as [|[k0 v0] d IH]; simpl.
  - intros [H|[]]. now left.
  - destruct (String.eqb k0 k) eqn:E; simpl.
    + intros [H|H]; [now left | right; now right].
    + intros [H|H]; [right; now left|].
      destruct (IH H) as [H1|H1]; [now left | right; now right].
Qed.

Lemma project_get keys (d : dict) k :
  dict_get (project keys d) k = if in_dec string_dec k keys then dict_get d k else None.
Proof.
  induction keys as [|k0 keys IH]; simpl; [reflexivity|].
  destruct (dict_get d k0) as [v0|] eqn:E0; simpl.
  - destruct (String.eqb k0 k) eqn:E.
    + apply String.eqb_eq in E. subst k0.
      destruct (string_dec k k) as [e|n]; [now rewrite E0 | now destruct n].
    + rewrite IH. apply String.eqb_neq in E.
      destruct (string_dec k0 k) as [e|n]; [now destruct E|].
      now destruct (in_dec string_dec k keys).
  - rewrite IH.
    destruct (string_dec k0 k) as [e|n].
    + subst k0. rewrite E0. now destruct (in_dec string_dec k keys).
    + now destruct (in_dec string_dec k keys).
Qed.

Lemma project_keys keys (d : dict) k :
  In k (dict_keys (project keys d)) -> In k keys.
Proof. forget_run.
  induction keys as [|k0 keys IH]; simpl; [tauto|].
  destruct (dict_get d k0); simpl; tauto.
Qed.

(** [touches ks d d']: [d'] is [d] but for the keys [ks]. *)
Definition touches (ks : list string) (d d' : dict) : Prop :=
  forall k, ~ In k ks -> dict_get d' k = dict_get d k.

Lemma touches_refl ks d : touches ks d d.
Proof. now intros k _. Qed.

Lemma touches_trans ks1 ks2 d1 d2 d3 :
  touches ks1 d1 d2 -> touches ks2 d2 d3 -> touches (ks1 ++ ks2) d1 d3.
Proof.
  intros H1 H2 k Hk. rewrite H2, H1; auto; intros Hin; apply Hk, in_or_app; auto.
Qed.

Lemma touches_set d k v : touches [k] d (dict_set d k v).
Proof.
  intros k' Hk. apply dict_get_set_other. intros E. apply Hk. now left.
Qed.

Lemma touches_del d k : touches [k] d (dict_del d k).
Proof.
  intros k' Hk. apply dict_get_del_other. intros E. apply Hk. now left.
Qed.

Lemma touches_incl ks ks' d d' :
  touches ks d d' -> incl ks ks' -> touches ks' d d'.
Proof. intros H Hi k Hk. apply H. intros Hin. apply Hk, Hi, Hin. Qed.

Lemma labels_extend_labels d new d' :
  labels_extend d new = Ok d' ->
  exists old, dict_get d' "labels" = Some (VList (old ++ new))
              /\ py_get_default d "labels" (VList []) = VList old.
Proof.
  unfold labels_extend, py_get_default.
  destruct (dict_get d "labels") as [[| | | | |l|]|] eqn:E; try discriminate;
    intros H; injection H as <-.
  - exists l. now rewrite dict_get_set_same.
  - exists []. now rewrite dict_get_set_same.
Qed.

Lemma labels_extend_touches d new d' :
  labels_extend d new = Ok d' -> touches ["labels"] d d'.
Proof.
  unfold labels_extend.
  destruct (dict_get d "labels") as [[| | | | |l|]|] eqn:E; try discriminate;
    intros H; injection H as <-; apply touches_set.
Qed.

(* ================================================================== *)
(** ** Properties of the Entity Builder *)
(* ================================================================== *)

(** Inversion of a bind that returns. *)
Lemma rbind_ok {A C} (r : result A) (f : A -> result C) c :
  rbind r f = Ok c -> exists a, r = Ok a /\ f a = Ok c.
Proof. destruct r; simpl; [eauto | discriminate]. Qed.

Lemma Ok_inj {A} (a b : A) : Ok a = Ok b -> a = b.
Proof.
  intros H.
  exact (f_equal (fun x => match x with Ok y => y | Raise _ => a end) H).
Qed.

Ltac inv_bind H :=
  let a := fresh "x" in
  let Ha := fresh "E" in
  apply rbind_ok in H; destruct H as (a & Ha & H).

Lemma process_workflow_state_touches ctx d d' :
  process_workflow_state ctx d = Ok d' -> touches ["workflow_state_id"] d d'.
Proof.
  unfold process_workflow_state. destruct (truthy _).
  - intros H. inv_bind H. injection H as <-. apply touches_set.
  - intros H. injection H as <-. apply touches_refl.
Qed.

Lemma process_workflow_state_sets ctx d d' :
  process_workflow_state ctx d = Ok d' ->
  truthy (py_get d "pt_state") = true ->
  exists ws, cfg_index (workflow_config ctx) (py_get d "pt_state") = Ok ws
             /\ dict_get d' "workflow_state_id" = Some ws.
Proof.
  unfold process_workflow_state. intros H Ht. rewrite Ht in H.
  inv_bind H. injection H as <-. exists x. split; [assumption|].
  apply dict_get_set_same.
Qed.

Lemma process_tasks_touches d d' :
  process_tasks d = Ok d' -> touches ["tasks"] d d'.
Proof.
  unfold process_tasks. intros H. inv_bind H. inv_bind H.
  destruct (build_tasks x x0); injection H as <-;
    [apply touches_refl | apply touches_set].
Qed.

Lemma process_requester_touches ctx d d' :
  process_requester ctx d = Ok d' -> touches ["requested_by_id"] d d'.
Proof.
  unfold process_requester. destruct (truthy (py_get d "requester")).
  - intros H. inv_bind H. destruct (truthy x); injection H as <-;
      [apply touches_set | apply touches_refl].
  - intros H. injection H as <-. apply touches_refl.
Qed.

Lemma process_owners_touches ctx d d' :
  process_owners ctx d = Ok d' -> touches ["owner_ids"] d d'.
Proof.
  unfold process_owners. destruct (truthy _).
  - intros H. inv_bind H. inv_bind H. injection H as <-. apply touches_set.
  - intros H. injection H as <-. apply touches_refl.
Qed.

Lemma process_reviewers_touches ctx reviewers d d' :
  process_reviewers ctx reviewers d = Ok d' ->
  touches ["follower_ids"; "labels"] d d'.
Proof.
  unfold process_reviewers. destruct (truthy _).
  - intros H. inv_bind H. inv_bind H.
    apply labels_extend_touches in H.
    eapply (touches_trans ["follower_ids"] ["labels"]); [apply touches_set | exact H].
  - intros H. injection H as <-. apply touches_refl.
Qed.

Lemma process_priority_touches ctx d d' :
  process_priority ctx d = Ok d' -> touches ["custom_fields"] d d'.
Proof.
  unfold process_priority. intros H. inv_bind H.
  destruct x; injection H as <-; [apply touches_refl | apply touches_set].
Qed.

Lemma store_comments_touches comments d :
  touches ["comments"] d (store_comments comments d).
Proof.
  unfold store_comments. destruct comments.
  - destruct (dict_has d "comments"); [apply touches_del | apply touches_refl].
  - apply touches_set.
Qed.

(** The keys the story branch writes. *)
Definition story_keys_written : list string :=
  ["group_id"; "workflow_state_id"; "tasks"; "requested_by_id"; "owner_ids";
   "follower_ids"; "labels"; "custom_fields"; "comments"].

(** What a run of the story branch that returns went through. *)
Inductive story_trace (ctx : context) (d : dict) (comments : list value)
          (pt_iteration_id : value) : dict -> option string -> Prop :=
| StoryTrace d1 d2 d3 d4 d5 d6 comments' iteration :
    process_workflow_state ctx (dict_set d "group_id" (group_id ctx)) = Ok d1 ->
    process_tasks d1 = Ok d2 ->
    process_requester ctx d2 = Ok d3 ->
    process_owners ctx d3 = Ok d4 ->
    process_reviewers ctx (py_get d4 "reviewers") d4 = Ok d5 ->
    review_comment (py_get d4 "reviewers") d5 comments = Ok comments' ->
    process_priority ctx d5 = Ok d6 ->
    iteration_key pt_iteration_id d6 = Ok iteration ->
    story_trace ctx d comments pt_iteration_id (store_comments comments' d6) iteration.

Lemma build_story_trace ctx d comments pid d' iteration :
  build_story ctx d comments pid = Ok (d', iteration) ->
  story_trace ctx d comments pid d' iteration.
Proof.
  unfold build_story. intros H.
  inv_bind H. inv_bind H. inv_bind H. inv_bind H. inv_bind H. inv_bind H.
  inv_bind H. inv_bind H. injection H as <- <-.
  econstructor; eauto.
Qed.

Ltac not_in Hk :=
  let Hin := fresh "Hin" in
  intros Hin; apply Hk; cbn [In] in Hin |- *; tauto.

Lemma story_trace_touches ctx d comments pid d' iteration :
  story_trace ctx d comments pid d' iteration -> touches story_keys_written d d'.
Proof. forget_run.
  intros [d1 d2 d3 d4 d5 d6 cs it H1 H2 H3 H4 H5 _ H7 _] k Hk.
  unfold story_keys_written in Hk.
  rewrite (store_comments_touches cs d6 k) by not_in Hk.
  rewrite (process_priority_touches _ _ _ H7 k) by not_in Hk.
  rewrite (process_reviewers_touches _ _ _ _ H5 k) by not_in Hk.
  rewrite (process_owners_touches _ _ _ H4 k) by not_in Hk.
  rewrite (process_requester_touches _ _ _ H3 k) by not_in Hk.
  rewrite (process_tasks_touches _ _ H2 k) by not_in Hk.
  rewrite (process_workflow_state_touches _ _ _ H1 k) by not_in Hk.
  apply dict_get_set_other. intros E. apply Hk. subst k. simpl. tauto.
Qed.

(** What a run of [build_entity] that returns went through. *)
Inductive entity_trace (ctx : context) (d : dict) (r : item) : Prop :=
| EntityTrace d0 story_type cs comments d1 d2 keys :
    labels_extend d [label_named PIVOTAL_TO_SHORTCUT_LABEL;
                     label_named PIVOTAL_TO_SHORTCUT_RUN_LABEL] = Ok d0 ->
    dict_index d0 "story_type" = Ok story_type ->
    py_iter (py_get_default d0 "comments" (VList [])) = Ok cs ->
    rmap (build_comment ctx) cs = Ok comments ->
    (if str_is story_type "release"
     then labels_extend (dict_set d0 "story_type" (VStr "chore"))
                        [label_named PIVOTAL_RELEASE_TYPE_LABEL]
     else Ok d0) = Ok d1 ->
    type_ r = (if str_is story_type "epic" then "epic" else "story") ->
    select_keys (type_ r) = Some keys ->
    entity r = project keys d2 ->
    pt_iteration_id r = py_get d1 "pt_iteration_id" ->
    (if str_is story_type "epic"
     then d2 = dict_set d1 "group_ids"
                 (VList (match group_id ctx with VNone => [] | g => [g] end))
          /\ iteration r = None
     else story_trace ctx d1 comments (py_get d1 "pt_iteration_id") d2 (iteration r)) ->
    entity_trace ctx d r.

Lemma build_entity_trace ctx d r :
  build_entity ctx d = Ok r -> entity_trace ctx d r.
Proof.
  unfold build_entity. intros H.
  inv_bind H. inv_bind H. inv_bind H. inv_bind H. inv_bind H.
  destruct (str_is x0 "epic") eqn:Eepic.
  - change (String.eqb "epic" "story") with false in H. cbv iota in H.
    unfold rbind at 1 in H.
    change (select_keys "epic") with
      (Some ["created_at"; "description"; "external_id"; "group_ids"; "labels"; "name"])
      in H.
    unfold rbind in H. apply Ok_inj in H. subst r.
    eapply (EntityTrace ctx d _ x x0 x1 x2 x3);
      [exact E | exact E0 | exact E1 | exact E2 | exact E3 | | | | | ].
    + cbn [type_]. rewrite Eepic. reflexivity.
    + reflexivity.
    + reflexivity.
    + reflexivity.
    + rewrite Eepic. split; reflexivity.
  - change (String.eqb "story" "story") with true in H. cbv iota in H.
    inv_bind H. destruct x4 as [d2 it].
    change (select_keys "story") with
      (Some [ "comments"; "created_at"; "custom_fields"; "deadline";
              "description"; "estimate"; "external_id"; "external_links";
              "follower_ids"; "group_id"; "iteration_id"; "labels"; "name";
              "owner_ids"; "requested_by_id"; "story_type"; "tasks";
              "workflow_state_id" ]) in H.
    unfold rbind in H. cbv beta iota in H. apply Ok_inj in H. subst r.
    apply build_story_trace in E4.
    eapply (EntityTrace ctx d _ x x0 x1 x2 x3 d2);
      [exact E | exact E0 | exact E1 | exact E2 | exact E3 | | | | | ].
    + cbn [type_]. rewrite Eepic. reflexivity.
    + reflexivity.
    + reflexivity.
    + reflexivity.
    + rewrite Eepic. exact E4.
Qed.

(** The story type of the source row decides the type of the record. *)
Lemma labels_extend_story_type d new d' :
  labels_extend d new = Ok d' -> dict_get d' "story_type" = dict_get d "story_type".
Proof.
  intros H. apply (labels_extend_touches _ _ _ H). simpl. intros [E|[]]. discriminate.
Qed.

Lemma cfg_index_mem m k v : cfg_index m k = Ok v -> cfg_mem m k = Ok true.
Proof.
  unfold cfg_index, cfg_mem, dict_has. destruct (hash_key k) as [[| |s]|]; simpl;
    try discriminate.
  now destruct (dict_get m s).
Qed.

Lemma py_get_eq d d' k : dict_get d' k = dict_get d k -> py_get d' k = py_get d k.
Proof. unfold py_get. now intros ->. Qed.

(** The story row of a build that returns: the row [d1] as it enters the
    story branch, the comments of the source and the row [d2] as it leaves
    the branch. *)
Lemma build_entity_story ctx d r :
  build_entity ctx d = Ok r ->
  str_is (py_get d "story_type") "epic" = false ->
  exists d1 cs comments d2 old,
    touches ["labels"; "story_type"] d d1
    /\ py_iter (py_get_default d "comments" (VList [])) = Ok cs
    /\ rmap (build_comment ctx) cs = Ok comments
    /\ story_trace ctx d1 comments (py_get d1 "pt_iteration_id") d2 (iteration r)
    /\ type_ r = "story"
    /\ entity r = project [ "comments"; "created_at"; "custom_fields"; "deadline";
                            "description"; "estimate"; "external_id"; "external_links";
                            "follower_ids"; "group_id"; "iteration_id"; "labels"; "name";
                            "owner_ids"; "requested_by_id"; "story_type"; "tasks";
                            "workflow_state_id" ] d2
    /\ py_get_default d "labels" (VList []) = VList old
    /\ dict_get d1 "labels"
       = Some (VList ((old ++ [label_named PIVOTAL_TO_SHORTCUT_LABEL;
                               label_named PIVOTAL_TO_SHORTCUT_RUN_LABEL])
                      ++ (if str_is (py_get d "story_type") "release"
                          then [label_named PIVOTAL_RELEASE_TYPE_LABEL] else [])))
    /\ dict_get d1 "story_type"
       = (if str_is (py_get d "story_type") "release"
          then Some (VStr "chore") else dict_get d "story_type").
Proof. forget_run.
  intros Hb Hstory.
  destruct (build_entity_trace _ _ _ Hb)
    as [d0 story_type cs comments d1 d2 keys H0 Hty Hcs Hcom Hrel Htype Hkeys Hent Hpid Hbr].
  pose proof (labels_extend_story_type _ _ _ H0) as Hst0.
  assert (Hsty : py_get d "story_type" = story_type).
  { unfold dict_index in Hty. unfold py_get. rewrite <- Hst0.
    destruct (dict_get d0 "story_type"); [now injection Hty | discriminate]. }
  rewrite Hsty in *. rewrite Hstory in *.
  destruct (labels_extend_labels _ _ _ H0) as (old & Hl0 & Hold).
  assert (Hcom0 : py_get_default d0 "comments" (VList []) = py_get_default d "comments" (VList [])).
  { unfold py_get_default. rewrite (labels_extend_touches _ _ _ H0 "comments"); [reflexivity|].
    simpl. intros [E|[]]. discriminate. }
  rewrite Hcom0 in Hcs.
  rewrite Htype in Hkeys.
  assert (Hk : keys = [ "comments"; "created_at"; "custom_fields"; "deadline";
                        "description"; "estimate"; "external_id"; "external_links";
                        "follower_ids"; "group_id"; "iteration_id"; "labels"; "name";
                        "owner_ids"; "requested_by_id"; "story_type"; "tasks";
                        "workflow_state_id" ]).
  { apply (f_equal (fun o => match o with Some k => k | None => keys end)) in Hkeys.
    symmetry. exact Hkeys. }
  subst keys.
  exists d1, cs, comments, d2, old.
  destruct (str_is story_type "release") eqn:Erel.
  - destruct (labels_extend_labels _ _ _ Hrel) as (old' & Hl1 & Hold').
    unfold py_get_default in Hold'.
    rewrite dict_get_set_other in Hold' by discriminate.
    rewrite Hl0 in Hold'. apply (f_equal (fun v => match v with VList l => l | _ => [] end)) in Hold'.
    subst old'.
    repeat split; try assumption.
    + intros k Hk. rewrite (labels_extend_touches _ _ _ Hrel k) by not_in Hk.
      rewrite dict_get_set_other by (intros E; apply Hk; subst k; simpl; tauto).
      apply (labels_extend_touches _ _ _ H0). not_in Hk.
    + rewrite (labels_extend_touches _ _ _ Hrel "story_type")
        by (simpl; intros [E|[]]; discriminate).
      apply dict_get_set_same.
  - apply Ok_inj in Hrel. subst d1.
    repeat split; try assumption.
    + intros k Hk. apply (labels_extend_touches _ _ _ H0). not_in Hk.
    + rewrite Hl0. now rewrite app_nil_r.
Qed.

Lemma project_get_in keys (d : dict) k :
  In k keys -> dict_get (project keys d) k = dict_get d k.
Proof.
  intros Hin. rewrite project_get.
  destruct (in_dec string_dec k keys) as [i|n]; [reflexivity | now destruct n].
Qed.

Lemma str_is_release_not_epic v : str_is v "release" = true -> str_is v "epic" = false.
Proof.
  unfold str_is. destruct (str_chars v) as [s|]; [|discriminate].
  intros H. apply String.eqb_eq in H. now subst s.
Qed.

Lemma story_trace_labels ctx d cs pid d' iteration l :
  story_trace ctx d cs pid d' iteration ->
  dict_get d "labels" = Some (VList l) ->
  dict_get d' "labels"
  = Some (VList (l ++ if truthy (py_get d "reviewers")
                      then [label_named PIVOTAL_HAD_REVIEW_LABEL] else [])).
Proof.
  intros [d1 d2 d3 d4 d5 d6 cs' it H1 H2 H3 H4 H5 _ H7 _] Hl.
  assert (Hl4 : dict_get d4 "labels" = Some (VList l)
                /\ py_get d4 "reviewers" = py_get d "reviewers").
  { split; [|apply py_get_eq];
      rewrite (process_owners_touches _ _ _ H4) by (cbn [In]; intros [E|[]]; discriminate);
      rewrite (process_requester_touches _ _ _ H3) by (cbn [In]; intros [E|[]]; discriminate);
      rewrite (process_tasks_touches _ _ H2) by (cbn [In]; intros [E|[]]; discriminate);
      rewrite (process_workflow_state_touches _ _ _ H1)
        by (cbn [In]; intros [E|[]]; discriminate);
      rewrite dict_get_set_other by discriminate; [exact Hl | reflexivity]. }
  destruct Hl4 as [Hl4 Hr4].
  rewrite (store_comments_touches cs' d6) by (cbn [In]; intros [E|[]]; discriminate).
  rewrite (process_priority_touches _ _ _ H7) by (cbn [In]; intros [E|[]]; discriminate).
  rewrite Hr4 in H5. unfold process_reviewers in H5.
  destruct (truthy (py_get d "reviewers")).
  - inv_bind H5. inv_bind H5.
    destruct (labels_extend_labels _ _ _ H5) as (old & Hnew & Hold).
    unfold py_get_default in Hold. rewrite dict_get_set_other in Hold by discriminate.
    rewrite Hl4 in Hold.
    apply (f_equal (fun v => match v with VList x => x | _ => [] end)) in Hold.
    subst old. exact Hnew.
  - apply Ok_inj in H5. subst d5. now rewrite app_nil_r.
Qed.

(* ------------------------------------------------------------------ *)
(** *** The review table *)

(** The characters of the three cells of a row, when all are str. *)
Definition cell_chars (t : value * value * value) : option (string * string * string) :=
  let '(reviewer, review_type, review_status) := t in
  match str_chars reviewer, str_chars review_type, str_chars review_status with
  | Some a, Some b, Some c => Some (a, b, c)
  | _, _, _ => None
  end.

(** The table row of a reviewer, a review type and a review status. *)
Definition table_row (c : string * string * string) : string :=
  let '(reviewer, review_type, review_status) := c in
  (nl ++ "|" ++ escape_md_table_syntax reviewer
      ++ "|" ++ escape_md_table_syntax review_type
      ++ "|" ++ escape_md_table_syntax review_status ++ "|")%string.

Fixpoint table_rows (cells : list (string * string * string)) : string :=
  match cells with
  | [] => EmptyString
  | c :: r => (table_row c ++ table_rows r)%string
  end.

(** [escaped s s']: [s'] is [s] with every '|' written as '\|' and every
    other character as it is. *)
Inductive escaped : string -> string -> Prop :=
| escaped_nil : escaped EmptyString EmptyString
| escaped_pipe s s' :
    escaped s s' ->
    escaped (String "|"%char s) (String "\"%char (String "|"%char s'))
| escaped_other c s s' :
    c <> "|"%char -> escaped s s' -> escaped (String c s) (String c s').

(** The cells of a table row, each escaped. *)
Definition cells_escaped (c c' : string * string * string) : Prop :=
  escaped (fst (fst c)) (fst (fst c'))
  /\ escaped (snd (fst c)) (snd (fst c'))
  /\ escaped (snd c) (snd c').

(** The line of a Markdown table with the three cells as they are given. *)
Definition table_line (c : string * string * string) : string :=
  let '(reviewer, review_type, review_status) := c in
  (nl ++ "|" ++ reviewer ++ "|" ++ review_type ++ "|" ++ review_status ++ "|")%string.

Fixpoint table_lines (cells : list (string * string * string)) : string :=
  match cells with
  | [] => EmptyString
  | c :: r => (table_line c ++ table_lines r)%string
  end.

Lemma append_assoc (a b c : string) : ((a ++ b) ++ c = a ++ (b ++ c))%string.
Proof. induction a as [|x a IH]; simpl; [reflexivity | now rewrite IH]. Qed.

Lemma append_nil_r (a : string) : (a ++ "" = a)%string.
Proof. induction a as [|x a IH]; simpl; [reflexivity | now rewrite IH]. Qed.

Lemma escape_md_table_syntax_escaped s : escaped s (escape_md_table_syntax s).
Proof.
  induction s as [|c s IH]; cbn [escape_md_table_syntax]; [constructor|].
  destruct (Ascii.eqb_spec c "|"%char) as [->|N].
  - now apply escaped_pipe.
  - now apply escaped_other.
Qed.

Lemma escaped_functional s : forall a b, escaped s a -> escaped s b -> a = b.
Proof.
  induction s as [|c s IH]; intros a b Ha Hb.
  - inversion Ha. inversion Hb. reflexivity.
  - inversion Ha as [|s0 a' Ha' E1 E2|c0 s0 a' N Ha' E1 E2];
      inversion Hb as [|s1 b' Hb' E3 E4|c1 s1 b' N' Hb' E3 E4]; subst;
      try congruence; now rewrite (IH a' b').
Qed.

Lemma table_rows_lines cells :
  exists cells',
    Forall2 cells_escaped cells cells' /\ table_rows cells = table_lines cells'.
Proof.
  induction cells as [|[[a b] c] cells (cells' & Hf & He)].
  - exists []. split; [constructor | reflexivity].
  - exists ((escape_md_table_syntax a, escape_md_table_syntax b,
             escape_md_table_syntax c) :: cells').
    split.
    + constructor; [|exact Hf].
      repeat split; apply escape_md_table_syntax_escaped.
    + cbn [table_rows table_lines]. now rewrite He.
Qed.

(** The cells of escaped lines are determined by the cells. *)
Lemma cells_escaped_unique cells cells' :
  Forall2 cells_escaped cells cells' ->
  cells' = map (fun c => (escape_md_table_syntax (fst (fst c)),
                          escape_md_table_syntax (snd (fst c)),
                          escape_md_table_syntax (snd c))) cells.
Proof.
  induction 1 as [|[[a b] c] [[a' b'] c'] cells cells' (Ha & Hb & Hc) HF IH];
    [reflexivity|].
  cbn [fst snd map] in *. rewrite <- IH.
  rewrite (escaped_functional a a' _ Ha (escape_md_table_syntax_escaped a)).
  rewrite (escaped_functional b b' _ Hb (escape_md_table_syntax_escaped b)).
  rewrite (escaped_functional c c' _ Hc (escape_md_table_syntax_escaped c)).
  reflexivity.
Qed.

Lemma map_Some_inj {A} (l l' : list A) : map Some l = map Some l' -> l = l'.
Proof.
  revert l'. induction l as [|x l IH]; intros [|y l'] H; cbn [map] in H;
    try discriminate; [reflexivity|].
  injection H as -> H. now rewrite (IH _ H).
Qed.

Lemma review_row_spec t row :
  review_row t = Ok row ->
  exists c, cell_chars t = Some c /\ row = table_row c.
Proof.
  destruct t as [[a b] c]. unfold review_row, escape_cell, cell_chars.
  destruct (str_chars a) as [x|]; [|discriminate].
  destruct (str_chars b) as [y|]; [|discriminate].
  destruct (str_chars c) as [z|]; [|discriminate].
  cbn [rbind]. intros H. apply Ok_inj in H. exists (x, y, z). now split.
Qed.

Lemma review_rows_spec ts : forall acc text,
  review_rows acc ts = Ok text ->
  exists cells, map cell_chars ts = map Some cells
                /\ text = (acc ++ table_rows cells)%string.
Proof.
  induction ts as [|t ts IH]; intros acc text H; cbn [review_rows] in H.
  - apply Ok_inj in H. subst text. exists []. split; [reflexivity|].
    cbn [table_rows]. now rewrite append_nil_r.
  - inv_bind H. destruct (review_row_spec _ _ E) as (c & Hc & ->).
    destruct (IH _ _ H) as (cells & Hcells & ->).
    exists (c :: cells). split.
    + cbn [map]. now rewrite Hc, Hcells.
    + cbn [table_rows]. now rewrite append_assoc.
Qed.

(** The id the requester of the row resolves to, None when there is no
    requester or the user mapping has no id for it. *)
Definition resolved_requester (ctx : context) (d : dict) : value :=
  match cfg_get (user_config ctx) (py_get d "requester") with
  | Ok sc_requester_id =>
      if truthy (py_get d "requester") && truthy sc_requester_id
      then sc_requester_id else VNone
  | Raise _ => VNone
  end.

(** The author of the review comment: the id the requester resolves to,
    or else what the row holds under requested_by_id (None when it holds
    nothing). *)
Definition review_author (ctx : context) (d : dict) : value :=
  if truthy (resolved_requester ctx d)
  then resolved_requester ctx d
  else py_get d "requested_by_id".

Lemma story_trace_comments ctx d cs pid d' iteration :
  story_trace ctx d cs pid d' iteration ->
  truthy (py_get d "reviewers") = true ->
  exists rs ts ss cells,
    py_iter (py_get d "reviewers") = Ok rs
    /\ py_iter (py_get_default d "review_types" (VList [])) = Ok ts
    /\ py_iter (py_get_default d "review_states" (VList [])) = Ok ss
    /\ map cell_chars (zip3 rs ts ss) = map Some cells
    /\ dict_get d' "comments"
       = Some (VList (cs ++ [VDict [("author_id", review_author ctx d);
                                    ("text", VStr (review_as_comment_text_prefix
                                                   ++ table_rows cells)%string)]])).
Proof. forget_run.
  intros [d1 d2 d3 d4 d5 d6 cs' it H1 H2 H3 H4 H5 H6 H7 _] Hrev.
  (* the keys the review comment reads are as in the source row *)
  assert (F2 : forall k, ~ In k ["group_id"; "workflow_state_id"; "tasks"] ->
                         dict_get d2 k = dict_get d k).
  { intros k Hk.
    rewrite (process_tasks_touches _ _ H2) by not_in Hk.
    rewrite (process_workflow_state_touches _ _ _ H1) by not_in Hk.
    apply dict_get_set_other. intros E. apply Hk. subst k. cbn [In]. tauto. }
  assert (F5 : forall k, ~ In k ["group_id"; "workflow_state_id"; "tasks";
                                  "requested_by_id"; "owner_ids"; "follower_ids";
                                  "labels"] ->
                         dict_get d5 k = dict_get d k).
  { intros k Hk.
    rewrite (process_reviewers_touches _ _ _ _ H5) by not_in Hk.
    rewrite (process_owners_touches _ _ _ H4) by not_in Hk.
    rewrite (process_requester_touches _ _ _ H3) by not_in Hk.
    apply F2. not_in Hk. }
  assert (Hr4 : py_get d4 "reviewers" = py_get d "reviewers").
  { apply py_get_eq.
    rewrite (process_owners_touches _ _ _ H4) by (cbn [In]; intros [E|[]]; discriminate).
    rewrite (process_requester_touches _ _ _ H3) by (cbn [In]; intros [E|[]]; discriminate).
    apply F2. cbn [In]. intros [E|[E|[E|[]]]]; discriminate. }
  (* the requester id the comment is attributed to *)
  assert (Hauthor : py_get d5 "requested_by_id" = review_author ctx d).
  { assert (E5 : py_get d5 "requested_by_id" = py_get d3 "requested_by_id").
    { apply py_get_eq.
      rewrite (process_reviewers_touches _ _ _ _ H5)
        by (cbn [In]; intros [E|[E|[]]]; discriminate).
      apply (process_owners_touches _ _ _ H4). cbn [In]. intros [E|[]]; discriminate. }
    rewrite E5. clear E5.
    assert (Hq2 : py_get d2 "requester" = py_get d "requester").
    { apply py_get_eq, F2. cbn [In]. intros [E|[E|[E|[]]]]; discriminate. }
    assert (Hb2 : py_get d2 "requested_by_id" = py_get d "requested_by_id").
    { apply py_get_eq, F2. cbn [In]. intros [E|[E|[E|[]]]]; discriminate. }
    unfold process_requester in H3. unfold review_author, resolved_requester.
    rewrite Hq2 in H3.
    destruct (truthy (py_get d "requester")).
    - inv_bind H3. rewrite E. cbn [andb].
      destruct (truthy x) eqn:Hx.
      + apply Ok_inj in H3. subst d3. rewrite Hx.
        unfold py_get. now rewrite dict_get_set_same.
      + apply Ok_inj in H3. subst d3. exact Hb2.
    - apply Ok_inj in H3. subst d3. rewrite Hb2.
      now destruct (cfg_get (user_config ctx) (py_get d "requester")). }
  rewrite Hr4 in H6. unfold review_comment in H6. rewrite Hrev in H6.
  inv_bind H6. inv_bind H6. inv_bind H6. inv_bind H6.
  apply Ok_inj in H6. subst cs'.
  destruct (review_rows_spec _ _ _ E2) as (cells & Hcells & ->).
  unfold py_get_default in E, E0, E1.
  rewrite F5 in E, E0, E1
    by (cbn [In]; intros [X|[X|[X|[X|[X|[X|[X|[]]]]]]]]; discriminate).
  exists x, x0, x1, cells.
  assert (Hrs : py_iter (py_get d "reviewers") = Ok x).
  { unfold py_get. destruct (dict_get d "reviewers") eqn:Ed; [exact E|].
    unfold py_get in Hrev. rewrite Ed in Hrev. discriminate. }
  repeat split; try assumption.
  unfold store_comments.
  destruct (cs ++ _) eqn:Eapp; [now destruct cs|]. rewrite <- Eapp.
  rewrite dict_get_set_same. now rewrite Hauthor.
Qed.

Ltac other_key := cbn [In]; intuition discriminate.

(** C7, as amended.  A story row with reviewers gets exactly one generated
    review comment, after the comments of the source.  Its text is the
    fixed table header followed by one table line per (reviewer, review
    type, review status) triple of the zipped lists, in their order, each
    cell being the name, type or status with every '|' written as '\|' and
    nothing else changed.  Its author_id is the id the requester resolves
    to; when the requester is not resolved it is what the row itself holds
    under requested_by_id, None when it holds nothing. *)
Theorem review_comment_table ctx d r :
  build_entity ctx d = Ok r ->
  str_is (py_get d "story_type") "epic" = false ->
  truthy (py_get d "reviewers") = true ->
  exists source comments rs ts ss cells cells',
    py_iter (py_get_default d "comments" (VList [])) = Ok source
    /\ rmap (build_comment ctx) source = Ok comments
    /\ py_iter (py_get d "reviewers") = Ok rs
    /\ py_iter (py_get_default d "review_types" (VList [])) = Ok ts
    /\ py_iter (py_get_default d "review_states" (VList [])) = Ok ss
    /\ map cell_chars (zip3 rs ts ss) = map Some cells
    /\ Forall2 cells_escaped cells cells'
    /\ dict_get (entity r) "comments"
       = Some (VList (comments
                      ++ [VDict [("author_id",
                                  if truthy (resolved_requester ctx d)
                                  then resolved_requester ctx d
                                  else py_get d "requested_by_id");
                                 ("text", VStr (review_as_comment_text_prefix
                                                ++ table_lines cells')%string)]]))
    /\ (dict_get d "requested_by_id" = None ->
        truthy (resolved_requester ctx d) = false ->
        exists text,
          dict_get (entity r) "comments"
          = Some (VList (comments ++ [VDict [("author_id", VNone); ("text", text)]]))).
Proof. forget_run.
  intros Hb Hstory Hrev.
  destruct (build_entity_story _ _ _ Hb Hstory)
    as (d1 & source & comments & d2 & old & Ht & Hsrc & Hcom & Htr & Hty & Hent & _).
  assert (K : forall k, ~ In k ["labels"; "story_type"] -> py_get d1 k = py_get d k).
  { intros k Hk. apply py_get_eq, Ht, Hk. }
  assert (D : forall k v, ~ In k ["labels"; "story_type"] ->
                          py_get_default d1 k v = py_get_default d k v).
  { intros k v Hk. unfold py_get_default. now rewrite (Ht k Hk). }
  destruct (story_trace_comments _ _ _ _ _ _ Htr) as (rs & ts & ss & cells & H).
  - rewrite K by other_key. exact Hrev.
  - destruct H as (Hrs & Hts & Hss & Hcells & Hget).
    rewrite K in Hrs by other_key.
    rewrite D in Hts, Hss by other_key.
    destruct (table_rows_lines cells) as (cells' & Hesc & Hlines).
    assert (Hcomments :
              dict_get (entity r) "comments"
              = Some (VList (comments
                      ++ [VDict [("author_id",
                                  if truthy (resolved_requester ctx d)
                                  then resolved_requester ctx d
                                  else py_get d "requested_by_id");
                                 ("text", VStr (review_as_comment_text_prefix
                                                ++ table_lines cells')%string)]]))).
    { rewrite Hent, project_get_in by (cbn [In]; tauto).
      rewrite Hget, Hlines. unfold review_author, resolved_requester.
      now rewrite !K by other_key. }
    exists source, comments, rs, ts, ss, cells, cells'.
    repeat (split; [assumption|]).
    intros Hnone Hunres. eexists. rewrite Hcomments, Hunres.
    unfold py_get. rewrite Hnone. reflexivity.
Qed.

(** C8.  A source row with story_type "release" is built into a record of
    type story whose entity has story_type "chore" and whose labels hold
    the "pivotal-release" label and the two run marker labels. *)
Theorem release_becomes_chore ctx d r :
  str_is (py_get d "story_type") "release" = true ->
  build_entity ctx d = Ok r ->
  type_ r = "story"
  /\ dict_get (entity r) "story_type" = Some (VStr "chore")
  /\ exists labels,
       dict_get (entity r) "labels" = Some (VList labels)
       /\ In (label_named PIVOTAL_RELEASE_TYPE_LABEL) labels
       /\ In (label_named PIVOTAL_TO_SHORTCUT_LABEL) labels
       /\ In (label_named PIVOTAL_TO_SHORTCUT_RUN_LABEL) labels.
Proof. forget_run.
  intros Hrel Hb.
  destruct (build_entity_story _ _ _ Hb (str_is_release_not_epic _ Hrel))
    as (d1 & source & comments & d2 & old & Ht & _ & _ & Htr & Hty & Hent & _ & Hl & Hst).
  rewrite Hrel in Hl, Hst.
  split; [exact Hty|]. split.
  - rewrite Hent, project_get_in by (cbn [In]; tauto).
    rewrite (story_trace_touches _ _ _ _ _ _ Htr) by (unfold story_keys_written; other_key).
    exact Hst.
  - eexists. split.
    + rewrite Hent, project_get_in by (cbn [In]; tauto).
      exact (story_trace_labels _ _ _ _ _ _ _ Htr Hl).
    + repeat split; rewrite !in_app_iff; cbn [In]; tauto.
Qed.

(** C9.  For a story row with a non-empty pt_state: when the state is not
    in the workflow-state mapping the Builder raises; when it is, the
    entity of the story built carries the mapped id as its
    workflow_state_id. *)
Theorem workflow_state_resolved ctx d :
  str_is (py_get d "story_type") "epic" = false ->
  truthy (py_get d "pt_state") = true ->
  (cfg_mem (workflow_config ctx) (py_get d "pt_state") <> Ok true ->
   exists e, build_entity ctx d = Raise e)
  /\ (forall ws r,
        cfg_index (workflow_config ctx) (py_get d "pt_state") = Ok ws ->
        build_entity ctx d = Ok r ->
        type_ r = "story" /\ dict_get (entity r) "workflow_state_id" = Some ws).
Proof. forget_run.
  intros Hstory Hstate.
  assert (Key : forall r, build_entity ctx d = Ok r ->
                  type_ r = "story"
                  /\ exists ws, cfg_index (workflow_config ctx) (py_get d "pt_state") = Ok ws
                                /\ dict_get (entity r) "workflow_state_id" = Some ws).
  { intros r Hb.
    destruct (build_entity_story _ _ _ Hb Hstory)
      as (d1 & source & comments & d2 & old & Ht & _ & _ & Htr & Hty & Hent & _).
    split; [exact Hty|].
    destruct Htr as [e1 e2 e3 e4 e5 e6 cs' it H1 H2 H3 H4 H5 _ H7 _].
    assert (Hp : py_get (dict_set d1 "group_id" (group_id ctx)) "pt_state"
                 = py_get d "pt_state").
    { apply py_get_eq. rewrite dict_get_set_other by discriminate.
      apply Ht. other_key. }
    destruct (process_workflow_state_sets _ _ _ H1) as (ws & Hws & Hget).
    - now rewrite Hp.
    - rewrite Hp in Hws. exists ws. split; [exact Hws|].
      rewrite Hent, project_get_in by (cbn [In]; tauto).
      rewrite (store_comments_touches cs' e6) by other_key.
      rewrite (process_priority_touches _ _ _ H7) by other_key.
      rewrite (process_reviewers_touches _ _ _ _ H5) by other_key.
      rewrite (process_owners_touches _ _ _ H4) by other_key.
      rewrite (process_requester_touches _ _ _ H3) by other_key.
      rewrite (process_tasks_touches _ _ H2) by other_key.
      exact Hget. }
  split.
  - intros Habsent. destruct (build_entity ctx d) as [r|e] eqn:Hb; [|now exists e].
    exfalso. destruct (Key r eq_refl) as (_ & ws & Hws & _).
    apply Habsent. exact (cfg_index_mem _ _ _ Hws).
  - intros ws r Hws Hb. destruct (Key r Hb) as (Hty & ws' & Hws' & Hget).
    split; [exact Hty|]. rewrite Hws in Hws'. apply Ok_inj in Hws'. now subst ws'.
Qed.

(* ================================================================== *)
(** ** Properties of the linkage *)
(* ================================================================== *)

Lemma dict_set_set (d : dict) k a b :
  dict_set (dict_set d k a) k b = dict_set d k b.
Proof.
  induction d as [|[k0 v0] d IH]; simpl.
  - now rewrite String.eqb_refl.
  - destruct (String.eqb k0 k) eqn:E; simpl.
    + now rewrite String.eqb_refl.
    + now rewrite E, IH.
Qed.

(** The key under which the name of a label is looked up. *)
Definition label_key (label : value) : result hkey :=
  label_name <- py_index label "name" ;; hash_key label_name.

(** The epic ids of the labels of a story that are keys of the map, in the
    order of the labels. *)
Fixpoint matching_epic_ids (m : epic_map) (labels : list value) : list Z :=
  match labels with
  | [] => []
  | label :: r =>
      match label_key label with
      | Ok k => match emap_get m k with
                | Some epic_id => epic_id :: matching_epic_ids m r
                | None => matching_epic_ids m r
                end
      | Raise _ => matching_epic_ids m r
      end
  end.

Definition well_formed_label (label : value) : Prop :=
  exists k, label_key label = Ok k.

Lemma assign_labels_loop m labels : forall e,
  Forall well_formed_label labels ->
  loop (assign_label m) e labels
  = (match matching_epic_ids m labels with
     | [] => e
     | ids => dict_set e "epic_id" (VInt (last ids 0%Z))
     end, None).
Proof.
  induction labels as [|label labels IH]; intros e Hwf; [reflexivity|].
  inversion Hwf as [|? ? [k Hk] Hwf']; subst.
  cbn [loop matching_epic_ids]. unfold assign_label.
  unfold label_key. unfold label_key in Hk.
  destruct (py_index label "name") as [name|]; [|discriminate].
  cbn [rbind] in Hk |- *. rewrite Hk. cbn [rbind].
  destruct (emap_get m k) as [epic_id|].
  - rewrite IH by assumption.
    destruct (matching_epic_ids m labels) as [|i ids] eqn:E.
    + reflexivity.
    + rewrite dict_set_set. reflexivity.
  - now rewrite IH.
Qed.

(** Epic linkage of one entity whose labels are well formed. *)
Lemma assign_story_to_epic_spec m e labels :
  py_iter (py_get_default e "labels" (VList [])) = Ok labels ->
  Forall well_formed_label labels ->
  assign_story_to_epic m e
  = (match matching_epic_ids m labels with
     | [] => e
     | ids => dict_set e "epic_id" (VInt (last ids 0%Z))
     end, None).
Proof.
  intros Hl Hwf. unfold assign_story_to_epic. rewrite Hl.
  apply assign_labels_loop, Hwf.
Qed.

(** A pass that raises nothing has read labels that are well formed. *)
Lemma assign_labels_quiet m labels : forall e,
  snd (loop (assign_label m) e labels) = None -> Forall well_formed_label labels.
Proof.
  induction labels as [|label labels IH]; intros e H; [constructor|].
  cbn [loop] in H. destruct (assign_label m e label) as [e1|ex] eqn:E;
    [|discriminate].
  constructor; [|exact (IH _ H)].
  unfold assign_label in E. unfold well_formed_label, label_key.
  destruct (py_index label "name") as [name|]; [|discriminate].
  cbn [rbind] in E |- *.
  destruct (hash_key name) as [k|]; [|discriminate]. now exists k.
Qed.

Lemma assign_story_to_epic_quiet m e :
  snd (assign_story_to_epic m e) = None ->
  exists labels,
    py_iter (py_get_default e "labels" (VList [])) = Ok labels
    /\ Forall well_formed_label labels.
Proof.
  unfold assign_story_to_epic.
  destruct (py_iter _) as [labels|ex]; [|discriminate].
  intros H. exists labels. split; [reflexivity|].
  exact (assign_labels_quiet _ _ _ H).
Qed.

(** C10.  A record whose type is neither story, epic nor label is refused
    by [collect] with a RuntimeError and the state, with every bucket of the
    collector, is left as it was; and a record that is collected only adds
    to the iteration keys when it is a story. *)
Theorem collect_unknown_type item it st :
  nth_error (heap st) item = Some it ->
  (type_ it <> "story" -> type_ it <> "epic" -> type_ it <> "label" ->
   collect item st
   = (Raise (RuntimeError ("Unknown entity type " ++ type_ it)%string), st))
  /\ (forall r st',
        collect item st = (Ok r, st') ->
        iterations (self st') = iterations (self st)
        /\ files (self st') = files (self st)
        /\ (iteration_strings (self st') <> iteration_strings (self st) ->
            type_ it = "story")).
Proof. forget_run.
  intros Hit. unfold collect, update_self, bind, get_item, get_self. rewrite Hit.
  split.
  - intros Hs He Hl.
    apply String.eqb_neq in Hs, He, Hl. rewrite Hs, He, Hl. reflexivity.
  - intros r st'.
    destruct (String.eqb (type_ it) "story") eqn:Es.
    + cbn. intros H. injection H as _ <-. cbn.
      apply String.eqb_eq in Es. tauto.
    + destruct (String.eqb (type_ it) "epic") eqn:Ee.
      * cbn. intros H. injection H as _ <-. cbn. tauto.
      * destruct (String.eqb (type_ it) "label") eqn:El.
        -- cbn. intros H. injection H as _ <-. cbn. tauto.
        -- cbn. discriminate.
Qed.

(** The attributes of a record built by the Entity Builder are among the
    allow-listed ones for its type. *)
Lemma build_entity_allow_listed ctx d r :
  build_entity ctx d = Ok r ->
  exists keys, select_keys (type_ r) = Some keys
               /\ forall k, In k (dict_keys (entity r)) -> In k keys.
Proof.
  intros Hb.
  destruct (build_entity_trace _ _ _ Hb)
    as [d0 story_type cs comments d1 d2 keys _ _ _ _ _ _ Hkeys Hent _ _].
  exists keys. split; [exact Hkeys|].
  intros k. rewrite Hent. apply project_keys.
Qed.

(* ================================================================== *)
(** ** What a run keeps *)
(* ================================================================== *)

(** Commands that take every state to a state related to it by a
    preorder [R]. *)
Section Preserve.

Variable R : state -> state -> Prop.
Hypothesis R_refl : forall st, R st st.
Hypothesis R_trans : forall a b c, R a b -> R b c -> R a c.

Definition preserves {A} (m : M A) : Prop := forall st, R st (snd (m st)).

Lemma preserves_ret {A} (a : A) : preserves (ret a).
Proof using R_refl. intros st. apply R_refl. Qed.

Lemma preserves_raise {A} e : preserves (@raise A e).
Proof using R_refl. intros st. apply R_refl. Qed.

Lemma preserves_lift {A} (r : result A) : preserves (lift r).
Proof using R_refl. intros st. apply R_refl. Qed.

Lemma preserves_get_item r : preserves (get_item r).
Proof using R_refl. intros st. unfold get_item. destruct (nth_error _ _); apply R_refl. Qed.

Lemma preserves_get_self : preserves get_self.
Proof using R_refl. intros st. apply R_refl. Qed.

Lemma preserves_bind {A C} (m : M A) (f : A -> M C) :
  preserves m -> (forall a, preserves (f a)) -> preserves (bind m f).
Proof using R_trans.
  intros Hm Hf st. unfold bind. specialize (Hm st).
  destruct (m st) as [[a|e] st']; cbn [snd] in *; [|exact Hm].
  eapply R_trans; [exact Hm | apply Hf].
Qed.

Lemma preserves_try {A} (m : M A) (h : exn -> M A) :
  preserves m -> (forall e, preserves (h e)) -> preserves (try_except m h).
Proof using R_trans.
  intros Hm Hh st. unfold try_except. specialize (Hm st).
  destruct (m st) as [[a|e] st']; cbn [snd] in *; [exact Hm|].
  eapply R_trans; [exact Hm | apply Hh].
Qed.

Lemma preserves_for_each {A} (xs : list A) (body : A -> M unit) :
  (forall x, preserves (body x)) -> preserves (for_each xs body).
Proof using R_refl R_trans.
  intros Hb. induction xs as [|x xs IH]; cbn [for_each].
  - apply preserves_ret.
  - apply preserves_bind; [apply Hb | intros _; exact IH].
Qed.

Lemma preserves_fold_m {A S} (body : S -> A -> M S) (xs : list A) :
  (forall s x, preserves (body s x)) -> forall s, preserves (fold_m body s xs).
Proof using R_refl R_trans.
  intros Hb. induction xs as [|x xs IH]; intros s; cbn [fold_m].
  - apply preserves_ret.
  - apply preserves_bind; [apply Hb | intros s'; apply IH].
Qed.

Lemma preserves_for_each_in {A} (xs : list A) (body : A -> M unit) :
  (forall x, In x xs -> preserves (body x)) -> preserves (for_each xs body).
Proof using R_refl R_trans.
  induction xs as [|x xs IH]; intros Hb; cbn [for_each].
  - apply preserves_ret.
  - apply preserves_bind; [apply Hb; now left | intros _; apply IH].
    intros y Hy. apply Hb. now right.
Qed.

Lemma preserves_fold_m_in {A S} (body : S -> A -> M S) (xs : list A) :
  (forall s x, In x xs -> preserves (body s x)) ->
  forall s, preserves (fold_m body s xs).
Proof using R_refl R_trans.
  induction xs as [|x xs IH]; intros Hb s; cbn [fold_m].
  - apply preserves_ret.
  - apply preserves_bind; [apply Hb; now left | intros s'; apply IH].
    intros s0 y Hy. apply Hb. now right.
Qed.

(** A bind whose continuation is only run on results with a property the
    first command ensures. *)
Lemma preserves_bind_result {A C} (Q : A -> Prop) (m : M A) (f : A -> M C) :
  (forall st a, fst (m st) = Ok a -> Q a) ->
  preserves m -> (forall a, Q a -> preserves (f a)) -> preserves (bind m f).
Proof using R_trans.
  intros HQ Hm Hf st. unfold bind. specialize (Hm st). specialize (HQ st).
  destruct (m st) as [[a|e] st']; cbn [fst snd] in *; [|exact Hm].
  eapply R_trans; [exact Hm | apply Hf, HQ; reflexivity].
Qed.

Lemma preserves_deref rs : preserves (deref rs).
Proof using R_refl R_trans.
  unfold deref. apply preserves_fold_m. intros acc r.
  apply preserves_bind; [apply preserves_get_item | intros; apply preserves_ret].
Qed.

End Preserve.

(* ------------------------------------------------------------------ *)
(** *** The record of created entities only grows *)

(** [ledger_ext st st']: the file of created entities in [st'] is the one
    of [st] with lines added at its end. *)
Definition ledger_ext (st st' : state) : Prop :=
  exists added, imported_entities_csv st' = imported_entities_csv st ++ added.

Lemma ledger_ext_refl st : ledger_ext st st.
Proof. exists []. now rewrite app_nil_r. Qed.

Lemma ledger_ext_trans a b c : ledger_ext a b -> ledger_ext b c -> ledger_ext a c.
Proof.
  intros [t1 H1] [t2 H2]. exists (t1 ++ t2). now rewrite H2, H1, app_assoc.
Qed.

Lemma ledger_ext_same st st' :
  imported_entities_csv st' = imported_entities_csv st -> ledger_ext st st'.
Proof. intros H. exists []. now rewrite app_nil_r. Qed.

(** Taking the outcome of a write changes nothing but the outcomes to
    come. *)
Lemma take_io_keeps st o st1 :
  take_io st = (o, st1) ->
  heap st1 = heap st /\ self st1 = self st /\ backend st1 = backend st
  /\ imported_entities_csv st1 = imported_entities_csv st
  /\ failed_stories_csv st1 = failed_stories_csv st
  /\ failed_files_csv st1 = failed_files_csv st
  /\ mock_global_id st1 = mock_global_id st.
Proof.
  unfold take_io. destruct (io st); intros H; injection H as <- <-; repeat split.
Qed.

(** The state after a write, whatever its outcome. *)
Tactic Notation "after_write" constr(st) "as" ident(o) ident(st1) ident(K) :=
  let E := fresh "E" in
  destruct (take_io st) as [o st1] eqn:E;
  pose proof (take_io_keeps _ _ _ E) as K; clear E.

(** What a write to one of the three files leaves as it is. *)
Lemma write_imported_keeps entities m st :
  let st' := snd (write_to_imported_entities_csv entities m st) in
  heap st' = heap st /\ self st' = self st /\ backend st' = backend st
  /\ failed_stories_csv st' = failed_stories_csv st
  /\ failed_files_csv st' = failed_files_csv st
  /\ mock_global_id st' = mock_global_id st.
Proof.
  unfold write_to_imported_entities_csv. destruct entities as [|e es]; [repeat split|].
  after_write st as o st1 K. destruct K as (Hh & Hs & Hb & Hi & Hfs & Hff & Hm).
  cbn [snd]. destruct (io_lines o _); repeat split; assumption.
Qed.

Lemma write_failed_files_keeps fs st :
  let st' := snd (write_failed_files_csv fs st) in
  heap st' = heap st /\ self st' = self st /\ backend st' = backend st
  /\ imported_entities_csv st' = imported_entities_csv st
  /\ failed_stories_csv st' = failed_stories_csv st
  /\ mock_global_id st' = mock_global_id st.
Proof.
  unfold write_failed_files_csv. destruct fs as [|f fs]; [repeat split|].
  after_write st as o st1 K. destruct K as (Hh & Hs & Hb & Hi & Hfs & Hff & Hm).
  cbn [snd]. destruct (io_rows o _ _); repeat split; assumption.
Qed.

Lemma deref_state rs : forall acc st,
  snd (fold_m (fun acc r => it <-- get_item r ;; ret (acc ++ [it])) acc rs st) = st.
Proof.
  induction rs as [|r rs IH]; intros acc st; cbn [fold_m]; [reflexivity|].
  unfold bind at 1. unfold bind at 1. unfold get_item at 1.
  destruct (nth_error (heap st) r); [|reflexivity]. unfold ret at 1. apply IH.
Qed.

Lemma write_failed_stories_keeps rs st :
  let st' := snd (write_failed_stories rs st) in
  heap st' = heap st /\ self st' = self st /\ backend st' = backend st
  /\ imported_entities_csv st' = imported_entities_csv st
  /\ failed_files_csv st' = failed_files_csv st
  /\ mock_global_id st' = mock_global_id st.
Proof.
  unfold write_failed_stories. destruct rs as [|r rs]; [repeat split|].
  remember (r :: rs) as refs. unfold bind, deref.
  pose proof (deref_state refs [] st) as Hd.
  destruct (fold_m _ [] refs st) as [[items|e] st0]; cbn [snd] in Hd; subst st0;
    [|repeat split].
  after_write st as o st1 K. destruct K as (Hh & Hs & Hb & Hi & Hfs & Hff & Hm).
  cbn [snd]. destruct (io_rows o _ _); repeat split; assumption.
Qed.

Create HintDb ledger.

Lemma appends_put_item r it : preserves ledger_ext (put_item r it).
Proof. intros st. now apply ledger_ext_same. Qed.

Lemma appends_update_item r f : preserves ledger_ext (update_item r f).
Proof.
  unfold update_item.
  apply (preserves_bind ledger_ext ledger_ext_trans);
    [apply (preserves_get_item ledger_ext ledger_ext_refl) | intros; apply appends_put_item].
Qed.

Lemma appends_new_item it : preserves ledger_ext (new_item it).
Proof. intros st. now apply ledger_ext_same. Qed.

Lemma appends_put_self c : preserves ledger_ext (put_self c).
Proof. intros st. now apply ledger_ext_same. Qed.

Lemma appends_update_self f : preserves ledger_ext (update_self f).
Proof. intros st. now apply ledger_ext_same. Qed.

Lemma appends_call {A} (f : B -> result A * B) : preserves ledger_ext (call f).
Proof.
  intros st. unfold call. destruct (f (backend st)). now apply ledger_ext_same.
Qed.

Lemma appends_get_next_id : preserves ledger_ext _get_next_id.
Proof. intros st. now apply ledger_ext_same. Qed.

Lemma appends_write_append entities :
  preserves ledger_ext (write_to_imported_entities_csv entities mode_a).
Proof.
  intros st. unfold write_to_imported_entities_csv.
  destruct entities as [|e es]; [apply ledger_ext_refl|].
  after_write st as out st1 K. cbn [snd app].
  destruct K as (_ & _ & _ & Hi & _).
  destruct (io_lines out _) as [lines|].
  - cbn [set_imported_entities_csv imported_entities_csv]. rewrite Hi. now eexists.
  - now apply ledger_ext_same.
Qed.

Lemma appends_write_nothing m :
  preserves ledger_ext (write_to_imported_entities_csv [] m).
Proof. intros st. apply ledger_ext_refl. Qed.

#[local] Hint Resolve appends_put_item appends_update_item appends_new_item appends_put_self
  appends_update_self
  appends_call appends_get_next_id appends_write_append appends_write_nothing : ledger.

Ltac ledger_step :=
  first
    [ solve [auto with ledger]
    | apply (preserves_ret ledger_ext ledger_ext_refl)
    | apply (preserves_raise ledger_ext ledger_ext_refl)
    | apply (preserves_lift ledger_ext ledger_ext_refl)
    | apply (preserves_get_item ledger_ext ledger_ext_refl)
    | apply (preserves_get_self ledger_ext ledger_ext_refl)
    | apply (preserves_deref ledger_ext ledger_ext_refl ledger_ext_trans)
    | apply (preserves_bind ledger_ext ledger_ext_trans); [ | intros ]
    | apply (preserves_try ledger_ext ledger_ext_trans); [ | intros ]
    | apply (preserves_for_each ledger_ext ledger_ext_refl ledger_ext_trans); intros
    | apply (preserves_fold_m ledger_ext ledger_ext_refl ledger_ext_trans); intros
    | match goal with
      | |- preserves _ (match ?x with _ => _ end) => destruct x
      | |- preserves _ (if ?x then _ else _) => destruct x
      end ].

Ltac ledger := repeat ledger_step.

Lemma appends_write_failed_stories rs : preserves ledger_ext (write_failed_stories rs).
Proof. intros st. apply ledger_ext_same, write_failed_stories_keeps. Qed.

Lemma appends_write_failed_files fs : preserves ledger_ext (write_failed_files_csv fs).
Proof. intros st. apply ledger_ext_same, write_failed_files_keeps. Qed.

#[local] Hint Resolve appends_write_failed_stories appends_write_failed_files : ledger.

Lemma appends_set_comment story i c : preserves ledger_ext (set_comment story i c).
Proof. unfold set_comment. ledger. Qed.

#[local] Hint Resolve appends_set_comment : ledger.

Lemma appends_process_comment dry story pt_id files i comment failed :
  preserves ledger_ext (process_comment dry story pt_id files i comment failed).
Proof. unfold process_comment. ledger. Qed.

#[local] Hint Resolve appends_process_comment : ledger.

Lemma appends_process_comments dry story pt_id files comments : forall i failed,
  preserves ledger_ext (process_comments dry story pt_id files i comments failed).
Proof.
  induction comments as [|c comments IH]; intros i failed; cbn [process_comments].
  - ledger.
  - ledger.
Qed.

#[local] Hint Resolve appends_process_comments : ledger.

Lemma appends_process_story_files dry acc story :
  preserves ledger_ext (process_story_files dry acc story).
Proof. unfold process_story_files. ledger. Qed.

#[local] Hint Resolve appends_process_story_files : ledger.

Lemma appends_process_files_for_stories batch dry :
  preserves ledger_ext (process_files_for_stories batch dry).
Proof. unfold process_files_for_stories. ledger. Qed.

Lemma appends_clean_story story : preserves ledger_ext (clean_story story).
Proof. unfold clean_story. ledger. Qed.

Lemma appends_set_imported p : preserves ledger_ext (set_imported p).
Proof. unfold set_imported. ledger. Qed.

#[local] Hint Resolve appends_process_files_for_stories appends_clean_story
  appends_set_imported : ledger.

Lemma appends_process_batch batch done :
  preserves ledger_ext (process_batch batch done).
Proof. unfold process_batch. ledger. Qed.

#[local] Hint Resolve appends_process_batch : ledger.

(** The live backend only adds lines to the record: its initial write in
    mode 'w' is given no entity, and writes nothing. *)
Lemma appends_create_non_story done item :
  preserves ledger_ext (create_non_story done item).
Proof. unfold create_non_story. ledger. Qed.

Lemma appends_batch_story acc item : preserves ledger_ext (batch_story acc item).
Proof. unfold batch_story. ledger. Qed.

#[local] Hint Resolve appends_create_non_story appends_batch_story : ledger.

Lemma appends_sc_creator items : preserves ledger_ext (sc_creator items).
Proof. unfold sc_creator. ledger. Qed.

Lemma appends_assign_stories_to_epics stories epics :
  preserves ledger_ext (assign_stories_to_epics stories epics).
Proof. unfold assign_stories_to_epics. ledger. Qed.

Lemma appends_assign_stories_to_iterations stories iterations :
  preserves ledger_ext (assign_stories_to_iterations stories iterations).
Proof. unfold assign_stories_to_iterations. ledger. Qed.

#[local] Hint Resolve appends_sc_creator appends_assign_stories_to_epics
  appends_assign_stories_to_iterations : ledger.

Lemma appends_process_story_batch batch :
  preserves ledger_ext (process_story_batch sc_creator false batch).
Proof. unfold process_story_batch. ledger. Qed.

Lemma appends_imported_entities rs : preserves ledger_ext (imported_entities rs).
Proof. unfold imported_entities. ledger. Qed.

#[local] Hint Resolve appends_process_story_batch appends_imported_entities : ledger.

Lemma appends_commit_epics l : preserves ledger_ext (commit_epics sc_creator false l).
Proof. unfold commit_epics. ledger. Qed.

Lemma appends_commit_iterations l :
  preserves ledger_ext (commit_iterations sc_creator false l).
Proof. unfold commit_iterations. ledger. Qed.

Lemma appends_commit_story_batch l batch :
  preserves ledger_ext (commit_story_batch sc_creator false l batch).
Proof. unfold commit_story_batch. ledger. Qed.

#[local] Hint Resolve appends_commit_epics appends_commit_iterations
  appends_commit_story_batch : ledger.

Lemma appends_commit_stories l :
  preserves ledger_ext (commit_stories sc_creator false l).
Proof. unfold commit_stories. ledger. Qed.

#[local] Hint Resolve appends_commit_stories : ledger.

(** C2.  With the live backend, every phase of [commit] after the labels
    and every batch of stories leaves the lines the record of created
    entities holds where they are and only adds lines after them: what an
    earlier phase or batch recorded is still there after a later one, also
    when the later one raises. *)
Theorem ledger_append_only l st :
  ledger_ext st (snd (commit_epics sc_creator false l st))
  /\ ledger_ext st (snd (commit_iterations sc_creator false l st))
  /\ (forall batch, ledger_ext st (snd (commit_story_batch sc_creator false l batch st)))
  /\ ledger_ext st (snd (commit_stories sc_creator false l st))
  /\ ledger_ext (snd (commit_labels sc_creator false
                        {| created_entities := []; written_entities := [] |} st))
                (snd (commit sc_creator false st)).
Proof.
  repeat split.
  - apply appends_commit_epics.
  - apply appends_commit_iterations.
  - intros batch. apply appends_commit_story_batch.
  - apply appends_commit_stories.
  - unfold commit, bind at 1.
    destruct (commit_labels sc_creator false _ st) as [[l1|e] st1]; cbn [snd].
    + assert (H : preserves ledger_ext
                    (l2 <-- commit_epics sc_creator false l1 ;;
                     l3 <-- commit_iterations sc_creator false l2 ;;
                     l4 <-- commit_stories sc_creator false l3 ;;
                     ret (created_entities l4))) by ledger.
      apply H.
    + apply ledger_ext_refl.
Qed.

(* ------------------------------------------------------------------ *)
(** *** What the steps of a run keep of a record *)

(** Nothing changes the type, the source iteration id or the iteration key
    of a record, and its entity only changes at "comments" (attachments),
    "epic_id" (epic linkage) and "iteration_id" (iteration linkage). *)
Definition kept0 (it it' : item) : Prop :=
  type_ it' = type_ it
  /\ pt_iteration_id it' = pt_iteration_id it
  /\ iteration it' = iteration it
  /\ forall k, k <> "comments" -> k <> "epic_id" -> k <> "iteration_id" ->
               dict_get (entity it') k = dict_get (entity it) k.

(** Only iteration linkage changes the iteration_id of an entity, and a
    record that has an imported entity keeps one. *)
Definition kept (it it' : item) : Prop :=
  kept0 it it'
  /\ dict_get (entity it') "iteration_id" = dict_get (entity it) "iteration_id"
  /\ (imported_entity it <> None -> imported_entity it' <> None).

Lemma kept0_refl it : kept0 it it.
Proof. repeat split. Qed.

Lemma kept0_trans a b c : kept0 a b -> kept0 b c -> kept0 a c.
Proof.
  intros (H1 & H2 & H3 & H4) (G1 & G2 & G3 & G4). repeat split; try congruence.
  intros k K1 K2 K3. rewrite G4, H4 by assumption. reflexivity.
Qed.

Lemma kept_refl it : kept it it.
Proof. split; [apply kept0_refl | split; [reflexivity | exact (fun H => H)]]. Qed.

Lemma kept_trans a b c : kept a b -> kept b c -> kept a c.
Proof.
  intros (H1 & H2 & H3) (G1 & G2 & G3).
  split; [eapply kept0_trans; eassumption | split; [congruence | auto]].
Qed.

Lemma kept_kept0 a b : kept a b -> kept0 a b.
Proof. now intros [H _]. Qed.

(** [touches_only K X st st']: from [st] to [st'] the collector and the
    size of the heap are the same, the records outside [X] are the same, and
    every record is related to what it was by [K]. *)
Definition touches_only (K : item -> item -> Prop) (X : list ref) (st st' : state) : Prop :=
  self st' = self st
  /\ length (heap st') = length (heap st)
  /\ (forall r, ~ In r X -> nth_error (heap st') r = nth_error (heap st) r)
  /\ (forall r it, nth_error (heap st) r = Some it ->
                   exists it', nth_error (heap st') r = Some it' /\ K it it').

Section TouchesOnly.

Variable K : item -> item -> Prop.
Hypothesis K_refl : forall it, K it it.
Hypothesis K_trans : forall a b c, K a b -> K b c -> K a c.
Variable X : list ref.

Lemma touches_only_refl st : touches_only K X st st.
Proof using K_refl.
  repeat split; try reflexivity. intros r it H. exists it. split; [exact H | apply K_refl].
Qed.

Lemma touches_only_trans a b c :
  touches_only K X a b -> touches_only K X b c -> touches_only K X a c.
Proof using K_trans.
  intros (S1 & L1 & O1 & I1) (S2 & L2 & O2 & I2). repeat split.
  - congruence.
  - congruence.
  - intros r Hr. rewrite O2, O1 by assumption. reflexivity.
  - intros r it H. destruct (I1 _ _ H) as (it1 & H1 & K1).
    destruct (I2 _ _ H1) as (it2 & H2 & K2).
    exists it2. split; [exact H2 | eapply K_trans; eassumption].
Qed.

Lemma touches_only_same_heap st st' :
  heap st' = heap st -> self st' = self st -> touches_only K X st st'.
Proof using K_refl.
  intros Hh Hs. repeat split; try congruence.
  intros r it H. exists it. rewrite Hh. split; [exact H | apply K_refl].
Qed.

End TouchesOnly.

Lemma nth_error_list_set_same {A} (l : list A) n a :
  n < length l -> nth_error (list_set l n a) n = Some a.
Proof.
  revert n. induction l as [|x l IH]; intros [|n] H; cbn in *; try lia.
  - reflexivity.
  - apply IH. lia.
Qed.

Lemma nth_error_list_set_other {A} (l : list A) n m a :
  n <> m -> nth_error (list_set l n a) m = nth_error l m.
Proof.
  revert n m. induction l as [|x l IH]; intros [|n] [|m] H; cbn; try reflexivity.
  - now destruct H.
  - apply IH. congruence.
Qed.

Lemma length_list_set {A} (l : list A) n a : length (list_set l n a) = length l.
Proof.
  revert n. induction l as [|x l IH]; intros [|n]; cbn; try reflexivity.
  now rewrite IH.
Qed.

Lemma touches_only_update_item K X r f :
  (forall it, K it it) ->
  In r X -> (forall it, K it (f it)) ->
  preserves (touches_only K X) (update_item r f).
Proof.
  intros K_refl Hr Hf st. unfold update_item, bind, get_item, put_item.
  destruct (nth_error (heap st) r) as [it|] eqn:E; cbn [snd].
  - repeat split.
    + cbn. apply length_list_set.
    + intros r' Hr'. cbn. apply nth_error_list_set_other. intros ->. now apply Hr'.
    + intros r' it' H'. cbn [heap set_heap].
      destruct (Nat.eq_dec r r') as [<-|Hne].
      * rewrite nth_error_list_set_same by (apply nth_error_Some; congruence).
        exists (f it). split; [reflexivity|]. rewrite E in H'. injection H' as <-. apply Hf.
      * rewrite nth_error_list_set_other by assumption.
        exists it'. split; [exact H' | apply K_refl].
  - now apply touches_only_refl.
Qed.

Lemma touches_only_incl K X Y st st' :
  incl X Y -> touches_only K X st st' -> touches_only K Y st st'.
Proof.
  intros Hi (S1 & L1 & O1 & I1). repeat split; try assumption.
  intros r Hr. apply O1. intros Hin. apply Hr, Hi, Hin.
Qed.

Lemma touches_only_weaken (K K' : item -> item -> Prop) X st st' :
  (forall a b, K a b -> K' a b) -> touches_only K X st st' -> touches_only K' X st st'.
Proof.
  intros HK (S1 & L1 & O1 & I1). repeat split; try assumption.
  intros r it H. destruct (I1 _ _ H) as (it' & H' & Hk). exists it'. auto.
Qed.

Lemma touches_only_call {A} K X (f : B -> result A * B) :
  (forall it, K it it) -> preserves (touches_only K X) (call f).
Proof.
  intros K_refl st. unfold call. destruct (f (backend st)).
  now apply touches_only_same_heap.
Qed.

Lemma touches_only_get_next_id K X :
  (forall it, K it it) -> preserves (touches_only K X) _get_next_id.
Proof. intros K_refl st. now apply touches_only_same_heap. Qed.

Lemma touches_only_write K X entities m :
  (forall it, K it it) ->
  preserves (touches_only K X) (write_to_imported_entities_csv entities m).
Proof.
  intros K_refl st.
  apply touches_only_same_heap; [exact K_refl | |]; apply write_imported_keeps.
Qed.

Lemma touches_only_write_failed_files K X fs :
  (forall it, K it it) -> preserves (touches_only K X) (write_failed_files_csv fs).
Proof.
  intros K_refl st.
  apply touches_only_same_heap; [exact K_refl | |]; apply write_failed_files_keeps.
Qed.

Lemma touches_only_write_failed_stories K X rs :
  (forall it, K it it) -> (forall a b c, K a b -> K b c -> K a c) ->
  preserves (touches_only K X) (write_failed_stories rs).
Proof.
  intros K_refl K_trans st.
  apply touches_only_same_heap; [exact K_refl | |]; apply write_failed_stories_keeps.
Qed.

(** The assignments of a run keep what [kept] says. *)
Lemma kept_with_imported_entity c it : kept it (with_imported_entity it c).
Proof. repeat split. discriminate. Qed.

Lemma kept_with_error_message msg it : kept it (with_error_message it msg).
Proof. repeat split. exact (fun H => H). Qed.

Lemma kept_with_entity it e :
  touches ["comments"; "epic_id"] (entity it) e ->
  kept it (with_entity it e).
Proof. forget_run.
  intros H. repeat split; cbn [entity with_entity].
  - intros k K1 K2 K3. apply H. cbn [In]. intuition congruence.
  - apply H. cbn [In]. intuition discriminate.
  - exact (fun G => G).
Qed.

Lemma kept0_with_entity it e :
  touches ["comments"; "epic_id"; "iteration_id"] (entity it) e ->
  kept0 it (with_entity it e).
Proof. forget_run.
  intros H. repeat split; cbn [entity with_entity].
  intros k K1 K2 K3. apply H. cbn [In]. intuition congruence.
Qed.

Lemma kept_with_comment i c it : kept it (with_comment i c it).
Proof.
  unfold with_comment.
  destruct (dict_get (entity it) "comments") as [[| | | | |cs|]|]; try apply kept_refl.
  pose proof (kept_with_entity it (dict_set (entity it) "comments"
                                     (VList (list_set cs i c)))) as H.
  apply H. eapply touches_incl; [apply touches_set|]. intros k [<-|[]]. now left.
Qed.

Lemma kept_with_comments cs it : kept it (with_comments it cs).
Proof.
  pose proof (kept_with_entity it (dict_set (entity it) "comments" (VList cs))) as H.
  apply H. eapply touches_incl; [apply touches_set|]. intros k [<-|[]]. now left.
Qed.

Lemma kept0_set_iteration_id x it : kept0 it (set_iteration_id x it).
Proof. forget_run.
  destruct x as [id|]; [|apply kept0_refl].
  apply kept0_with_entity.
  eapply touches_incl; [apply touches_set|]. intros k [<-|[]]. cbn [In]. tauto.
Qed.

Lemma assign_story_to_epic_touches m e :
  touches ["epic_id"] e (fst (assign_story_to_epic m e)).
Proof.
  unfold assign_story_to_epic.
  destruct (py_iter _) as [labels|]; [|apply touches_refl].
  revert e. induction labels as [|label labels IH]; intros e; cbn [loop fst].
  - apply touches_refl.
  - destruct (assign_label m e label) as [e1|] eqn:E1; [|apply touches_refl].
    intros k Hk. rewrite (IH e1 k Hk).
    unfold assign_label in E1.
    destruct (py_index label "name") as [name|]; [|discriminate].
    cbn [rbind] in E1.
    destruct (hash_key name) as [hk|]; [|discriminate].
    cbn [rbind] in E1.
    destruct (emap_get m hk); apply Ok_inj in E1; subst e1; [|reflexivity].
    apply dict_get_set_other. intros E. apply Hk. now left.
Qed.

Lemma kept_assign_story_to_epic m it :
  kept it (with_entity it (fst (assign_story_to_epic m (entity it)))).
Proof. forget_run.
  apply kept_with_entity.
  eapply touches_incl; [apply assign_story_to_epic_touches|].
  intros k [<-|[]]. cbn [In]. tauto.
Qed.

Create HintDb frame.

#[local] Hint Resolve kept_refl kept0_refl kept_with_imported_entity
  kept_with_error_message kept_with_comment kept_with_comments
  kept_assign_story_to_epic kept0_set_iteration_id : frame.

(** Steps under [touches_only kept X]. *)
Ltac frame_step Rrefl Rtrans :=
  first
    [ solve [eauto with frame]
    | apply (preserves_ret _ Rrefl)
    | apply (preserves_raise _ Rrefl)
    | apply (preserves_lift _ Rrefl)
    | apply (preserves_get_item _ Rrefl)
    | apply (preserves_get_self _ Rrefl)
    | apply (preserves_deref _ Rrefl Rtrans)
    | apply touches_only_call; solve [eauto with frame]
    | apply touches_only_get_next_id; solve [eauto with frame]
    | apply touches_only_write; solve [eauto with frame]
    | apply touches_only_write_failed_files; solve [eauto with frame]
    | apply touches_only_write_failed_stories; solve [eauto using kept_trans, kept0_trans with frame]
    | apply touches_only_update_item; solve [eauto with frame]
    | apply (preserves_bind _ Rtrans); [ | intros ]
    | apply (preserves_try _ Rtrans); [ | intros ]
    | apply (preserves_for_each_in _ Rrefl Rtrans); intros
    | apply (preserves_fold_m_in _ Rrefl Rtrans); intros
    | match goal with
      | |- preserves _ (match ?x with _ => _ end) => destruct x
      | |- preserves _ (if ?x then _ else _) => destruct x
      end ].

Ltac frame_kept X :=
  repeat frame_step (touches_only_refl kept kept_refl X)
                    (touches_only_trans kept kept_trans X).

Ltac frame_kept0 X :=
  repeat frame_step (touches_only_refl kept0 kept0_refl X)
                    (touches_only_trans kept0 kept0_trans X).

Lemma frame_set_comment X story i c :
  In story X -> preserves (touches_only kept X) (set_comment story i c).
Proof. intros H. unfold set_comment. frame_kept X. Qed.

#[local] Hint Resolve frame_set_comment : frame.

Lemma frame_process_comment X dry story pt_id files i comment failed :
  In story X ->
  preserves (touches_only kept X)
            (process_comment dry story pt_id files i comment failed).
Proof. intros H. unfold process_comment. frame_kept X. Qed.

#[local] Hint Resolve frame_process_comment : frame.

Lemma frame_process_comments X dry story pt_id files comments :
  In story X ->
  forall i failed,
    preserves (touches_only kept X)
              (process_comments dry story pt_id files i comments failed).
Proof.
  intros H. induction comments as [|c comments IH]; intros i failed;
    cbn [process_comments]; frame_kept X.
Qed.

#[local] Hint Resolve frame_process_comments : frame.

Lemma frame_process_story_files X dry acc story :
  In story X ->
  preserves (touches_only kept X) (process_story_files dry acc story).
Proof. intros H. unfold process_story_files. frame_kept X. Qed.

#[local] Hint Resolve frame_process_story_files : frame.

Lemma frame_process_files_for_stories batch dry :
  preserves (touches_only kept batch) (process_files_for_stories batch dry).
Proof. unfold process_files_for_stories. frame_kept batch. Qed.

Lemma frame_assign_stories_to_epics stories epics :
  preserves (touches_only kept stories) (assign_stories_to_epics stories epics).
Proof. unfold assign_stories_to_epics. frame_kept stories. Qed.

Lemma frame_assign_stories_to_iterations stories iterations :
  preserves (touches_only kept0 stories)
            (assign_stories_to_iterations stories iterations).
Proof. unfold assign_stories_to_iterations. frame_kept0 stories. Qed.

(* ------------------------------------------------------------------ *)
(** *** Runs that return *)

Lemma bind_ok {A C} (m : M A) (f : A -> M C) st c st' :
  bind m f st = (Ok c, st') ->
  exists a st1, m st = (Ok a, st1) /\ f a st1 = (Ok c, st').
Proof.
  unfold bind. destruct (m st) as [[a|e] st1]; [eauto | discriminate].
Qed.

Ltac inv_run H :=
  let a := fresh "a" in
  let st1 := fresh "st" in
  let Ha := fresh "R" in
  apply bind_ok in H; destruct H as (a & st1 & Ha & H).

(** The same, with names for the result, the state and the equation of the
    first command. *)
Tactic Notation "run_inv" hyp(H) "as" ident(a) ident(st1) ident(Ha) :=
  apply bind_ok in H; destruct H as (a & st1 & Ha & H).

Lemma fold_m_result {A S} (I : S -> Prop) (body : S -> A -> M S) (xs : list A) :
  (forall s x st s' st', In x xs -> I s -> body s x st = (Ok s', st') -> I s') ->
  forall s st s' st', I s -> fold_m body s xs st = (Ok s', st') -> I s'.
Proof.
  induction xs as [|x xs IH]; intros Hb s st s' st' Hs H; cbn [fold_m] in H.
  - injection H as <- _. exact Hs.
  - inv_run H. eapply (IH (fun s x st s' st' Hx => Hb s x st s' st' (or_intror Hx)));
      [|exact H].
    eapply Hb; [now left | exact Hs | exact R].
Qed.

(** The stories whose files are processed are stories of the batch. *)
Lemma process_files_for_stories_result batch dry st out st' :
  process_files_for_stories batch dry st = (Ok out, st') -> incl out batch.
Proof.
  unfold process_files_for_stories. intros H. inv_run H.
  destruct a as [[successful failed] all_failed].
  inv_run H. injection H as <- _.
  apply (fold_m_result (fun acc => incl (fst (fst acc)) batch)
           (process_story_files dry) batch) in R; [exact R | | intros x []].
  clear. intros [[succ failed] all_failed] story st s' st' Hin Hs H.
  cbn [fst] in Hs.
  assert (Hadd : incl (succ ++ [story]) batch).
  { intros x Hx. apply in_app_or in Hx. destruct Hx as [Hx|[<-|[]]]; auto. }
  unfold process_story_files in H. inv_run H. inv_run H.
  destruct (story_files a0).
  - inv_run H. inv_run H. destruct (fst a2); injection H as <- _; assumption.
  - injection H as <- _. exact Hadd.
Qed.

(** What [commit] needs of an emitter: it leaves the collector alone, only
    touches the records it is given, keeping what [kept] says; the records
    it returns are among those it was given, are all of them when they are
    iterations, and have an imported entity. *)
Definition emitter_ok (emitter : list ref -> M (list ref)) : Prop :=
  forall refs st,
    touches_only kept refs st (snd (emitter refs st))
    /\ forall out,
         fst (emitter refs st) = Ok out ->
         incl out refs
         /\ (Forall (fun r => exists it, nth_error (heap st) r = Some it
                                         /\ type_ it = "iteration") refs ->
             out = refs)
         /\ Forall (fun r => exists it c,
                        nth_error (heap (snd (emitter refs st))) r = Some it
                        /\ imported_entity it = Some c) out.

Lemma preserves_weaken (R R' : state -> state -> Prop) {A} (m : M A) :
  (forall st st', R st st' -> R' st st') -> preserves R m -> preserves R' m.
Proof. intros H Hm st. apply H, Hm. Qed.

Section WithEmitter.

Variable emitter : list ref -> M (list ref).
Variable is_dry_run : bool.
Hypothesis emitter_contract : emitter_ok emitter.

Lemma frame_emitter X refs :
  incl refs X -> preserves (touches_only kept X) (emitter refs).
Proof using emitter_contract.
  intros Hi st. eapply touches_only_incl; [exact Hi|]. apply emitter_contract.
Qed.

Lemma frame_process_story_batch batch :
  preserves (touches_only kept batch) (process_story_batch emitter is_dry_run batch).
Proof using emitter_contract.
  unfold process_story_batch.
  apply (preserves_bind_result _ (touches_only_trans kept kept_trans batch)
           (fun out => incl out batch)).
  - intros st out H.
    destruct (process_files_for_stories batch is_dry_run st) as [r st'] eqn:E.
    cbn [fst] in H. subst r. exact (process_files_for_stories_result _ _ _ _ _ E).
  - apply frame_process_files_for_stories.
  - intros processed Hi.
    apply (preserves_try _ (touches_only_trans kept kept_trans batch)).
    + now apply frame_emitter.
    + intros e. frame_kept batch.
Qed.

Lemma frame_imported_entities K X rs :
  (forall it, K it it) -> (forall a b c, K a b -> K b c -> K a c) ->
  preserves (touches_only K X) (imported_entities rs).
Proof.
  intros K_refl K_trans. unfold imported_entities.
  apply preserves_bind; [now apply touches_only_trans | |].
  - apply preserves_deref; [now apply touches_only_refl | now apply touches_only_trans].
  - intros items. apply preserves_lift. now apply touches_only_refl.
Qed.

Lemma frame_commit_story_batch l batch :
  preserves (touches_only kept0 batch) (commit_story_batch emitter is_dry_run l batch).
Proof using emitter_contract.
  unfold commit_story_batch.
  pose proof (fun st st' => touches_only_weaken kept kept0 batch st st' kept_kept0) as W.
  apply (preserves_bind _ (touches_only_trans kept0 kept0_trans batch));
    [frame_kept0 batch | intros c].
  apply (preserves_bind _ (touches_only_trans kept0 kept0_trans batch));
    [apply (preserves_weaken _ _ _ W), frame_assign_stories_to_epics | intros _].
  apply (preserves_bind _ (touches_only_trans kept0 kept0_trans batch));
    [apply frame_assign_stories_to_iterations | intros _].
  apply (preserves_bind _ (touches_only_trans kept0 kept0_trans batch));
    [apply (preserves_weaken _ _ _ W), frame_process_story_batch | intros created_batch].
  destruct (negb is_dry_run).
  - apply (preserves_bind _ (touches_only_trans kept0 kept0_trans batch));
      [apply frame_imported_entities; [apply kept0_refl | apply kept0_trans] | intros].
    frame_kept0 batch.
  - apply (preserves_bind _ (touches_only_trans kept0 kept0_trans batch));
      [apply frame_imported_entities; [apply kept0_refl | apply kept0_trans] | intros].
    frame_kept0 batch.
Qed.

End WithEmitter.

(* ------------------------------------------------------------------ *)
(** *** The phases before the stories *)

(** [grows st st']: the stories and the iteration keys of the collector are
    the same, and the heap has the records it had, kept. *)
Definition grows (st st' : state) : Prop :=
  stories (self st') = stories (self st)
  /\ iteration_strings (self st') = iteration_strings (self st)
  /\ length (heap st) <= length (heap st')
  /\ (forall r it, nth_error (heap st) r = Some it ->
                   exists it', nth_error (heap st') r = Some it' /\ kept it it').

Lemma grows_refl st : grows st st.
Proof.
  repeat split; try reflexivity. intros r it H. exists it. split; [exact H | apply kept_refl].
Qed.

Lemma grows_trans a b c : grows a b -> grows b c -> grows a c.
Proof.
  intros (S1 & T1 & L1 & I1) (S2 & T2 & L2 & I2). repeat split; try congruence.
  - lia.
  - intros r it H. destruct (I1 _ _ H) as (it1 & H1 & K1).
    destruct (I2 _ _ H1) as (it2 & H2 & K2).
    exists it2. split; [exact H2 | eapply kept_trans; eassumption].
Qed.

Lemma touches_only_grows X st st' : touches_only kept X st st' -> grows st st'.
Proof.
  intros (S1 & L1 & O1 & I1). repeat split; try congruence; [lia | exact I1].
Qed.

Lemma grows_of_frame {A} X (m : M A) :
  preserves (touches_only kept X) m -> preserves grows m.
Proof. apply preserves_weaken. apply touches_only_grows. Qed.

Lemma grows_new_item it : preserves grows (new_item it).
Proof.
  intros st. unfold new_item. cbn [snd]. repeat split; cbn.
  - rewrite length_app. lia.
  - intros r it0 H. exists it0. split; [|apply kept_refl].
    rewrite nth_error_app1; [exact H | apply nth_error_Some; congruence].
Qed.

Lemma grows_update_self f :
  (forall c, stories (f c) = stories c /\ iteration_strings (f c) = iteration_strings c) ->
  preserves grows (update_self f).
Proof.
  intros Hf st. unfold update_self, bind, get_self, put_self. cbn.
  destruct (Hf (self st)) as [H1 H2]. repeat split; cbn; try assumption; try lia.
  intros r it H. exists it. split; [exact H | apply kept_refl].
Qed.

(** The heap and the collector after a command that touches no record. *)
Lemma touches_nothing K st st' :
  touches_only K [] st st' -> heap st' = heap st /\ self st' = self st.
Proof.
  intros (S1 & L1 & O1 & I1). split; [|exact S1].
  apply nth_error_ext. intros n. apply O1. intros [].
Qed.

Lemma iteration_entity_ok key it :
  iteration_entity key = Ok it ->
  exists id s e,
    split_pipe key = [id; s; e]
    /\ type_ it = "iteration"
    /\ pt_iteration_id it = VStr id
    /\ dict_get (entity it) "start_date" = Some (VStr s)
    /\ dict_get (entity it) "end_date" = Some (VStr e).
Proof.
  unfold iteration_entity.
  destruct (split_pipe key) as [|id [|s [|e [|x l]]]]; try discriminate.
  intros H. apply Ok_inj in H. subst it. exists id, s, e. repeat split.
Qed.

Lemma rmap_length {A C} (f : A -> result C) l : forall l',
  rmap f l = Ok l' -> length l' = length l.
Proof.
  induction l as [|x l IH]; intros l' H; cbn [rmap] in H.
  - apply Ok_inj in H. now subst l'.
  - inv_bind H. inv_bind H. apply Ok_inj in H. subst l'. cbn. now rewrite (IH _ E0).
Qed.

Lemma rmap_nth {A C} (f : A -> result C) l : forall l' i y,
  rmap f l = Ok l' -> nth_error l' i = Some y ->
  exists x, nth_error l i = Some x /\ f x = Ok y.
Proof.
  induction l as [|x l IH]; intros l' i y H Hi; cbn [rmap] in H.
  - apply Ok_inj in H. subst l'. now destruct i.
  - inv_bind H. inv_bind H. apply Ok_inj in H. subst l'.
    destruct i as [|i]; cbn in Hi.
    + injection Hi as <-. exists x. now split.
    + destruct (IH _ _ _ E0 Hi) as (x' & Hx' & Hf). exists x'. now split.
Qed.

(** The loop of [commit] that makes the iterations to create: one new
    record for each iteration key, in order. *)
Lemma alloc_iterations keys : forall acc st refs st',
  fold_m (fun acc iteration_string =>
            it <-- lift (iteration_entity iteration_string) ;;
            r <-- new_item it ;;
            ret (acc ++ [r]))
         acc keys st = (Ok refs, st') ->
  exists items,
    rmap iteration_entity keys = Ok items
    /\ heap st' = heap st ++ items
    /\ refs = acc ++ seq (length (heap st)) (length keys)
    /\ self st' = self st.
Proof.
  induction keys as [|key keys IH]; intros acc st refs st' H; cbn [fold_m] in H.
  - injection H as <- <-. exists []. repeat split; cbn; now rewrite app_nil_r.
  - inv_run H. inv_run R. inv_run R.
    unfold lift in R0. injection R0 as R0 <-.
    unfold new_item in R1. injection R1 as <- <-.
    injection R as <- <-.
    destruct (IH _ _ _ _ H) as (items & Hitems & Hheap & Hrefs & Hself).
    exists (a0 :: items). cbn [rmap]. rewrite R0, Hitems. cbn [rbind].
    repeat split.
    + rewrite Hheap. cbn [heap set_heap]. now rewrite <- app_assoc.
    + rewrite Hrefs. cbn [heap set_heap length seq]. rewrite length_app. cbn [length].
      rewrite <- app_assoc. cbn [app]. now rewrite Nat.add_1_r.
    + rewrite Hself. reflexivity.
Qed.

(** The record at [t] is the iteration created for the iteration key. *)
Definition created_for (st : state) (t : ref) (key : string) : Prop :=
  exists it c id s e,
    split_pipe key = [id; s; e]
    /\ nth_error (heap st) t = Some it
    /\ type_ it = "iteration"
    /\ pt_iteration_id it = VStr id
    /\ dict_get (entity it) "start_date" = Some (VStr s)
    /\ dict_get (entity it) "end_date" = Some (VStr e)
    /\ imported_entity it = Some c.

Lemma created_for_alloc (st' : state) keys : forall items n,
  rmap iteration_entity keys = Ok items ->
  (forall i it, nth_error items i = Some it ->
                exists it' c, nth_error (heap st') (n + i) = Some it'
                              /\ kept it it' /\ imported_entity it' = Some c) ->
  Forall2 (created_for st') (seq n (length keys)) keys.
Proof.
  induction keys as [|key keys IH]; intros items n Hitems Hall; cbn [length seq].
  - constructor.
  - cbn [rmap] in Hitems. inv_bind Hitems. inv_bind Hitems.
    apply Ok_inj in Hitems. subst items.
    constructor.
    + destruct (Hall 0 x eq_refl) as (it' & c & Hn & ((Kt & Kp & _ & Ke) & _) & Hc).
      rewrite Nat.add_0_r in Hn.
      destruct (iteration_entity_ok _ _ E) as (id & s & e & Hs & Hty & Hp & Hsd & Hed).
      exists it', c, id, s, e. repeat split; try assumption; try congruence.
      * rewrite Ke by discriminate. exact Hsd.
      * rewrite Ke by discriminate. exact Hed.
    + apply (IH x0 (S n) E0). intros i it Hi.
      destruct (Hall (S i) it Hi) as (it' & c & Hn & Hk & Hc).
      exists it', c. rewrite Nat.add_succ_comm. auto.
Qed.

Section Phases.

Variable emitter : list ref -> M (list ref).
Variable is_dry_run : bool.
Hypothesis emitter_contract : emitter_ok emitter.

Lemma grows_emitter refs : preserves grows (emitter refs).
Proof using emitter_contract.
  intros st. eapply touches_only_grows. apply emitter_contract.
Qed.

Ltac grow_step :=
  first
    [ apply grows_emitter
    | apply grows_new_item
    | apply grows_update_self; intros; split; reflexivity
    | apply (preserves_ret _ grows_refl)
    | apply (preserves_raise _ grows_refl)
    | apply (preserves_lift _ grows_refl)
    | apply (preserves_get_item _ grows_refl)
    | apply (preserves_get_self _ grows_refl)
    | apply (preserves_deref _ grows_refl grows_trans)
    | apply (grows_of_frame []); solve [frame_kept (@nil ref)]
    | apply (preserves_bind _ grows_trans); [ | intros ]
    | apply (preserves_for_each _ grows_refl grows_trans); intros
    | apply (preserves_fold_m _ grows_refl grows_trans); intros
    | match goal with
      | |- preserves _ (match ?x with _ => _ end) => destruct x
      | |- preserves _ (if ?x then _ else _) => destruct x
      end ].

Lemma grows_imported_entities rs : preserves grows (imported_entities rs).
Proof. unfold imported_entities. repeat grow_step. Qed.

Lemma grows_commit_labels l : preserves grows (commit_labels emitter is_dry_run l).
Proof using emitter_contract.
  unfold commit_labels.
  repeat first [apply grows_imported_entities | grow_step].
Qed.

Lemma grows_commit_epics l : preserves grows (commit_epics emitter is_dry_run l).
Proof using emitter_contract.
  unfold commit_epics.
  repeat first [apply grows_imported_entities | grow_step].
Qed.

Lemma grows_commit_iterations l :
  preserves grows (commit_iterations emitter is_dry_run l).
Proof using emitter_contract.
  unfold commit_iterations.
  repeat first [apply grows_imported_entities | grow_step].
Qed.

(** The iterations phase creates one iteration for each iteration key, in
    the order in which the set of keys is iterated, in new records. *)
Lemma commit_iterations_spec l st l' st' :
  commit_iterations emitter is_dry_run l st = (Ok l', st') ->
  (forall t, In t (iterations (self st')) -> length (heap st) <= t)
  /\ Forall2 (created_for st') (iterations (self st'))
             (set_order (iteration_strings (self st))).
Proof using emitter_contract.
  unfold commit_iterations. intros H.
  inv_run H. injection R as <- <-.
  inv_run H. inv_run H. inv_run H.
  destruct (alloc_iterations _ _ _ _ _ R) as (items & Hitems & Hheap & Hrefs & Hself).
  cbn [app] in Hrefs.
  (* the emitter creates them all *)
  destruct (emitter_contract a st0) as [Hframe Hout].
  rewrite R0 in Hframe, Hout. cbn [fst snd] in Hframe, Hout.
  destruct (Hout a0 eq_refl) as (_ & Hall & Himp).
  pose proof (rmap_length _ _ _ Hitems) as Hlen.
  assert (Ha0 : a0 = a).
  { apply Hall. apply Forall_forall. intros r Hr. rewrite Hrefs in Hr.
    apply in_seq in Hr. destruct Hr as [Hlo Hhi].
    destruct (nth_error items (r - length (heap st))) as [it|] eqn:Eit.
    - exists it. split.
      + rewrite Hheap, nth_error_app2 by lia. exact Eit.
      + destruct (rmap_nth _ _ _ _ _ Hitems Eit) as (key & _ & Hkey).
        destruct (iteration_entity_ok _ _ Hkey) as (? & ? & ? & _ & Hty & _). exact Hty.
    - exfalso. apply nth_error_None in Eit. lia. }
  subst a0.
  (* the rest of the phase touches no record *)
  unfold update_self, bind, get_self, put_self in R1. injection R1 as _ <-.
  assert (Htail : heap st' = heap st1 /\ self st' = with_iterations (self st1) a).
  { match type of H with
    | ?m _ = _ =>
        assert (P : preserves (touches_only kept []) m)
          by (repeat first [ apply frame_imported_entities;
                             [apply kept_refl | apply kept_trans]
                           | frame_step (touches_only_refl kept kept_refl (@nil ref))
                               (touches_only_trans kept kept_trans (@nil ref)) ]);
        specialize (P (set_self st1 (with_iterations (self st1) a)));
        rewrite H in P; apply touches_nothing in P; exact P
    end. }
  destruct Htail as [Hh Hs]. rewrite Hs. cbn [iterations with_iterations].
  split.
  - intros t Ht. rewrite Hrefs in Ht. apply in_seq in Ht. lia.
  - rewrite Hrefs.
    apply (created_for_alloc st' _ items (length (heap st)) Hitems).
    intros i it Hi.
    destruct Hframe as (_ & _ & _ & Hk).
    assert (Hat : nth_error (heap st0) (length (heap st) + i) = Some it).
    { rewrite Hheap, nth_error_app2 by lia.
      replace (length (heap st) + i - length (heap st)) with i by lia. exact Hi. }
    destruct (Hk _ _ Hat) as (it' & Hit' & Hkept).
    assert (Hin : In (length (heap st) + i) a).
    { rewrite Hrefs. apply in_seq. split; [lia|].
      assert (i < length items) by (apply nth_error_Some; congruence). lia. }
    rewrite Forall_forall in Himp.
    destruct (Himp _ Hin) as (it'' & c & Hit'' & Hc).
    rewrite Hit' in Hit''. injection Hit'' as <-.
    exists it', c. rewrite Hh. auto.
Qed.

End Phases.

(* ------------------------------------------------------------------ *)
(** *** Iteration linkage *)

(** A story that has a source iteration id carries the target id the
    mapping holds for it. *)
Definition linked (m : iteration_map) (it : item) : Prop :=
  truthy (pt_iteration_id it) = true ->
  exists id, imap_get m (py_str (pt_iteration_id it)) = Some id
             /\ dict_get (entity it) "iteration_id" = Some (VInt id).

Definition linked_at (m : iteration_map) (st : state) (r : ref) : Prop :=
  exists it, nth_error (heap st) r = Some it /\ linked m it.

Lemma linked_kept m it it' : kept it it' -> linked m it -> linked m it'.
Proof.
  intros ((_ & Hp & _) & Hi & _) Hl Ht. rewrite Hp in *. rewrite Hi. now apply Hl.
Qed.

Lemma linked_at_frame m X st st' r :
  touches_only kept X st st' -> linked_at m st r -> linked_at m st' r.
Proof.
  intros (_ & _ & _ & Hk) (it & Hit & Hl).
  destruct (Hk _ _ Hit) as (it' & Hit' & Hkept).
  exists it'. split; [exact Hit' | eapply linked_kept; eassumption].
Qed.

Lemma deref_ok rs : forall acc st items st',
  fold_m (fun acc r => it <-- get_item r ;; ret (acc ++ [it])) acc rs st = (Ok items, st') ->
  st' = st
  /\ exists read, items = acc ++ read
                  /\ Forall2 (fun r it => nth_error (heap st) r = Some it) rs read.
Proof.
  induction rs as [|r rs IH]; intros acc st items st' H; cbn [fold_m] in H.
  - injection H as <- <-. split; [reflexivity|]. exists []. now rewrite app_nil_r.
  - inv_run H. inv_run R. injection R as <- <-.
    unfold get_item in R0.
    destruct (nth_error (heap st) r) as [it|] eqn:E; [|discriminate].
    injection R0 as <- <-.
    destruct (IH _ _ _ _ H) as (-> & read & -> & Hread).
    split; [reflexivity|]. exists (it :: read). rewrite <- app_assoc. split; [reflexivity|].
    now constructor.
Qed.

Lemma Forall2_at_functional (h : list item) rs : forall xs ys,
  Forall2 (fun r it => nth_error h r = Some it) rs xs ->
  Forall2 (fun r it => nth_error h r = Some it) rs ys ->
  xs = ys.
Proof.
  induction rs as [|r rs IH]; intros xs ys Hx Hy; inversion Hx; inversion Hy; subst.
  - reflexivity.
  - f_equal; [congruence | now apply IH].
Qed.

Lemma lookup_links m it x :
  lookup_iteration m it = Ok x -> linked m (set_iteration_id x it).
Proof.
  unfold lookup_iteration, linked. intros H.
  assert (Hp : pt_iteration_id (set_iteration_id x it) = pt_iteration_id it)
    by (now destruct x).
  rewrite Hp. intros Ht. rewrite Ht in H.
  destruct (imap_get m (py_str (pt_iteration_id it))) as [id|]; [|discriminate].
  apply Ok_inj in H. subst x. exists id. split; [reflexivity|].
  cbn [set_iteration_id entity with_entity]. apply dict_get_set_same.
Qed.

(** The loop of [assign_stories_to_iterations]. *)
Lemma assign_iterations_loop m stories : forall st st',
  for_each stories
    (fun story =>
       it <-- get_item story ;;
       sc_iteration_id <-- lift (lookup_iteration m it) ;;
       update_item story (set_iteration_id sc_iteration_id)) st = (Ok tt, st') ->
  forall r, In r stories \/ linked_at m st r -> linked_at m st' r.
Proof.
  induction stories as [|story stories IH]; intros st st' H r Hr; cbn [for_each] in H.
  - injection H as <-. destruct Hr as [[]|Hr]; exact Hr.
  - inv_run H. inv_run R. inv_run R.
    unfold get_item in R0.
    destruct (nth_error (heap st) story) as [it|] eqn:E; [|discriminate].
    injection R0 as <- <-.
    unfold lift in R1. injection R1 as R1 <-.
    unfold update_item, bind, get_item, put_item in R. rewrite E in R.
    injection R as _ <-.
    apply (IH _ _ H).
    destruct (Nat.eq_dec r story) as [->|Hne].
    + right. exists (set_iteration_id a1 it). split.
      * cbn [heap set_heap]. apply nth_error_list_set_same.
        apply nth_error_Some. congruence.
      * now apply lookup_links.
    + destruct Hr as [[Heq|Hin]|(it0 & Hit0 & Hl)].
      * now destruct Hne.
      * now left.
      * right. exists it0. split; [|exact Hl].
        cbn [heap set_heap]. rewrite nth_error_list_set_other by congruence. exact Hit0.
Qed.

Lemma assign_stories_to_iterations_spec stories iterations st out st' :
  assign_stories_to_iterations stories iterations st = (Ok out, st') ->
  exists items m,
    Forall2 (fun t it => nth_error (heap st) t = Some it) iterations items
    /\ collect_pt_iteration_mapping items = Ok m
    /\ forall r, In r stories \/ linked_at m st r -> linked_at m st' r.
Proof.
  unfold assign_stories_to_iterations. intros H.
  run_inv H as items s1 Hderef. unfold deref in Hderef.
  destruct (deref_ok _ _ _ _ _ Hderef) as (-> & read & -> & Hread). cbn [app] in *.
  run_inv H as m s2 Hmap. unfold lift in Hmap. injection Hmap as Hmap <-.
  run_inv H as u s3 Hloop. destruct u. injection H as _ <-.
  exists read, m. repeat split; try assumption.
  now apply assign_iterations_loop.
Qed.

(* ------------------------------------------------------------------ *)
(** *** The mapping from source iteration ids *)

Lemma imap_get_set_same m k v : imap_get (imap_set m k v) k = Some v.
Proof.
  induction m as [|[k' v'] m IH]; cbn.
  - now rewrite String.eqb_refl.
  - destruct (String.eqb k' k) eqn:E; cbn.
    + now rewrite String.eqb_refl.
    + now rewrite E.
Qed.

Lemma imap_get_set_other m k k' v :
  k <> k' -> imap_get (imap_set m k v) k' = imap_get m k'.
Proof.
  intros Hne. apply String.eqb_neq in Hne.
  induction m as [|[k0 v0] m IH]; cbn.
  - now rewrite Hne.
  - destruct (String.eqb k0 k) eqn:E; cbn.
    + apply String.eqb_eq in E. subst k0. now rewrite Hne.
    + now rewrite IH.
Qed.

(** The record is an iteration created for the iteration key. *)
Definition iteration_of (it : item) (key : string) : Prop :=
  exists id rest c,
    split_pipe key = id :: rest
    /\ pt_iteration_id it = VStr id
    /\ imported_entity it = Some c.

(** The mapping holds for a source id the target id of the iteration
    created last for a key of that id; it holds what it held before when no
    key is of that id. *)
Lemma mapping_last id items : forall keys m0 m,
  Forall2 iteration_of items keys ->
  loop collect_iteration m0 items = (m, None) ->
  (imap_get m id = imap_get m0 id
   /\ forall key rest, In key keys -> split_pipe key <> id :: rest)
  \/ exists i it key c,
       nth_error items i = Some it
       /\ nth_error keys i = Some key
       /\ (exists rest, split_pipe key = id :: rest)
       /\ (forall j key' rest,
             i < j -> nth_error keys j = Some key' -> split_pipe key' <> id :: rest)
       /\ imported_entity it = Some c
       /\ imap_get m id = Some (created_id c).
Proof.
  induction items as [|it0 items IH]; intros keys m0 m HF H.
  - inversion HF; subst. cbn [loop] in H. injection H as <-.
    left. split; [reflexivity | intros key rest []].
  - inversion HF as [|? key0 ? keys' (id0 & rest0 & c0 & Hs0 & Hp0 & Hc0) HF']; subst.
    cbn [loop] in H. unfold collect_iteration, imported_of in H. rewrite Hc0, Hp0 in H.
    cbn [rbind py_str] in H.
    destruct (IH keys' _ _ HF' H) as [(Hget & Hno)|(i & it & key & c & H1 & H2 & H3 & H4 & H5 & H6)].
    + destruct (string_dec id0 id) as [->|Hne].
      * right. exists 0, it0, key0, c0. cbn [nth_error].
        split; [reflexivity|]. split; [reflexivity|].
        split; [now exists rest0|]. split.
        { intros [|j] key' rest Hj Hk; [lia|]. cbn [nth_error] in Hk.
          apply (Hno key' rest). eapply nth_error_In, Hk. }
        split; [exact Hc0|]. rewrite Hget. apply imap_get_set_same.
      * left. split.
        { rewrite Hget. now apply imap_get_set_other. }
        intros key rest [<-|Hin]; [|now apply Hno].
        rewrite Hs0. intros E. injection E as E _. contradiction.
    + right. exists (S i), it, key, c. cbn [nth_error].
      repeat (split; [assumption|]). split; [|split; assumption].
      intros [|j] key' rest Hj Hk; [lia|]. cbn [nth_error] in Hk.
      apply (H4 j key' rest); [lia | exact Hk].
Qed.

Lemma Forall2_nth_error_r {A C} (P : A -> C -> Prop) xs ys :
  Forall2 P xs ys ->
  forall i y, nth_error ys i = Some y ->
              exists x, nth_error xs i = Some x /\ P x y.
Proof.
  induction 1 as [|x y0 xs ys Hp HF IH]; intros [|i] y Hy; cbn [nth_error] in *;
    try discriminate.
  - injection Hy as <-. now exists x.
  - now apply IH.
Qed.

(* ------------------------------------------------------------------ *)
(** *** The batches of stories *)

Lemma concat_chunks_from {A} n : forall fuel (l : list A),
  0 < n -> length l <= fuel -> concat (chunks_from fuel n l) = l.
Proof.
  induction fuel as [|fuel IH]; intros l Hn Hl; cbn [chunks_from].
  - destruct l; [reflexivity | cbn in Hl; lia].
  - destruct l as [|x l]; [reflexivity|].
    cbn [concat]. rewrite IH; [apply firstn_skipn | exact Hn |].
    rewrite length_skipn. cbn [length] in *. lia.
Qed.

Lemma concat_chunks {A} n (l : list A) : 0 < n -> concat (chunks n l) = l.
Proof. intros Hn. apply concat_chunks_from; [exact Hn | lia]. Qed.

Lemma Forall2_at_transport (h h' : list item) rs items :
  Forall2 (fun r it => nth_error h r = Some it) rs items ->
  (forall r, In r rs -> nth_error h' r = nth_error h r) ->
  Forall2 (fun r it => nth_error h' r = Some it) rs items.
Proof.
  induction 1 as [|r it rs items Hr HF IH]; intros Hsame; constructor.
  - rewrite Hsame; [exact Hr | now left].
  - apply IH. intros r' Hr'. apply Hsame. now right.
Qed.

Section Stories.

Variable emitter : list ref -> M (list ref).
Variable is_dry_run : bool.
Hypothesis emitter_contract : emitter_ok emitter.

(** The iterations the collector holds, the records behind them and the
    mapping made of them. *)
Variable T : list ref.
Variable items : list item.
Variable m : iteration_map.
Hypothesis mapping_of_items : collect_pt_iteration_mapping items = Ok m.

Definition iterations_are (st : state) : Prop :=
  iterations (self st) = T
  /\ Forall2 (fun t it => nth_error (heap st) t = Some it) T items.

Lemma iterations_are_frame K X st st' :
  touches_only K X st st' ->
  (forall t, In t T -> ~ In t X) ->
  iterations_are st -> iterations_are st'.
Proof using.
  intros (Hs & _ & Ho & _) Hdisj [Hi Hat]. split; [now rewrite Hs|].
  apply (Forall2_at_transport _ _ _ _ Hat). intros t Ht. apply Ho. now apply Hdisj.
Qed.

Lemma commit_story_batch_links l batch st l1 s1 :
  commit_story_batch emitter is_dry_run l batch st = (Ok l1, s1) ->
  iterations_are st ->
  (forall t, In t T -> ~ In t batch) ->
  forall r, In r batch \/ linked_at m st r -> linked_at m s1 r.
Proof using emitter_contract mapping_of_items.
  unfold commit_story_batch. intros H Hare Hdisj r Hr.
  run_inv H as c s0 Hc. injection Hc as <- <-.
  run_inv H as x1 sa He.
  run_inv H as x2 sb Hi.
  run_inv H as created_batch sc Hp.
  (* epic linkage *)
  pose proof (frame_assign_stories_to_epics batch (epics (self st)) st) as Fa.
  rewrite He in Fa. cbn [snd] in Fa.
  pose proof (iterations_are_frame _ _ _ _ Fa Hdisj Hare) as [Hia Hata].
  assert (Sa : self sa = self st) by apply Fa.
  (* iteration linkage *)
  rewrite <- Sa, Hia in Hi.
  destruct (assign_stories_to_iterations_spec _ _ _ _ _ Hi) as (items' & m' & Hat' & Hm' & Hlink).
  rewrite (Forall2_at_functional _ _ _ _ Hat' Hata) in Hm'.
  rewrite mapping_of_items in Hm'. apply Ok_inj in Hm'. subst m'.
  assert (Lb : linked_at m sb r).
  { apply Hlink. destruct Hr as [Hr|Hr]; [now left | right].
    eapply linked_at_frame; eassumption. }
  (* the creation of the batch *)
  pose proof (frame_process_story_batch emitter is_dry_run emitter_contract batch sb) as Fp.
  rewrite Hp in Fp. cbn [snd] in Fp.
  assert (Lc : linked_at m sc r) by (eapply linked_at_frame; eassumption).
  (* the record of what was created *)
  assert (Ft : touches_only kept [] sc s1).
  { match type of H with
    | ?cmd _ = _ =>
        assert (P : preserves (touches_only kept []) cmd)
          by (repeat first [ apply frame_imported_entities;
                             [apply kept_refl | apply kept_trans]
                           | frame_step (touches_only_refl kept kept_refl (@nil ref))
                               (touches_only_trans kept kept_trans (@nil ref)) ]);
        specialize (P sc); rewrite H in P; exact P
    end. }
  eapply linked_at_frame; eassumption.
Qed.

Lemma linked_at_frame0 X st st' r :
  touches_only kept0 X st st' -> ~ In r X -> linked_at m st r -> linked_at m st' r.
Proof using.
  intros (_ & _ & Ho & _) Hr (it & Hit & Hl). exists it. split; [|exact Hl].
  rewrite Ho; assumption.
Qed.

(** The loop over the batches: every story of a batch is linked. *)
Lemma story_batches_link batches : forall l st l' st',
  fold_m (commit_story_batch emitter is_dry_run) l batches st = (Ok l', st') ->
  iterations_are st ->
  (forall t, In t T -> ~ In t (concat batches)) ->
  touches_only kept0 (concat batches) st st'
  /\ forall r, In r (concat batches) \/ linked_at m st r -> linked_at m st' r.
Proof using emitter_contract mapping_of_items.
  induction batches as [|batch batches IH]; intros l st l' st' H Hare Hdisj;
    cbn [fold_m concat] in *.
  - injection H as _ <-. split; [apply touches_only_refl, kept0_refl|].
    intros r [[]|Hr]. exact Hr.
  - run_inv H as l1 s1 Hb.
    assert (Hdb : forall t, In t T -> ~ In t batch).
    { intros t Ht Hin. apply (Hdisj t Ht). apply in_or_app. now left. }
    assert (Hdr : forall t, In t T -> ~ In t (concat batches)).
    { intros t Ht Hin. apply (Hdisj t Ht). apply in_or_app. now right. }
    pose proof (frame_commit_story_batch emitter is_dry_run emitter_contract l batch st) as Fb.
    rewrite Hb in Fb. cbn [snd] in Fb.
    pose proof (iterations_are_frame _ _ _ _ Fb Hdb Hare) as Hare1.
    destruct (IH _ _ _ _ H Hare1 Hdr) as [Fr Hlink].
    split.
    + eapply touches_only_trans; [apply kept0_trans | |].
      * eapply touches_only_incl; [|exact Fb]. intros x Hx. apply in_or_app. now left.
      * eapply touches_only_incl; [|exact Fr]. intros x Hx. apply in_or_app. now right.
    + intros r Hr. apply Hlink.
      destruct (in_dec Nat.eq_dec r (concat batches)) as [Hin|Hnin]; [now left | right].
      apply (commit_story_batch_links _ _ _ _ _ Hb Hare Hdb).
      destruct Hr as [Hr|Hr]; [|now right].
      apply in_app_or in Hr. destruct Hr as [Hr|Hr]; [now left | now destruct Hnin].
Qed.

End Stories.

(* ------------------------------------------------------------------ *)
(** *** Iteration keys *)

Fixpoint no_pipe (s : string) : bool :=
  match s with
  | EmptyString => true
  | String c r => negb (Ascii.eqb c "|"%char) && no_pipe r
  end.

Lemma split_pipe_from_last acc s :
  no_pipe s = true -> split_pipe_from acc s = [(acc ++ s)%string].
Proof.
  revert acc. induction s as [|c s IH]; intros acc H; cbn in *.
  - now rewrite append_nil_r.
  - apply andb_prop in H. destruct H as [Hc Hs].
    destruct (Ascii.eqb c "|"%char); [discriminate|].
    rewrite IH by assumption. now rewrite append_assoc.
Qed.

Lemma split_pipe_from_part acc s rest :
  no_pipe s = true ->
  split_pipe_from acc (s ++ "|" ++ rest)
  = (acc ++ s)%string :: split_pipe_from EmptyString rest.
Proof.
  revert acc. induction s as [|c s IH]; intros acc H; cbn in *.
  - now rewrite append_nil_r.
  - apply andb_prop in H. destruct H as [Hc Hs].
    destruct (Ascii.eqb c "|"%char); [discriminate|].
    rewrite IH by assumption. now rewrite append_assoc.
Qed.

(** The key of an iteration splits back into its id and its dates. *)
Lemma split_pipe_key id start_date end_date :
  no_pipe id = true -> no_pipe start_date = true -> no_pipe end_date = true ->
  split_pipe (id ++ "|" ++ start_date ++ "|" ++ end_date) = [id; start_date; end_date].
Proof.
  intros H1 H2 H3. unfold split_pipe.
  rewrite split_pipe_from_part by assumption.
  rewrite split_pipe_from_part by assumption.
  rewrite split_pipe_from_last by assumption. reflexivity.
Qed.

Lemma created_for_items st T keys :
  Forall2 (created_for st) T keys ->
  exists items,
    Forall2 (fun t it => nth_error (heap st) t = Some it) T items
    /\ Forall2 iteration_of items keys
    /\ forall t key, In (t, key) (combine T keys) ->
                     exists it c, nth_error (heap st) t = Some it
                                  /\ In (it, key) (combine items keys)
                                  /\ imported_entity it = Some c.
Proof.
  induction 1 as [|t key T keys (it & c & id & s & e & Hs & Hat & _ & Hp & _ & _ & Hc) HF IH].
  - exists []. repeat split; try constructor. intros t key [].
  - destruct IH as (items & Hat' & Hof & Hpair).
    exists (it :: items). repeat split.
    + now constructor.
    + constructor; [|exact Hof]. exists id, [s; e], c. now repeat split.
    + intros t' key' [Heq|Hin].
      * injection Heq as <- <-. exists it, c. repeat split; try assumption. now left.
      * destruct (Hpair _ _ Hin) as (it' & c' & H1 & H2 & H3).
        exists it', c'. repeat split; try assumption. now right.
Qed.

Lemma mapping_total items : forall keys m0,
  Forall2 iteration_of items keys ->
  exists m, loop collect_iteration m0 items = (m, None).
Proof.
  induction items as [|it items IH]; intros keys m0 HF; cbn [loop].
  - now exists m0.
  - inversion HF as [|? key ? keys' (id & rest & c & Hs & Hp & Hc) HF']; subst.
    unfold collect_iteration at 1, imported_of. rewrite Hc. cbn [rbind].
    apply (IH keys' _ HF').
Qed.

Lemma created_for_transport st st' T keys :
  Forall2 (created_for st) T keys ->
  (forall t, In t T -> nth_error (heap st') t = nth_error (heap st) t) ->
  Forall2 (created_for st') T keys.
Proof.
  induction 1 as [|t key T keys (it & c & id & s & e & H) HF IH]; intros Hsame;
    constructor.
  - exists it, c, id, s, e. rewrite Hsame by now left. exact H.
  - apply IH. intros t' Ht'. apply Hsame. now right.
Qed.

(** C5, as amended.  When [commit] returns, with an emitter that keeps to
    its contract, one iteration is created for each iteration key of the
    collector, in the order the keys are taken: so exactly one for the key
    of an (id, start, end) triple that stories share.  Stories are linked
    by the source id alone: every story with that source iteration id
    carries the same iteration_id, the target id of the iteration created
    last among those whose key has that source id.  When no other
    iteration key has the source id, that iteration is the one created for
    the triple. *)
Theorem one_iteration_per_source_id
        emitter is_dry_run st created st' id start_date end_date :
  emitter_ok emitter ->
  (forall l, Permutation l (set_order l)) ->
  commit emitter is_dry_run st = (Ok created, st') ->
  (forall r, In r (stories (self st)) -> r < length (heap st)) ->
  NoDup (iteration_strings (self st)) ->
  no_pipe id = true -> no_pipe start_date = true -> no_pipe end_date = true ->
  id <> "" ->
  In (id ++ "|" ++ start_date ++ "|" ++ end_date)%string (iteration_strings (self st)) ->
  let key := (id ++ "|" ++ start_date ++ "|" ++ end_date)%string in
  let keys := set_order (iteration_strings (self st)) in
  Forall2 (created_for st') (iterations (self st')) keys
  /\ count_occ string_dec keys key = 1
  /\ exists i t last_key it_t c,
       nth_error (iterations (self st')) i = Some t
       /\ nth_error keys i = Some last_key
       /\ (exists rest, split_pipe last_key = id :: rest)
       /\ (forall j key' rest,
             i < j -> nth_error keys j = Some key' -> split_pipe key' <> id :: rest)
       /\ nth_error (heap st') t = Some it_t
       /\ imported_entity it_t = Some c
       /\ (forall r it,
             In r (stories (self st)) ->
             nth_error (heap st) r = Some it ->
             pt_iteration_id it = VStr id ->
             exists it', nth_error (heap st') r = Some it'
                         /\ dict_get (entity it') "iteration_id"
                            = Some (VInt (created_id c)))
       /\ ((forall key' rest,
               In key' (iteration_strings (self st)) ->
               split_pipe key' = id :: rest -> key' = key) ->
           last_key = key).
Proof.
  intros Hem Hperm Hrun Hvalid Hnd Hn1 Hn2 Hn3 Hid Hin key keys.
  unfold commit in Hrun.
  run_inv Hrun as l1 s1 Hl.
  run_inv Hrun as l2 s2 He.
  run_inv Hrun as l3 s3 Hi.
  run_inv Hrun as l4 s4 Hs.
  injection Hrun as _ <-.
  (* the phases before the stories *)
  pose proof (grows_commit_labels emitter is_dry_run Hem
                {| created_entities := []; written_entities := [] |} st) as G1.
  rewrite Hl in G1. cbn [snd] in G1.
  pose proof (grows_commit_epics emitter is_dry_run Hem l1 s1) as G2.
  rewrite He in G2. cbn [snd] in G2.
  pose proof (grows_commit_iterations emitter is_dry_run Hem l2 s2) as G3.
  rewrite Hi in G3. cbn [snd] in G3.
  pose proof (grows_trans _ _ _ G1 G2) as G12.
  pose proof (grows_trans _ _ _ G12 G3) as G13.
  destruct (commit_iterations_spec emitter is_dry_run Hem _ _ _ _ Hi) as [Hfresh Hcreated].
  assert (Hkeys2 : iteration_strings (self s2) = iteration_strings (self st)) by apply G12.
  rewrite Hkeys2 in Hcreated. fold keys in Hcreated.
  assert (Hstories3 : stories (self s3) = stories (self st)) by apply G13.
  (* the iterations and the mapping made of them *)
  destruct (created_for_items _ _ _ Hcreated) as (items & Hat & Hof & Hpair).
  destruct (mapping_total items keys [] Hof) as (m & Hm).
  assert (Hmap : collect_pt_iteration_mapping items = Ok m).
  { unfold collect_pt_iteration_mapping. now rewrite Hm. }
  assert (Hkeyin : In key keys).
  { unfold keys. eapply Permutation_in; [apply Hperm | exact Hin]. }
  assert (Hndk : NoDup keys).
  { unfold keys. eapply Permutation_NoDup; [apply Hperm | exact Hnd]. }
  assert (Hsplit : split_pipe key = [id; start_date; end_date])
    by (now apply split_pipe_key).
  (* the iteration created last for the source id *)
  destruct (mapping_last id items keys [] m Hof Hm)
    as [(_ & Hno)|(i & it_i & key_i & c & Hi1 & Hi2 & Hi3 & Hi4 & Hi5 & Hi6)];
    [now destruct (Hno key [start_date; end_date] Hkeyin)|].
  destruct (Forall2_nth_error_r _ _ _ Hat i it_i Hi1) as (t & Ht & Hheap3).
  (* the stories *)
  unfold commit_stories in Hs. run_inv Hs as c3 s3' Hc. injection Hc as <- <-.
  rewrite Hstories3 in Hs.
  assert (Hdisj : forall t, In t (iterations (self s3)) ->
                            ~ In t (concat (chunks BATCH_SIZE (stories (self st))))).
  { intros t' Ht' Hc. rewrite concat_chunks in Hc by (unfold BATCH_SIZE; lia).
    apply Hvalid in Hc. apply Hfresh in Ht'.
    destruct G12 as (_ & _ & Hlen & _). lia. }
  destruct (story_batches_link emitter is_dry_run Hem (iterations (self s3)) items m Hmap
              _ _ _ _ _ Hs (conj eq_refl Hat) Hdisj) as [Fr Hlink].
  rewrite concat_chunks in Fr, Hlink, Hdisj by (unfold BATCH_SIZE; lia).
  assert (Hsame : forall t, In t (iterations (self s3)) ->
                            nth_error (heap s4) t = nth_error (heap s3) t).
  { intros t' Ht'. apply Fr. now apply Hdisj. }
  assert (Hself4 : self s4 = self s3) by apply Fr.
  rewrite Hself4. split; [|split].
  - eapply created_for_transport; eassumption.
  - apply NoDup_count_occ'; assumption.
  - exists i, t, key_i, it_i, c.
    split; [exact Ht|]. split; [exact Hi2|]. split; [exact Hi3|].
    split; [exact Hi4|].
    split; [rewrite Hsame; [exact Hheap3 | eapply nth_error_In, Ht]|].
    split; [exact Hi5|]. split.
    + intros r it Hr Hit Hp.
      destruct (Hlink r (or_introl Hr)) as (it4 & Hit4 & Hl4).
      exists it4. split; [exact Hit4|].
      (* the source iteration id of the story is what it was *)
      destruct G13 as (_ & _ & _ & Hk13). destruct (Hk13 _ _ Hit) as (it3 & Hit3 & Hkept3).
      destruct Fr as (_ & _ & _ & Hk34). destruct (Hk34 _ _ Hit3) as (it4' & Hit4' & Hkept4).
      rewrite Hit4 in Hit4'. injection Hit4' as <-.
      assert (Hp4 : pt_iteration_id it4 = VStr id).
      { destruct Hkept3 as ((_ & Hp3 & _) & _). destruct Hkept4 as (_ & Hp4 & _). congruence. }
      destruct Hl4 as (x & Hx & Hx').
      * rewrite Hp4. cbn [truthy]. apply negb_true_iff. now apply String.eqb_neq.
      * rewrite Hp4 in Hx. cbn [py_str] in Hx. rewrite Hi6 in Hx. injection Hx as <-.
        exact Hx'.
    + intros Huniq. destruct Hi3 as (rest & Hrest).
      apply (Huniq key_i rest); [|exact Hrest].
      eapply Permutation_in; [apply Permutation_sym, Hperm|].
      eapply nth_error_In, Hi2.
Qed.

(* ------------------------------------------------------------------ *)
(** *** The dry run keeps to the contract *)

Definition has_imported (st : state) (r : ref) : Prop :=
  exists it c, nth_error (heap st) r = Some it /\ imported_entity it = Some c.

Lemma frame_set_imported X p :
  In (snd p) X -> preserves (touches_only kept X) (set_imported p).
Proof.
  intros H. unfold set_imported.
  apply touches_only_update_item; [apply kept_refl | exact H |].
  intros it. apply kept_with_imported_entity.
Qed.

Lemma frame_mock_emit X item :
  In item X -> preserves (touches_only kept X) (mock_emit item).
Proof.
  intros H. unfold mock_emit.
  repeat first [ apply frame_set_imported; exact H
               | frame_step (touches_only_refl kept kept_refl X)
                            (touches_only_trans kept kept_trans X) ].
Qed.

Lemma mock_emit_loop refs : forall st st',
  for_each refs mock_emit st = (Ok tt, st') ->
  forall r, In r refs \/ has_imported st r -> has_imported st' r.
Proof.
  induction refs as [|item refs IH]; intros st st' H r Hr; cbn [for_each] in H.
  - injection H as <-. destruct Hr as [[]|Hr]; exact Hr.
  - run_inv H as u s1 Hitem. apply (IH _ _ H).
    unfold mock_emit in Hitem.
    run_inv Hitem as entity_id sa Hid. injection Hid as <- <-.
    run_inv Hitem as it sb Hget. unfold get_item in Hget. cbn [heap set_mock_global_id] in Hget.
    destruct (nth_error (heap st) item) as [it0|] eqn:E; [|discriminate].
    injection Hget as <- <-.
    run_inv Hitem as u2 sc Hset.
    unfold set_imported, update_item, bind, get_item, put_item in Hset.
    cbn [snd fst heap set_mock_global_id] in Hset. rewrite E in Hset.
    injection Hset as _ <-.
    run_inv Hitem as name sd Hname. unfold lift in Hname. injection Hname as _ <-.
    injection Hitem as _ <-.
    destruct (Nat.eq_dec r item) as [->|Hne].
    + right. eexists. eexists. split.
      * cbn [heap set_heap set_mock_global_id]. apply nth_error_list_set_same.
        apply nth_error_Some. congruence.
      * reflexivity.
    + destruct Hr as [[Heq|Hin]|(it1 & c1 & Hit1 & Hc1)].
      * now destruct Hne.
      * now left.
      * right. exists it1, c1. split; [|exact Hc1].
        cbn [heap set_heap set_mock_global_id].
        rewrite nth_error_list_set_other by congruence. exact Hit1.
Qed.

Lemma mock_emitter_ok : emitter_ok mock_emitter.
Proof.
  intros refs st. split.
  - unfold mock_emitter.
    apply (preserves_bind _ (touches_only_trans kept kept_trans refs)).
    + apply (preserves_for_each_in _ (touches_only_refl kept kept_refl refs)
               (touches_only_trans kept kept_trans refs)).
      intros x Hx. now apply frame_mock_emit.
    + intros _. apply preserves_ret. apply touches_only_refl, kept_refl.
  - intros out H. unfold mock_emitter, bind in H |- *.
    destruct (for_each refs mock_emit st) as [[[]|e] s1] eqn:E; [|discriminate].
    cbn [fst snd ret] in *. apply Ok_inj in H. subst out.
    repeat split.
    + apply incl_refl.
    + apply Forall_forall. intros r Hr. apply (mock_emit_loop _ _ _ E). now left.
Qed.

(* ------------------------------------------------------------------ *)
(** *** The live backend keeps to the contract *)


Section Steps.

Variable items : list ref.























End Steps.


(* ================================================================== *)
(** ** Further properties of the Entity Builder *)
(* ================================================================== *)

(** *** Escaping *)

Lemma escape_head_not_pipe s c r :
  escape_md_table_syntax s = String c r -> c <> "|"%char.
Proof.
  destruct s as [|a s]; cbn [escape_md_table_syntax]; [discriminate|].
  destruct (Ascii.eqb a "|"%char) eqn:E; intros H; injection H as <- _.
  - discriminate.
  - now apply Ascii.eqb_neq.
Qed.

(** X1.  Escaping a cell loses nothing: a text without '|' is left as it is,
    and two texts with the same escaped form are the same text. *)
Theorem escape_md_table_syntax_faithful :
  (forall s, no_pipe s = true -> escape_md_table_syntax s = s)
  /\ (forall s1 s2,
        escape_md_table_syntax s1 = escape_md_table_syntax s2 -> s1 = s2).
Proof.
  split.
  - induction s as [|c s IH]; cbn [no_pipe escape_md_table_syntax]; [reflexivity|].
    intros H. apply andb_prop in H. destruct H as [Hc Hs].
    destruct (Ascii.eqb c "|"%char); [discriminate|].
    now rewrite IH.
  - induction s1 as [|a s1 IH]; intros [|b s2]; cbn [escape_md_table_syntax].
    + reflexivity.
    + destruct (Ascii.eqb b "|"%char); discriminate.
    + destruct (Ascii.eqb a "|"%char); discriminate.
    + destruct (Ascii.eqb a "|"%char) eqn:Ea; destruct (Ascii.eqb b "|"%char) eqn:Eb;
        intros H.
      * apply Ascii.eqb_eq in Ea, Eb. subst a b.
        injection H as H. now rewrite (IH _ H).
      * injection H as Hb H. symmetry in H.
        now destruct (escape_head_not_pipe _ _ _ H).
      * injection H as Ha H.
        now destruct (escape_head_not_pipe _ _ _ H).
      * injection H as -> H. now rewrite (IH _ H).
Qed.


(* ------------------------------------------------------------------ *)
(** *** Rows are dicts: no key twice *)

Lemma dict_keys_set_in (d : dict) k v x :
  In x (dict_keys (dict_set d k v)) <-> x = k \/ In x (dict_keys d).
Proof.
  split; [apply dict_keys_set|].
  induction d as [|[k0 v0] d IH]; cbn.
  - intros [->|[]]. now left.
  - destruct (String.eqb k0 k) eqn:E; cbn.
    + apply String.eqb_eq in E. subst k0. intros [->|[->|H]]; auto.
    + intros [->|[->|H]]; auto.
Qed.

Lemma unique_keys_set (d : dict) k v :
  NoDup (dict_keys d) -> NoDup (dict_keys (dict_set d k v)).
Proof.
  induction d as [|[k0 v0] d IH]; cbn; intros H.
  - repeat constructor. intros [].
  - inversion H as [|x l Hx Hl]; subst.
    destruct (String.eqb k0 k) eqn:E; cbn.
    + apply String.eqb_eq in E. subst k0. now constructor.
    + constructor; [|now apply IH].
      intros Hin. apply dict_keys_set_in in Hin. destruct Hin as [->|Hin]; [|contradiction].
      now rewrite String.eqb_refl in E.
Qed.

Lemma dict_keys_del (d : dict) k x :
  In x (dict_keys (dict_del d k)) -> In x (dict_keys d).
Proof. forget_run.
  induction d as [|[k0 v0] d IH]; cbn; [tauto|].
  destruct (String.eqb k0 k); cbn; tauto.
Qed.

Lemma unique_keys_del (d : dict) k :
  NoDup (dict_keys d) -> NoDup (dict_keys (dict_del d k)).
Proof.
  induction d as [|[k0 v0] d IH]; cbn; intros H; [constructor|].
  inversion H as [|x l Hx Hl]; subst.
  destruct (String.eqb k0 k); cbn; [exact Hl|].
  constructor; [|now apply IH]. intros Hin. apply Hx. eapply dict_keys_del, Hin.
Qed.

Lemma dict_get_not_in (d : dict) k : ~ In k (dict_keys d) -> dict_get d k = None.
Proof.
  destruct (dict_get d k) as [v|] eqn:E; [|reflexivity].
  intros H. now destruct (H (dict_get_In_keys _ _ _ E)).
Qed.

(** [del d[k]] and [d.pop(k)] remove the key. *)
Lemma dict_get_del_same (d : dict) k :
  NoDup (dict_keys d) -> dict_get (dict_del d k) k = None.
Proof.
  induction d as [|[k0 v0] d IH]; cbn; intros H; [reflexivity|].
  inversion H as [|x l Hx Hl]; subst.
  destruct (String.eqb k0 k) eqn:E; cbn.
  - apply String.eqb_eq in E. subst k0. now apply dict_get_not_in.
  - rewrite E. now apply IH.
Qed.

Lemma labels_extend_unique d new d' :
  labels_extend d new = Ok d' -> NoDup (dict_keys d) -> NoDup (dict_keys d').
Proof.
  unfold labels_extend.
  destruct (dict_get d "labels") as [[| | | | |l|]|]; try discriminate;
    intros H; apply Ok_inj in H; subst d'; apply unique_keys_set.
Qed.

Lemma story_paragraphs_unique ctx d d1 d2 d3 d4 d5 d6 reviewers :
  process_workflow_state ctx (dict_set d "group_id" (group_id ctx)) = Ok d1 ->
  process_tasks d1 = Ok d2 ->
  process_requester ctx d2 = Ok d3 ->
  process_owners ctx d3 = Ok d4 ->
  process_reviewers ctx reviewers d4 = Ok d5 ->
  process_priority ctx d5 = Ok d6 ->
  NoDup (dict_keys d) -> NoDup (dict_keys d6).
Proof.
  intros H1 H2 H3 H4 H5 H7 Hd.
  assert (U1 : NoDup (dict_keys d1)).
  { unfold process_workflow_state in H1. destruct (truthy _).
    - inv_bind H1. apply Ok_inj in H1. subst d1. now repeat apply unique_keys_set.
    - apply Ok_inj in H1. subst d1. now apply unique_keys_set. }
  assert (U2 : NoDup (dict_keys d2)).
  { unfold process_tasks in H2. inv_bind H2. inv_bind H2.
    destruct (build_tasks x x0); apply Ok_inj in H2; subst d2;
      [exact U1 | now apply unique_keys_set]. }
  assert (U3 : NoDup (dict_keys d3)).
  { unfold process_requester in H3. destruct (truthy _).
    - inv_bind H3. destruct (truthy x); apply Ok_inj in H3; subst d3;
        [now apply unique_keys_set | exact U2].
    - apply Ok_inj in H3. now subst d3. }
  assert (U4 : NoDup (dict_keys d4)).
  { unfold process_owners in H4. destruct (truthy _).
    - inv_bind H4. inv_bind H4. apply Ok_inj in H4. subst d4. now apply unique_keys_set.
    - apply Ok_inj in H4. now subst d4. }
  assert (U5 : NoDup (dict_keys d5)).
  { unfold process_reviewers in H5. destruct (truthy _).
    - inv_bind H5. inv_bind H5.
      apply (labels_extend_unique _ _ _ H5). now apply unique_keys_set.
    - apply Ok_inj in H5. now subst d5. }
  unfold process_priority in H7. inv_bind H7.
  destruct x; apply Ok_inj in H7; subst d6; [exact U5 | now apply unique_keys_set].
Qed.


(* ------------------------------------------------------------------ *)
(** *** The story branch of a build that returns *)

Definition story_allow_list : list string :=
  [ "comments"; "created_at"; "custom_fields"; "deadline";
    "description"; "estimate"; "external_id"; "external_links";
    "follower_ids"; "group_id"; "iteration_id"; "labels"; "name";
    "owner_ids"; "requested_by_id"; "story_type"; "tasks";
    "workflow_state_id" ].

(** The row [d1] as it enters the story branch (the row of the source but
    for its labels and, for a release, its story type), the comments built
    from those of the source and the row [d2] as it leaves the branch. *)
Lemma story_branch ctx d r :
  build_entity ctx d = Ok r ->
  str_is (py_get d "story_type") "epic" = false ->
  exists d1 cs comments d2,
    touches ["labels"; "story_type"] d d1
    /\ (NoDup (dict_keys d) -> NoDup (dict_keys d1))
    /\ py_iter (py_get_default d "comments" (VList [])) = Ok cs
    /\ rmap (build_comment ctx) cs = Ok comments
    /\ story_trace ctx d1 comments (py_get d "pt_iteration_id") d2 (iteration r)
    /\ type_ r = "story"
    /\ pt_iteration_id r = py_get d "pt_iteration_id"
    /\ entity r = project story_allow_list d2.
Proof. forget_run.
  intros Hb Hstory.
  destruct (build_entity_trace _ _ _ Hb)
    as [d0 story_type cs comments d1 d2 keys H0 Hty Hcs Hcom Hrel Htype Hkeys Hent Hpid Hbr].
  pose proof (labels_extend_story_type _ _ _ H0) as Hst0.
  assert (Hsty : py_get d "story_type" = story_type).
  { unfold dict_index in Hty. unfold py_get. rewrite <- Hst0.
    destruct (dict_get d0 "story_type"); [now injection Hty | discriminate]. }
  rewrite Hsty in *. rewrite Hstory in *.
  assert (Hcom0 : py_get_default d0 "comments" (VList [])
                  = py_get_default d "comments" (VList [])).
  { unfold py_get_default.
    rewrite (labels_extend_touches _ _ _ H0 "comments"); [reflexivity|].
    cbn [In]. intros [E|[]]. discriminate. }
  rewrite Hcom0 in Hcs.
  rewrite Htype in Hkeys.
  assert (Hk : keys = story_allow_list).
  { apply (f_equal (fun o => match o with Some k => k | None => keys end)) in Hkeys.
    symmetry. exact Hkeys. }
  subst keys.
  assert (Ht : touches ["labels"; "story_type"] d d1).
  { destruct (str_is story_type "release").
    - intros k Hk. rewrite (labels_extend_touches _ _ _ Hrel k) by not_in Hk.
      rewrite dict_get_set_other by (intros E; apply Hk; subst k; cbn [In]; tauto).
      apply (labels_extend_touches _ _ _ H0). not_in Hk.
    - apply Ok_inj in Hrel. subst d1.
      intros k Hk. apply (labels_extend_touches _ _ _ H0). not_in Hk. }
  assert (Hp : py_get d1 "pt_iteration_id" = py_get d "pt_iteration_id").
  { apply py_get_eq, Ht. cbn [In]. intros [E|[E|[]]]; discriminate. }
  rewrite Hp in *.
  exists d1, cs, comments, d2. repeat split; try assumption.
  intros Hd. pose proof (labels_extend_unique _ _ _ H0 Hd) as U0.
  destruct (str_is story_type "release").
  - apply (labels_extend_unique _ _ _ Hrel). now apply unique_keys_set.
  - apply Ok_inj in Hrel. now subst d1.
Qed.

(* ------------------------------------------------------------------ *)
(** *** Tasks *)

Lemma build_tasks_length titles states :
  length (build_tasks titles states) = Nat.min (length titles) (length states).
Proof.
  unfold build_tasks. rewrite length_map. apply length_combine.
Qed.

(** X2.  A story gets one task per pair of a task title and a task state,
    in order, complete when the state is "completed"; the longer of the two
    lists is cut.  With no such pair the attribute "tasks" is not written
    (it is what the row holds under "tasks", if anything). *)
Theorem story_tasks ctx d r :
  build_entity ctx d = Ok r ->
  str_is (py_get d "story_type") "epic" = false ->
  exists titles states,
    py_iter (py_get_default d "task_titles" (VList [])) = Ok titles
    /\ py_iter (py_get_default d "task_states" (VList [])) = Ok states
    /\ length (build_tasks titles states) = Nat.min (length titles) (length states)
    /\ dict_get (entity r) "tasks"
       = match build_tasks titles states with
         | [] => dict_get d "tasks"
         | tasks => Some (VList tasks)
         end.
Proof. forget_run.
  intros Hb Hstory.
  destruct (story_branch _ _ _ Hb Hstory)
    as (d1 & cs & comments & d2 & Ht & _ & _ & _ & Htr & _ & _ & Hent).
  destruct Htr as [e1 e2 e3 e4 e5 e6 cs' it H1 H2 H3 H4 H5 _ H7 _].
  assert (F1 : forall k, ~ In k ["labels"; "story_type"; "group_id"; "workflow_state_id"] ->
                         dict_get e1 k = dict_get d k).
  { intros k Hk.
    rewrite (process_workflow_state_touches _ _ _ H1) by not_in Hk.
    rewrite dict_get_set_other by (intros E; apply Hk; subst k; cbn [In]; tauto).
    apply Ht. not_in Hk. }
  unfold process_tasks in H2. inv_bind H2. inv_bind H2.
  unfold py_get_default in E, E0.
  rewrite F1 in E, E0 by other_key.
  exists x, x0. split; [exact E|]. split; [exact E0|].
  split; [apply build_tasks_length|].
  rewrite Hent.
  assert (Hin : In "tasks" story_allow_list) by (cbn [story_allow_list In]; tauto).
  rewrite (project_get_in _ _ _ Hin).
  rewrite (store_comments_touches cs' e6) by other_key.
  rewrite (process_priority_touches _ _ _ H7) by other_key.
  rewrite (process_reviewers_touches _ _ _ _ H5) by other_key.
  rewrite (process_owners_touches _ _ _ H4) by other_key.
  rewrite (process_requester_touches _ _ _ H3) by other_key.
  destruct (build_tasks x x0) as [|t ts]; apply Ok_inj in H2; subst e2.
  - apply F1. other_key.
  - apply dict_get_set_same.
Qed.

(* ------------------------------------------------------------------ *)
(** *** User fields *)

(** The ids of the users of a list that are keys of the user mapping, in
    the order of the list. *)
Definition known_user_ids (user_to_sc_id : dict) (users : list value) : list value :=
  flat_map (fun u => match str_chars u with
                     | Some s => match dict_get user_to_sc_id s with
                                 | Some sc_id => [sc_id]
                                 | None => []
                                 end
                     | None => []
                     end) users.

Lemma resolve_users_spec m users ids :
  resolve_users m users = Ok ids -> ids = known_user_ids m users.
Proof.
  revert ids. induction users as [|u users IH]; intros ids H; cbn [resolve_users] in H.
  - apply Ok_inj in H. now subst ids.
  - inv_bind H. cbn [known_user_ids flat_map].
    unfold cfg_mem in E. inv_bind E. apply Ok_inj in E. subst x.
    assert (Hs : match x0 with KStr s => str_chars u = Some s | _ => str_chars u = None end).
    { destruct u; cbn in E0; try discriminate; apply Ok_inj in E0; subst x0; reflexivity. }
    destruct x0 as [| |s].
    + rewrite Hs. now apply IH.
    + rewrite Hs. now apply IH.
    + rewrite Hs. unfold dict_has in H.
      unfold cfg_index in H. rewrite E0 in H. cbn [rbind] in H.
      destruct (dict_get m s) as [v|].
      * cbn [rbind] in H. inv_bind H. apply Ok_inj in H. subst ids.
        cbn [app]. f_equal. now apply IH.
      * now apply IH.
Qed.

(** X3.  The user fields of a story.  The requester becomes requested_by_id
    when the user mapping gives it a true id, and is left out otherwise.
    Owners and reviewers become owner_ids and follower_ids: one id for each
    name that is a key of the user mapping, whatever the mapping holds for
    it, in the order of the names; the other names are dropped. *)
Theorem story_user_fields ctx d r :
  build_entity ctx d = Ok r ->
  str_is (py_get d "story_type") "epic" = false ->
  dict_get (entity r) "requested_by_id"
  = (if truthy (resolved_requester ctx d)
     then Some (resolved_requester ctx d)
     else dict_get d "requested_by_id")
  /\ (if truthy (py_get d "owners")
      then exists owners,
          py_iter (py_get d "owners") = Ok owners
          /\ dict_get (entity r) "owner_ids"
             = Some (VList (known_user_ids (user_config ctx) owners))
      else dict_get (entity r) "owner_ids" = dict_get d "owner_ids")
  /\ (if truthy (py_get d "reviewers")
      then exists reviewers,
          py_iter (py_get d "reviewers") = Ok reviewers
          /\ dict_get (entity r) "follower_ids"
             = Some (VList (known_user_ids (user_config ctx) reviewers))
      else dict_get (entity r) "follower_ids" = dict_get d "follower_ids").
Proof. forget_run.
  intros Hb Hstory.
  destruct (story_branch _ _ _ Hb Hstory)
    as (d1 & cs & comments & d2 & Ht & _ & _ & _ & Htr & _ & _ & Hent).
  destruct Htr as [e1 e2 e3 e4 e5 e6 cs' it H1 H2 H3 H4 H5 _ H7 _].
  assert (F2 : forall k, ~ In k ["labels"; "story_type"; "group_id";
                                  "workflow_state_id"; "tasks"] ->
                         dict_get e2 k = dict_get d k).
  { intros k Hk.
    rewrite (process_tasks_touches _ _ H2) by not_in Hk.
    rewrite (process_workflow_state_touches _ _ _ H1) by not_in Hk.
    rewrite dict_get_set_other by (intros E; apply Hk; subst k; cbn [In]; tauto).
    apply Ht. not_in Hk. }
  rewrite Hent.
  rewrite !project_get_in by (cbn [story_allow_list In]; tauto).
  split; [|split].
  - rewrite (store_comments_touches cs' e6) by other_key.
    rewrite (process_priority_touches _ _ _ H7) by other_key.
    rewrite (process_reviewers_touches _ _ _ _ H5) by other_key.
    rewrite (process_owners_touches _ _ _ H4) by other_key.
    unfold process_requester in H3. unfold resolved_requester.
    rewrite (py_get_eq _ _ _ (F2 "requester" ltac:(other_key))) in H3.
    destruct (truthy (py_get d "requester")) eqn:Hq.
    + inv_bind H3. rewrite E. cbn [andb].
      destruct (truthy x) eqn:Hx.
      * rewrite Hx. apply Ok_inj in H3. subst e3. apply dict_get_set_same.
      * cbn [truthy]. apply Ok_inj in H3. subst e3. apply F2. other_key.
    + apply Ok_inj in H3. subst e3.
      destruct (cfg_get (user_config ctx) (py_get d "requester")); cbn [andb truthy];
        apply F2; other_key.
  - rewrite (store_comments_touches cs' e6) by other_key.
    rewrite (process_priority_touches _ _ _ H7) by other_key.
    rewrite (process_reviewers_touches _ _ _ _ H5) by other_key.
    unfold process_owners in H4.
    assert (Ho : py_get e3 "owners" = py_get d "owners").
    { apply py_get_eq. rewrite (process_requester_touches _ _ _ H3) by other_key.
      apply F2. other_key. }
    rewrite Ho in H4.
    destruct (truthy (py_get d "owners")).
    + inv_bind H4. inv_bind H4. apply Ok_inj in H4. subst e4.
      exists x. split; [exact E|].
      rewrite dict_get_set_same. now rewrite (resolve_users_spec _ _ _ E0).
    + apply Ok_inj in H4. subst e4.
      rewrite (process_requester_touches _ _ _ H3) by other_key.
      apply F2. other_key.
  - rewrite (store_comments_touches cs' e6) by other_key.
    rewrite (process_priority_touches _ _ _ H7) by other_key.
    assert (Hr : py_get e4 "reviewers" = py_get d "reviewers").
    { apply py_get_eq. rewrite (process_owners_touches _ _ _ H4) by other_key.
      rewrite (process_requester_touches _ _ _ H3) by other_key.
      apply F2. other_key. }
    rewrite Hr in H5. unfold process_reviewers in H5.
    destruct (truthy (py_get d "reviewers")).
    + inv_bind H5. inv_bind H5.
      exists x. split; [exact E|].
      rewrite (labels_extend_touches _ _ _ H5) by other_key.
      rewrite dict_get_set_same. now rewrite (resolve_users_spec _ _ _ E0).
    + apply Ok_inj in H5. subst e5.
      rewrite (process_owners_touches _ _ _ H4) by other_key.
      rewrite (process_requester_touches _ _ _ H3) by other_key.
      apply F2. other_key.
Qed.


(* ------------------------------------------------------------------ *)
(** *** Priority *)

(** X4.  A story row with a non-empty priority: when the priority is not in
    the priority mapping the Builder raises; when it is, the entity carries
    exactly one custom field value, the priority field with the mapped
    value id. *)
Theorem priority_resolved ctx d :
  str_is (py_get d "story_type") "epic" = false ->
  truthy (py_get d "priority") = true ->
  (cfg_mem (priority_config ctx) (py_get d "priority") <> Ok true ->
   exists e, build_entity ctx d = Raise e)
  /\ (forall value_id r,
        cfg_index (priority_config ctx) (py_get d "priority") = Ok value_id ->
        build_entity ctx d = Ok r ->
        dict_get (entity r) "custom_fields"
        = Some (VList [VDict [("field_id", priority_custom_field_id ctx);
                              ("value_id", value_id)]])).
Proof. forget_run.
  intros Hstory Hprio.
  assert (Key : forall r, build_entity ctx d = Ok r ->
                  exists value_id,
                    cfg_index (priority_config ctx) (py_get d "priority") = Ok value_id
                    /\ dict_get (entity r) "custom_fields"
                       = Some (VList [VDict [("field_id", priority_custom_field_id ctx);
                                             ("value_id", value_id)]])).
  { intros r Hb.
    destruct (story_branch _ _ _ Hb Hstory)
      as (d1 & cs & comments & d2 & Ht & _ & _ & _ & Htr & _ & _ & Hent).
    destruct Htr as [e1 e2 e3 e4 e5 e6 cs' it H1 H2 H3 H4 H5 _ H7 _].
    assert (Hp : py_get e5 "priority" = py_get d "priority").
    { apply py_get_eq.
      rewrite (process_reviewers_touches _ _ _ _ H5) by other_key.
      rewrite (process_owners_touches _ _ _ H4) by other_key.
      rewrite (process_requester_touches _ _ _ H3) by other_key.
      rewrite (process_tasks_touches _ _ H2) by other_key.
      rewrite (process_workflow_state_touches _ _ _ H1) by other_key.
      rewrite dict_get_set_other by discriminate.
      apply Ht. other_key. }
    unfold process_priority in H7. rewrite Hp, Hprio in H7.
    inv_bind H7. inv_bind E. apply Ok_inj in E. subst x.
    apply Ok_inj in H7. subst e6.
    exists x0. split; [exact E0|].
    rewrite Hent, project_get_in by (cbn [story_allow_list In]; tauto).
    rewrite (store_comments_touches cs' _) by other_key.
    apply dict_get_set_same. }
  split.
  - intros Habsent. destruct (build_entity ctx d) as [r|e] eqn:Hb; [|now exists e].
    exfalso. destruct (Key r eq_refl) as (v & Hv & _).
    apply Habsent. exact (cfg_index_mem _ _ _ Hv).
  - intros v r Hv Hb. destruct (Key r Hb) as (v' & Hv' & Hget).
    rewrite Hv in Hv'. apply Ok_inj in Hv'. now subst v'.
Qed.

(* ------------------------------------------------------------------ *)
(** *** Comments *)

(** X5.  The comments of a built story are the comments built from those
    of the row, in order, followed by the review comment when the row has
    reviewers.  A story without any comment has no attribute "comments":
    the entity never carries an empty list of comments. *)
Theorem story_comments ctx d r :
  build_entity ctx d = Ok r ->
  str_is (py_get d "story_type") "epic" = false ->
  NoDup (dict_keys d) ->
  exists source comments,
    py_iter (py_get_default d "comments" (VList [])) = Ok source
    /\ rmap (build_comment ctx) source = Ok comments
    /\ (if truthy (py_get d "reviewers")
        then exists review,
            dict_get (entity r) "comments" = Some (VList (comments ++ [review]))
        else dict_get (entity r) "comments"
             = match comments with [] => None | _ => Some (VList comments) end)
    /\ dict_get (entity r) "comments" <> Some (VList []).
Proof. forget_run.
  intros Hb Hstory Hd.
  destruct (story_branch _ _ _ Hb Hstory)
    as (d1 & cs & comments & d2 & Ht & Hu & Hcs & Hcom & Htr & _ & _ & Hent).
  specialize (Hu Hd).
  exists cs, comments. split; [exact Hcs|]. split; [exact Hcom|].
  rewrite Hent, project_get_in by (cbn [story_allow_list In]; tauto).
  destruct Htr as [e1 e2 e3 e4 e5 e6 cs' it H1 H2 H3 H4 H5 H6 H7 H8].
  pose proof (story_paragraphs_unique _ _ _ _ _ _ _ _ _ H1 H2 H3 H4 H5 H7 Hu) as U6.
  assert (Hr : py_get e4 "reviewers" = py_get d "reviewers").
  { apply py_get_eq. rewrite (process_owners_touches _ _ _ H4) by other_key.
    rewrite (process_requester_touches _ _ _ H3) by other_key.
    rewrite (process_tasks_touches _ _ H2) by other_key.
    rewrite (process_workflow_state_touches _ _ _ H1) by other_key.
    rewrite dict_get_set_other by discriminate.
    apply Ht. other_key. }
  rewrite Hr in H6. unfold review_comment in H6.
  assert (Hstore : forall l, dict_get (store_comments l e6) "comments"
                             = match l with [] => None | _ => Some (VList l) end).
  { intros [|c l]; unfold store_comments.
    - unfold dict_has. destruct (dict_get e6 "comments") eqn:E; [|exact E].
      now apply dict_get_del_same.
    - apply dict_get_set_same. }
  rewrite Hstore.
  destruct (truthy (py_get d "reviewers")).
  - inv_bind H6. inv_bind H6. inv_bind H6. inv_bind H6.
    apply Ok_inj in H6. subst cs'.
    assert (Hne : forall (l : list value) c,
               match l ++ [c] with [] => None | _ => Some (VList (l ++ [c])) end
               = Some (VList (l ++ [c])))
      by (intros [|a l] c; reflexivity).
    rewrite Hne. split.
    + eexists. reflexivity.
    + intros Heq. apply (f_equal (fun o => match o with
                                           | Some (VList l) => length l
                                           | _ => 1
                                           end)) in Heq.
      rewrite length_app in Heq. cbn [length] in Heq. lia.
  - apply Ok_inj in H6. subst cs'. split; [reflexivity|].
    destruct comments; discriminate.
Qed.


(** X6.  The comments built from those of a row.  Each is the comment of
    the row but for its author: a comment whose author is empty or missing
    is left as it is; otherwise the attribute "author" is removed, and
    "author_id" is set when the user mapping gives the author a true id. *)
Theorem built_comments_authors ctx source comments :
  rmap (build_comment ctx) source = Ok comments ->
  Forall2 (fun comment new_comment =>
             exists c c',
               comment = VDict c /\ new_comment = VDict c'
               /\ (forall k, k <> "author" -> k <> "author_id" ->
                             dict_get c' k = dict_get c k)
               /\ (if truthy (py_get c "author")
                   then (NoDup (dict_keys c) -> dict_get c' "author" = None)
                        /\ exists author_id,
                            cfg_get (user_config ctx) (py_get c "author") = Ok author_id
                            /\ dict_get c' "author_id"
                               = (if truthy author_id then Some author_id
                                  else dict_get c "author_id")
                   else c' = c))
          source comments.
Proof.
  revert comments. induction source as [|comment source IH]; intros comments H;
    cbn [rmap] in H.
  - apply Ok_inj in H. subst comments. constructor.
  - inv_bind H. inv_bind H. apply Ok_inj in H. subst comments.
    constructor; [|now apply IH].
    unfold build_comment in E. destruct comment as [ | | | | | |c]; try discriminate.
    destruct (truthy (py_get c "author")) eqn:Ha.
    + inv_bind E. exists c.
      destruct (truthy x1) eqn:Hid; apply Ok_inj in E; subst x; eexists;
        (split; [reflexivity|]); (split; [reflexivity|]); rewrite Ha.
      * split; [|split].
        -- intros k K1 K2. rewrite dict_get_set_other by congruence.
           apply dict_get_del_other. congruence.
        -- intros Hc. rewrite dict_get_set_other by discriminate.
           now apply dict_get_del_same.
        -- exists x1. split; [exact E1|]. rewrite Hid. apply dict_get_set_same.
      * split; [|split].
        -- intros k K1 K2. apply dict_get_del_other. congruence.
        -- intros Hc. now apply dict_get_del_same.
        -- exists x1. split; [exact E1|]. rewrite Hid.
           apply dict_get_del_other. discriminate.
    + apply Ok_inj in E. subst x. exists c, c. rewrite Ha. repeat split.
Qed.

(* ------------------------------------------------------------------ *)
(** *** Labels *)

Lemma str_is_epic_not_release v : str_is v "epic" = true -> str_is v "release" = false.
Proof.
  unfold str_is. destruct (str_chars v) as [s|]; [|discriminate].
  intros H. apply String.eqb_eq in H. now subst s.
Qed.

Definition epic_allow_list : list string :=
  [ "created_at"; "description"; "external_id"; "group_ids"; "labels"; "name" ].

(** The epic branch of a build that returns. *)
Lemma epic_branch ctx d r :
  build_entity ctx d = Ok r ->
  str_is (py_get d "story_type") "epic" = true ->
  exists d0,
    labels_extend d [label_named PIVOTAL_TO_SHORTCUT_LABEL;
                     label_named PIVOTAL_TO_SHORTCUT_RUN_LABEL] = Ok d0
    /\ type_ r = "epic"
    /\ iteration r = None
    /\ pt_iteration_id r = py_get d "pt_iteration_id"
    /\ entity r
       = project epic_allow_list
           (dict_set d0 "group_ids"
              (VList (match group_id ctx with VNone => [] | g => [g] end))).
Proof.
  intros Hb Hepic.
  destruct (build_entity_trace _ _ _ Hb)
    as [d0 story_type cs comments d1 d2 keys H0 Hty Hcs Hcom Hrel Htype Hkeys Hent Hpid Hbr].
  pose proof (labels_extend_story_type _ _ _ H0) as Hst0.
  assert (Hsty : py_get d "story_type" = story_type).
  { unfold dict_index in Hty. unfold py_get. rewrite <- Hst0.
    destruct (dict_get d0 "story_type"); [now injection Hty | discriminate]. }
  rewrite Hsty in *. rewrite Hepic in *.
  rewrite (str_is_epic_not_release _ Hepic) in Hrel. apply Ok_inj in Hrel. subst d1.
  destruct Hbr as [-> Hit].
  rewrite Htype in Hkeys.
  assert (Hk : keys = epic_allow_list).
  { apply (f_equal (fun o => match o with Some k => k | None => keys end)) in Hkeys.
    symmetry. exact Hkeys. }
  subst keys.
  exists d0. repeat split; try assumption.
  rewrite Hpid. apply py_get_eq.
  apply (labels_extend_touches _ _ _ H0). cbn [In]. intros [E|[]]. discriminate.
Qed.

(** X7.  The labels of every record the Builder returns, story or epic:
    the labels of the row, then the two marker labels, then the release
    label for a release, then the had-review label for a story with
    reviewers, and no other. *)
Theorem labels_of_built_record ctx d r :
  build_entity ctx d = Ok r ->
  exists old,
    py_get_default d "labels" (VList []) = VList old
    /\ dict_get (entity r) "labels"
       = Some (VList (old
                      ++ [label_named PIVOTAL_TO_SHORTCUT_LABEL;
                          label_named PIVOTAL_TO_SHORTCUT_RUN_LABEL]
                      ++ (if str_is (py_get d "story_type") "release"
                          then [label_named PIVOTAL_RELEASE_TYPE_LABEL] else [])
                      ++ (if negb (str_is (py_get d "story_type") "epic")
                             && truthy (py_get d "reviewers")
                          then [label_named PIVOTAL_HAD_REVIEW_LABEL] else []))).
Proof. forget_run.
  intros Hb. destruct (str_is (py_get d "story_type") "epic") eqn:Hepic.
  - destruct (epic_branch _ _ _ Hb Hepic) as (d0 & H0 & _ & _ & _ & Hent).
    destruct (labels_extend_labels _ _ _ H0) as (old & Hl0 & Hold).
    exists old. split; [exact Hold|].
    rewrite (str_is_epic_not_release _ Hepic). cbn [negb andb].
    rewrite !app_nil_r.
    rewrite Hent, project_get_in by (cbn [epic_allow_list In]; tauto).
    rewrite dict_get_set_other by discriminate. exact Hl0.
  - destruct (build_entity_story _ _ _ Hb Hepic)
      as (d1 & cs & comments & d2 & old & Ht & _ & _ & Htr & _ & Hent & Hold & Hl & _).
    exists old. split; [exact Hold|]. cbn [negb andb].
    rewrite Hent, project_get_in by (cbn [In]; tauto).
    rewrite (story_trace_labels _ _ _ _ _ _ _ Htr Hl).
    assert (Hr : py_get d1 "reviewers" = py_get d "reviewers").
    { apply py_get_eq, Ht. cbn [In]. intros [E|[E|[]]]; discriminate. }
    rewrite Hr. now rewrite <- !app_assoc.
Qed.

(* ------------------------------------------------------------------ *)
(** *** Epics *)

(** X8.  An epic row whose labels are a list (or missing) and whose comments
    can be built always builds: no workflow state, priority, task, owner,
    reviewer or iteration of the row is looked up.  The record is an epic
    without iteration key, its entity is the allow-listed part of the row
    with the labels extended and group_ids set to the group of the run, or
    to the empty list when the run has none. *)
Theorem epic_row_builds ctx d old source comments :
  str_is (py_get d "story_type") "epic" = true ->
  py_get_default d "labels" (VList []) = VList old ->
  py_iter (py_get_default d "comments" (VList [])) = Ok source ->
  rmap (build_comment ctx) source = Ok comments ->
  exists r,
    build_entity ctx d = Ok r
    /\ type_ r = "epic"
    /\ iteration r = None
    /\ dict_get (entity r) "group_ids"
       = Some (VList (match group_id ctx with VNone => [] | g => [g] end))
    /\ dict_get (entity r) "group_id" = None
    /\ forall k, In k ["created_at"; "description"; "external_id"; "name"] ->
                 dict_get (entity r) k = dict_get d k.
Proof. forget_run.
  intros Hepic Hold Hcs Hcom.
  assert (H0 : exists d0, labels_extend d [label_named PIVOTAL_TO_SHORTCUT_LABEL;
                                           label_named PIVOTAL_TO_SHORTCUT_RUN_LABEL]
                          = Ok d0).
  { unfold labels_extend. unfold py_get_default in Hold.
    destruct (dict_get d "labels") as [[| | | | |l|]|]; try discriminate; eauto. }
  destruct H0 as (d0 & H0).
  assert (Hb : exists r, build_entity ctx d = Ok r).
  { unfold build_entity. rewrite H0. cbn [rbind].
    pose proof (labels_extend_story_type _ _ _ H0) as Hst0.
    assert (Hsome : exists v, dict_get d "story_type" = Some v
                              /\ str_is v "epic" = true).
    { unfold py_get in Hepic. destruct (dict_get d "story_type") as [v|]; [eauto|].
      discriminate. }
    destruct Hsome as (v & Hv & Hve).
    unfold dict_index. rewrite Hst0, Hv. cbn [rbind].
    assert (Hc0 : py_get_default d0 "comments" (VList [])
                  = py_get_default d "comments" (VList [])).
    { unfold py_get_default.
      rewrite (labels_extend_touches _ _ _ H0 "comments"); [reflexivity|].
      cbn [In]. intros [E|[]]. discriminate. }
    rewrite Hc0, Hcs. cbn [rbind]. rewrite Hcom. cbn [rbind].
    rewrite (str_is_epic_not_release _ Hve), Hve. cbn [rbind].
    change (String.eqb "epic" "story") with false. cbv iota. cbn [rbind].
    change (select_keys "epic") with (Some epic_allow_list). cbn [rbind].
    eexists. reflexivity. }
  destruct Hb as (r & Hb). exists r. split; [exact Hb|].
  destruct (epic_branch _ _ _ Hb Hepic) as (d0' & H0' & Hty & Hit & _ & Hent).
  rewrite H0 in H0'. apply Ok_inj in H0'. subst d0'.
  split; [exact Hty|]. split; [exact Hit|]. rewrite Hent. split; [|split].
  - rewrite project_get_in by (cbn [epic_allow_list In]; tauto).
    apply dict_get_set_same.
  - rewrite project_get.
    destruct (in_dec string_dec "group_id" epic_allow_list) as [i|n]; [|reflexivity].
    cbn [epic_allow_list In] in i. exfalso.
    repeat (destruct i as [i|i]; [discriminate|]). exact i.
  - intros k Hk.
    assert (Hin : In k epic_allow_list) by (cbn [epic_allow_list In] in *; tauto).
    rewrite (project_get_in _ _ _ Hin).
    rewrite dict_get_set_other
      by (intros E; subst k; cbn [In] in Hk;
          repeat (destruct Hk as [Hk|Hk]; [discriminate|]); exact Hk).
    apply (labels_extend_touches _ _ _ H0). cbn [In]. intros [E|[]]. subst k.
    cbn [In] in Hk. repeat (destruct Hk as [Hk|Hk]; [discriminate|]). exact Hk.
Qed.


(* ------------------------------------------------------------------ *)
(** *** Iteration keys, there and back *)

Lemma join_pipe_three a b c :
  join_pipe [VStr a; VStr b; VStr c] = Ok (a ++ "|" ++ b ++ "|" ++ c)%string.
Proof. reflexivity. Qed.

(** X9.  The iteration key of a story round-trips.  A story row with a
    non-empty iteration id and with start and end dates, none of the three
    holding a '|', is built with the key "id|start|end"; the iteration
    [commit] makes of that key is named "PT id", has those dates, and
    remembers the id of the source. *)
Theorem iteration_key_round_trip ctx d r id start_date end_date :
  build_entity ctx d = Ok r ->
  str_is (py_get d "story_type") "epic" = false ->
  dict_get d "pt_iteration_id" = Some (VStr id) ->
  id <> "" ->
  dict_get d "pt_iteration_start_date" = Some (VStr start_date) ->
  dict_get d "pt_iteration_end_date" = Some (VStr end_date) ->
  no_pipe id = true -> no_pipe start_date = true -> no_pipe end_date = true ->
  iteration r = Some (id ++ "|" ++ start_date ++ "|" ++ end_date)%string
  /\ pt_iteration_id r = VStr id
  /\ iteration_entity (id ++ "|" ++ start_date ++ "|" ++ end_date)
     = Ok {| type_ := "iteration";
             entity := [("name", VStr ("PT " ++ id)%string);
                        ("start_date", VStr start_date);
                        ("end_date", VStr end_date)];
             iteration := None;
             pt_iteration_id := VStr id;
             parsed_row := None;
             imported_entity := None;
             error_message := None |}.
Proof. forget_run.
  intros Hb Hstory Hid Hne Hs He N1 N2 N3.
  destruct (story_branch _ _ _ Hb Hstory)
    as (d1 & cs & comments & d2 & Ht & _ & _ & _ & Htr & _ & Hpid & _).
  assert (Hp : py_get d "pt_iteration_id" = VStr id) by (unfold py_get; now rewrite Hid).
  rewrite Hp in *.
  split; [|split; [exact Hpid|]].
  - destruct Htr as [e1 e2 e3 e4 e5 e6 cs' it H1 H2 H3 H4 H5 _ H7 H8].
    assert (F6 : forall k, ~ In k ("labels" :: "story_type" :: story_keys_written) ->
                           dict_get e6 k = dict_get d k).
    { intros k Hk. unfold story_keys_written in Hk.
      rewrite (process_priority_touches _ _ _ H7) by not_in Hk.
      rewrite (process_reviewers_touches _ _ _ _ H5) by not_in Hk.
      rewrite (process_owners_touches _ _ _ H4) by not_in Hk.
      rewrite (process_requester_touches _ _ _ H3) by not_in Hk.
      rewrite (process_tasks_touches _ _ H2) by not_in Hk.
      rewrite (process_workflow_state_touches _ _ _ H1) by not_in Hk.
      rewrite dict_get_set_other by (intros E; apply Hk; subst k; cbn [In]; tauto).
      apply Ht. not_in Hk. }
    unfold iteration_key in H8.
    assert (Htrue : truthy (VStr id) = true).
    { cbn [truthy]. apply negb_true_iff. now apply String.eqb_neq. }
    rewrite Htrue in H8. unfold dict_index in H8.
    rewrite !F6 in H8 by (unfold story_keys_written; other_key).
    rewrite Hs, He in H8. cbn [rbind] in H8.
    rewrite join_pipe_three in H8. cbn [rbind] in H8.
    apply Ok_inj in H8. now subst it.
  - unfold iteration_entity. now rewrite split_pipe_key.
Qed.

(** The number of '|' of a text. *)
Fixpoint pipes (s : string) : nat :=
  match s with
  | EmptyString => 0
  | String c r => (if Ascii.eqb c "|"%char then 1 else 0) + pipes r
  end.

Lemma pipes_append a b : pipes (a ++ b) = pipes a + pipes b.
Proof.
  induction a as [|c a IH]; cbn [append pipes]; [reflexivity|]. rewrite IH. lia.
Qed.

Lemma pipes_no_pipe s : no_pipe s = false -> 1 <= pipes s.
Proof.
  induction s as [|c s IH]; cbn [no_pipe pipes]; [discriminate|].
  destruct (Ascii.eqb c "|"%char); cbn [negb andb]; [lia|]. intros H. apply IH in H. lia.
Qed.

Lemma split_pipe_from_length acc s :
  length (split_pipe_from acc s) = S (pipes s).
Proof.
  revert acc. induction s as [|c s IH]; intros acc; cbn [split_pipe_from pipes];
    [reflexivity|].
  destruct (Ascii.eqb c "|"%char); cbn [length]; rewrite IH; reflexivity.
Qed.

Lemma iteration_entity_raises key e :
  iteration_entity key = Raise e -> e = ValueError.
Proof.
  unfold iteration_entity.
  destruct (split_pipe key) as [|a [|b [|c [|x l]]]]; intros H;
    try discriminate; now injection H.
Qed.

Lemma iteration_entity_pipes key :
  pipes key <> 2 -> iteration_entity key = Raise ValueError.
Proof.
  intros H. unfold iteration_entity.
  pose proof (split_pipe_from_length EmptyString key) as Hl. fold (split_pipe key) in Hl.
  destruct (split_pipe key) as [|a [|b [|c [|x l]]]]; try reflexivity.
  cbn [length] in Hl. lia.
Qed.

Lemma bind_raise {A C} (m : M A) (f : A -> M C) st e st1 :
  m st = (Raise e, st1) -> bind m f st = (Raise e, st1).
Proof. intros H. unfold bind. now rewrite H. Qed.

Section BadKey.

Variable emitter : list ref -> M (list ref).
Variable is_dry_run : bool.

(** The loop that makes the iterations to create stops at a key that does
    not split in three. *)
Lemma iteration_records_abort keys : forall acc st,
  (exists key, In key keys /\ iteration_entity key = Raise ValueError) ->
  let run := fold_m (fun acc iteration_string =>
                       it <-- lift (iteration_entity iteration_string) ;;
                       r <-- new_item it ;;
                       ret (acc ++ [r]))
                    acc keys st in
  fst run = Raise ValueError
  /\ self (snd run) = self st
  /\ backend (snd run) = backend st
  /\ imported_entities_csv (snd run) = imported_entities_csv st
  /\ firstn (length (heap st)) (heap (snd run)) = heap st.
Proof.
  induction keys as [|key keys IH]; intros acc st (bad & Hin & Hbad).
  - destruct Hin.
  - destruct (iteration_entity key) as [it|e] eqn:E.
    + assert (Hrest : exists key', In key' keys /\ iteration_entity key' = Raise ValueError).
      { destruct Hin as [<-|Hin]; [rewrite E in Hbad; discriminate | eauto]. }
      specialize (IH (acc ++ [length (heap st)])
                     (set_heap st (heap st ++ [it])) Hrest).
      cbv zeta in IH |- *.
      match goal with
      | |- context [fold_m ?body acc (key :: keys) st] =>
          assert (Hstep : fold_m body acc (key :: keys) st
                          = fold_m body (acc ++ [length (heap st)]) keys
                              (set_heap st (heap st ++ [it])))
            by (cbn [fold_m]; unfold bind, lift, new_item, ret; rewrite E; reflexivity)
      end.
      rewrite Hstep. destruct IH as (I1 & I2 & I3 & I4 & I5).
      split; [exact I1|]. split; [exact I2|]. split; [exact I3|].
      split; [exact I4|].
      cbn [heap set_heap] in I5. rewrite length_app in I5. cbn [length] in I5.
      apply (f_equal (firstn (length (heap st)))) in I5.
      rewrite firstn_firstn in I5.
      rewrite Nat.min_l in I5 by lia.
      rewrite I5. rewrite firstn_app, Nat.sub_diag, firstn_all. cbn [firstn].
      now rewrite app_nil_r.
    + cbv zeta.
      match goal with
      | |- context [fold_m ?body acc (key :: keys) st] =>
          assert (Hstep : fold_m body acc (key :: keys) st = (Raise e, st))
            by (cbn [fold_m]; unfold bind, lift; rewrite E; reflexivity)
      end.
      rewrite Hstep. cbn [fst snd].
      rewrite (iteration_entity_raises _ _ E). repeat split.
      apply firstn_all.
Qed.

(** X10.  A '|' in the iteration id or in a date of a story aborts the
    iterations phase of [commit]: the key of the story does not split back
    in three, and the phase raises ValueError before any iteration is
    handed to the emitter, leaving the collector, the target system and the
    record of created entities as the epics phase left them. *)
Theorem pipe_in_iteration_aborts l st id start_date end_date :
  (forall keys, Permutation keys (set_order keys)) ->
  In (id ++ "|" ++ start_date ++ "|" ++ end_date)%string (iteration_strings (self st)) ->
  no_pipe id && no_pipe start_date && no_pipe end_date = false ->
  let run := commit_iterations emitter is_dry_run l st in
  fst run = Raise ValueError
  /\ self (snd run) = self st
  /\ backend (snd run) = backend st
  /\ imported_entities_csv (snd run) = imported_entities_csv st
  /\ firstn (length (heap st)) (heap (snd run)) = heap st.
Proof.
  intros Hperm Hin Hpipe.
  assert (Hbad : iteration_entity (id ++ "|" ++ start_date ++ "|" ++ end_date)
                 = Raise ValueError).
  { apply iteration_entity_pipes. rewrite !pipes_append.
    change (pipes "|") with 1.
    assert (1 <= pipes id + pipes start_date + pipes end_date).
    { destruct (no_pipe id) eqn:N1; [|apply pipes_no_pipe in N1; lia].
      destruct (no_pipe start_date) eqn:N2; [|apply pipes_no_pipe in N2; lia].
      destruct (no_pipe end_date) eqn:N3; [discriminate|].
      apply pipes_no_pipe in N3. lia. }
    lia. }
  assert (Hex : exists key, In key (set_order (iteration_strings (self st)))
                            /\ iteration_entity key = Raise ValueError).
  { eexists. split; [|exact Hbad]. eapply Permutation_in; [apply Hperm | exact Hin]. }
  pose proof (iteration_records_abort _ [] st Hex) as H. cbv zeta in H |- *.
  destruct (fold_m _ [] (set_order (iteration_strings (self st))) st)
    as [[a|e] st1] eqn:Efold; cbn [fst snd] in H.
  - destruct H as [H _]. discriminate.
  - assert (Hrun : commit_iterations emitter is_dry_run l st = (Raise e, st1)).
    { unfold commit_iterations. unfold bind at 1. unfold get_self. cbv beta iota.
      apply bind_raise. exact Efold. }
    rewrite Hrun. cbn [fst snd]. destruct H as (He & H).
    injection He as ->. split; [reflexivity | exact H].
Qed.

End BadKey.


(* ================================================================== *)
(** ** Further properties of the collection *)
(* ================================================================== *)

Lemma set_add_NoDup (s : list string) x :
  NoDup s -> NoDup (set_add String.eqb s x).
Proof.
  intros H. unfold set_add. destruct (existsb (String.eqb x) s) eqn:E; [exact H|].
  apply NoDup_app; [exact H | repeat constructor; intros [] |].
  intros a Ha [Hx|[]]. subst a.
  assert (Hex : existsb (String.eqb x) s = true).
  { apply existsb_exists. exists x. split; [exact Ha | apply String.eqb_refl]. }
  rewrite Hex in E. discriminate.
Qed.

Lemma built_type ctx d r :
  build_entity ctx d = Ok r -> type_ r = "story" \/ type_ r = "epic".
Proof.
  intros Hb. destruct (build_entity_trace _ _ _ Hb)
    as [d0 story_type cs comments d1 d2 keys _ _ _ _ _ Htype _ _ _ _].
  rewrite Htype. destruct (str_is story_type "epic"); auto.
Qed.

(** The record built from the line at index [i]: the pure steps of one pass
    of the loop of [process_pt_csv_export]. *)
Definition read_row (ctx : context) (header : list string)
           (indexed_row : nat * list string) : result item :=
  row_info <- parse_row (snd indexed_row) header ;;
  row_info <- add_attached_files_in_comments
                (connects (pivotal_dump (fst indexed_row)))
                (query (pivotal_dump (fst indexed_row))) row_info ;;
  build_entity ctx row_info.

(** The references [collect] files under a type, for records stored from
    the address [n] on. *)
Fixpoint refs_of_type (ty : string) (n : nat) (records : list item) : list ref :=
  match records with
  | [] => []
  | r :: rest =>
      (if String.eqb (type_ r) ty then [n] else []) ++ refs_of_type ty (S n) rest
  end.

(** The iteration keys [collect] holds after a record. *)
Definition add_iteration_key (keys : list string) (r : item) : list string :=
  if String.eqb (type_ r) "story" then
    match iteration r with
    | Some key => if String.eqb key "" then keys else set_add String.eqb keys key
    | None => keys
    end
  else keys.

(** What a state reached by collecting records keeps of the state it
    started from. *)
Definition collected_from (st st' : state) (records : list item) : Prop :=
  heap st' = heap st ++ records
  /\ stories (self st')
     = stories (self st) ++ refs_of_type "story" (length (heap st)) records
  /\ epics (self st')
     = epics (self st) ++ refs_of_type "epic" (length (heap st)) records
  /\ iteration_strings (self st')
     = fold_left add_iteration_key records (iteration_strings (self st))
  /\ labels (self st') = labels (self st)
  /\ iterations (self st') = iterations (self st)
  /\ files (self st') = files (self st)
  /\ backend st' = backend st
  /\ imported_entities_csv st' = imported_entities_csv st
  /\ failed_stories_csv st' = failed_stories_csv st
  /\ failed_files_csv st' = failed_files_csv st
  /\ io st' = io st.

Lemma refs_of_type_app ty records : forall n records',
  refs_of_type ty n (records ++ records')
  = refs_of_type ty n records ++ refs_of_type ty (n + length records) records'.
Proof. forget_run.
  induction records as [|r records IH]; intros n records'; cbn [refs_of_type app length].
  - now rewrite Nat.add_0_r.
  - rewrite IH, <- app_assoc. do 3 f_equal. lia.
Qed.

Lemma bind_lift {A C} (r : result A) (k : A -> M C) st :
  bind (lift r) k st = match r with Ok a => k a st | Raise e => (Raise e, st) end.
Proof. destruct r; reflexivity. Qed.

Lemma export_row_spec ctx header row st :
  match read_row ctx header row with
  | Ok record =>
      exists st', export_row ctx header row st = (Ok tt, st')
                  /\ collected_from st st' [record]
  | Raise e => export_row ctx header row st = (Raise e, st)
  end.
Proof.
  destruct row as [i row]. unfold export_row, read_row. cbn [fst snd].
  rewrite bind_lift.
  destruct (parse_row row header) as [d|e]; cbn [rbind]; [|reflexivity].
  rewrite bind_lift.
  destruct (add_attached_files_in_comments _ _ d) as [d'|e]; cbn [rbind];
    [|reflexivity].
  rewrite bind_lift.
  destruct (build_entity ctx d') as [record|e] eqn:Hb; [|reflexivity].
  unfold bind at 1, new_item at 1.
  unfold bind at 1, collect. unfold bind at 1, get_item.
  cbn [heap set_heap].
  rewrite nth_error_app2, Nat.sub_diag by lia. cbn [nth_error].
  unfold collected_from, add_iteration_key. cbn [refs_of_type fold_left].
  destruct (built_type _ _ _ Hb) as [Hty|Hty]; rewrite Hty.
  - change (String.eqb "story" "story") with true.
    change (String.eqb "story" "epic") with false. cbv iota.
    unfold update_self, bind, get_self, put_self, ret. cbn [fst snd].
    eexists. split; [reflexivity|].
    cbn [heap self set_self set_heap stories epics labels
         iterations files iteration_strings with_stories
         backend imported_entities_csv failed_stories_csv
         failed_files_csv io app].
    rewrite !app_nil_r. repeat split.
  - change (String.eqb "epic" "story") with false.
    change (String.eqb "epic" "epic") with true. cbv iota.
    unfold update_self, bind, get_self, put_self, ret. cbn [fst snd].
    eexists. split; [reflexivity|].
    cbn [heap self set_self set_heap stories epics labels
         iterations files iteration_strings with_epics
         backend imported_entities_csv failed_stories_csv
         failed_files_csv io app].
    rewrite !app_nil_r. repeat split.
Qed.

Lemma collected_from_refl st : collected_from st st [].
Proof.
  unfold collected_from. cbn [refs_of_type fold_left].
  rewrite !app_nil_r. repeat split.
Qed.

Lemma collected_from_trans a b c r1 r2 :
  collected_from a b r1 -> collected_from b c r2 ->
  collected_from a c (r1 ++ r2).
Proof.
  intros (A1 & A2 & A3 & A4 & A5 & A6 & A7 & A8 & A9 & A10 & A11 & A12)
         (B1 & B2 & B3 & B4 & B5 & B6 & B7 & B8 & B9 & B10 & B11 & B12).
  unfold collected_from.
  rewrite A1, length_app in B2, B3.
  split; [rewrite B1, A1; now rewrite app_assoc|].
  split; [rewrite B2, A2, refs_of_type_app, app_assoc; reflexivity|].
  split; [rewrite B3, A3, refs_of_type_app, app_assoc; reflexivity|].
  split; [rewrite B4, A4, fold_left_app; reflexivity|].
  repeat (split; [congruence|]). congruence.
Qed.

Lemma export_rows_spec ctx header rows : forall st,
  match rmap (read_row ctx header) rows with
  | Ok records =>
      exists st', for_each rows (export_row ctx header) st = (Ok tt, st')
                  /\ collected_from st st' records
  | Raise e =>
      exists st', for_each rows (export_row ctx header) st = (Raise e, st')
  end.
Proof.
  induction rows as [|row rows IH]; intros st; cbn [rmap for_each].
  - exists st. split; [reflexivity | apply collected_from_refl].
  - pose proof (export_row_spec ctx header row st) as Hrow.
    destruct (read_row ctx header row) as [record|e]; cbn [rbind].
    + destruct Hrow as (st1 & Hrun & Hc1).
      specialize (IH st1).
      destruct (rmap (read_row ctx header) rows) as [records|e]; cbn [rbind].
      * destruct IH as (st2 & Hrest & Hc2). exists st2.
        split; [unfold bind; rewrite Hrun; exact Hrest|].
        exact (collected_from_trans _ _ _ _ _ Hc1 Hc2).
      * destruct IH as (st2 & Hrest). exists st2.
        unfold bind. rewrite Hrun. exact Hrest.
    + exists st. unfold bind. now rewrite Hrow.
Qed.

Lemma rmap_raise_in {A C} (f : A -> result C) l e :
  rmap f l = Raise e -> exists x, In x l /\ f x = Raise e.
Proof.
  induction l as [|x l IH]; cbn [rmap]; [discriminate|].
  destruct (f x) as [y|e'] eqn:E; cbn [rbind].
  - destruct (rmap f l) as [ys|e'']; cbn [rbind]; [discriminate|].
    intros H. injection H as ->. destruct (IH eq_refl) as (x' & Hin & Hx').
    exists x'. split; [now right | exact Hx'].
  - intros H. injection H as ->. exists x. split; [now left | exact E].
Qed.

Lemma rmap_Forall {A C} (f : A -> result C) (P : C -> Prop) l :
  (forall x y, f x = Ok y -> P y) ->
  forall l', rmap f l = Ok l' -> Forall P l'.
Proof.
  intros Hf. induction l as [|x l IH]; intros l'; cbn [rmap].
  - intros H. injection H as <-. constructor.
  - destruct (f x) as [y|e] eqn:E; cbn [rbind]; [|discriminate].
    destruct (rmap f l) as [ys|e]; cbn [rbind]; [|discriminate].
    intros H. injection H as <-. constructor; [now apply (Hf x) | now apply IH].
Qed.

Lemma read_row_type ctx header row record :
  read_row ctx header row = Ok record ->
  type_ record = "story" \/ type_ record = "epic".
Proof.
  unfold read_row.
  destruct (parse_row _ header) as [d|e]; cbn [rbind]; [|discriminate].
  destruct (add_attached_files_in_comments _ _ d) as [d'|e]; cbn [rbind];
    [|discriminate].
  apply built_type.
Qed.

Lemma add_iteration_keys_NoDup records : forall keys,
  NoDup keys -> NoDup (fold_left add_iteration_key records keys).
Proof. forget_run.
  induction records as [|r records IH]; intros keys Hn; cbn [fold_left];
    [exact Hn|].
  apply IH. unfold add_iteration_key.
  destruct (String.eqb (type_ r) "story"); [|exact Hn].
  destruct (iteration r) as [key|]; [|exact Hn].
  destruct (String.eqb key ""); [exact Hn | now apply set_add_NoDup].
Qed.

(** The run label is collected first. *)
Lemma export_label_spec st :
  exists st1,
    (label <-- new_item build_run_label_entity ;; collect label) st
    = (Ok ("label", 1), st1)
    /\ heap st1 = heap st ++ [build_run_label_entity]
    /\ self st1 = with_labels (self st) (labels (self st) ++ [length (heap st)])
    /\ backend st1 = backend st
    /\ imported_entities_csv st1 = imported_entities_csv st
    /\ failed_stories_csv st1 = failed_stories_csv st
    /\ failed_files_csv st1 = failed_files_csv st
    /\ io st1 = io st.
Proof.
  unfold bind at 1, new_item at 1. unfold collect, bind at 1, get_item.
  cbn [heap set_heap].
  rewrite nth_error_app2, Nat.sub_diag by lia. cbn [nth_error].
  change (type_ build_run_label_entity) with "label".
  change (String.eqb "label" "story") with false.
  change (String.eqb "label" "epic") with false.
  change (String.eqb "label" "label") with true. cbv iota.
  unfold update_self, bind, get_self, put_self, ret. cbn [fst snd].
  eexists. split; [reflexivity|]. repeat split.
Qed.

(** The export after the run label: what is left of
    [process_pt_csv_export] once the label is collected. *)
Lemma process_pt_csv_export_unfold ctx lines stop st :
  exists st1,
    heap st1 = heap st ++ [build_run_label_entity]
    /\ self st1 = with_labels (self st) (labels (self st) ++ [length (heap st)])
    /\ backend st1 = backend st
    /\ imported_entities_csv st1 = imported_entities_csv st
    /\ io st1 = io st
    /\ process_pt_csv_export ctx lines stop st
       = match lines with
         | [] => (Raise (match stop with Some e => e | None => StopIteration end), st1)
         | header :: rows =>
             (for_each (combine (seq 0 (length rows)) rows)
                       (export_row ctx (map str_lower header)) ;;;
              match stop with
              | Some e => raise e
              | None => ret tt
              end) st1
         end.
Proof.
  destruct (export_label_spec st) as (st1 & Hlabel & Hh & Hs & Hb & Hl & _ & _ & Hio).
  exists st1. repeat (split; [assumption|]).
  unfold process_pt_csv_export. unfold bind at 1.
  unfold bind at 1 in Hlabel.
  destruct (new_item build_run_label_entity st) as [[a|e] s0].
  - unfold bind at 1. rewrite Hlabel. destruct lines; reflexivity.
  - discriminate.
Qed.

(** X11.  An export that returns has read a header and, to the end of the
    file, lines that all parse, take their comments of the database and
    build; it has stored the run label and then the record of each line in
    the heap, in the order of the lines, and the collector holds exactly
    them: the run label as one more label, each story record under its own
    address among the stories and each epic record under its own address
    among the epics, in that order, and the non-empty iteration key of each
    story among the iteration keys, none twice.  Nothing else of the state
    changes. *)
Theorem export_collects_every_row ctx lines stop st st' :
  process_pt_csv_export ctx lines stop st = (Ok tt, st') ->
  exists header rows records,
    lines = header :: rows /\ stop = None
    /\ rmap (read_row ctx (map str_lower header))
            (combine (seq 0 (length rows)) rows) = Ok records
    /\ length records = length rows
    /\ Forall (fun r => type_ r = "story" \/ type_ r = "epic") records
    /\ heap st' = heap st ++ build_run_label_entity :: records
    /\ labels (self st') = labels (self st) ++ [length (heap st)]
    /\ stories (self st')
       = stories (self st) ++ refs_of_type "story" (S (length (heap st))) records
    /\ epics (self st')
       = epics (self st) ++ refs_of_type "epic" (S (length (heap st))) records
    /\ iteration_strings (self st')
       = fold_left add_iteration_key records (iteration_strings (self st))
    /\ (NoDup (iteration_strings (self st)) -> NoDup (iteration_strings (self st')))
    /\ iterations (self st') = iterations (self st)
    /\ files (self st') = files (self st)
    /\ backend st' = backend st
    /\ imported_entities_csv st' = imported_entities_csv st
    /\ io st' = io st.
Proof.
  intros H.
  destruct (process_pt_csv_export_unfold ctx lines stop st)
    as (st1 & Hh & Hs & Hb & Hl & Hio & Hrun).
  rewrite Hrun in H. clear Hrun.
  destruct lines as [|header rows]; [discriminate|].
  exists header, rows.
  pose proof (export_rows_spec ctx (map str_lower header)
                (combine (seq 0 (length rows)) rows) st1) as Hrows.
  unfold bind at 1 in H.
  destruct (rmap _ _) as [records|e] eqn:Hmap.
  - destruct Hrows as (st2 & Hfor & Hc). rewrite Hfor in H.
    destruct stop as [e|]; [discriminate|].
    unfold ret in H. injection H as <-.
    destruct Hc as (C1 & C2 & C3 & C4 & C5 & C6 & C7 & C8 & C9 & C10 & C11 & C12).
    rewrite Hs in C2, C3, C4, C5, C6, C7. rewrite Hh, length_app in C2, C3.
    cbn [with_labels stories epics labels iterations iteration_strings files
         length] in *.
    rewrite Nat.add_1_r in C2, C3.
    exists records. split; [reflexivity|]. split; [reflexivity|].
    split; [reflexivity|].
    split.
    { rewrite (rmap_length _ _ _ Hmap), length_combine, length_seq. lia. }
    split.
    { eapply rmap_Forall; [|exact Hmap]. intros x y. apply read_row_type. }
    split; [rewrite C1, Hh, <- app_assoc; reflexivity|].
    split; [exact C5|]. split; [exact C2|]. split; [exact C3|].
    split; [exact C4|].
    split; [rewrite C4; apply add_iteration_keys_NoDup|].
    split; [exact C6|]. split; [exact C7|].
    split; [congruence|]. split; congruence.
  - destruct Hrows as (st2 & Hfor). rewrite Hfor in H. discriminate.
Qed.

(** X12.  An export that fails fails for one of these reasons, and the
    collector never refuses the run label or a record that was built: the
    file gives no line (it cannot be opened, or it is empty and
    [next(reader)] raises StopIteration); or a line after the header is
    refused, by [parse_row], by the lookup of its comments in the database
    or by the Builder, and the exception is theirs; or every line read was
    collected and the reader raised while reading on. *)
Theorem export_failure_sources ctx lines stop st e st' :
  process_pt_csv_export ctx lines stop st = (Raise e, st') ->
  (lines = [] /\ e = match stop with Some e' => e' | None => StopIteration end)
  \/ exists header rows,
       lines = header :: rows
       /\ ((exists i row,
              In (i, row) (combine (seq 0 (length rows)) rows)
              /\ (parse_row row (map str_lower header) = Raise e
                  \/ exists row_info,
                       parse_row row (map str_lower header) = Ok row_info
                       /\ (add_attached_files_in_comments
                             (connects (pivotal_dump i)) (query (pivotal_dump i))
                             row_info = Raise e
                           \/ exists row_info',
                                add_attached_files_in_comments
                                  (connects (pivotal_dump i))
                                  (query (pivotal_dump i)) row_info = Ok row_info'
                                /\ build_entity ctx row_info' = Raise e)))
           \/ (stop = Some e
               /\ exists records,
                    rmap (read_row ctx (map str_lower header))
                         (combine (seq 0 (length rows)) rows) = Ok records)).
Proof.
  intros H.
  destruct (process_pt_csv_export_unfold ctx lines stop st)
    as (st1 & _ & _ & _ & _ & _ & Hrun).
  rewrite Hrun in H. clear Hrun.
  destruct lines as [|header rows].
  { left. split; [reflexivity|]. now injection H as <- _. }
  right. exists header, rows. split; [reflexivity|].
  pose proof (export_rows_spec ctx (map str_lower header)
                (combine (seq 0 (length rows)) rows) st1) as Hrows.
  unfold bind at 1 in H.
  destruct (rmap _ _) as [records|e0] eqn:Hmap.
  - destruct Hrows as (st2 & Hfor & _). rewrite Hfor in H.
    right. destruct stop as [e'|]; [|discriminate].
    unfold raise in H. injection H as -> _.
    split; [reflexivity|]. now exists records.
  - destruct Hrows as (st2 & Hfor). rewrite Hfor in H. injection H as -> _.
    left. apply rmap_raise_in in Hmap. destruct Hmap as ((i, row) & Hin & Hrow).
    exists i, row. split; [exact Hin|].
    unfold read_row in Hrow. cbn [fst snd] in Hrow.
    destruct (parse_row row _) as [d|e1]; cbn [rbind] in Hrow.
    + right. exists d. split; [reflexivity|].
      destruct (add_attached_files_in_comments _ _ d) as [d'|e2]; cbn [rbind] in Hrow.
      * right. exists d'. split; [reflexivity | exact Hrow].
      * left. now injection Hrow as ->.
    + left. now injection Hrow as ->.
Qed.


(* ------------------------------------------------------------------ *)
(** *** The batches of stories *)

Lemma chunks_from_spec {A} n : forall fuel (l : list A),
  0 < n -> length l <= fuel ->
  Forall (fun b => 0 < length b <= n) (chunks_from fuel n l)
  /\ (forall i, S i < length (chunks_from fuel n l) ->
                length (nth i (chunks_from fuel n l) []) = n)
  /\ length (chunks_from fuel n l) = (length l + n - 1) / n.
Proof.
  induction fuel as [|fuel IH]; intros l Hn Hl; cbn [chunks_from].
  - destruct l; [|cbn in Hl; lia]. cbn [length].
    split; [constructor|]. split; [intros i Hi; cbn in Hi; lia|].
    rewrite Nat.div_small; [reflexivity | lia].
  - destruct l as [|x l].
    + cbn [length]. split; [constructor|]. split; [intros i Hi; cbn in Hi; lia|].
      rewrite Nat.div_small; [reflexivity | lia].
    + remember (x :: l) as xs eqn:Exs.
      assert (Hpos : 0 < length xs) by (subst xs; cbn; lia).
      assert (Hskip : length (skipn n xs) <= fuel).
      { rewrite length_skipn. cbn [length] in Hl. subst xs. cbn [length] in *. lia. }
      destruct (IH (skipn n xs) Hn Hskip) as (F & L & C).
      split; [|split].
      * constructor; [|exact F]. rewrite length_firstn. lia.
      * intros [|i] Hi; cbn [nth length] in *.
        -- rewrite length_firstn.
           destruct (chunks_from fuel n (skipn n xs)) as [|b bs] eqn:E;
             [cbn in Hi; lia|].
           assert (Hb : 0 < length (skipn n xs)).
           { destruct (skipn n xs) eqn:Es; [|cbn; lia].
             destruct fuel; cbn in E; discriminate. }
           rewrite length_skipn in Hb. lia.
        -- apply L. lia.
      * cbn [length]. rewrite C, length_skipn.
        destruct (Nat.le_gt_cases n (length xs)) as [Hge|Hlt].
        -- replace (length xs + n - 1) with ((length xs - n + n - 1) + 1 * n) by lia.
           rewrite Nat.div_add by lia. lia.
        -- replace (length xs - n) with 0 by lia.
           rewrite (Nat.div_small (0 + n - 1)) by lia.
           replace (length xs + n - 1) with ((length xs - 1) + 1 * n) by lia.
           rewrite Nat.div_add by lia.
           rewrite Nat.div_small by lia. reflexivity.
Qed.

(** X13.  The batches [commit] cuts the stories into, [l[i:i + n]] for [i]
    in steps of [n]: put end to end they are the stories, in order; none
    is empty and none has more than [n] stories; every batch but the last
    has exactly [n]; and there are as many as [n] goes into the number of
    stories, rounded up. *)
Theorem batches_partition {A} (n : nat) (l : list A) :
  0 < n ->
  concat (chunks n l) = l
  /\ Forall (fun b => 0 < length b <= n) (chunks n l)
  /\ (forall i, S i < length (chunks n l) -> length (nth i (chunks n l) []) = n)
  /\ length (chunks n l) = (length l + n - 1) / n.
Proof.
  intros Hn. split; [now apply concat_chunks|].
  apply chunks_from_spec; [exact Hn | lia].
Qed.


(* ================================================================== *)
(** ** The dry run *)
(* ================================================================== *)

(** [quiet st st']: from [st] to [st'] nothing was asked of the target
    system, and neither the record of created entities nor the file of
    failed uploads was written. *)
Definition quiet (st st' : state) : Prop :=
  backend st' = backend st
  /\ imported_entities_csv st' = imported_entities_csv st
  /\ failed_files_csv st' = failed_files_csv st.

Lemma quiet_refl st : quiet st st.
Proof. repeat split. Qed.

Lemma quiet_trans a b c : quiet a b -> quiet b c -> quiet a c.
Proof. intros (A1 & A2 & A3) (B1 & B2 & B3). repeat split; congruence. Qed.

Create HintDb quiet.

Lemma quiet_put_item r it : preserves quiet (put_item r it).
Proof. intros st. repeat split. Qed.

Lemma quiet_update_item r f : preserves quiet (update_item r f).
Proof.
  unfold update_item.
  apply (preserves_bind quiet quiet_trans);
    [apply (preserves_get_item quiet quiet_refl) | intros; apply quiet_put_item].
Qed.

Lemma quiet_new_item it : preserves quiet (new_item it).
Proof. intros st. repeat split. Qed.

Lemma quiet_update_self f : preserves quiet (update_self f).
Proof. intros st. repeat split. Qed.

Lemma quiet_get_next_id : preserves quiet _get_next_id.
Proof. intros st. repeat split. Qed.

Lemma quiet_write_failed_stories rs : preserves quiet (write_failed_stories rs).
Proof. intros st. repeat split; apply write_failed_stories_keeps. Qed.

#[local] Hint Resolve quiet_put_item quiet_update_item quiet_new_item quiet_update_self
  quiet_get_next_id quiet_write_failed_stories : quiet.

Ltac quiet_step :=
  first
    [ solve [auto with quiet]
    | apply (preserves_ret quiet quiet_refl)
    | apply (preserves_raise quiet quiet_refl)
    | apply (preserves_lift quiet quiet_refl)
    | apply (preserves_get_item quiet quiet_refl)
    | apply (preserves_get_self quiet quiet_refl)
    | apply (preserves_deref quiet quiet_refl quiet_trans)
    | apply (preserves_bind quiet quiet_trans); [ | intros ]
    | apply (preserves_try quiet quiet_trans); [ | intros ]
    | apply (preserves_for_each quiet quiet_refl quiet_trans); intros
    | apply (preserves_fold_m quiet quiet_refl quiet_trans); intros
    | match goal with
      | |- preserves _ (match ?x with _ => _ end) => destruct x
      | |- preserves _ (if ?x then _ else _) => destruct x
      end ].

Ltac quietly := repeat quiet_step.

Lemma quiet_set_comment story i c : preserves quiet (set_comment story i c).
Proof. unfold set_comment. quietly. Qed.

#[local] Hint Resolve quiet_set_comment : quiet.

Lemma quiet_process_comment story pt_id files i comment failed :
  preserves quiet (process_comment true story pt_id files i comment failed).
Proof. unfold process_comment. cbv iota. quietly. Qed.

#[local] Hint Resolve quiet_process_comment : quiet.

Lemma quiet_process_comments story pt_id files comments : forall i failed,
  preserves quiet (process_comments true story pt_id files i comments failed).
Proof.
  induction comments as [|c comments IH]; intros i failed; cbn [process_comments];
    quietly.
Qed.

#[local] Hint Resolve quiet_process_comments : quiet.

Lemma quiet_process_story_files acc story :
  preserves quiet (process_story_files true acc story).
Proof. unfold process_story_files. quietly. Qed.

#[local] Hint Resolve quiet_process_story_files : quiet.

Lemma quiet_process_files_for_stories batch :
  preserves quiet (process_files_for_stories batch true).
Proof. unfold process_files_for_stories. cbv iota. quietly. Qed.

Lemma quiet_set_imported p : preserves quiet (set_imported p).
Proof. unfold set_imported. quietly. Qed.

#[local] Hint Resolve quiet_process_files_for_stories quiet_set_imported : quiet.

Lemma quiet_mock_emit item : preserves quiet (mock_emit item).
Proof. unfold mock_emit. quietly. Qed.

#[local] Hint Resolve quiet_mock_emit : quiet.

Lemma quiet_mock_emitter items : preserves quiet (mock_emitter items).
Proof. unfold mock_emitter. quietly. Qed.

Lemma quiet_assign_stories_to_epics stories epics :
  preserves quiet (assign_stories_to_epics stories epics).
Proof. unfold assign_stories_to_epics. quietly. Qed.

Lemma quiet_assign_stories_to_iterations stories iterations :
  preserves quiet (assign_stories_to_iterations stories iterations).
Proof. unfold assign_stories_to_iterations. quietly. Qed.

Lemma quiet_imported_entities rs : preserves quiet (imported_entities rs).
Proof. unfold imported_entities. quietly. Qed.

#[local] Hint Resolve quiet_mock_emitter quiet_assign_stories_to_epics
  quiet_assign_stories_to_iterations quiet_imported_entities : quiet.

Lemma quiet_process_story_batch batch :
  preserves quiet (process_story_batch mock_emitter true batch).
Proof. unfold process_story_batch. quietly. Qed.

#[local] Hint Resolve quiet_process_story_batch : quiet.

Lemma quiet_commit_labels l : preserves quiet (commit_labels mock_emitter true l).
Proof. unfold commit_labels. cbv iota. quietly. Qed.

Lemma quiet_commit_epics l : preserves quiet (commit_epics mock_emitter true l).
Proof. unfold commit_epics. cbv iota. quietly. Qed.

Lemma quiet_commit_iterations l : preserves quiet (commit_iterations mock_emitter true l).
Proof. unfold commit_iterations. cbv iota. quietly. Qed.

Lemma quiet_commit_story_batch l batch :
  preserves quiet (commit_story_batch mock_emitter true l batch).
Proof. unfold commit_story_batch. cbn [negb]. cbv iota. quietly. Qed.

#[local] Hint Resolve quiet_commit_labels quiet_commit_epics quiet_commit_iterations
  quiet_commit_story_batch : quiet.

Lemma quiet_commit_stories l : preserves quiet (commit_stories mock_emitter true l).
Proof. unfold commit_stories. quietly. Qed.

#[local] Hint Resolve quiet_commit_stories : quiet.

(** X14.  A dry run asks nothing of the target system and writes neither
    the record of created entities nor the file of failed uploads, whether
    [commit] returns or raises.  (The file of failed stories is not in the
    list: a batch the dry-run emitter raises on is written to it.) *)
Theorem dry_run_is_quiet st :
  backend (snd (commit mock_emitter true st)) = backend st
  /\ imported_entities_csv (snd (commit mock_emitter true st)) = imported_entities_csv st
  /\ failed_files_csv (snd (commit mock_emitter true st)) = failed_files_csv st.
Proof.
  assert (H : preserves quiet (commit mock_emitter true)) by (unfold commit; quietly).
  exact (H st).
Qed.


(* ================================================================== *)
(** ** Runs in which no write fails *)
(* ================================================================== *)

(** A preorder on states that every elementary step of a run respects is
    respected by the live backend and by every phase of [commit] after the
    labels. *)
Section Everywhere.

Variable R : state -> state -> Prop.
Hypothesis R_refl : forall st, R st st.
Hypothesis R_trans : forall a b c, R a b -> R b c -> R a c.
Hypothesis R_heap : forall st h, R st (set_heap st h).
Hypothesis R_self : forall st c, R st (set_self st c).
Hypothesis R_post : forall path e st, R st (snd (call (sc_post path e) st)).
Hypothesis R_bulk : forall es st, R st (snd (call (sc_post_bulk es) st)).
Hypothesis R_upload :
  forall paths st,
    R st (snd (call (fun b => let (r, b') := sc_upload_files paths b in (Ok r, b')) st)).
Hypothesis R_write :
  forall es st, R st (snd (write_to_imported_entities_csv es mode_a st)).
Hypothesis R_failed_stories : forall rs st, R st (snd (write_failed_stories rs st)).
Hypothesis R_failed_files : forall fs st, R st (snd (write_failed_files_csv fs st)).

Lemma every_put_item r it : preserves R (put_item r it).
Proof using R_heap. intros st. apply R_heap. Qed.

Lemma every_update_item r f : preserves R (update_item r f).
Proof using R_refl R_trans R_heap.
  unfold update_item.
  apply (preserves_bind R R_trans);
    [apply (preserves_get_item R R_refl) | intros; apply every_put_item].
Qed.

Lemma every_new_item it : preserves R (new_item it).
Proof using R_heap. intros st. apply R_heap. Qed.

Lemma every_update_self f : preserves R (update_self f).
Proof using R_self. intros st. apply R_self. Qed.

Lemma every_post path e : preserves R (call (sc_post path e)).
Proof using R_post. intros st. apply R_post. Qed.

Lemma every_bulk es : preserves R (call (sc_post_bulk es)).
Proof using R_bulk. intros st. apply R_bulk. Qed.

Lemma every_upload paths :
  preserves R (call (fun b => let (r, b') := sc_upload_files paths b in (Ok r, b'))).
Proof using R_upload. intros st. apply R_upload. Qed.

Lemma every_write es : preserves R (write_to_imported_entities_csv es mode_a).
Proof using R_write. intros st. apply R_write. Qed.

Lemma every_write_nothing m : preserves R (write_to_imported_entities_csv [] m).
Proof using R_refl. intros st. apply R_refl. Qed.

Lemma every_write_failed_stories rs : preserves R (write_failed_stories rs).
Proof using R_failed_stories. intros st. apply R_failed_stories. Qed.

Lemma every_write_failed_files fs : preserves R (write_failed_files_csv fs).
Proof using R_failed_files. intros st. apply R_failed_files. Qed.

Create HintDb every.

#[local] Hint Resolve every_put_item every_update_item every_new_item every_update_self
  every_post every_bulk every_upload every_write every_write_nothing every_write_failed_stories
  every_write_failed_files : every.

Ltac every_step :=
  first
    [ solve [auto with every]
    | apply (preserves_ret R R_refl)
    | apply (preserves_raise R R_refl)
    | apply (preserves_lift R R_refl)
    | apply (preserves_get_item R R_refl)
    | apply (preserves_get_self R R_refl)
    | apply (preserves_deref R R_refl R_trans)
    | apply (preserves_bind R R_trans); [ | intros ]
    | apply (preserves_try R R_trans); [ | intros ]
    | apply (preserves_for_each R R_refl R_trans); intros
    | apply (preserves_fold_m R R_refl R_trans); intros
    | match goal with
      | |- preserves _ (match ?x with _ => _ end) => destruct x
      | |- preserves _ (if ?x then _ else _) => destruct x
      end ].

Ltac every := repeat every_step.

Lemma every_set_comment story i c : preserves R (set_comment story i c).
Proof using R_refl R_trans R_heap. unfold set_comment. every. Qed.

#[local] Hint Resolve every_set_comment : every.

Lemma every_process_comment dry story pt_id files i comment failed :
  preserves R (process_comment dry story pt_id files i comment failed).
Proof using R_refl R_trans R_heap R_upload R_write. unfold process_comment. every. Qed.

#[local] Hint Resolve every_process_comment : every.

Lemma every_process_comments dry story pt_id files comments : forall i failed,
  preserves R (process_comments dry story pt_id files i comments failed).
Proof using R_refl R_trans R_heap R_upload R_write.
  induction comments as [|c comments IH]; intros i failed; cbn [process_comments]; every.
Qed.

#[local] Hint Resolve every_process_comments : every.

Lemma every_process_story_files dry acc story :
  preserves R (process_story_files dry acc story).
Proof using R_refl R_trans R_heap R_upload R_write. unfold process_story_files. every. Qed.

#[local] Hint Resolve every_process_story_files : every.

Lemma every_process_files_for_stories batch dry :
  preserves R (process_files_for_stories batch dry).
Proof using R_refl R_trans R_heap R_upload R_write R_failed_stories R_failed_files.
  unfold process_files_for_stories. every.
Qed.

Lemma every_clean_story story : preserves R (clean_story story).
Proof using R_refl R_trans R_heap. unfold clean_story. every. Qed.

Lemma every_set_imported p : preserves R (set_imported p).
Proof using R_refl R_trans R_heap. unfold set_imported. every. Qed.

#[local] Hint Resolve every_process_files_for_stories every_clean_story
  every_set_imported : every.

Lemma every_process_batch batch done : preserves R (process_batch batch done).
Proof using R_refl R_trans R_heap R_post R_bulk R_upload R_write R_failed_stories R_failed_files.
  unfold process_batch. every.
Qed.

#[local] Hint Resolve every_process_batch : every.

Lemma every_create_non_story done item : preserves R (create_non_story done item).
Proof using R_refl R_trans R_heap R_post R_bulk R_upload R_write. unfold create_non_story. every. Qed.

Lemma every_batch_story acc item : preserves R (batch_story acc item).
Proof using R_refl R_trans R_heap R_post R_bulk R_upload R_write R_failed_stories R_failed_files.
  unfold batch_story. every.
Qed.

#[local] Hint Resolve every_create_non_story every_batch_story : every.

Lemma every_sc_creator items : preserves R (sc_creator items).
Proof using R_refl R_trans R_heap R_post R_bulk R_upload R_write R_failed_stories R_failed_files.
  unfold sc_creator. every.
Qed.

Lemma every_assign_stories_to_epics stories epics :
  preserves R (assign_stories_to_epics stories epics).
Proof using R_refl R_trans R_heap. unfold assign_stories_to_epics. every. Qed.

Lemma every_assign_stories_to_iterations stories iterations :
  preserves R (assign_stories_to_iterations stories iterations).
Proof using R_refl R_trans R_heap. unfold assign_stories_to_iterations. every. Qed.

Lemma every_imported_entities rs : preserves R (imported_entities rs).
Proof using R_refl R_trans. unfold imported_entities. every. Qed.

#[local] Hint Resolve every_sc_creator every_assign_stories_to_epics
  every_assign_stories_to_iterations every_imported_entities : every.

Lemma every_process_story_batch batch :
  preserves R (process_story_batch sc_creator false batch).
Proof using R_refl R_trans R_heap R_post R_bulk R_upload R_write R_failed_stories R_failed_files.
  unfold process_story_batch. every.
Qed.

#[local] Hint Resolve every_process_story_batch : every.

End Everywhere.

(** [calm st]: none of the writes to come fails. *)
Definition calm (st : state) : Prop := Forall (fun o => o = io_ok) (io st).

Definition stays_calm (st st' : state) : Prop := calm st -> calm st'.

Lemma stays_calm_refl st : stays_calm st st.
Proof. exact (fun H => H). Qed.

Lemma stays_calm_trans a b c : stays_calm a b -> stays_calm b c -> stays_calm a c.
Proof. unfold stays_calm. auto. Qed.

Lemma take_io_calm st :
  calm st -> exists st1, take_io st = (io_ok, st1) /\ calm st1.
Proof.
  unfold calm, take_io. intros H. destruct (io st) as [|o r] eqn:E.
  - exists st. split; [reflexivity|]. now rewrite E.
  - inversion H as [|? ? Ho Hr]; subst. eexists. split; [reflexivity|]. exact Hr.
Qed.

Lemma calm_same st st' : io st' = io st -> stays_calm st st'.
Proof. unfold stays_calm, calm. now intros ->. Qed.

Lemma calm_write es m st :
  stays_calm st (snd (write_to_imported_entities_csv es m st)).
Proof.
  intros H. unfold write_to_imported_entities_csv. destruct es as [|e es]; [exact H|].
  destruct (take_io_calm st H) as (st1 & -> & H1). cbn [snd io_lines]. exact H1.
Qed.

Lemma calm_write_failed_files fs st :
  stays_calm st (snd (write_failed_files_csv fs st)).
Proof.
  intros H. unfold write_failed_files_csv. destruct fs as [|f fs]; [exact H|].
  destruct (take_io_calm st H) as (st1 & -> & H1). cbn [snd io_rows]. exact H1.
Qed.

Lemma calm_write_failed_stories rs st :
  stays_calm st (snd (write_failed_stories rs st)).
Proof.
  intros H. unfold write_failed_stories. destruct rs as [|r rs]; [exact H|].
  remember (r :: rs) as refs. unfold bind, deref.
  pose proof (deref_state refs [] st) as Hd.
  destruct (fold_m _ [] refs st) as [[items|e] st0]; cbn [snd] in Hd; subst st0;
    [|exact H].
  destruct (take_io_calm st H) as (st1 & -> & H1). cbn [snd io_rows]. exact H1.
Qed.

(** A run that starts calm stays calm. *)
Lemma run_calm {A} (m : M A) st r st' :
  preserves stays_calm m -> m st = (r, st') -> calm st -> calm st'.
Proof. intros Hm H. specialize (Hm st). now rewrite H in Hm. Qed.

Lemma io_call {A} (f : B -> result A * B) st : io (snd (call f st)) = io st.
Proof. unfold call. now destruct (f (backend st)). Qed.

Ltac calm_of lemma :=
  apply (lemma stays_calm stays_calm_refl stays_calm_trans);
  first [ intros; now apply calm_same
        | intros; apply calm_same, io_call
        | intros; apply calm_write
        | intros; apply calm_write_failed_stories
        | intros; apply calm_write_failed_files ].

Lemma calm_sc_creator items : preserves stays_calm (sc_creator items).
Proof. calm_of every_sc_creator. Qed.

Lemma calm_assign_stories_to_epics stories epics :
  preserves stays_calm (assign_stories_to_epics stories epics).
Proof. calm_of every_assign_stories_to_epics. Qed.

Lemma calm_assign_stories_to_iterations stories iterations :
  preserves stays_calm (assign_stories_to_iterations stories iterations).
Proof. calm_of every_assign_stories_to_iterations. Qed.

Lemma calm_process_story_batch batch :
  preserves stays_calm (process_story_batch sc_creator false batch).
Proof. calm_of every_process_story_batch. Qed.

(* ================================================================== *)
(** ** The record of created entities is complete *)
(* ================================================================== *)

(** [recorded cs st]: each of the created entities [cs] has its line in the
    record of created entities. *)
Definition recorded (cs : list created) (st : state) : Prop :=
  forall c, In c cs -> In (Row (entity_type c) (created_id c)) (imported_entities_csv st).

Lemma recorded_ext cs st st' : ledger_ext st st' -> recorded cs st -> recorded cs st'.
Proof.
  intros [added H] Hr c Hc. rewrite H. apply in_or_app. left. now apply Hr.
Qed.

Lemma recorded_app cs1 cs2 st :
  recorded cs1 st -> recorded cs2 st -> recorded (cs1 ++ cs2) st.
Proof.
  intros H1 H2 c Hc. apply in_app_or in Hc. destruct Hc; auto.
Qed.

Lemma rows_written_created cs :
  rows_written (map created_key cs)
  = map (fun c => Row (entity_type c) (created_id c)) cs.
Proof.
  induction cs as [|c cs IH]; cbn [map rows_written created_key]; [reflexivity|].
  now rewrite IH.
Qed.

(** A write that does not fail records the entities it is given. *)
Lemma write_created st cs m :
  calm st ->
  exists st',
    write_to_imported_entities_csv (map created_key cs) m st = (Ok tt, st')
    /\ recorded cs st'
    /\ (m = mode_a -> ledger_ext st st')
    /\ calm st'.
Proof.
  intros Hcalm. unfold write_to_imported_entities_csv. destruct cs as [|c cs].
  - exists st. split; [reflexivity|]. split; [intros c []|].
    split; [|exact Hcalm]. intros _. apply ledger_ext_refl.
  - remember (c :: cs) as l eqn:El.
    destruct (map created_key l) eqn:Em; [subst l; discriminate|].
    rewrite <- Em.
    destruct (take_io_calm st Hcalm) as (st1 & E1 & Hcalm1). rewrite E1.
    destruct (take_io_keeps _ _ _ E1) as (_ & _ & _ & Hi & _).
    cbn [io_lines]. eexists. split; [reflexivity|].
    cbn [imported_entities_csv set_imported_entities_csv]. split; [|split].
    + intros x Hx. apply in_or_app. right. apply in_or_app. right.
      rewrite rows_written_created.
      now apply (in_map (fun c => Row (entity_type c) (created_id c))).
    + intros ->. rewrite Hi. cbn [app]. now eexists.
    + exact Hcalm1.
Qed.

Lemma imported_entities_ok rs st cs st' :
  imported_entities rs st = (Ok cs, st') ->
  st' = st
  /\ exists items, Forall2 (fun r it => nth_error (heap st) r = Some it) rs items
                   /\ rmap imported_of items = Ok cs.
Proof.
  unfold imported_entities. intros H. run_inv H as items st1 Hd.
  unfold deref in Hd. destruct (deref_ok _ _ _ _ _ Hd) as (-> & read & -> & Hread).
  unfold lift in H. injection H as H <-. split; [reflexivity|].
  exists read. split; [exact Hread | exact H].
Qed.

Lemma imported_entities_again rs st cs st' st2 cs2 st3 :
  imported_entities rs st = (Ok cs, st') ->
  heap st2 = heap st ->
  imported_entities rs st2 = (Ok cs2, st3) ->
  cs2 = cs.
Proof.
  intros H1 Hh H2.
  destruct (imported_entities_ok _ _ _ _ H1) as (_ & items & Hi & Hr).
  destruct (imported_entities_ok _ _ _ _ H2) as (_ & items2 & Hi2 & Hr2).
  rewrite Hh in Hi2. rewrite (Forall2_at_functional _ _ _ _ Hi2 Hi) in Hr2.
  rewrite Hr in Hr2. now injection Hr2.
Qed.

Lemma not_written_all ty written es :
  (forall k, In k written -> fst k <> ty) -> not_written ty written es = es.
Proof.
  intros H. unfold not_written. apply forallb_filter_id. apply forallb_forall.
  intros e _. apply negb_true_iff.
  destruct (existsb (key_eqb (ty, created_id e)) written) eqn:E; [|reflexivity].
  apply existsb_exists in E. destruct E as (k & Hk & Heq).
  unfold key_eqb in Heq. apply andb_prop in Heq. destruct Heq as [Heq _].
  cbn [fst] in Heq. apply String.eqb_eq in Heq.
  now destruct (H k Hk).
Qed.

Lemma set_update_in (s : list (string * Z)) xs k :
  In k (set_update key_eqb s xs) -> In k s \/ In k xs.
Proof.
  unfold set_update. revert s. induction xs as [|x xs IH]; intros s; cbn [fold_left].
  - now left.
  - intros H. destruct (IH _ H) as [H1|H1]; [|right; now right].
    unfold set_add in H1. destruct (existsb _ s); [now left|].
    apply in_app_or in H1. destruct H1 as [H1|[<-|[]]]; [now left | right; now left].
Qed.

Lemma heap_write st entities m :
  heap (snd (write_to_imported_entities_csv entities m st)) = heap st.
Proof. apply write_imported_keeps. Qed.

(** The end of the epics and iterations phases: the entities of the
    records the emitter returned are written and added to the list
    [commit] returns. *)
Lemma record_phase ty new l st l' st' :
  (written <-- (entities <-- imported_entities new ;;
                write_to_imported_entities_csv
                  (map created_key (not_written ty (written_entities l) entities))
                  mode_a ;;;
                ret (set_update key_eqb (written_entities l)
                       (map (fun e => (ty, created_id e))
                            (not_written ty (written_entities l) entities)))) ;;
   created <-- imported_entities new ;;
   ret {| created_entities := created_entities l ++ created;
          written_entities := written |}) st = (Ok l', st') ->
  (forall k, In k (written_entities l) -> fst k <> ty) ->
  recorded (created_entities l) st ->
  calm st ->
  recorded (created_entities l') st'
  /\ (forall k, In k (written_entities l') -> In k (written_entities l) \/ fst k = ty)
  /\ calm st'.
Proof.
  intros H Htag Hrec Hcalm.
  run_inv H as written st1 Hw.
  run_inv Hw as entities st2 He.
  destruct (imported_entities_ok _ _ _ _ He) as (-> & _).
  rewrite (not_written_all _ _ entities Htag) in Hw.
  run_inv Hw as u st3 Hwr.
  destruct (write_created st entities mode_a Hcalm) as (st3' & Hwr' & Hrec3 & Hext & Hcalm3).
  rewrite Hwr in Hwr'. injection Hwr' as _ <-.
  unfold ret in Hw. injection Hw as <- <-.
  run_inv H as created st4 Hc.
  assert (Hh : heap st3 = heap st).
  { pose proof (heap_write st (map created_key entities) mode_a) as Hh.
    now rewrite Hwr in Hh. }
  pose proof (imported_entities_again _ _ _ _ _ _ _ He Hh Hc) as ->.
  destruct (imported_entities_ok _ _ _ _ Hc) as (-> & _).
  unfold ret in H. injection H as <- <-.
  cbn [created_entities written_entities]. split; [|split].
  - apply recorded_app; [|exact Hrec3].
    eapply recorded_ext; [apply Hext; reflexivity | exact Hrec].
  - intros k Hk. apply set_update_in in Hk. destruct Hk as [Hk|Hk]; [now left|].
    right. apply in_map_iff in Hk. destruct Hk as (e & <- & _). reflexivity.
  - exact Hcalm3.
Qed.

Lemma run_ledger_ext {A} (m : M A) st r st' :
  preserves ledger_ext m -> m st = (r, st') -> ledger_ext st st'.
Proof. intros Hm H. specialize (Hm st). now rewrite H in Hm. Qed.

Lemma recorded_commit_labels st l st' :
  commit_labels sc_creator false {| created_entities := []; written_entities := [] |} st
  = (Ok l, st') ->
  calm st ->
  recorded (created_entities l) st'
  /\ (forall k, In k (written_entities l) -> fst k = "label")
  /\ calm st'.
Proof.
  unfold commit_labels. intros H Hcalm.
  run_inv H as c st1 Hself. unfold get_self in Hself. injection Hself as <- <-.
  run_inv H as new_labels st2 Hemit.
  pose proof (run_calm _ _ _ _ (calm_sc_creator _) Hemit Hcalm) as Hcalm2.
  run_inv H as u st3 Hupd. unfold update_self, bind, get_self, put_self in Hupd.
  injection Hupd as _ <-.
  run_inv H as written st4 Hw.
  run_inv Hw as entities st5 He.
  destruct (imported_entities_ok _ _ _ _ He) as (-> & _).
  run_inv Hw as u2 st6 Hwr.
  destruct (write_created (set_self st2 (with_labels (self st2) new_labels))
                          entities mode_w Hcalm2) as (st6' & Hwr' & Hrec6 & _ & Hcalm6).
  rewrite Hwr in Hwr'. injection Hwr' as _ <-.
  unfold ret in Hw. injection Hw as <- <-.
  run_inv H as created st7 Hc.
  assert (Hh : heap st6 = heap (set_self st2 (with_labels (self st2) new_labels))).
  { pose proof (heap_write (set_self st2 (with_labels (self st2) new_labels))
                           (map created_key entities) mode_w) as Hh.
    now rewrite Hwr in Hh. }
  pose proof (imported_entities_again _ _ _ _ _ _ _ He Hh Hc) as ->.
  destruct (imported_entities_ok _ _ _ _ Hc) as (-> & _).
  run_inv H as items st8 Hd.
  unfold deref in Hd. destruct (deref_ok _ _ _ _ _ Hd) as (-> & _).
  run_inv H as u3 st9 Hloop.
  assert (Hquiet : ledger_ext st6 st9).
  { eapply run_ledger_ext; [|exact Hloop]. ledger. }
  assert (Hcalm9 : calm st9).
  { eapply run_calm; [|exact Hloop | exact Hcalm6].
    apply (preserves_for_each _ stays_calm_refl stays_calm_trans). intros label.
    repeat first [ apply (preserves_ret _ stays_calm_refl)
                 | apply (preserves_lift _ stays_calm_refl)
                 | apply (preserves_bind _ stays_calm_trans); [ | intros ]
                 | match goal with
                   | |- preserves _ (if ?x then _ else _) => destruct x
                   end ]. }
  unfold ret in H. injection H as <- <-.
  cbn [created_entities written_entities app]. split; [|split].
  - eapply recorded_ext; [exact Hquiet | exact Hrec6].
  - intros k Hk. apply set_update_in in Hk. destruct Hk as [[]|Hk].
    apply in_map_iff in Hk. destruct Hk as (e & <- & _). reflexivity.
  - exact Hcalm9.
Qed.

Lemma recorded_commit_epics l st l' st' :
  commit_epics sc_creator false l st = (Ok l', st') ->
  (forall k, In k (written_entities l) -> fst k = "label") ->
  recorded (created_entities l) st ->
  calm st ->
  recorded (created_entities l') st'
  /\ (forall k, In k (written_entities l') -> fst k = "label" \/ fst k = "epic")
  /\ calm st'.
Proof.
  unfold commit_epics. intros H Htag Hrec Hcalm.
  run_inv H as c st1 Hself. unfold get_self in Hself. injection Hself as <- <-.
  run_inv H as new st2 Hemit.
  pose proof (run_calm _ _ _ _ (calm_sc_creator _) Hemit Hcalm) as Hcalm2.
  run_inv H as u st3 Hupd. unfold update_self, bind, get_self, put_self in Hupd.
  injection Hupd as _ <-.
  assert (Hrec3 : recorded (created_entities l)
                           (set_self st2 (with_epics (self st2) new))).
  { eapply recorded_ext; [|exact Hrec].
    destruct (run_ledger_ext _ _ _ _ (appends_sc_creator _) Hemit) as [added Ha].
    exists added. exact Ha. }
  destruct (record_phase "epic" new l _ _ _ H) as (R & T & C).
  - intros k Hk E. rewrite (Htag k Hk) in E. discriminate.
  - exact Hrec3.
  - exact Hcalm2.
  - split; [exact R|]. split; [|exact C].
    intros k Hk. destruct (T k Hk) as [Hl|He]; auto.
Qed.

Lemma recorded_commit_iterations l st l' st' :
  commit_iterations sc_creator false l st = (Ok l', st') ->
  (forall k, In k (written_entities l) -> fst k = "label" \/ fst k = "epic") ->
  recorded (created_entities l) st ->
  calm st ->
  recorded (created_entities l') st' /\ calm st'.
Proof.
  unfold commit_iterations. intros H Htag Hrec Hcalm.
  run_inv H as c st1 Hself. unfold get_self in Hself. injection Hself as <- <-.
  run_inv H as its st2 Hnew.
  assert (L2 : ledger_ext st st2) by (eapply run_ledger_ext; [|exact Hnew]; ledger).
  assert (Hcalm2 : calm st2).
  { eapply run_calm; [|exact Hnew | exact Hcalm].
    apply (preserves_fold_m _ stays_calm_refl stays_calm_trans). intros acc key.
    apply (preserves_bind _ stays_calm_trans);
      [apply (preserves_lift _ stays_calm_refl) | intros it].
    apply (preserves_bind _ stays_calm_trans);
      [intros s; now apply calm_same | intros r; apply (preserves_ret _ stays_calm_refl)]. }
  run_inv H as new st3 Hemit.
  pose proof (run_calm _ _ _ _ (calm_sc_creator _) Hemit Hcalm2) as Hcalm3.
  pose proof (run_ledger_ext _ _ _ _ (appends_sc_creator _) Hemit) as L3.
  run_inv H as u st4 Hupd. unfold update_self, bind, get_self, put_self in Hupd.
  injection Hupd as _ <-.
  assert (Hrec4 : recorded (created_entities l)
                           (set_self st3 (with_iterations (self st3) new))).
  { eapply recorded_ext; [|exact Hrec].
    destruct (ledger_ext_trans _ _ _ L2 L3) as [added Ha]. exists added. exact Ha. }
  destruct (record_phase "iteration" new l _ _ _ H) as (R & _ & C).
  - intros k Hk E. destruct (Htag k Hk) as [E'|E']; rewrite E' in E; discriminate.
  - exact Hrec4.
  - exact Hcalm3.
  - split; [exact R | exact C].
Qed.

Lemma recorded_commit_story_batch l batch st l' st' :
  commit_story_batch sc_creator false l batch st = (Ok l', st') ->
  recorded (created_entities l) st ->
  calm st ->
  recorded (created_entities l') st' /\ calm st'.
Proof.
  unfold commit_story_batch. cbn [negb]. cbv iota. intros H Hrec Hcalm.
  run_inv H as c st1 Hself. unfold get_self in Hself. injection Hself as <- <-.
  run_inv H as u1 st2 H1.
  pose proof (run_ledger_ext _ _ _ _ (appends_assign_stories_to_epics _ _) H1) as L1.
  pose proof (run_calm _ _ _ _ (calm_assign_stories_to_epics _ _) H1 Hcalm) as C1.
  run_inv H as u2 st3 H2.
  pose proof (run_ledger_ext _ _ _ _ (appends_assign_stories_to_iterations _ _) H2) as L2.
  pose proof (run_calm _ _ _ _ (calm_assign_stories_to_iterations _ _) H2 C1) as C2.
  run_inv H as created_batch st4 H3.
  pose proof (run_ledger_ext _ _ _ _ (appends_process_story_batch _) H3) as L3.
  pose proof (run_calm _ _ _ _ (calm_process_story_batch _) H3 C2) as C3.
  run_inv H as created st5 H4.
  destruct (imported_entities_ok _ _ _ _ H4) as (-> & _).
  run_inv H as u3 st6 Hwr.
  match type of Hwr with
  | write_to_imported_entities_csv (map created_key ?new) _ _ = _ =>
      destruct (write_created st4 new mode_a C3) as (st6' & Hwr' & Hrec6 & Hext & C6)
  end.
  rewrite Hwr in Hwr'. injection Hwr' as _ <-.
  unfold ret in H. injection H as <- <-.
  split; [|exact C6].
  cbn [created_entities]. apply recorded_app; [|exact Hrec6].
  eapply recorded_ext; [|exact Hrec].
  eapply ledger_ext_trans; [exact L1|].
  eapply ledger_ext_trans; [exact L2|].
  eapply ledger_ext_trans; [exact L3|]. now apply Hext.
Qed.

Lemma recorded_story_batches batches : forall l st l' st',
  fold_m (commit_story_batch sc_creator false) l batches st = (Ok l', st') ->
  recorded (created_entities l) st ->
  calm st ->
  recorded (created_entities l') st'.
Proof.
  induction batches as [|batch batches IH]; intros l st l' st' H Hrec Hcalm;
    cbn [fold_m] in H.
  - unfold ret in H. injection H as <- <-. exact Hrec.
  - run_inv H as l1 st1 Hb.
    destruct (recorded_commit_story_batch _ _ _ _ _ Hb Hrec Hcalm) as (Hrec1 & Hcalm1).
    exact (IH _ _ _ _ H Hrec1 Hcalm1).
Qed.

(** X15.  The record of created entities is complete when no write to a
    file fails.  When a live [commit] returns, in a run in which the file
    system lets every write through, every created entity [commit] returns
    has its line, type and id, in the record of created entities: what was
    created can be found again to be deleted.  (A write that fails is
    caught and reported, and [commit] goes on: the entities of that write
    are then missing from the record.) *)
Theorem created_entities_are_recorded st created st' :
  calm st ->
  commit sc_creator false st = (Ok created, st') ->
  forall c, In c created ->
            In (Row (entity_type c) (created_id c)) (imported_entities_csv st').
Proof.
  unfold commit. intros Hcalm H.
  run_inv H as l1 st1 H1.
  destruct (recorded_commit_labels _ _ _ H1 Hcalm) as (R1 & T1 & C1).
  run_inv H as l2 st2 H2.
  destruct (recorded_commit_epics _ _ _ _ H2 T1 R1 C1) as (R2 & T2 & C2).
  run_inv H as l3 st3 H3.
  destruct (recorded_commit_iterations _ _ _ _ H3 T2 R2 C2) as (R3 & C3).
  run_inv H as l4 st4 H4.
  unfold commit_stories in H4. run_inv H4 as c st5 Hself.
  unfold get_self in Hself. injection Hself as <- <-.
  pose proof (recorded_story_batches _ _ _ _ _ H4 R3 C3) as R4.
  unfold ret in H. injection H as <- <-. exact R4.
Qed.


(* ------------------------------------------------------------------ *)
(** *** The ids of a dry run *)

(** The entity the dry run fabricates for a record, with a given id. *)
Definition mock_created (entity_id : Z) (it : item) : created :=
  {| created_id := entity_id;
     entity_type := type_ it;
     app_url := ("https://example.com/entity/" ++ decimal entity_id)%string;
     payload := entity it |}.

Lemma mock_emit_run r st u st1 :
  mock_emit r st = (Ok u, st1) ->
  exists it,
    nth_error (heap st) r = Some it
    /\ st1 = set_heap (set_mock_global_id st (mock_global_id st + 1)%Z)
               (list_set (heap st) r
                  (with_imported_entity it (mock_created (mock_global_id st) it))).
Proof.
  unfold mock_emit. intros H.
  run_inv H as entity_id sa Hid. injection Hid as <- <-.
  run_inv H as it sb Hget. unfold get_item in Hget. cbn [heap set_mock_global_id] in Hget.
  destruct (nth_error (heap st) r) as [it0|] eqn:E; [|discriminate].
  injection Hget as <- <-.
  run_inv H as u2 sc Hset.
  unfold set_imported, update_item, bind, get_item, put_item in Hset.
  cbn [snd fst heap set_mock_global_id] in Hset. rewrite E in Hset.
  injection Hset as _ <-.
  run_inv H as name sd Hname. unfold lift in Hname. injection Hname as _ <-.
  injection H as _ <-.
  exists it0. split; reflexivity.
Qed.

Lemma mock_emit_each items : forall st st',
  NoDup items ->
  for_each items mock_emit st = (Ok tt, st') ->
  mock_global_id st' = (mock_global_id st + Z.of_nat (length items))%Z
  /\ forall i r,
       nth_error items i = Some r ->
       exists it,
         nth_error (heap st) r = Some it
         /\ nth_error (heap st') r
            = Some (with_imported_entity it
                      (mock_created (mock_global_id st + Z.of_nat i) it)).
Proof.
  induction items as [|item items IH]; intros st st' Hnd H; cbn [for_each] in H.
  - injection H as <-. split; [cbn [length]; lia|]. intros [|i] r Hr; discriminate.
  - run_inv H as u st1 Hitem.
    destruct (mock_emit_run _ _ _ _ Hitem) as (it & Hit & Hst1).
    inversion Hnd as [|x l Hnotin Hnd']; subst x l.
    destruct (IH _ _ Hnd' H) as (Hid & Hrest).
    assert (Hframe : touches_only kept items st1 st').
    { pose proof (preserves_for_each_in _ (touches_only_refl kept kept_refl items)
                    (touches_only_trans kept kept_trans items) items mock_emit
                    (fun x Hx => frame_mock_emit items x Hx) st1) as F.
      now rewrite H in F. }
    assert (Hid1 : mock_global_id st1 = (mock_global_id st + 1)%Z) by (now subst st1).
    split.
    + rewrite Hid, Hid1. cbn [length]. lia.
    + intros [|i] r Hr; cbn [nth_error] in Hr.
      * injection Hr as <-. exists it. split; [exact Hit|].
        destruct Hframe as (_ & _ & Hout & _). rewrite (Hout _ Hnotin).
        subst st1. cbn [heap set_heap]. rewrite Z.add_0_r.
        apply nth_error_list_set_same. apply nth_error_Some. congruence.
      * destruct (Hrest i r Hr) as (it' & Hit' & Hfinal).
        assert (Hne : item <> r).
        { intros ->. apply Hnotin. eapply nth_error_In, Hr. }
        assert (Hsame : nth_error (heap st1) r = nth_error (heap st) r).
        { subst st1. cbn [heap set_heap]. now apply nth_error_list_set_other. }
        exists it'. split; [now rewrite <- Hsame|].
        rewrite Hfinal, Hid1. do 3 f_equal. lia.
Qed.

(** X16.  The dry run returns the records it is given and numbers them:
    the record at position [i] of a list without repetition gets the entity
    of id [n + i], where [n] is the number of entities fabricated before,
    with the type of the record, its attributes and a URL made of the id;
    the next entity will be numbered after the last. *)
Theorem mock_emitter_numbers items st out st' :
  NoDup items ->
  mock_emitter items st = (Ok out, st') ->
  out = items
  /\ mock_global_id st' = (mock_global_id st + Z.of_nat (length items))%Z
  /\ forall i r,
       nth_error items i = Some r ->
       exists it,
         nth_error (heap st) r = Some it
         /\ nth_error (heap st') r
            = Some (with_imported_entity it
                      (mock_created (mock_global_id st + Z.of_nat i) it)).
Proof.
  intros Hnd H. unfold mock_emitter in H.
  run_inv H as u st1 Hloop. destruct u. unfold ret in H. injection H as <- <-.
  split; [reflexivity|]. now apply mock_emit_each.
Qed.


(* ================================================================== *)
(** ** The file stage *)
(* ================================================================== *)

(** [returns m Q]: every result [m] returns satisfies [Q]. *)
Definition returns {A} (m : M A) (Q : A -> Prop) : Prop :=
  forall st a st', m st = (Ok a, st') -> Q a.

Lemma returns_ret {A} (a : A) (Q : A -> Prop) : Q a -> returns (ret a) Q.
Proof. intros H st a' st' E. unfold ret in E. injection E as <- _. exact H. Qed.

Lemma returns_raise {A} e (Q : A -> Prop) : returns (raise e) Q.
Proof. intros st a st' E. discriminate. Qed.

Lemma returns_bind {A C} (m : M A) (f : A -> M C) (Q1 : A -> Prop) (Q : C -> Prop) :
  returns m Q1 -> (forall a, Q1 a -> returns (f a) Q) -> returns (bind m f) Q.
Proof.
  intros Hm Hf st c st' E. apply bind_ok in E. destruct E as (a & st1 & Ea & Ef).
  exact (Hf a (Hm _ _ _ Ea) _ _ _ Ef).
Qed.

Lemma returns_any {A} (m : M A) : returns m (fun _ => True).
Proof. now intros st a st' _. Qed.

Ltac returns_step :=
  first
    [ apply returns_ret
    | apply returns_raise
    | apply (returns_bind _ _ _ _ (returns_any _)); intros ? _
    | match goal with
      | |- returns (match ?x with _ => _ end) _ => destruct x
      | |- returns (if ?x then _ else _) _ => destruct x
      end ].

(** In a dry run no upload fails: a pass over a comment never marks the
    story as failed. *)
Lemma dry_comment_never_fails story pt_id files i comment failed :
  returns (process_comment true story pt_id files i comment failed)
          (fun r => fst r = false).
Proof.
  unfold process_comment. cbv iota.
  destruct comment as [ | | | | | |c]; try apply returns_raise.
  returns_step. destruct (negb _); [now apply returns_ret|].
  returns_step. returns_step. destruct a1 as [|path paths]; [now apply returns_ret|].
  apply (returns_bind _ _ (fun up => snd up = [])).
  - now apply returns_ret.
  - intros [successful_files failed_files] Hup. cbn [snd] in Hup. subst failed_files.
    repeat returns_step; reflexivity.
Qed.

Lemma dry_comments_never_fail story pt_id files comments : forall i failed,
  returns (process_comments true story pt_id files i comments failed)
          (fun r => fst r = false).
Proof.
  induction comments as [|c comments IH]; intros i failed; cbn [process_comments].
  - now apply returns_ret.
  - apply (returns_bind _ _ _ _ (dry_comment_never_fails _ _ _ _ _ _)).
    intros r Hr. rewrite Hr. apply IH.
Qed.

(** One pass over a story puts it with the successful or with the failed
    stories, the latter never in a dry run. *)
Lemma process_story_files_result dry succ failed ff story :
  returns (process_story_files dry (succ, failed, ff) story)
          (fun acc => (fst (fst acc) = succ ++ [story] /\ snd (fst acc) = failed)
                      \/ (dry = false /\ fst (fst acc) = succ
                          /\ snd (fst acc) = failed ++ [story])).
Proof.
  unfold process_story_files.
  returns_step. returns_step.
  destruct (story_files a0) as [all_story_files|];
    [|apply returns_ret; left; split; reflexivity].
  returns_step.
  destruct dry.
  - apply (returns_bind _ _ _ _ (dry_comments_never_fail _ _ _ _ _ _)).
    intros r Hr. rewrite Hr. apply returns_ret. left. split; reflexivity.
  - returns_step. destruct (fst a2); apply returns_ret;
      [right; repeat split; reflexivity | left; split; reflexivity].
Qed.

(** The file of failed stories is not written while the files of the
    stories are gone through. *)
Definition same_failed_stories (st st' : state) : Prop :=
  failed_stories_csv st' = failed_stories_csv st.

Lemma same_failed_stories_refl st : same_failed_stories st st.
Proof. reflexivity. Qed.

Lemma same_failed_stories_trans a b c :
  same_failed_stories a b -> same_failed_stories b c -> same_failed_stories a c.
Proof. unfold same_failed_stories. congruence. Qed.

Ltac same_failed_step :=
  first
    [ apply (preserves_ret _ same_failed_stories_refl)
    | apply (preserves_raise _ same_failed_stories_refl)
    | apply (preserves_lift _ same_failed_stories_refl)
    | apply (preserves_get_item _ same_failed_stories_refl)
    | apply (preserves_bind _ same_failed_stories_trans); [ | intros ]
    | match goal with
      | |- preserves _ (put_item _ _) =>
          let st := fresh "st" in intros st; reflexivity
      | |- preserves _ (set_comment _ _ _) => unfold set_comment
      | |- preserves _ (call _) =>
          let st := fresh "st" in
          intros st; unfold call;
          match goal with |- context [let (_, _) := ?x in _] => destruct x end;
          reflexivity
      | |- preserves _ (write_to_imported_entities_csv ?es _) =>
          let st := fresh "st" in
          intros st; apply write_imported_keeps
      | |- preserves _ (fun st => _) =>
          let st := fresh "st" in intros st; reflexivity
      | |- preserves _ (match ?x with _ => _ end) => destruct x
      | |- preserves _ (if ?x then _ else _) => destruct x
      end ].

Lemma same_failed_process_comment dry story pt_id files i comment failed :
  preserves same_failed_stories (process_comment dry story pt_id files i comment failed).
Proof. unfold process_comment. repeat same_failed_step. Qed.

Lemma same_failed_process_comments dry story pt_id files comments : forall i failed,
  preserves same_failed_stories
            (process_comments dry story pt_id files i comments failed).
Proof.
  induction comments as [|c comments IH]; intros i failed; cbn [process_comments].
  - repeat same_failed_step.
  - apply (preserves_bind _ same_failed_stories_trans);
      [apply same_failed_process_comment|].
    intros r. destruct (fst r); [repeat same_failed_step | apply IH].
Qed.

Lemma same_failed_process_story_files dry acc story :
  preserves same_failed_stories (process_story_files dry acc story).
Proof.
  unfold process_story_files. destruct acc as [[succ failed] ff].
  repeat first [ apply same_failed_process_comments | same_failed_step ].
Qed.

Lemma files_loop dry batch : forall succ failed ff st acc st',
  fold_m (process_story_files dry) (succ, failed, ff) batch st = (Ok acc, st') ->
  Permutation (fst (fst acc) ++ snd (fst acc)) ((succ ++ failed) ++ batch)
  /\ (dry = true -> failed = [] -> fst (fst acc) = succ ++ batch /\ snd (fst acc) = [])
  /\ failed_stories_csv st' = failed_stories_csv st.
Proof.
  induction batch as [|story batch IH]; intros succ failed ff st acc st' H;
    cbn [fold_m] in H.
  - unfold ret in H. injection H as <- <-. cbn [fst snd].
    rewrite !app_nil_r. split; [reflexivity|]. split; [|reflexivity].
    intros _ ->. split; reflexivity.
  - run_inv H as acc1 st1 Hstory.
    pose proof (same_failed_process_story_files dry (succ, failed, ff) story st) as Hsame.
    rewrite Hstory in Hsame. cbn [snd] in Hsame. unfold same_failed_stories in Hsame.
    pose proof (process_story_files_result _ _ _ _ _ _ _ _ Hstory) as Hres.
    destruct acc1 as [[succ1 failed1] ff1]. cbn [fst snd] in Hres.
    destruct (IH _ _ _ _ _ _ H) as (Hperm & Hdry & Hcsv).
    split; [|split; [|congruence]].
    + rewrite Hperm.
      destruct Hres as [[-> ->]|(_ & -> & ->)].
      * rewrite <- !app_assoc. apply Permutation_app_head.
        cbn [app]. apply Permutation_middle.
      * rewrite <- !app_assoc. reflexivity.
    + intros Hd Hf. destruct Hres as [[-> ->]|(Hd' & _)]; [|congruence].
      destruct (Hdry Hd Hf) as (H1 & H2). rewrite H1, H2. rewrite <- app_assoc.
      split; reflexivity.
Qed.

Definition failed_story_rows (st : state) : list failed_story :=
  match failed_stories_csv st with Some rows => rows | None => [] end.

(** What [write_failed_stories] adds to the file: the rows of the stories
    it is given, as the records are when it is called, or the first of
    them when the file system fails; all of them when it does not. *)
Lemma write_failed_stories_rows failed st u st' :
  write_failed_stories failed st = (Ok u, st') ->
  exists items written rest,
    Forall2 (fun r it => nth_error (heap st) r = Some it) failed items
    /\ map failed_story_row items = written ++ rest
    /\ failed_story_rows st' = failed_story_rows st ++ written
    /\ (calm st -> rest = [])
    /\ heap st' = heap st.
Proof.
  unfold write_failed_stories. destruct failed as [|r rs].
  - unfold ret. intros H. injection H as _ <-.
    exists [], [], [].
    split; [apply Forall2_nil|]. split; [reflexivity|].
    split; [now rewrite app_nil_r|]. split; reflexivity.
  - remember (r :: rs) as failed. intros H.
    run_inv H as items st1 Hd. unfold deref in Hd.
    destruct (deref_ok _ _ _ _ _ Hd) as (-> & read & -> & Hread). cbn [app] in *.
    destruct (take_io st) as [o st1] eqn:E.
    destruct (take_io_keeps _ _ _ E) as (Hh & _ & _ & _ & Hfs & _).
    injection H as _ <-.
    assert (Hrows : failed_story_rows st1 = failed_story_rows st)
      by (unfold failed_story_rows; now rewrite Hfs).
    destruct o as [| |n]; cbn [io_rows].
    + exists read, (map failed_story_row read), []. rewrite app_nil_r.
      repeat split; try assumption.
      unfold failed_story_rows at 1. cbn [failed_stories_csv set_failed_stories_csv].
      fold (failed_story_rows st1). now rewrite Hrows.
    + exists read, [], (map failed_story_row read). rewrite app_nil_r.
      repeat split; try assumption.
      intros Hcalm. destruct (take_io_calm st Hcalm) as (st2 & E2 & _).
      rewrite E in E2. discriminate.
    + match goal with
      | |- context [firstn ?k (map failed_story_row read)] =>
          exists read, (firstn k (map failed_story_row read)),
                 (skipn k (map failed_story_row read))
      end.
      rewrite firstn_skipn. repeat split; try assumption.
      * unfold failed_story_rows at 1. cbn [failed_stories_csv set_failed_stories_csv].
        fold (failed_story_rows st1). now rewrite Hrows.
      * intros Hcalm. destruct (take_io_calm st Hcalm) as (st2 & E2 & _).
        rewrite E in E2. discriminate.
Qed.

(** X17.  The file stage accounts for every story of a batch.  The stories
    it returns and the stories it holds back are the batch; in a dry run
    none is held back and the batch is returned as it is; in a live run
    the file of failed stories gains the rows of the stories held back, one
    each, in order, when the write of the file goes through, and the first
    of these rows, or none, when the file system fails. *)
Theorem file_stage_accounts_for_every_story batch dry st out st' :
  process_files_for_stories batch dry st = (Ok out, st') ->
  exists failed,
    Permutation (out ++ failed) batch
    /\ (if dry
        then out = batch /\ failed = []
             /\ failed_stories_csv st' = failed_stories_csv st
        else exists items written rest,
               Forall2 (fun r it => nth_error (heap st') r = Some it) failed items
               /\ map failed_story_row items = written ++ rest
               /\ failed_story_rows st' = failed_story_rows st ++ written
               /\ (calm st -> rest = [])).
Proof.
  unfold process_files_for_stories. intros H.
  run_inv H as acc st1 Hloop. destruct acc as [[succ failed] ff].
  destruct (files_loop _ _ _ _ _ _ _ _ Hloop) as (Hperm & Hdry & Hcsv).
  cbn [fst snd app] in Hperm, Hdry.
  exists failed. split; [run_inv H as u st2 Hw; injection H as <- _; exact Hperm|].
  destruct dry.
  - run_inv H as u st2 Hw. unfold ret in Hw. injection Hw as _ <-.
    injection H as <- <-. destruct (Hdry eq_refl eq_refl) as (-> & ->).
    repeat split. exact Hcsv.
  - run_inv H as u st2 Hw. injection H as _ <-.
    run_inv Hw as u1 st3 Hff.
    pose proof (write_failed_files_keeps ff st1) as K. rewrite Hff in K. cbn [snd] in K.
    destruct K as (Hh3 & _ & _ & _ & Hsame & _).
    destruct (write_failed_stories_rows _ _ _ _ Hw)
      as (items & written & rest & Hitems & Hrows & Hgain & Hcalm & Hh).
    exists items, written, rest. rewrite Hh. repeat split; try assumption.
    + rewrite Hgain. unfold failed_story_rows. now rewrite Hsame, Hcsv.
    + intros C. apply Hcalm.
      assert (C1 : calm st1).
      { eapply run_calm; [|exact Hloop | exact C].
        apply (preserves_fold_m _ stays_calm_refl stays_calm_trans). intros acc story.
        calm_of every_process_story_files. }
      eapply run_calm; [|exact Hff | exact C1].
      intros s. apply calm_write_failed_files.
Qed.


(* ================================================================== *)
(** ** Cleaning a story *)
(* ================================================================== *)

(** A comment and the comment [pop("attachments", None)] leaves. *)
Definition without_attachments (comment new_comment : value) : Prop :=
  exists c c',
    comment = VDict c /\ new_comment = VDict c'
    /\ (forall k, k <> "attachments" -> dict_get c' k = dict_get c k)
    /\ (NoDup (dict_keys c) -> dict_get c' "attachments" = None).

Lemma mutate_each_pop cs cs' :
  mutate_each pop_attachments cs = (cs', None) -> Forall2 without_attachments cs cs'.
Proof.
  revert cs'. induction cs as [|c cs IH]; intros cs' H; cbn [mutate_each] in H.
  - injection H as <-. constructor.
  - destruct (pop_attachments c) as [c1|e] eqn:E; [|discriminate].
    destruct (mutate_each pop_attachments cs) as [r' e'] eqn:Er.
    injection H as <- ->. constructor; [|now apply IH].
    unfold pop_attachments in E. destruct c as [ | | | | | |d]; try discriminate.
    apply Ok_inj in E. subst c1. exists d, (dict_del d "attachments").
    repeat split.
    + intros k Hk. apply dict_get_del_other. congruence.
    + apply dict_get_del_same.
Qed.

(** X18.  [clean_story] returns the story it is given and removes the
    attribute "attachments" of each of its comments, and nothing else.  The
    comments are those of the entity and, being the same list, those of the
    parsed row of the record when the row has comments; the other
    attributes of the comments, of the entity and of the row, the other
    keys of the record, the other records and the rest of the state are as
    they were. *)
Theorem clean_story_strips_attachments story st s st' :
  clean_story story st = (Ok s, st') ->
  s = story
  /\ exists it it',
      nth_error (heap st) story = Some it
      /\ nth_error (heap st') story = Some it'
      /\ match dict_get (entity it) "comments" with
         | Some (VList cs) =>
             exists cs',
               Forall2 without_attachments cs cs'
               /\ it' = with_comments it cs'
               /\ entity it' = dict_set (entity it) "comments" (VList cs')
               /\ parsed_row it'
                  = match parsed_row it with
                    | Some d => Some (if dict_has d "comments"
                                      then dict_set d "comments" (VList cs')
                                      else d)
                    | None => None
                    end
         | _ => it' = it
         end
      /\ (forall r, r <> story -> nth_error (heap st') r = nth_error (heap st) r)
      /\ self st' = self st /\ backend st' = backend st
      /\ imported_entities_csv st' = imported_entities_csv st.
Proof.
  unfold clean_story. intros H.
  run_inv H as it st1 Hget. unfold get_item in Hget.
  destruct (nth_error (heap st) story) as [it0|] eqn:E; [|discriminate].
  injection Hget as <- <-.
  destruct (dict_get (entity it0) "comments") as [v|] eqn:Ec.
  - assert (Hother : forall v,
               dict_get (entity it0) "comments" = Some v ->
               match v with VList _ => False | _ => True end ->
               (xs <-- lift (py_iter v) ;;
                match xs with [] => ret story | _ => raise AttributeError end) st
               = (Ok s, st') ->
               s = story
               /\ exists it it',
                   Some it0 = Some it
                   /\ nth_error (heap st') story = Some it'
                   /\ match dict_get (entity it) "comments" with
                      | Some (VList cs) =>
                          exists cs',
                            Forall2 without_attachments cs cs'
                            /\ it' = with_comments it cs'
                            /\ entity it' = dict_set (entity it) "comments" (VList cs')
                            /\ parsed_row it'
                               = match parsed_row it with
                                 | Some d => Some (if dict_has d "comments"
                                                   then dict_set d "comments" (VList cs')
                                                   else d)
                                 | None => None
                                 end
                      | _ => it' = it
                      end
                   /\ (forall r, r <> story ->
                                 nth_error (heap st') r = nth_error (heap st) r)
                   /\ self st' = self st /\ backend st' = backend st
                   /\ imported_entities_csv st' = imported_entities_csv st).
    { intros v0 Hv Hnl H0. run_inv H0 as xs st2 Hxs. unfold lift in Hxs.
      injection Hxs as Hxs <-. destruct xs; [|discriminate].
      unfold ret in H0. injection H0 as <- <-.
      split; [reflexivity|]. exists it0, it0. rewrite Hv, E.
      destruct v0; try destruct Hnl; repeat split; reflexivity. }
    destruct v as [ | | | | |cs| ];
      try (apply (Hother _ Ec I); exact H).
    clear Hother.
    destruct (mutate_each pop_attachments cs) as [cs' e] eqn:Em.
    run_inv H as u st2 Hupd.
    unfold update_item, bind, get_item, put_item in Hupd. rewrite E in Hupd.
    injection Hupd as _ <-.
    destruct e as [e|]; [discriminate|].
    unfold ret in H. injection H as <- <-.
    split; [reflexivity|]. eexists. eexists. split; [reflexivity|].
    cbn [heap set_heap]. split.
    + apply nth_error_list_set_same. apply nth_error_Some. congruence.
    + rewrite Ec. split; [|split; [|repeat split]].
      * exists cs'. split; [now apply mutate_each_pop | repeat split].
      * intros r Hr. apply nth_error_list_set_other. congruence.
  - unfold ret in H. injection H as <- <-. split; [reflexivity|].
    exists it0, it0. rewrite Ec, E. repeat split; reflexivity.
Qed.

(* ================================================================== *)
(** ** The label map of the epics *)
(* ================================================================== *)

Lemma hkey_eqb_refl k : hkey_eqb k k = true.
Proof.
  destruct k; cbn; [reflexivity | apply Z.eqb_refl | apply String.eqb_refl].
Qed.

Lemma hkey_eqb_eq a b : hkey_eqb a b = true -> a = b.
Proof.
  destruct a, b; cbn; try discriminate; intros H.
  - reflexivity.
  - apply Z.eqb_eq in H. now subst.
  - apply String.eqb_eq in H. now subst.
Qed.

Lemma hkey_eq_dec (a b : hkey) : {a = b} + {a <> b}.
Proof.
  destruct (hkey_eqb a b) eqn:E.
  - left. now apply hkey_eqb_eq.
  - right. intros ->. now rewrite hkey_eqb_refl in E.
Qed.

Lemma emap_get_set_same m k v : emap_get (emap_set m k v) k = Some v.
Proof.
  induction m as [|[k' v'] m IH]; cbn [emap_set emap_get].
  - now rewrite hkey_eqb_refl.
  - destruct (hkey_eqb k' k) eqn:E; cbn [emap_get].
    + now rewrite hkey_eqb_refl.
    + now rewrite E.
Qed.

Lemma emap_get_set_other m k k' v :
  k <> k' -> emap_get (emap_set m k v) k' = emap_get m k'.
Proof.
  intros Hne.
  assert (Hf : hkey_eqb k k' = false).
  { destruct (hkey_eqb k k') eqn:E; [|reflexivity]. now destruct (Hne (hkey_eqb_eq _ _ E)). }
  induction m as [|[k0 v0] m IH]; cbn [emap_set emap_get].
  - now rewrite Hf.
  - destruct (hkey_eqb k0 k) eqn:E; cbn [emap_get].
    + apply hkey_eqb_eq in E. subst k0. now rewrite Hf.
    + now rewrite IH.
Qed.

Lemma loop_app {A S} (body : S -> A -> result S) s xs x s' :
  loop body s (xs ++ [x]) = (s', None) ->
  exists s1, loop body s xs = (s1, None) /\ body s1 x = Ok s'.
Proof.
  revert s. induction xs as [|y xs IH]; intros s; cbn [app loop].
  - destruct (body s x) as [s2|e] eqn:E; [|discriminate].
    intros H. injection H as <-. exists s. split; [reflexivity | exact E].
  - destruct (body s y) as [s2|e]; [apply IH | discriminate].
Qed.

(** Once a label of an epic is in the map with the id of the epic, it
    stays so till the end of the labels of the epic. *)
Lemma collect_labels_sets epic c name labels : forall m m',
  imported_entity epic = Some c ->
  loop (collect_label epic) m labels = (m', None) ->
  (emap_get m (KStr name) = Some (created_id c)
   \/ exists label, In label labels /\ py_index label "name" = Ok (VStr name)) ->
  emap_get m' (KStr name) = Some (created_id c).
Proof.
  induction labels as [|label labels IH]; intros m m' Hc H Hor; cbn [loop] in H.
  - injection H as <-. destruct Hor as [Hm|(l & [] & _)]. exact Hm.
  - destruct (collect_label epic m label) as [m1|e] eqn:E; [|discriminate].
    apply (IH _ _ Hc H).
    unfold collect_label in E. inv_bind E.
    unfold imported_of in E. rewrite Hc in E.
    destruct (negb (is_const x PIVOTAL_TO_SHORTCUT_LABEL)
              && negb (is_const x PIVOTAL_TO_SHORTCUT_RUN_LABEL)) eqn:Hmark.
    + cbn [rbind] in E. inv_bind E. apply Ok_inj in E. subst m1.
      destruct (hkey_eq_dec x0 (KStr name)) as [->|Hne].
      * left. apply emap_get_set_same.
      * rewrite emap_get_set_other by exact Hne.
        destruct Hor as [Hm|(l & [<-|Hin] & Hl)]; [now left | | right; eauto].
        rewrite Hl in E0. apply Ok_inj in E0. subst x. cbn [hash_key] in E1.
        apply Ok_inj in E1. now destruct Hne.
    + apply Ok_inj in E. subst m1.
      destruct Hor as [Hm|(l & [<-|Hin] & Hl)]; [now left | | right; eauto].
      rewrite Hl in E0. apply Ok_inj in E0. subst x. discriminate.
Qed.

(** X19.  When two epics carry the same label, the later one has it: in
    the label map built from a list of created epics, a label of the last
    epic whose name was read from the export maps to the id of that epic,
    whatever the epics before it carry. *)
Theorem later_epic_wins epics epic m c labels label name :
  collect_epic_label_mapping (epics ++ [epic]) = Ok m ->
  imported_entity epic = Some c ->
  dict_get (entity epic) "labels" = Some (VList labels) ->
  In label labels ->
  py_index label "name" = Ok (VStr name) ->
  emap_get m (KStr name) = Some (created_id c).
Proof.
  unfold collect_epic_label_mapping. intros H Hc Hl Hin Hname.
  destruct (loop collect_epic [] (epics ++ [epic])) as [m' [e|]] eqn:E; [discriminate|].
  apply Ok_inj in H. subst m'.
  destruct (loop_app _ _ _ _ _ E) as (m0 & _ & Hlast).
  unfold collect_epic in Hlast. unfold dict_index in Hlast. rewrite Hl in Hlast.
  cbn [rbind py_iter] in Hlast.
  destruct (loop (collect_label epic) m0 labels) as [m1 [e|]] eqn:El; [discriminate|].
  apply Ok_inj in Hlast. subst m1.
  apply (collect_labels_sets _ _ _ _ _ _ Hc El). right. eauto.
Qed.


(* ================================================================== *)
(** ** Records that are not stories, in the live run *)
(* ================================================================== *)

(** The creation of a record, then what [sc_creator] does of the entity
    returned: it is recorded, or the pass raises TypeError. *)
Lemma non_story_outcome (m : M created) acc item it st :
  nth_error (heap st) item = Some it ->
  (forall st0, heap (snd (m st0)) = heap st0
               /\ imported_entities_csv (snd (m st0)) = imported_entities_csv st0
               /\ failed_stories_csv (snd (m st0)) = failed_stories_csv st0
               /\ io (snd (m st0)) = io st0) ->
  let run := try_except
               (res <-- m ;;
                set_imported (res, item) ;;;
                write_to_imported_entities_csv [created_key res] mode_a ;;;
                ret (acc ++ [item]))
               (fun e => raise TypeError) st in
  (exists res written,
      fst run = Ok (acc ++ [item])
      /\ nth_error (heap (snd run)) item = Some (with_imported_entity it res)
      /\ imported_entities_csv (snd run) = imported_entities_csv st ++ written
      /\ (written = [Row (entity_type res) (created_id res)] \/ written = [])
      /\ (calm st -> written = [Row (entity_type res) (created_id res)]))
  \/ (fst run = Raise TypeError
      /\ heap (snd run) = heap st
      /\ imported_entities_csv (snd run) = imported_entities_csv st
      /\ failed_stories_csv (snd run) = failed_stories_csv st).
Proof.
  intros Hit Hm. cbv zeta. specialize (Hm st).
  unfold try_except, bind, set_imported, update_item, bind, get_item, put_item,
    write_to_imported_entities_csv, ret, raise.
  destruct (m st) as [[res|e] st1]; cbn [snd] in Hm; destruct Hm as (Hh & Hl & Hf & Hio).
  - left. cbn [fst snd created_key].
    assert (Hit1 : nth_error (heap st1) item = Some it) by now rewrite Hh.
    rewrite Hit1. cbn [fst snd].
    set (st2 := set_heap st1 (list_set (heap st1) item (with_imported_entity it res))).
    assert (Hio2 : io st2 = io st) by exact Hio.
    destruct (take_io st2) as [o st3] eqn:E.
    destruct (take_io_keeps _ _ _ E) as (Hh3 & _ & _ & Hi3 & _).
    assert (Hitem : nth_error (heap st3) item = Some (with_imported_entity it res)).
    { rewrite Hh3. subst st2. cbn [heap set_heap].
      apply nth_error_list_set_same. apply nth_error_Some. congruence. }
    assert (Hcsv : imported_entities_csv st3 = imported_entities_csv st).
    { rewrite Hi3. exact Hl. }
    assert (Hcalm : calm st -> o = io_ok).
    { intros C. assert (C2 : calm st2) by (unfold calm; now rewrite Hio2).
      destruct (take_io_calm _ C2) as (st4 & E4 & _). rewrite E in E4. now injection E4. }
    exists res.
    destruct o as [| |n]; cbn [io_lines rows_written app fst snd].
    + exists [Row (entity_type res) (created_id res)].
      cbn [heap imported_entities_csv set_imported_entities_csv].
      split; [reflexivity|]. split; [exact Hitem|].
      split; [now rewrite Hcsv|]. split; [now left | reflexivity].
    + exists []. split; [reflexivity|]. split; [exact Hitem|].
      split; [now rewrite app_nil_r|]. split; [now right|].
      intros C. specialize (Hcalm C). discriminate.
    + exists (firstn n [Row (entity_type res) (created_id res)]).
      cbn [heap imported_entities_csv set_imported_entities_csv].
      split; [reflexivity|]. split; [exact Hitem|].
      split; [now rewrite Hcsv|].
      split; [destruct n; [now right | left; cbn [firstn]; now rewrite firstn_nil]|].
      intros C. specialize (Hcalm C). discriminate.
  - right. cbn [fst snd]. repeat split; assumption.
Qed.

Lemma call_keeps {A} (f : B -> result A * B) st0 :
  heap (snd (call f st0)) = heap st0
  /\ imported_entities_csv (snd (call f st0)) = imported_entities_csv st0
  /\ failed_stories_csv (snd (call f st0)) = failed_stories_csv st0
  /\ io (snd (call f st0)) = io st0.
Proof. unfold call. destruct (f (backend st0)). repeat split. Qed.

(** X20.  A record that is not a story, in the live run: either the target
    system creates it, and the record gets the entity, is added to the
    successful records and has its line added to the record of created
    entities, unless that write fails, which is caught and leaves the
    record of created entities as it was; or the pass raises TypeError,
    whatever the failure of the creation was, and nothing is written,
    neither to the record of created entities nor to the file of failed
    stories. *)
Theorem non_story_created_or_type_error acc item it st :
  nth_error (heap st) item = Some it ->
  type_ it <> "story" ->
  let run := create_non_story acc item st in
  (exists res written,
      fst run = Ok (acc ++ [item])
      /\ nth_error (heap (snd run)) item = Some (with_imported_entity it res)
      /\ imported_entities_csv (snd run) = imported_entities_csv st ++ written
      /\ (written = [Row (entity_type res) (created_id res)] \/ written = [])
      /\ (calm st -> written = [Row (entity_type res) (created_id res)]))
  \/ (fst run = Raise TypeError
      /\ heap (snd run) = heap st
      /\ imported_entities_csv (snd run) = imported_entities_csv st
      /\ failed_stories_csv (snd run) = failed_stories_csv st).
Proof.
  intros Hit Hty. cbv zeta.
  assert (Hs : String.eqb (type_ it) "story" = false) by now apply String.eqb_neq.
  set (m := if String.eqb (type_ it) "epic"
            then call (sc_post "/epics" (entity it))
            else if String.eqb (type_ it) "iteration"
            then call (sc_post "/iterations" (entity it))
            else if String.eqb (type_ it) "label"
            then call (sc_post "/labels" (entity it))
            else raise (RuntimeError ("Unknown entity type " ++ type_ it)%string)).
  assert (Hrun : create_non_story acc item st
                 = try_except
                     (res <-- m ;;
                      set_imported (res, item) ;;;
                      write_to_imported_entities_csv [created_key res] mode_a ;;;
                      ret (acc ++ [item]))
                     (fun e => raise TypeError) st).
  { unfold create_non_story. unfold bind at 1, get_item. rewrite Hit, Hs. reflexivity. }
  rewrite Hrun.
  apply (non_story_outcome m acc item it st Hit).
  intros st0. subst m.
  destruct (String.eqb (type_ it) "epic"); [apply call_keeps|].
  destruct (String.eqb (type_ it) "iteration"); [apply call_keeps|].
  destruct (String.eqb (type_ it) "label"); [apply call_keeps|].
  unfold raise. repeat split.
Qed.


(* ================================================================== *)
(** ** What linkage writes *)
(* ================================================================== *)

(** [only_writes key it it']: the record [it'] is [it] but for the
    attribute [key] of its entity. *)
Definition only_writes (key : string) (it it' : item) : Prop :=
  type_ it' = type_ it
  /\ iteration it' = iteration it
  /\ pt_iteration_id it' = pt_iteration_id it
  /\ parsed_row it' = parsed_row it
  /\ imported_entity it' = imported_entity it
  /\ error_message it' = error_message it
  /\ forall k, k <> key -> dict_get (entity it') k = dict_get (entity it) k.

Lemma only_writes_refl key it : only_writes key it it.
Proof. repeat split. Qed.

Lemma only_writes_trans key a b c :
  only_writes key a b -> only_writes key b c -> only_writes key a c.
Proof.
  intros (A1 & A2 & A3 & A4 & A5 & A6 & A7) (B1 & B2 & B3 & B4 & B5 & B6 & B7).
  repeat split; try congruence.
  intros k Hk. now rewrite B7, A7.
Qed.

Lemma only_writes_epic m it :
  only_writes "epic_id" it (with_entity it (fst (assign_story_to_epic m (entity it)))).
Proof.
  repeat split. intros k Hk. cbn [entity with_entity].
  apply assign_story_to_epic_touches. cbn [In]. intros [E|[]]. congruence.
Qed.

Lemma only_writes_iteration x it :
  only_writes "iteration_id" it (set_iteration_id x it).
Proof.
  destruct x as [id|]; [|apply only_writes_refl].
  repeat split. intros k Hk. cbn [set_iteration_id entity with_entity].
  apply dict_get_set_other. congruence.
Qed.

#[local] Hint Resolve only_writes_refl only_writes_epic only_writes_iteration : frame.

(** X21.  Linkage writes one attribute of the stories of its batch and
    nothing else, also when it raises: epic linkage only "epic_id",
    iteration linkage only "iteration_id".  The records outside the batch,
    the collector, and every other attribute and key of the stories of the
    batch are as they were. *)
Theorem linkage_only_links batch epics iterations st :
  touches_only (only_writes "epic_id") batch st
               (snd (assign_stories_to_epics batch epics st))
  /\ touches_only (only_writes "iteration_id") batch st
                  (snd (assign_stories_to_iterations batch iterations st)).
Proof.
  split.
  - assert (H : preserves (touches_only (only_writes "epic_id") batch)
                          (assign_stories_to_epics batch epics)).
    { unfold assign_stories_to_epics.
      repeat frame_step
        (touches_only_refl (only_writes "epic_id") (only_writes_refl "epic_id") batch)
        (touches_only_trans (only_writes "epic_id") (only_writes_trans "epic_id") batch). }
    exact (H st).
  - assert (H : preserves (touches_only (only_writes "iteration_id") batch)
                          (assign_stories_to_iterations batch iterations)).
    { unfold assign_stories_to_iterations.
      repeat frame_step
        (touches_only_refl (only_writes "iteration_id")
                           (only_writes_refl "iteration_id") batch)
        (touches_only_trans (only_writes "iteration_id")
                            (only_writes_trans "iteration_id") batch). }
    exact (H st).
Qed.


(* ================================================================== *)
(** ** Epic linkage of a batch *)
(* ================================================================== *)

(** The record of a story after its pass of epic linkage. *)
Definition linked_to_epic (m : epic_map) (it : item) : item :=
  with_entity it (fst (assign_story_to_epic m (entity it))).

Lemma with_entity_same it : with_entity it (entity it) = it.
Proof. now destruct it. Qed.

(** A second pass over a story changes nothing. *)
Lemma linked_to_epic_twice m it :
  snd (assign_story_to_epic m (entity it)) = None ->
  snd (assign_story_to_epic m (entity (linked_to_epic m it))) = None
  /\ linked_to_epic m (linked_to_epic m it) = linked_to_epic m it.
Proof.
  intros Hq. destruct (assign_story_to_epic_quiet _ _ Hq) as (labels & Hl & Hwf).
  unfold linked_to_epic. cbn [entity with_entity].
  rewrite (assign_story_to_epic_spec m (entity it) labels Hl Hwf). cbn [fst].
  destruct (matching_epic_ids m labels) as [|i ids] eqn:Em.
  - rewrite (assign_story_to_epic_spec m (entity it) labels Hl Hwf), Em.
    split; reflexivity.
  - assert (Hl' : py_iter (py_get_default
                             (dict_set (entity it) "epic_id" (VInt (last (i :: ids) 0%Z)))
                             "labels" (VList [])) = Ok labels).
    { unfold py_get_default. rewrite dict_get_set_other by discriminate. exact Hl. }
    rewrite (assign_story_to_epic_spec m _ labels Hl' Hwf), Em.
    split; [reflexivity|]. cbn [fst]. now rewrite dict_set_set.
Qed.

(** One pass of the loop of [assign_stories_to_epics]. *)
Definition assign_epic_pass (epic_label_map : epic_map) (story : ref) : M unit :=
  it <-- get_item story ;;
  let raised := snd (assign_story_to_epic epic_label_map (entity it)) in
  update_item story
    (fun it => with_entity it (fst (assign_story_to_epic epic_label_map (entity it)))) ;;;
  match raised with
  | Some ex => raise ex
  | None => ret tt
  end.

Lemma assign_epic_pass_ok m story st st' :
  assign_epic_pass m story st = (Ok tt, st') ->
  exists it,
    nth_error (heap st) story = Some it
    /\ snd (assign_story_to_epic m (entity it)) = None
    /\ st' = set_heap st (list_set (heap st) story (linked_to_epic m it)).
Proof.
  unfold assign_epic_pass, bind at 1, get_item.
  destruct (nth_error (heap st) story) as [it|] eqn:Hit; [|discriminate].
  unfold bind at 1, update_item, bind at 1, get_item. rewrite Hit.
  unfold put_item.
  destruct (snd (assign_story_to_epic m (entity it))) as [ex|] eqn:Hq;
    [discriminate|].
  unfold ret. intros H. injection H as <-. exists it. repeat split. exact Hq.
Qed.

Lemma assign_epic_passes m : forall batch st st',
  for_each batch (assign_epic_pass m) st = (Ok tt, st') ->
  forall r,
    (In r batch ->
     exists it, nth_error (heap st) r = Some it
                /\ snd (assign_story_to_epic m (entity it)) = None
                /\ nth_error (heap st') r = Some (linked_to_epic m it))
    /\ (~ In r batch -> nth_error (heap st') r = nth_error (heap st) r).
Proof.
  induction batch as [|story batch IH]; intros st st' H r; cbn [for_each] in H.
  - injection H as <-. split; [intros [] | reflexivity].
  - run_inv H as u st1 Hpass. destruct u.
    destruct (assign_epic_pass_ok _ _ _ _ Hpass) as (it & Hit & Hq & ->).
    specialize (IH _ _ H r). destruct IH as (IHin & IHout).
    cbn [heap set_heap] in IHin, IHout.
    assert (Hlen : story < length (heap st)).
    { apply nth_error_Some. now rewrite Hit. }
    destruct (Nat.eq_dec story r) as [->|N].
    + split; [|intros Hn; exfalso; apply Hn; now left].
      intros _. exists it. split; [exact Hit|]. split; [exact Hq|].
      destruct (in_dec Nat.eq_dec r batch) as [Hin|Hout].
      * destruct (IHin Hin) as (it1 & Hit1 & _ & Hget).
        rewrite nth_error_list_set_same in Hit1 by exact Hlen.
        injection Hit1 as <-. rewrite Hget.
        now rewrite (proj2 (linked_to_epic_twice _ _ Hq)).
      * rewrite (IHout Hout). now apply nth_error_list_set_same.
    + rewrite nth_error_list_set_other in IHin, IHout by exact N.
      split.
      * intros [E|Hin]; [now destruct N|]. exact (IHin Hin).
      * intros Hn. apply IHout. intros Hin. apply Hn. now right.
Qed.

(** C6.  Epic linkage in a run.  When [assign_stories_to_epics] returns,
    the epic-label map was collected from the epic records as they were,
    the batch is returned as it was given, and every story of the batch had
    labels that are well formed and is now, on the heap, the record it was
    with its entity linked: with no label that is a key of the map the
    record is as it was; with exactly one, epic_id is set to that epic's
    id; with several, epic_id is set to the epic id of the last matching
    label in the order of the labels.  Nothing else of the record
    changes, and the records outside the batch are as they were. *)
Theorem epic_last_match_wins batch epics st out st' :
  assign_stories_to_epics batch epics st = (Ok out, st') ->
  exists items m,
    Forall2 (fun r it => nth_error (heap st) r = Some it) epics items
    /\ collect_epic_label_mapping items = Ok m
    /\ out = batch
    /\ (forall r, ~ In r batch -> nth_error (heap st') r = nth_error (heap st) r)
    /\ forall story,
        In story batch ->
        exists it it' labels,
          nth_error (heap st) story = Some it
          /\ nth_error (heap st') story = Some it'
          /\ py_iter (py_get_default (entity it) "labels" (VList [])) = Ok labels
          /\ Forall well_formed_label labels
          /\ (matching_epic_ids m labels = [] -> it' = it)
          /\ (forall epic_id,
                matching_epic_ids m labels = [epic_id] ->
                it' = with_entity it (dict_set (entity it) "epic_id" (VInt epic_id)))
          /\ (matching_epic_ids m labels <> [] ->
              it' = with_entity it
                      (dict_set (entity it) "epic_id"
                         (VInt (last (matching_epic_ids m labels) 0%Z)))).
Proof.
  intros H. unfold assign_stories_to_epics in H.
  run_inv H as items st1 Hd. unfold deref in Hd.
  destruct (deref_ok _ _ _ _ _ Hd) as (-> & read & -> & Hread).
  cbn [app] in H. run_inv H as m st2 Hm.
  unfold lift in Hm. injection Hm as Hm <-.
  run_inv H as u st3 Hloop. unfold ret in H. injection H as <- <-.
  destruct u.
  change (for_each batch (assign_epic_pass m) st = (Ok tt, st3)) in Hloop.
  pose proof (assign_epic_passes m batch st st3 Hloop) as Hp.
  exists read, m. split; [exact Hread|]. split; [exact Hm|].
  split; [reflexivity|].
  split; [intros r Hr; exact (proj2 (Hp r) Hr)|].
  intros story Hin. destruct (proj1 (Hp story) Hin) as (it & Hit & Hq & Hget).
  destruct (assign_story_to_epic_quiet _ _ Hq) as (labels & Hl & Hwf).
  exists it, (linked_to_epic m it), labels.
  split; [exact Hit|]. split; [exact Hget|]. split; [exact Hl|].
  split; [exact Hwf|].
  unfold linked_to_epic.
  rewrite (assign_story_to_epic_spec m (entity it) labels Hl Hwf). cbn [fst].
  split; [|split].
  - intros ->. apply with_entity_same.
  - intros epic_id ->. reflexivity.
  - intros Hne. destruct (matching_epic_ids m labels); [now destruct Hne|].
    reflexivity.
Qed.


(* ================================================================== *)
(** ** Loading the mappings of the run context *)
(* ================================================================== *)

(** A dict whose keys are any hashable value, in insertion order. *)
Definition hmap := list (hkey * value).

Fixpoint hmap_get (m : hmap) (k : hkey) : option value :=
  match m with
  | [] => None
  | (k', v) :: r => if hkey_eqb k' k then Some v else hmap_get r k
  end.

Fixpoint hmap_set (m : hmap) (k : hkey) (v : value) : hmap :=
  match m with
  | [] => [(k, v)]
  | (k', v') :: r =>
      if hkey_eqb k' k then (k, v) :: r else (k', v') :: hmap_set r k v
  end.

(** A loop over a list that stops at the first exception. *)
Fixpoint rfold {A S} (body : S -> A -> result S) (s : S) (xs : list A) : result S :=
  match xs with
  | [] => Ok s
  | x :: r => s' <- body s x ;; rfold body s' r
  end.

(** The body of the loop of [load_mapping_csv], on a row of the reader. *)
Definition load_mapping_row (from_key to_key : string)
           (to_transform : value -> result value) (d : hmap) (row : dict)
  : result hmap :=
  let val_str := py_get row to_key in
  val <- (if truthy val_str then to_transform val_str else Ok VNone) ;;
  key <- dict_index row from_key ;;
  k <- hash_key key ;;
  Ok (hmap_set d k val).

(** [load_mapping_csv], from the rows [csv.DictReader] reads of the file. *)
Definition load_mapping_csv (rows : list dict) (from_key to_key : string)
           (to_transform : value -> result value) : result hmap :=
  rfold (load_mapping_row from_key to_key to_transform) [] rows.

(** [identity], the default of [to_transform], and [int]. *)
Variable identity : value -> result value.
Variable py_int : value -> result value.

Definition load_priorities (rows : list dict) : result hmap :=
  load_mapping_csv rows "pt_priority" "shortcut_custom_field_value_id" identity.

Definition load_workflow_states (rows : list dict) : result hmap :=
  load_mapping_csv rows "pt_state" "shortcut_state_id" py_int.

(** [{user["email"]: user["id"] for user in fetch_members()}] *)
Definition member_emails (members : list value) : result hmap :=
  rfold (fun d user =>
           email <- py_index user "email" ;;
           id <- py_index user "id" ;;
           k <- hash_key email ;;
           Ok (hmap_set d k id))
        [] members.

(** [email_to_id.get(sc_email)] *)
Definition hmap_py_get (m : hmap) (k : value) : result value :=
  h <- hash_key k ;;
  Ok (match hmap_get m h with Some v => v | None => VNone end).

(** [load_users], from the members [fetch_members] returns and the rows of
    the users file. *)
Definition load_users (members : list value) (rows : list dict) : result hmap :=
  email_to_id <- member_emails members ;;
  user_to_email <- load_mapping_csv rows "pt_user_name" "shortcut_user_email" identity ;;
  rfold (fun d (item : hkey * value) =>
           let (pt_user, sc_email) := item in
           if truthy sc_email
           then id <- hmap_py_get email_to_id sc_email ;;
                Ok (hmap_set d pt_user id)
           else Ok d)
        [] user_to_email.

(* ------------------------------------------------------------------ *)
(** *** Lookup after loading *)

Lemma hmap_get_set_same m k v : hmap_get (hmap_set m k v) k = Some v.
Proof.
  induction m as [|[k' v'] m IH]; cbn [hmap_set hmap_get].
  - now rewrite hkey_eqb_refl.
  - destruct (hkey_eqb k' k) eqn:E; cbn [hmap_get].
    + now rewrite hkey_eqb_refl.
    + now rewrite E.
Qed.

Lemma hmap_get_set_other m k k' v :
  k <> k' -> hmap_get (hmap_set m k v) k' = hmap_get m k'.
Proof.
  intros Hne.
  assert (Hf : hkey_eqb k k' = false).
  { destruct (hkey_eqb k k') eqn:E; [|reflexivity]. now destruct (Hne (hkey_eqb_eq _ _ E)). }
  induction m as [|[k0 v0] m IH]; cbn [hmap_set hmap_get].
  - now rewrite Hf.
  - destruct (hkey_eqb k0 k) eqn:E; cbn [hmap_get].
    + apply hkey_eqb_eq in E. subst k0. now rewrite Hf.
    + now rewrite IH.
Qed.

(** The key a row is loaded under, when it has one. *)
Definition row_key (from_key : string) (row : dict) : option hkey :=
  match dict_get row from_key with
  | Some key => match hash_key key with Ok k => Some k | Raise _ => None end
  | None => None
  end.

Lemma load_mapping_row_spec from_key to_key f d row d' :
  load_mapping_row from_key to_key f d row = Ok d' ->
  exists k val,
    row_key from_key row = Some k
    /\ (if truthy (py_get row to_key) then f (py_get row to_key) = Ok val
        else val = VNone)
    /\ d' = hmap_set d k val.
Proof.
  unfold load_mapping_row, row_key, dict_index. intros H.
  inv_bind H. destruct (dict_get row from_key) as [key|]; [|discriminate].
  cbn [rbind] in H. inv_bind H. apply Ok_inj in H. subst d'.
  exists x0, x. rewrite E0. split; [reflexivity|]. split; [|reflexivity].
  destruct (truthy (py_get row to_key)); [exact E | now apply Ok_inj in E].
Qed.

Lemma rfold_app {A S} (body : S -> A -> result S) s xs ys s' :
  rfold body s (xs ++ ys) = Ok s' ->
  exists s1, rfold body s xs = Ok s1 /\ rfold body s1 ys = Ok s'.
Proof.
  revert s. induction xs as [|x xs IH]; intros s; cbn [app rfold].
  - intros H. exists s. split; [reflexivity | exact H].
  - destruct (body s x) as [s2|e]; cbn [rbind]; [apply IH | discriminate].
Qed.

Lemma load_rows_keep from_key to_key f rows : forall d d' k,
  rfold (load_mapping_row from_key to_key f) d rows = Ok d' ->
  Forall (fun row => row_key from_key row <> Some k) rows ->
  hmap_get d' k = hmap_get d k.
Proof.
  induction rows as [|row rows IH]; intros d d' k H Hno; cbn [rfold] in H.
  - apply Ok_inj in H. now subst d'.
  - inv_bind H. inversion Hno as [|r l Hrow Hrest]; subst r l.
    rewrite (IH _ _ _ H Hrest).
    destruct (load_mapping_row_spec _ _ _ _ _ _ E) as (k0 & val & Hk & _ & ->).
    apply hmap_get_set_other. intros ->. now apply Hrow.
Qed.

(** X22.  The mapping [load_mapping_csv] returns, key by key: a key no row
    has is not in the mapping; otherwise the last row with the key decides,
    and the key maps to None when that row has no value, else to its
    transformed value. *)
Theorem load_mapping_csv_last_row_wins rows from_key to_key to_transform d k :
  load_mapping_csv rows from_key to_key to_transform = Ok d ->
  (Forall (fun row => row_key from_key row <> Some k) rows -> hmap_get d k = None)
  /\ (forall before row after,
        rows = before ++ row :: after ->
        row_key from_key row = Some k ->
        Forall (fun row' => row_key from_key row' <> Some k) after ->
        exists val,
          hmap_get d k = Some val
          /\ (if truthy (py_get row to_key)
              then to_transform (py_get row to_key) = Ok val
              else val = VNone)).
Proof.
  unfold load_mapping_csv. intros H. split.
  - intros Hno. now rewrite (load_rows_keep _ _ _ _ _ _ _ H Hno).
  - intros before row after -> Hk Hafter.
    destruct (rfold_app _ _ _ _ _ H) as (d1 & _ & Hrest).
    cbn [rfold] in Hrest. inv_bind Hrest.
    destruct (load_mapping_row_spec _ _ _ _ _ _ E) as (k0 & val & Hk0 & Hval & ->).
    rewrite Hk in Hk0. injection Hk0 as <-.
    exists val. split; [|exact Hval].
    rewrite (load_rows_keep _ _ _ _ _ _ _ Hrest Hafter).
    apply hmap_get_set_same.
Qed.

(** X23.  A row of a mapping file without the key column makes the load
    raise KeyError, whatever the rows after it hold. *)
Theorem load_mapping_csv_missing_column before row after from_key to_key to_transform :
  dict_get row from_key = None ->
  (truthy (py_get row to_key) = true ->
   exists val, to_transform (py_get row to_key) = Ok val) ->
  (exists d, load_mapping_csv before from_key to_key to_transform = Ok d) ->
  load_mapping_csv (before ++ row :: after) from_key to_key to_transform
  = Raise (KeyError (VStr from_key)).
Proof.
  unfold load_mapping_csv. intros Hrow Htot (d & Hd).
  revert Hd. generalize (@nil (hkey * value)) as d0.
  induction before as [|r before IH]; intros d0 Hd; cbn [app rfold] in *.
  - unfold load_mapping_row at 1. unfold dict_index. rewrite Hrow.
    destruct (truthy (py_get row to_key)); [|reflexivity].
    destruct (Htot eq_refl) as (v' & ->). reflexivity.
  - destruct (load_mapping_row from_key to_key to_transform d0 r) as [d1|e];
      cbn [rbind] in *; [now apply IH | discriminate].
Qed.


(* ------------------------------------------------------------------ *)
(** *** The user mapping *)

Lemma hmap_set_keys m k v x :
  In x (map fst (hmap_set m k v)) -> x = k \/ In x (map fst m).
Proof.
  induction m as [|[k0 v0] m IH]; cbn [hmap_set map fst In].
  - intros [<-|[]]. now left.
  - destruct (hkey_eqb k0 k) eqn:E; cbn [map fst In].
    + intros [<-|H]; [now left | right; now right].
    + intros [<-|H]; [right; now left|].
      destruct (IH H) as [->|H1]; [now left | right; now right].
Qed.

Lemma hmap_set_unique m k v :
  NoDup (map fst m) -> NoDup (map fst (hmap_set m k v)).
Proof.
  induction m as [|[k0 v0] m IH]; cbn [hmap_set map fst]; intros H.
  - repeat constructor. intros [].
  - inversion H as [|x l Hx Hl]; subst.
    destruct (hkey_eqb k0 k) eqn:E; cbn [map fst].
    + apply hkey_eqb_eq in E. subst k0. now constructor.
    + constructor; [|now apply IH].
      intros Hin. apply hmap_set_keys in Hin. destruct Hin as [->|Hin]; [|contradiction].
      now rewrite hkey_eqb_refl in E.
Qed.

Lemma load_rows_unique from_key to_key f rows : forall d d',
  rfold (load_mapping_row from_key to_key f) d rows = Ok d' ->
  NoDup (map fst d) -> NoDup (map fst d').
Proof.
  induction rows as [|row rows IH]; intros d d' H Hd; cbn [rfold] in H.
  - apply Ok_inj in H. now subst d'.
  - inv_bind H. apply (IH _ _ H).
    destruct (load_mapping_row_spec _ _ _ _ _ _ E) as (k0 & val & _ & _ & ->).
    now apply hmap_set_unique.
Qed.

Lemma hmap_get_not_in m k : ~ In k (map fst m) -> hmap_get m k = None.
Proof.
  induction m as [|[k0 v0] m IH]; cbn [hmap_get map fst In]; [reflexivity|].
  intros H. destruct (hkey_eqb k0 k) eqn:E.
  - apply hkey_eqb_eq in E. subst k0. exfalso. apply H. now left.
  - apply IH. intros Hin. apply H. now right.
Qed.

(** The id the members give an e-mail, None when no member has it. *)
Definition member_id (email_to_id : hmap) (sc_email : value) : value :=
  match hash_key sc_email with
  | Ok h => match hmap_get email_to_id h with Some id => id | None => VNone end
  | Raise _ => VNone
  end.

Lemma users_loop email_to_id items : forall d d' k,
  rfold (fun d (item : hkey * value) =>
           let (pt_user, sc_email) := item in
           if truthy sc_email
           then id <- hmap_py_get email_to_id sc_email ;;
                Ok (hmap_set d pt_user id)
           else Ok d)
        d items = Ok d' ->
  NoDup (map fst items) ->
  hmap_get d' k
  = match hmap_get items k with
    | Some sc_email =>
        if truthy sc_email then Some (member_id email_to_id sc_email)
        else hmap_get d k
    | None => hmap_get d k
    end.
Proof.
  induction items as [|[pt_user sc_email] items IH]; intros d d' k H Hnd;
    cbn [rfold] in H.
  - apply Ok_inj in H. now subst d'.
  - inv_bind H. inversion Hnd as [|x0 l Hx Hl]; subst x0 l. cbn [fst] in Hx.
    rewrite (IH _ _ k H Hl). cbn [hmap_get].
    destruct (hkey_eqb pt_user k) eqn:Ek.
    + apply hkey_eqb_eq in Ek. subst k.
      rewrite (hmap_get_not_in _ _ Hx).
      destruct (truthy sc_email).
      * inv_bind E. apply Ok_inj in E. subst x.
        rewrite hmap_get_set_same. unfold hmap_py_get in E0. unfold member_id.
        destruct (hash_key sc_email) as [h|e]; cbn [rbind] in E0; [|discriminate].
        apply Ok_inj in E0. now subst x0.
      * apply Ok_inj in E. now subst x.
    + assert (Hne : pt_user <> k) by (intros ->; now rewrite hkey_eqb_refl in Ek).
      assert (Hx0 : hmap_get x k = hmap_get d k).
      { destruct (truthy sc_email).
        - inv_bind E. apply Ok_inj in E. subst x. now apply hmap_get_set_other.
        - apply Ok_inj in E. now subst x. }
      rewrite Hx0. reflexivity.
Qed.

(** X24.  The user mapping [load_users] returns: a source user is a key of
    the mapping exactly when the last row of the users file for that user
    has an e-mail address, and maps to the id of the member with that
    address, or to None when no member has it. *)
Theorem load_users_by_email members rows d :
  load_users members rows = Ok d ->
  exists email_to_id user_to_email,
    member_emails members = Ok email_to_id
    /\ load_mapping_csv rows "pt_user_name" "shortcut_user_email" identity
       = Ok user_to_email
    /\ forall k,
        hmap_get d k
        = match hmap_get user_to_email k with
          | Some sc_email =>
              if truthy sc_email then Some (member_id email_to_id sc_email) else None
          | None => None
          end.
Proof.
  unfold load_users. intros H. inv_bind H. inv_bind H.
  exists x, x0. split; [exact E|]. split; [exact E0|].
  intros k. rewrite (users_loop _ _ _ _ k H).
  - cbn [hmap_get]. reflexivity.
  - unfold load_mapping_csv in E0. apply (load_rows_unique _ _ _ _ _ _ E0). constructor.
Qed.


(* ================================================================== *)
(** ** Comments and attachments from the database *)
(* ================================================================== *)

(* ------------------------------------------------------------------ *)
(** *** Grouping by comment *)

(** What the rows of the query say of each comment, read off the rows
    without the loop: the ids in the order they come first, ... *)
Fixpoint distinct (l : list Z) : list Z :=
  match l with
  | [] => []
  | x :: r => x :: filter (fun y => negb (Z.eqb y x)) (distinct r)
  end.

(** ... the rows of a comment, ... *)
Definition rows_of (id : Z) (rows : list db_row) : list db_row :=
  filter (fun r => Z.eqb (db_id r) id) rows.

Definition text_of (r : db_row) : value :=
  if truthy (db_text r) then db_text r else VStr "".

Definition attachment_of (r : db_row) : value :=
  VDict [("filename", db_filename r); ("content_type", db_content_type r)].

(** ... and for a comment the text of its first row and one attachment for
    each of its rows that names a file, in the order of the rows. *)
Definition comment_of (rows : list db_row) (id : Z) : Z * (value * list value) :=
  (id,
   (match rows_of id rows with
    | r :: _ => text_of r
    | [] => VStr ""
    end,
    map attachment_of (filter (fun r => truthy (db_filename r)) (rows_of id rows)))).

Definition comments_by_id (rows : list db_row) : processed :=
  map (comment_of rows) (distinct (map db_id rows)).

Lemma existsb_filter_neq x y l :
  x <> y ->
  existsb (Z.eqb x) (filter (fun z => negb (Z.eqb z y)) l) = existsb (Z.eqb x) l.
Proof. forget_run.
  intros N. induction l as [|z l IH]; cbn [filter existsb]; [reflexivity|].
  destruct (Z.eqb_spec z y) as [->|Hzy]; cbn [negb existsb].
  - destruct (Z.eqb_spec x y); [contradiction|]. cbn [orb]. exact IH.
  - now rewrite IH.
Qed.

Lemma existsb_distinct x l : existsb (Z.eqb x) (distinct l) = existsb (Z.eqb x) l.
Proof. forget_run.
  induction l as [|y l IH]; cbn [distinct existsb]; [reflexivity|].
  destruct (Z.eqb_spec x y) as [->|N]; cbn [orb]; [reflexivity|].
  now rewrite existsb_filter_neq.
Qed.

Lemma distinct_snoc l x :
  distinct (l ++ [x]) = if existsb (Z.eqb x) l then distinct l else distinct l ++ [x].
Proof. forget_run.
  induction l as [|y l IH]; cbn [app distinct existsb filter]; [reflexivity|].
  rewrite IH. destruct (Z.eqb_spec x y) as [->|N]; cbn [orb].
  - destruct (existsb (Z.eqb y) l); [reflexivity|].
    rewrite filter_app. cbn [filter]. rewrite Z.eqb_refl. cbn [negb].
    now rewrite app_nil_r.
  - destruct (existsb (Z.eqb x) l); [reflexivity|].
    rewrite filter_app. cbn [filter].
    destruct (Z.eqb_spec x y); [contradiction|]. reflexivity.
Qed.

Lemma distinct_NoDup l : NoDup (distinct l).
Proof. forget_run.
  induction l as [|y l IH]; cbn [distinct]; constructor.
  - intros Hin. apply filter_In in Hin. destruct Hin as [_ H].
    rewrite Z.eqb_refl in H. discriminate.
  - now apply NoDup_filter.
Qed.

Lemma distinct_absent x l id :
  existsb (Z.eqb x) l = false -> In id (distinct l) -> id <> x.
Proof. forget_run.
  intros He Hin ->. rewrite <- existsb_distinct in He.
  assert (Ht : existsb (Z.eqb x) (distinct l) = true).
  { apply existsb_exists. exists x. split; [exact Hin | apply Z.eqb_refl]. }
  rewrite Ht in He. discriminate.
Qed.

Lemma rows_of_snoc id rows r :
  rows_of id (rows ++ [r])
  = rows_of id rows ++ (if Z.eqb (db_id r) id then [r] else []).
Proof. forget_run.
  unfold rows_of. rewrite filter_app. cbn [filter].
  destruct (Z.eqb (db_id r) id); reflexivity.
Qed.

Lemma rows_of_absent id rows :
  existsb (Z.eqb id) (map db_id rows) = false -> rows_of id rows = [].
Proof. forget_run.
  induction rows as [|r rows IH]; cbn [map existsb rows_of filter]; [reflexivity|].
  destruct (Z.eqb_spec id (db_id r)) as [E|N]; cbn [orb]; [discriminate|].
  intros H. destruct (Z.eqb_spec (db_id r) id) as [E|_]; [congruence|].
  now apply IH.
Qed.

Lemma rows_of_present id rows :
  existsb (Z.eqb id) (map db_id rows) = true ->
  exists r rest, rows_of id rows = r :: rest.
Proof. forget_run.
  induction rows as [|r rows IH]; cbn [map existsb rows_of filter]; [discriminate|].
  destruct (Z.eqb_spec id (db_id r)) as [E|N]; cbn [orb].
  - intros _. rewrite <- E, Z.eqb_refl. eauto.
  - intros H. destruct (Z.eqb_spec (db_id r) id) as [E|_]; [congruence|].
    now apply IH.
Qed.

Lemma comment_of_snoc_other rows r id :
  id <> db_id r -> comment_of (rows ++ [r]) id = comment_of rows id.
Proof. forget_run.
  intros N. unfold comment_of. rewrite rows_of_snoc.
  destruct (Z.eqb_spec (db_id r) id); [congruence|]. now rewrite app_nil_r.
Qed.

Lemma comment_of_snoc_old rows r :
  existsb (Z.eqb (db_id r)) (map db_id rows) = true ->
  comment_of (rows ++ [r]) (db_id r)
  = (db_id r,
     (fst (snd (comment_of rows (db_id r))),
      snd (snd (comment_of rows (db_id r)))
      ++ (if truthy (db_filename r) then [attachment_of r] else []))).
Proof. forget_run.
  intros H. unfold comment_of. rewrite rows_of_snoc, Z.eqb_refl.
  destruct (rows_of_present _ _ H) as (r0 & rest & ->).
  rewrite filter_app, map_app. cbn [app fst snd filter].
  destruct (truthy (db_filename r)); reflexivity.
Qed.

Lemma comment_of_snoc_new rows r :
  existsb (Z.eqb (db_id r)) (map db_id rows) = false ->
  comment_of (rows ++ [r]) (db_id r)
  = (db_id r,
     (text_of r, if truthy (db_filename r) then [attachment_of r] else [])).
Proof. forget_run.
  intros H. unfold comment_of. rewrite rows_of_snoc, Z.eqb_refl.
  rewrite (rows_of_absent _ _ H). cbn [app filter].
  destruct (truthy (db_filename r)); reflexivity.
Qed.

Lemma add_attachment_app p q id a :
  existsb (Z.eqb id) (map fst p) = false ->
  add_attachment (p ++ q) id a = p ++ add_attachment q id a.
Proof. forget_run.
  induction p as [|[id' [t atts]] p IH]; cbn [map fst existsb app add_attachment];
    [reflexivity|].
  destruct (Z.eqb_spec id id') as [E|N]; cbn [orb]; [discriminate|].
  intros H. destruct (Z.eqb_spec id' id) as [E|_]; [congruence|].
  now rewrite IH.
Qed.

Lemma add_attachment_map rows r ids :
  NoDup ids ->
  existsb (Z.eqb (db_id r)) (map db_id rows) = true ->
  truthy (db_filename r) = true ->
  add_attachment (map (comment_of rows) ids) (db_id r) (attachment_of r)
  = map (comment_of (rows ++ [r])) ids.
Proof. forget_run.
  intros Hn He Ht. induction ids as [|id ids IH]; cbn [map]; [reflexivity|].
  apply NoDup_cons_iff in Hn. destruct Hn as [Hnot Hn].
  change (comment_of rows id)
    with (id, (fst (snd (comment_of rows id)), snd (snd (comment_of rows id)))).
  cbn [add_attachment].
  destruct (Z.eqb_spec id (db_id r)) as [->|N].
  - rewrite comment_of_snoc_old by exact He. rewrite Ht. f_equal.
    apply map_ext_in. intros id' Hin. symmetry. apply comment_of_snoc_other.
    intros ->. contradiction.
  - rewrite (IH Hn), (comment_of_snoc_other rows r id N). reflexivity.
Qed.

(** One pass of the loop over [db_comments] files the row under its
    comment. *)
Lemma group_comment_spec rows r :
  group_comment (comments_by_id rows) r = comments_by_id (rows ++ [r]).
Proof. forget_run.
  unfold group_comment, comments_by_id. cbv zeta.
  assert (Hids : forall ids, map fst (map (comment_of rows) ids) = ids).
  { intros ids. rewrite map_map. cbn [comment_of fst]. apply map_id. }
  rewrite Hids, existsb_distinct, map_app. cbn [map]. rewrite distinct_snoc.
  destruct (existsb (Z.eqb (db_id r)) (map db_id rows)) eqn:E.
  - destruct (truthy (db_filename r)) eqn:Ht.
    + apply add_attachment_map; [apply distinct_NoDup | exact E | exact Ht].
    + apply map_ext_in. intros id Hin.
      destruct (Z.eq_dec id (db_id r)) as [->|N].
      * rewrite comment_of_snoc_old by exact E. rewrite Ht, app_nil_r. reflexivity.
      * now rewrite comment_of_snoc_other.
  - assert (Hold : map (comment_of rows) (distinct (map db_id rows))
                   = map (comment_of (rows ++ [r])) (distinct (map db_id rows))).
    { apply map_ext_in. intros id Hin. symmetry. apply comment_of_snoc_other.
      exact (distinct_absent _ _ _ E Hin). }
    rewrite map_app. cbn [map]. rewrite comment_of_snoc_new by exact E.
    rewrite <- Hold.
    destruct (truthy (db_filename r)) eqn:Ht; [|reflexivity].
    rewrite add_attachment_app by (now rewrite Hids, existsb_distinct).
    cbn [add_attachment]. now rewrite Z.eqb_refl.
Qed.

(** The loop over [db_comments] groups the rows by comment. *)
Lemma group_comments_spec rows :
  fold_left group_comment rows [] = comments_by_id rows.
Proof. forget_run.
  induction rows as [|r rows IH] using rev_ind; [reflexivity|].
  now rewrite fold_left_app, IH; cbn [fold_left]; rewrite group_comment_spec.
Qed.

(* ------------------------------------------------------------------ *)
(** *** Pairing by position *)

Lemma attach_each_returns db : forall cs cs',
  attach_each db cs = Ok cs' ->
  length cs <= length db
  /\ length cs' = length cs
  /\ forall i c,
      nth_error cs i = Some c ->
      exists d text atts,
        c = VDict d
        /\ nth_error db i = Some (text, atts)
        /\ nth_error cs' i
           = Some (VDict (dict_set (dict_set d "text" text) "attachments" (VList atts))).
Proof.
  induction db as [|[text atts] db IH]; intros [|c cs] cs' H; cbn [attach_each] in H.
  - injection H as <-. repeat split; [cbn; lia|]. intros [|i] c Hc; discriminate.
  - discriminate.
  - injection H as <-. repeat split; [cbn; lia|]. intros [|i] c Hc; discriminate.
  - destruct c as [ | | | | | |d]; try discriminate.
    destruct (attach_each db cs) as [rest'|e] eqn:E; cbn [rbind] in H;
      [|discriminate].
    injection H as <-. destruct (IH _ _ E) as (Hlen & Hlen' & Hnth).
    split; [cbn [length]; lia|]. split; [cbn [length]; lia|].
    intros [|i] c Hc; cbn [nth_error] in *.
    + injection Hc as <-. exists d, text, atts. repeat split.
    + now apply Hnth.
Qed.

Lemma attach_each_short db : forall cs,
  length db < length cs ->
  Forall (fun c => exists d, c = VDict d) cs ->
  attach_each db cs = Raise IndexError.
Proof.
  induction db as [|[text atts] db IH]; intros [|c cs] Hlen Hd; cbn [length] in Hlen;
    try lia; cbn [attach_each]; [reflexivity|].
  apply Forall_cons_iff in Hd. destruct Hd as ((d & ->) & Hrest).
  rewrite IH; [reflexivity | lia | exact Hrest].
Qed.

(** X25.  The comments of a row take the text and the attachments of the
    comments of the database by position.  The rows of the query are
    grouped by comment id, the ids in the order they come first, each with
    the text of its first row (the empty string when that is None) and one
    attachment, a file name and a content type, for each of its rows that
    names a file, in the order of the rows.  The comment at index [i] of
    the row gets the text and the attachments of the [i]-th of these
    groups, whether or not they are the same comment; the row also gains
    the groups under "db_comments", and nothing else of it changes. *)
Theorem db_comments_paired_by_position query row_info db_comments cs row' :
  dict_has row_info "external_id" = true ->
  dict_get row_info "comments" = Some (VList cs) ->
  query (py_get row_info "external_id") = Some db_comments ->
  add_attached_files_in_comments true query row_info = Ok row' ->
  let p := comments_by_id db_comments in
  exists cs',
    dict_get row' "comments" = Some (VList cs')
    /\ dict_get row' "db_comments" = Some (VList (processed_values p))
    /\ (forall k, k <> "comments" -> k <> "db_comments" ->
                  dict_get row' k = dict_get row_info k)
    /\ length cs' = length cs
    /\ forall i c,
        nth_error cs i = Some c ->
        exists d id text atts,
          c = VDict d
          /\ nth_error p i = Some (id, (text, atts))
          /\ nth_error cs' i
             = Some (VDict (dict_set (dict_set d "text" text)
                                     "attachments" (VList atts))).
Proof.
  intros Hid Hcs Hq H. cbv zeta.
  unfold add_attached_files_in_comments in H. cbn [negb] in H. cbv iota in H.
  unfold dict_has in H at 2. rewrite Hid, Hcs, Hq in H. cbn [andb] in H. cbv iota zeta in H.
  rewrite group_comments_spec in H.
  assert (Hc : py_get (dict_set row_info "db_comments"
                         (VList (processed_values (comments_by_id db_comments))))
                      "comments" = VList cs).
  { unfold py_get. rewrite dict_get_set_other by discriminate. now rewrite Hcs. }
  rewrite Hc in H. cbn [py_iter rbind] in H.
  destruct (attach_each _ cs) as [cs'|e] eqn:E; cbn [rbind] in H; [|discriminate].
  injection H as <-. exists cs'.
  destruct (attach_each_returns _ _ _ E) as (_ & Hlen & Hnth).
  split; [apply dict_get_set_same|].
  split; [rewrite dict_get_set_other by discriminate; apply dict_get_set_same|].
  split; [intros k K1 K2; now rewrite !dict_get_set_other by congruence|].
  split; [exact Hlen|].
  intros i c Hi. destruct (Hnth i c Hi) as (d & text & atts & -> & Hdb & Hnew).
  rewrite nth_error_map in Hdb.
  destruct (nth_error (comments_by_id db_comments) i) as [[id [t a]]|] eqn:Ep;
    [|discriminate].
  cbn [option_map snd] in Hdb. injection Hdb as -> ->.
  exists d, id, text, atts. repeat split. exact Hnew.
Qed.

(** X26.  A row with more comments than the database has for its story
    stops the import: the lookup raises IndexError, which its handler of
    database errors does not catch. *)
Theorem fewer_db_comments_raise query row_info db_comments cs :
  dict_has row_info "external_id" = true ->
  dict_get row_info "comments" = Some (VList cs) ->
  query (py_get row_info "external_id") = Some db_comments ->
  Forall (fun c => exists d, c = VDict d) cs ->
  length (fold_left group_comment db_comments []) < length cs ->
  add_attached_files_in_comments true query row_info = Raise IndexError.
Proof.
  intros Hid Hcs Hq Hd Hlen.
  unfold add_attached_files_in_comments. cbn [negb]. cbv iota.
  unfold dict_has at 2. rewrite Hid, Hcs, Hq. cbn [andb]. cbv iota zeta.
  assert (Hc : py_get (dict_set row_info "db_comments"
                         (VList (processed_values (fold_left group_comment db_comments []))))
                      "comments" = VList cs).
  { unfold py_get. rewrite dict_get_set_other by discriminate. now rewrite Hcs. }
  rewrite Hc. cbn [py_iter rbind].
  rewrite attach_each_short; [reflexivity | now rewrite length_map | exact Hd].
Qed.


(* ================================================================== *)
(** ** What is submitted to the backend *)
(* ================================================================== *)

Lemma dict_keys_get (d : dict) k : In k (dict_keys d) -> exists v, dict_get d k = Some v.
Proof. forget_run.
  induction d as [|[k0 v0] d IH]; cbn; [intros []|].
  destruct (String.eqb k0 k) eqn:E; [eauto|].
  intros [H|H]; [|now apply IH].
  apply String.eqb_neq in E. now destruct E.
Qed.

(** The attributes of a payload are of the allow list of its type; a story
    may also have "epic_id", which epic linkage sets. *)
Definition allow_listed (type : string) (e : dict) : Prop :=
  forall keys,
    select_keys type = Some keys ->
    forall k, In k (dict_keys e) -> In k keys \/ (type = "story" /\ k = "epic_id").

(** Every story and every epic of the heap is allow-listed. *)
Definition records_allow_listed (st : state) : Prop :=
  forall r it, nth_error (heap st) r = Some it -> allow_listed (type_ it) (entity it).

Definition story_at (st : state) (r : ref) : Prop :=
  exists it, nth_error (heap st) r = Some it /\ type_ it = "story".

(** A record keeps its type, and its entity when it is not a story. *)
Definition same_entity (it it' : item) : Prop :=
  type_ it' = type_ it /\ entity it' = entity it.

Lemma same_entity_refl it : same_entity it it.
Proof. split; reflexivity. Qed.

Lemma allow_listed_kept0 it it' :
  kept0 it it' -> type_ it = "story" ->
  allow_listed (type_ it) (entity it) -> allow_listed (type_ it') (entity it').
Proof. forget_run.
  intros (Hty & _ & _ & Hget) Hs Hok keys Hkeys k Hk.
  rewrite Hty, Hs in *.
  destruct (string_dec k "epic_id") as [->|N1]; [now right|].
  destruct (string_dec k "comments") as [->|N2].
  { left. cbn in Hkeys. injection Hkeys as <-. cbn [In]. tauto. }
  destruct (string_dec k "iteration_id") as [->|N3].
  { left. cbn in Hkeys. injection Hkeys as <-. cbn [In]. tauto. }
  apply (Hok keys Hkeys).
  destruct (dict_keys_get _ _ Hk) as (v & Hv).
  rewrite Hget in Hv by assumption. exact (dict_get_In_keys _ _ _ Hv).
Qed.





Lemma refs_of_type_at ty records : forall n r,
  In r (refs_of_type ty n records) ->
  exists it, n <= r /\ nth_error records (r - n) = Some it /\ type_ it = ty.
Proof. forget_run.
  induction records as [|it records IH]; intros n r H; cbn [refs_of_type] in H;
    [destruct H|].
  apply in_app_or in H. destruct H as [H|H].
  - destruct (String.eqb (type_ it) ty) eqn:E; [|destruct H].
    destruct H as [<-|[]]. exists it. rewrite Nat.sub_diag.
    split; [lia|]. split; [reflexivity | now apply String.eqb_eq].
  - destruct (IH _ _ H) as (it' & Hle & Hnth & Hty). exists it'.
    split; [lia|]. split; [|exact Hty].
    replace (r - n) with (S (r - S n)) by lia. exact Hnth.
Qed.

(** The export leaves a heap of allow-listed records, and the stories of
    the collector are stories. *)
Lemma export_allow_listed ctx lines stop st st' :
  heap st = [] -> stories (self st) = [] ->
  process_pt_csv_export ctx lines stop st = (Ok tt, st') ->
  records_allow_listed st' /\ Forall (story_at st') (stories (self st')).
Proof.
  intros Hh0 Hs0 H.
  destruct (process_pt_csv_export_unfold ctx lines stop st)
    as (st1 & Hh & Hs & _ & _ & _ & Hrun).
  rewrite Hrun in H. clear Hrun.
  destruct lines as [|header rows]; [discriminate|].
  pose proof (export_rows_spec ctx (map str_lower header)
                (combine (seq 0 (length rows)) rows) st1) as Hrows.
  unfold bind at 1 in H.
  destruct (rmap _ _) as [records|e] eqn:Hmap.
  2: { destruct Hrows as (st2 & Hfor). rewrite Hfor in H. discriminate. }
  destruct Hrows as (st2 & Hfor & Hc). rewrite Hfor in H.
  destruct stop as [e|]; [discriminate|]. unfold ret in H. injection H as <-.
  destruct Hc as (C1 & C2 & _).
  rewrite Hh, Hh0 in C1, C2. rewrite Hs in C2. cbn [app length with_labels stories] in C1, C2.
  rewrite Hs0 in C2. cbn [app] in C2.
  assert (Hbuilt : Forall (fun it => exists d, build_entity ctx d = Ok it) records).
  { eapply rmap_Forall; [|exact Hmap]. intros x it. unfold read_row.
    destruct (parse_row _ _) as [d|]; cbn [rbind]; [|discriminate].
    destruct (add_attached_files_in_comments _ _ d) as [d'|]; cbn [rbind];
      [|discriminate].
    intros Hb. now exists d'. }
  rewrite Forall_forall in Hbuilt. split.
  - intros r it Hit. rewrite C1 in Hit. destruct r as [|r]; cbn [nth_error] in Hit.
    + injection Hit as <-. intros keys Hk. discriminate.
    + destruct (Hbuilt it (nth_error_In _ _ Hit)) as (d & Hb).
      destruct (build_entity_allow_listed _ _ _ Hb) as (keys & Hk & Hin).
      intros keys' Hk' k Hkin. rewrite Hk in Hk'. injection Hk' as <-.
      left. now apply Hin.
  - rewrite C2. apply Forall_forall. intros r Hr.
    destruct (refs_of_type_at _ _ _ _ Hr) as (it & Hle & Hnth & Hty).
    exists it. split; [|exact Hty]. rewrite C1.
    destruct r as [|r]; [lia|]. cbn [nth_error].
    now replace (S r - 1) with r in Hnth by lia.
Qed.

Section Submitted.

(** The requests a backend has got, in their order: the path and the
    payloads of each.  A call adds its request, also when it fails; an
    upload of files is no request for creation. *)
Variable log : B -> list (string * list dict).
Hypothesis post_logs :
  forall path e b, log (snd (sc_post path e b)) = log b ++ [(path, [e])].
Hypothesis bulk_logs :
  forall es b, log (snd (sc_post_bulk es b)) = log b ++ [("/stories/bulk", es)].
Hypothesis upload_logs :
  forall paths b, log (snd (sc_upload_files paths b)) = log b.

(** The payloads of a request for epics or for stories are allow-listed. *)
Definition sent_ok (q : string * list dict) : Prop :=
  (fst q = "/epics" -> Forall (allow_listed "epic") (snd q))
  /\ (fst q = "/stories/bulk" \/ fst q = "/stories" ->
      Forall (allow_listed "story") (snd q)).

Definition types_kept (st st' : state) : Prop :=
  forall r it, nth_error (heap st) r = Some it ->
               exists it', nth_error (heap st') r = Some it' /\ type_ it' = type_ it.

(** [safe st st']: from [st] to [st'] the records keep their types, the
    backend has got more requests, and if the records were allow-listed
    they still are and so are the payloads of the new requests. *)
Definition safe (st st' : state) : Prop :=
  types_kept st st'
  /\ exists sent,
       log (backend st') = log (backend st) ++ sent
       /\ (records_allow_listed st ->
           records_allow_listed st' /\ Forall sent_ok sent).

Lemma safe_refl st : safe st st.
Proof using Type.
  split; [intros r it H; now exists it|].
  exists []. split; [now rewrite app_nil_r|]. intros H. split; [exact H | constructor].
Qed.

Lemma safe_trans a b c : safe a b -> safe b c -> safe a c.
Proof using Type.
  intros (T1 & s1 & L1 & H1) (T2 & s2 & L2 & H2). split.
  - intros r it H. destruct (T1 _ _ H) as (it1 & Hit1 & E1).
    destruct (T2 _ _ Hit1) as (it2 & Hit2 & E2). exists it2. split; congruence.
  - exists (s1 ++ s2). split; [rewrite L2, L1; now rewrite app_assoc|].
    intros Ha. destruct (H1 Ha) as (Hb & F1). destruct (H2 Hb) as (Hc & F2).
    split; [exact Hc | now apply Forall_app].
Qed.

Definition log_same (st st' : state) : Prop := log (backend st') = log (backend st).

Lemma log_same_refl st : log_same st st.
Proof using Type. reflexivity. Qed.

Lemma log_same_trans a b c : log_same a b -> log_same b c -> log_same a c.
Proof using Type. unfold log_same. congruence. Qed.

Lemma story_at_safe st st' r : safe st st' -> story_at st r -> story_at st' r.
Proof using Type.
  intros (T & _) (it & Hit & Hty). destruct (T _ _ Hit) as (it' & Hit' & E).
  exists it'. split; [exact Hit' | congruence].
Qed.

Lemma stories_at_safe st st' X :
  safe st st' -> Forall (story_at st) X -> Forall (story_at st') X.
Proof using Type.
  intros Hs. apply Forall_impl. intros r. now apply story_at_safe.
Qed.

(** A step that only touches stories, and sends nothing, is safe. *)
Lemma safe_frame X st st' :
  touches_only kept0 X st st' -> Forall (story_at st) X -> log_same st st' ->
  safe st st'.
Proof using Type.
  intros (_ & Hlen & Hout & Hin) HX Hlog. split.
  - intros r it H. destruct (Hin _ _ H) as (it' & H' & Hk). exists it'.
    split; [exact H' | apply Hk].
  - exists []. split; [now rewrite app_nil_r|]. intros Hok.
    split; [|constructor]. intros r it' H'.
    destruct (nth_error (heap st) r) as [it|] eqn:H.
    + destruct (Hin _ _ H) as (it'' & H'' & Hk).
      rewrite H' in H''. injection H'' as <-.
      destruct (in_dec Nat.eq_dec r X) as [Hr|Hr].
      * rewrite Forall_forall in HX. destruct (HX r Hr) as (it0 & H0 & Hty).
        rewrite H in H0. injection H0 as <-.
        apply (allow_listed_kept0 it it' Hk Hty). now apply (Hok r).
      * rewrite (Hout r Hr), H in H'. injection H' as <-. now apply (Hok r).
    + apply nth_error_None in H.
      assert (r < length (heap st')) by (apply nth_error_Some; congruence). lia.
Qed.

(** A step that leaves the entities as they are, and sends nothing, is
    safe. *)
Lemma safe_same_entity X st st' :
  touches_only same_entity X st st' -> log_same st st' -> safe st st'.
Proof using Type.
  intros (_ & Hlen & Hout & Hin) Hlog. split.
  - intros r it H. destruct (Hin _ _ H) as (it' & H' & Hk). exists it'.
    split; [exact H' | apply Hk].
  - exists []. split; [now rewrite app_nil_r|]. intros Hok.
    split; [|constructor]. intros r it' H'.
    destruct (nth_error (heap st) r) as [it|] eqn:H.
    + destruct (Hin _ _ H) as (it'' & H'' & Hty & He).
      rewrite H' in H''. injection H'' as <-. rewrite Hty, He. now apply (Hok r).
    + apply nth_error_None in H.
      assert (r < length (heap st')) by (apply nth_error_Some; congruence). lia.
Qed.

Lemma safe_same st st' :
  heap st' = heap st -> self st' = self st -> log_same st st' -> safe st st'.
Proof using Type.
  intros Hh Hs Hl. apply (safe_same_entity []); [|exact Hl].
  apply touches_only_same_heap; [apply same_entity_refl | exact Hh | exact Hs].
Qed.

(** *** The steps that send nothing *)

Lemma log_call_upload paths st :
  log_same st (snd (call (fun b => let (r, b') := sc_upload_files paths b in (Ok r, b')) st)).
Proof using upload_logs.
  unfold log_same, call. pose proof (upload_logs paths (backend st)) as H.
  destruct (sc_upload_files paths (backend st)) as [r b']. exact H.
Qed.

Lemma log_write es m st : log_same st (snd (write_to_imported_entities_csv es m st)).
Proof using Type.
  unfold log_same. now rewrite (proj1 (proj2 (proj2 (write_imported_keeps es m st)))).
Qed.

Lemma log_write_failed_stories rs st : log_same st (snd (write_failed_stories rs st)).
Proof using Type.
  unfold log_same. destruct (write_failed_stories_keeps rs st) as (_ & _ & -> & _).
  reflexivity.
Qed.

Lemma log_write_failed_files fs st : log_same st (snd (write_failed_files_csv fs st)).
Proof using Type.
  unfold log_same. destruct (write_failed_files_keeps fs st) as (_ & _ & -> & _).
  reflexivity.
Qed.

Ltac log_of lemma :=
  apply (lemma log_same log_same_refl log_same_trans);
  first [ intros; reflexivity
        | intros; apply log_call_upload
        | intros; apply log_write
        | intros; apply log_write_failed_stories
        | intros; apply log_write_failed_files ].

Lemma log_process_files_for_stories batch dry :
  preserves log_same (process_files_for_stories batch dry).
Proof using upload_logs. log_of every_process_files_for_stories. Qed.

Lemma log_clean_story story : preserves log_same (clean_story story).
Proof using Type. log_of every_clean_story. Qed.

Lemma log_set_imported p : preserves log_same (set_imported p).
Proof using Type. log_of every_set_imported. Qed.



Lemma frame_clean_story X story :
  In story X -> preserves (touches_only kept X) (clean_story story).
Proof using Type. intros H. unfold clean_story. frame_kept X. Qed.

Lemma safe_write es m : preserves safe (write_to_imported_entities_csv es m).
Proof using Type.
  intros st. apply safe_same; [apply write_imported_keeps.. | apply log_write].
Qed.

Lemma safe_write_failed_stories rs : preserves safe (write_failed_stories rs).
Proof using Type.
  intros st. apply safe_same; [apply write_failed_stories_keeps.. | apply log_write_failed_stories].
Qed.

Lemma safe_update_self f : preserves safe (update_self f).
Proof using Type.
  intros st. split; [intros r it H; now exists it|].
  exists []. split; [now rewrite app_nil_r|]. intros H. split; [exact H | constructor].
Qed.

Lemma safe_set_imported p : preserves safe (set_imported p).
Proof using Type.
  intros st. apply (safe_same_entity [snd p]); [|apply log_set_imported].
  unfold set_imported.
  apply touches_only_update_item;
    [apply same_entity_refl | now left | intros it; split; reflexivity].
Qed.


Create HintDb safe.

#[local] Hint Resolve safe_write safe_write_failed_stories safe_update_self
  safe_set_imported : safe.

Ltac safe_step :=
  first
    [ solve [auto with safe]
    | apply (preserves_ret safe safe_refl)
    | apply (preserves_raise safe safe_refl)
    | apply (preserves_lift safe safe_refl)
    | apply (preserves_get_item safe safe_refl)
    | apply (preserves_get_self safe safe_refl)
    | apply (preserves_deref safe safe_refl safe_trans)
    | apply (preserves_bind safe safe_trans); [ | intros ]
    | apply (preserves_try safe safe_trans); [ | intros ]
    | apply (preserves_for_each safe safe_refl safe_trans); intros
    | apply (preserves_fold_m safe safe_refl safe_trans); intros
    | match goal with
      | |- preserves _ (match ?x with _ => _ end) => destruct x
      | |- preserves _ (if ?x then _ else _) => destruct x
      end ].

Ltac safely := repeat safe_step.

Lemma safe_imported_entities rs : preserves safe (imported_entities rs).
Proof using Type. unfold imported_entities. safely. Qed.

#[local] Hint Resolve safe_imported_entities : safe.

(** *** The requests *)

(** A record that is not a story is sent as it is on the heap. *)
Lemma safe_post path item it st :
  nth_error (heap st) item = Some it ->
  (path = "/epics" -> type_ it = "epic") ->
  path <> "/stories/bulk" -> path <> "/stories" ->
  safe st (snd (call (sc_post path (entity it)) st)).
Proof using post_logs.
  intros Hit Hepic N1 N2. unfold call.
  pose proof (post_logs path (entity it) (backend st)) as Hlog.
  destruct (sc_post path (entity it) (backend st)) as [r b]. cbn [snd] in *.
  split; [intros r0 it0 H; now exists it0|].
  exists [(path, [entity it])]. split; [exact Hlog|].
  intros Hok. split; [exact Hok|]. constructor; [|constructor].
  split; cbn [fst snd].
  - intros Hp. constructor; [|constructor].
    rewrite <- (Hepic Hp). now apply (Hok item).
  - intros [Hp|Hp]; contradiction.
Qed.

(** The stories of a batch are sent as they are on the heap. *)
Lemma safe_bulk refs items st :
  Forall2 (fun r it => nth_error (heap st) r = Some it) refs items ->
  Forall (story_at st) refs ->
  safe st (snd (call (sc_post_bulk (map entity items)) st)).
Proof using bulk_logs.
  intros Hat Hst. unfold call.
  pose proof (bulk_logs (map entity items) (backend st)) as Hlog.
  destruct (sc_post_bulk (map entity items) (backend st)) as [r b]. cbn [snd] in *.
  split; [intros r0 it0 H; now exists it0|].
  exists [("/stories/bulk", map entity items)]. split; [exact Hlog|].
  intros Hok. split; [exact Hok|]. constructor; [|constructor].
  split; cbn [fst snd]; [discriminate|]. intros _.
  clear Hlog. induction Hat as [|r0 it refs items Hit Hat IH]; cbn [map]; constructor.
  - apply Forall_inv in Hst. destruct Hst as (it0 & H0 & Hty).
    rewrite Hit in H0. injection H0 as <-. rewrite <- Hty. now apply (Hok r0).
  - apply IH. now apply Forall_inv_tail in Hst.
Qed.

(** [sound m st Q]: run from [st], the command [m] is safe, and when it
    returns its result and state satisfy [Q]. *)
Definition sound {A} (m : M A) (st : state) (Q : A -> state -> Prop) : Prop :=
  safe st (snd (m st)) /\ forall a st', m st = (Ok a, st') -> Q a st'.

Lemma sound_ret {A} (a : A) st (Q : A -> state -> Prop) : Q a st -> sound (ret a) st Q.
Proof using Type.
  intros H. split; [apply safe_refl|]. intros a' st' E. injection E as <- <-. exact H.
Qed.

Lemma sound_of {A} (m : M A) st (Q : A -> state -> Prop) :
  safe st (snd (m st)) -> (forall a st', m st = (Ok a, st') -> Q a st') -> sound m st Q.
Proof using Type. now split. Qed.

Lemma sound_safe {A} (m : M A) st : preserves safe m -> sound m st (fun _ _ => True).
Proof using Type. intros H. split; [apply H | auto]. Qed.

Lemma sound_bind {A C} (m : M A) (f : A -> M C) st (Q1 : A -> state -> Prop) Q :
  sound m st Q1 ->
  (forall a st1, m st = (Ok a, st1) -> safe st st1 -> Q1 a st1 -> sound (f a) st1 Q) ->
  sound (bind m f) st Q.
Proof using Type.
  intros [Hs HQ] Hf. unfold sound, bind.
  destruct (m st) as [[a|e] st1] eqn:E; cbn [snd] in Hs.
  - destruct (Hf a st1 eq_refl Hs (HQ _ _ eq_refl)) as [Hs2 HQ2].
    split; [eapply safe_trans; eassumption | exact HQ2].
  - split; [exact Hs | discriminate].
Qed.

Lemma sound_try {A} (m : M A) (h : exn -> M A) st Q :
  sound m st Q ->
  (forall e st1, m st = (Raise e, st1) -> safe st st1 -> sound (h e) st1 Q) ->
  sound (try_except m h) st Q.
Proof using Type.
  intros [Hs HQ] Hh. unfold sound, try_except.
  destruct (m st) as [[a|e] st1] eqn:E; cbn [snd] in Hs.
  - split; [exact Hs|]. intros a' st' H. injection H as <- <-. now apply HQ.
  - destruct (Hh e st1 eq_refl Hs) as [Hs2 HQ2].
    split; [eapply safe_trans; eassumption | exact HQ2].
Qed.

Lemma sound_fold_m {A S} (I : S -> state -> Prop) (body : S -> A -> M S) (xs : list A) :
  (forall s x st, In x xs -> I s st -> sound (body s x) st I) ->
  forall s st, I s st -> sound (fold_m body s xs) st I.
Proof using Type.
  induction xs as [|x xs IH]; intros Hb s st HI; cbn [fold_m].
  - now apply sound_ret.
  - apply (sound_bind _ _ _ I); [apply Hb; [now left | exact HI]|].
    intros s' st1 _ _ HI'. apply IH; [|exact HI'].
    intros s0 y st0 Hy. apply Hb. now right.
Qed.

Lemma sound_get_item {C} r (f : item -> M C) st Q :
  (forall it, nth_error (heap st) r = Some it -> sound (f it) st Q) ->
  sound (bind (get_item r) f) st Q.
Proof using Type.
  intros H. unfold sound, bind, get_item.
  destruct (nth_error (heap st) r) as [it|]; [now apply H|].
  split; [apply safe_refl | discriminate].
Qed.

(** *** The live backend *)

Lemma safe_create_non_story acc item : preserves safe (create_non_story acc item).
Proof using post_logs.
  intros st. unfold create_non_story, bind at 1, get_item.
  destruct (nth_error (heap st) item) as [it|] eqn:Hit; [|apply safe_refl].
  destruct (String.eqb (type_ it) "story"); [apply safe_refl|].
  apply (sound_try _ _ _ (fun _ _ => True)).
  - apply (sound_bind _ _ _ (fun _ _ => True)).
    + apply sound_of; [|auto].
      destruct (String.eqb (type_ it) "epic") eqn:Ee.
      { apply (safe_post "/epics" item it st Hit); [|discriminate..].
        intros _. now apply String.eqb_eq. }
      destruct (String.eqb (type_ it) "iteration");
        [apply (safe_post _ item it st Hit); discriminate|].
      destruct (String.eqb (type_ it) "label");
        [apply (safe_post _ item it st Hit); discriminate|].
      apply safe_refl.
    + intros res st1 _ _ _. apply sound_safe. safely.
  - intros e st1 _ _. apply sound_safe. safely.
Qed.

Lemma clean_story_result story st s st' :
  clean_story story st = (Ok s, st') -> s = story.
Proof using Type.
  unfold clean_story. intros H. run_inv H as it st1 Hit.
  destruct (dict_get (entity it) "comments") as [v|];
    [|now injection H as <- _].
  destruct v as [ | | | | |cs| ];
    try (run_inv H as xs st2 Hx; destruct xs; [now injection H as <- _ | discriminate]).
  destruct (mutate_each pop_attachments cs) as [cs' e].
  run_inv H as u st2 Hu. destruct e; [discriminate | now injection H as <- _].
Qed.

Lemma safe_process_files batch dry st :
  Forall (story_at st) batch ->
  sound (process_files_for_stories batch dry) st (fun out _ => incl out batch).
Proof using upload_logs.
  intros Hst. apply sound_of.
  - apply (safe_frame batch); [|exact Hst|apply log_process_files_for_stories].
    eapply touches_only_weaken; [apply kept_kept0|].
    apply frame_process_files_for_stories.
  - intros out st'. apply process_files_for_stories_result.
Qed.

Lemma safe_process_batch batch acc st :
  Forall (story_at st) batch -> safe st (snd (process_batch batch acc st)).
Proof using bulk_logs upload_logs.
  intros Hst. unfold process_batch. destruct batch as [|b0 batch0]; [apply safe_refl|].
  remember (b0 :: batch0) as batch eqn:Eb. clear Eb b0 batch0.
  apply (sound_bind _ _ _ (fun out _ => incl out batch) (fun _ _ => True));
    [now apply safe_process_files|].
  intros processed st1 _ S1 Hincl.
  pose proof (stories_at_safe _ _ _ S1 Hst) as Hst1.
  apply (sound_bind _ _ _ (fun out st2 => incl out batch /\ Forall (story_at st2) batch)).
  - apply sound_fold_m; [|split; [intros x []|exact Hst1]].
    intros done story st0 Hin [Hd Hst0].
    apply (sound_bind _ _ _ (fun s st2 => s = story /\ Forall (story_at st2) batch)).
    + assert (Hs : safe st0 (snd (clean_story story st0))).
      { apply (safe_frame batch); [|exact Hst0|apply log_clean_story].
        eapply touches_only_weaken; [apply kept_kept0|].
        apply frame_clean_story. now apply Hincl. }
      apply sound_of; [exact Hs|].
      intros s st2 E. split; [exact (clean_story_result _ _ _ _ E)|].
      rewrite E in Hs. exact (stories_at_safe _ _ _ Hs Hst0).
    + intros s st2 _ _ [-> Hst2]. apply sound_ret. split; [|exact Hst2].
      intros x Hx. apply in_app_or in Hx. destruct Hx as [Hx|[<-|[]]]; auto.
  - intros cleaned st2 _ _ [Hc Hst2].
    apply (sound_try _ _ _ (fun _ _ => True)).
    + apply (sound_bind _ _ _
               (fun items st3 =>
                  st3 = st2
                  /\ Forall2 (fun r it => nth_error (heap st2) r = Some it) cleaned items)).
      * apply sound_of; [apply (preserves_deref safe safe_refl safe_trans)|].
        intros items st3 E. unfold deref in E.
        destruct (deref_ok _ _ _ _ _ E) as (-> & read & -> & Hread). now split.
      * intros items st3 _ _ [-> Hat].
        apply (sound_bind _ _ _ (fun _ _ => True)).
        -- apply sound_of; [|auto]. apply (safe_bulk cleaned items st2 Hat).
           rewrite Forall_forall in *. intros r Hr. apply Hst2, Hc, Hr.
        -- intros created st4 _ _ _. apply sound_safe. safely.
    + intros e st3 _ _. apply sound_safe. safely.
Qed.

Lemma safe_batch_story acc item st :
  Forall (story_at st) (fst acc) ->
  sound (batch_story acc item) st (fun acc' st' => Forall (story_at st') (fst acc')).
Proof using bulk_logs upload_logs.
  intros Hst. destruct acc as [batch done]. cbn [fst] in Hst.
  unfold batch_story. apply sound_get_item. intros it Hit.
  destruct (String.eqb (type_ it) "story") eqn:Es; [|now apply sound_ret].
  apply String.eqb_eq in Es.
  assert (Hst' : Forall (story_at st) (batch ++ [item])).
  { apply Forall_app. split; [exact Hst|]. constructor; [|constructor]. now exists it. }
  destruct (Nat.leb BATCH_SIZE (length (batch ++ [item]))); [|now apply sound_ret].
  apply (sound_bind _ _ _ (fun _ _ => True)).
  - apply sound_of; [now apply safe_process_batch | auto].
  - intros done' st1 _ _ _. apply sound_ret. constructor.
Qed.

Lemma safe_sc_creator items : preserves safe (sc_creator items).
Proof using post_logs bulk_logs upload_logs.
  intros st. unfold sc_creator.
  apply (sound_bind _ _ _ (fun _ _ => True) (fun _ _ => True));
    [apply sound_safe; safely|].
  intros u st1 _ _ _.
  apply (sound_bind _ _ _ (fun _ _ => True)).
  { apply sound_safe. apply (preserves_fold_m safe safe_refl safe_trans).
    intros acc item. apply safe_create_non_story. }
  intros done st2 _ _ _.
  apply (sound_bind _ _ _ (fun acc st3 => Forall (story_at st3) (fst acc))).
  { apply sound_fold_m; [|constructor].
    intros acc item st0 _ H. now apply safe_batch_story. }
  intros acc st3 _ _ H. apply sound_of; [now apply safe_process_batch | auto].
Qed.

#[local] Hint Resolve safe_sc_creator : safe.

(** *** The phases of [commit] *)










End Submitted.


End Run.

(* ================================================================== *)
(** * Concrete runs *)
(* ================================================================== *)
Arguments heap {B} s.
Arguments self {B} s.
Arguments backend {B} s.
Arguments imported_entities_csv {B} s.
Arguments failed_stories_csv {B} s.
Arguments failed_files_csv {B} s.
Arguments mock_global_id {B} s.
Arguments io {B} s.
Arguments Build_state {B}.

(** Sample data: a target system that gives ids in sequence, refuses a
    payload without a name, and keeps what it was sent. *)
Record demo_backend := {
  requests : list (string * list dict);
  next_id : Z
}.

Definition valid_payload (e : dict) : bool := dict_has e "name".

Definition demo_type (path : string) : string :=
  if String.eqb path "/epics" then "epic"
  else if String.eqb path "/iterations" then "iteration"
  else if String.eqb path "/labels" then "label"
  else "story".

Definition demo_created (ty : string) (id : Z) (e : dict) : created :=
  {| created_id := id; entity_type := ty; app_url := ("https://app/" ++ ty)%string; payload := e |}.

Definition demo_post (path : string) (e : dict) (b : demo_backend)
  : result created * demo_backend :=
  let b' := {| requests := requests b ++ [(path, [e])]; next_id := next_id b |} in
  if valid_payload e
  then (Ok (demo_created (demo_type path) (next_id b) e),
        {| requests := requests b'; next_id := next_id b + 1 |})
  else (Raise (BackendError "name is required"), b').

Fixpoint demo_created_from (id : Z) (es : list dict) : list created :=
  match es with
  | [] => []
  | e :: r => demo_created "story" id e :: demo_created_from (id + 1) r
  end.

Definition demo_post_bulk (es : list dict) (b : demo_backend)
  : result (list created) * demo_backend :=
  let b' := {| requests := requests b ++ [("/stories/bulk", es)]; next_id := next_id b |} in
  if forallb valid_payload es
  then (Ok (demo_created_from (next_id b) es),
        {| requests := requests b'; next_id := next_id b + Z.of_nat (length es) |})
  else (Raise (BackendError "invalid story in batch"), b').

Definition demo_upload (paths : list string) (b : demo_backend)
  : (list uploaded * list failed_file) * demo_backend :=
  (([], []), b).

Definition demo_files (pt_id : value) : option (list (string * string)) := None.

Definition demo_exn_str (e : exn) : string :=
  match e with
  | BackendError msg => msg
  | RuntimeError msg => msg
  | _ => "error"
  end.

Definition demo_repr (v : value) : string := "[...]".

Definition demo_datetime : string := "2024-01-01 10:00".
Definition demo_time : string := "2024-01-01 10:00:00".

Definition demo_collector : EntityCollector :=
  {| stories := []; epics := []; files := []; iteration_strings := [];
     iterations := []; labels := [] |}.

Definition demo_state (h : list item) (c : EntityCollector) : state demo_backend :=
  {| heap := h; self := c; backend := {| requests := []; next_id := 100 |};
     imported_entities_csv := []; failed_stories_csv := None;
     failed_files_csv := None; mock_global_id := 0; io := [] |}.

Definition demo_story (name : option string) (external_id : string)
           (labels : list value) (key : option string) (pid : value) : item :=
  {| type_ := "story";
     entity := (match name with Some n => [("name", VStr n)] | None => [] end)
               ++ [("external_id", VStr external_id); ("labels", VList labels)];
     iteration := key; pt_iteration_id := pid; parsed_row := None;
     imported_entity := None; error_message := None |}.

Definition demo_sc_creator :=
  sc_creator demo_datetime demo_backend demo_post demo_post_bulk demo_upload demo_files demo_time.

Definition demo_create_stories :=
  create_stories demo_backend demo_post demo_post_bulk demo_time demo_exn_str.

Definition demo_commit (emitter : list ref -> M demo_backend (list ref)) (dry : bool) :=
  commit demo_datetime demo_repr demo_backend demo_upload demo_files demo_time (fun l => l) emitter dry.

(** Three stories, the second without a name. *)
Definition three_stories : list item :=
  [demo_story (Some "one") "1" [] None VNone;
   demo_story None "2" [] None VNone;
   demo_story (Some "three") "3" [] None VNone].

Definition demo_ctx : context :=
  {| group_id := VStr "team-1";
     priority_config := [("p1", VStr "high")];
     priority_custom_field_id := VStr "priority-field";
     user_config := [("alice", VStr "u-alice"); ("bob", VNone)];
     workflow_config := [("started", VInt 500)] |}.

(** The export of sample rows.  The line of a row only tells which row it
    is, by its number of cells, and [parse_row] gives the row as it reads
    it; the database has no comment for any story. *)
Definition demo_lines (rows : list dict) : list (list string) :=
  ["Id"] :: map (fun i => repeat "cell" i) (seq 0 (length rows)).

Definition demo_parse_row (rows : list dict) (line header : list string) : result dict :=
  match nth_error rows (length line) with
  | Some row => Ok row
  | None => Raise IndexError
  end.

Definition demo_lower (s : string) : string := s.

(** The database: two comments for the story 81, the first with two files,
    and no comment for any other story. *)
Definition demo_db_comments : list db_row :=
  [{| db_id := 5; db_text := VStr "see file"; db_filename := VStr "a.png";
      db_content_type := VStr "image/png" |};
   {| db_id := 5; db_text := VStr "see file"; db_filename := VStr "b.pdf";
      db_content_type := VStr "application/pdf" |};
   {| db_id := 6; db_text := VNone; db_filename := VNone; db_content_type := VNone |}].

Definition demo_dump (i : nat) : database :=
  {| connects := true;
     query := fun external_id =>
                match external_id with
                | VStr "81" => Some demo_db_comments
                | _ => Some []
                end |}.

Definition demo_export (rows : list dict) :=
  process_pt_csv_export demo_datetime demo_backend (demo_parse_row rows) demo_lower
    demo_dump demo_ctx (demo_lines rows) None.

Definition demo_mock_emitter := mock_emitter demo_backend.

Definition epic_row : dict :=
  [("name", VStr "Checkout"); ("story_type", VStr "epic");
   ("labels", VList [VDict [("name", VStr "checkout")]])].

Definition story_row (name id : string) (labels : list string) (extra : dict) : dict :=
  [("name", VStr name); ("external_id", VStr id); ("story_type", VStr "feature");
   ("labels", VList (map (fun l => VDict [("name", VStr l)]) labels))] ++ extra.

Definition commented_row : dict :=
  story_row "S" "81" []
    [("comments", VList [VDict [("text", VStr "see file"); ("author", VStr "alice")];
                         VDict [("text", VStr "plain"); ("author", VStr "bob")]])].

Definition in_iteration (id start_date end_date : string) : dict :=
  [("pt_iteration_id", VStr id); ("pt_iteration_start_date", VStr start_date);
   ("pt_iteration_end_date", VStr end_date)].

Definition linked_rows : list dict :=
  [epic_row; story_row "Pay by card" "11" ["checkout"] []].

Definition iteration_rows : list dict :=
  [story_row "A" "1" [] (in_iteration "42" "2024-01-01" "2024-01-14");
   story_row "B" "2" [] (in_iteration "42" "2024-01-01" "2024-01-14");
   story_row "C" "3" [] (in_iteration "42" "2024-01-01" "2024-01-15");
   story_row "D" "4" [] (in_iteration "42" "2024-01-01" "2024-01-15")].

Definition marker_rows : list dict :=
  [[("name", VStr "Migrated"); ("story_type", VStr "epic");
    ("labels", VList [VDict [("name", VStr "pivotal->shortcut")]])];
   story_row "Unrelated" "21" [] []].

(** The state after the export of rows, from an empty collector. *)
Definition exported (rows : list dict) : state demo_backend :=
  snd (demo_export rows (demo_state [] demo_collector)).

(** The entity of the record at a reference, and the id it was created
    with. *)
Definition entity_at (st : state demo_backend) (r : ref) : dict :=
  match nth_error (heap st) r with Some it => entity it | None => [] end.

Definition created_id_at (st : state demo_backend) (r : ref) : option Z :=
  match nth_error (heap st) r with
  | Some it => option_map created_id (imported_entity it)
  | None => None
  end.

(* ------------------------------------------------------------------ *)
(** ** A failed bulk call *)

(** C1.  Three stories, the second with a payload the target system
    refuses.  The live backend makes the bulk call and no other: it returns
    no created story and reports the three stories as failed.  The function
    [create_stories], which nothing calls, falls back to one call per story:
    two stories created, one reported. *)
Theorem bulk_failure_fails_whole_batch :
  let st := demo_state three_stories demo_collector in
  let live := demo_sc_creator [0; 1; 2] st in
  let fallback := demo_create_stories [0; 1; 2] st in
  fst live = Ok []
  /\ option_map (map external_id) (failed_stories_csv (snd live))
     = Some [VStr "1"; VStr "2"; VStr "3"]
  /\ map fst (requests (backend (snd live))) = ["/stories/bulk"]
  /\ fst fallback = Ok [0; 2]
  /\ option_map (map external_id) (failed_stories_csv (snd fallback))
     = Some [VStr "2"]
  /\ map fst (requests (backend (snd fallback)))
     = ["/stories/bulk"; "/stories"; "/stories"; "/stories"].
Proof. vm_compute. repeat split. Qed.

(* ------------------------------------------------------------------ *)
(** ** A label of the export named like a marker label *)

(** C3.  An epic whose row carries a label named "pivotal->shortcut": the
    name read from the export is equal to the marker label and is not the
    object of the constant, so [is not] holds and the name is a key of the
    map; a story without any label of its own, which carries the marker
    label like every story, is then linked to that epic. *)
Theorem marker_name_is_a_key :
  let st := snd (demo_commit demo_mock_emitter true (exported marker_rows)) in
  option_map (fun epic => collect_epic_label_mapping demo_datetime [epic])
             (nth_error (heap st) 1)
  = Some (Ok [(KStr "pivotal->shortcut", 1%Z)])
  /\ created_id_at st 1 = Some 1%Z
  /\ dict_get (entity_at st 2) "epic_id" = Some (VInt 1).
Proof. vm_compute. repeat split. Qed.

(* ------------------------------------------------------------------ *)
(** ** A story linked to an epic *)


(* ------------------------------------------------------------------ *)
(** ** Two iterations with the same source id *)

(** C5, as stated, fails: stories A and B are in iteration 42 ending on the
    14th, stories C and D in an iteration with the same id ending on the
    15th.  One iteration is created for each, with ids 1 and 2, and the four
    stories all carry iteration_id 2. *)
Lemma same_source_id_shares_iteration :
  let st := snd (demo_commit demo_mock_emitter true (exported iteration_rows)) in
  iterations (self st) = [5; 6]
  /\ dict_get (entity_at st 5) "end_date" = Some (VStr "2024-01-14")
  /\ created_id_at st 5 = Some 1%Z
  /\ dict_get (entity_at st 6) "end_date" = Some (VStr "2024-01-15")
  /\ created_id_at st 6 = Some 2%Z
  /\ map (fun r => dict_get (entity_at st r) "iteration_id") (stories (self st))
     = [Some (VInt 2); Some (VInt 2); Some (VInt 2); Some (VInt 2)]
  /\ map (fun r => option_map iteration (nth_error (heap st) r)) [1; 2]
     = [Some (Some "42|2024-01-01|2024-01-14"); Some (Some "42|2024-01-01|2024-01-14")]
  /\ dict_get (entity_at st 1) "iteration_id" <> option_map VInt (created_id_at st 5).
Proof. vm_compute. repeat split. discriminate. Qed.

(* ------------------------------------------------------------------ *)
(** ** Rows built by the Entity Builder *)

(** The record built from a row that builds. *)
Definition built (row : dict) : item :=
  match build_entity demo_datetime demo_ctx row with
  | Ok r => r
  | Raise _ => build_run_label_entity
  end.

Definition reviewed_row : dict :=
  story_row "Reviewed" "31" []
    [("requester", VStr "alice");
     ("reviewers", VList [VStr "al|ice"; VStr "bob"]);
     ("review_types", VList [VStr "code"; VStr "qa"]);
     ("review_states", VList [VStr "pass"; VStr "in|review"]);
     ("comments", VList [VDict [("text", VStr "first"); ("author", VStr "alice")]])].

Definition release_row : dict :=
  [("name", VStr "v1.0"); ("external_id", VStr "41"); ("story_type", VStr "release");
   ("labels", VList [])].

Definition mapped_row : dict :=
  story_row "Started" "51" [] [("pt_state", VStr "started")].

Definition unmapped_row : dict :=
  story_row "Odd" "52" [] [("pt_state", VStr "rejected")].

Lemma review_comment_table_witness :
  exists comments,
    dict_get (entity (built reviewed_row)) "comments"
    = Some (VList (comments
                   ++ [VDict [("author_id", VStr "u-alice");
                              ("text",
                               VStr (review_as_comment_text_prefix
                                     ++ table_lines [("al\|ice", "code", "pass");
                                                     ("bob", "qa", "in\|review")])%string)]])).
Proof.
  destruct (review_comment_table demo_datetime demo_ctx reviewed_row (built reviewed_row))
    as (source & comments & rs & ts & ss & cells & cells' & H1 & H2 & H3 & H4 & H5 & H6
        & H7 & H8 & _);
    [reflexivity | reflexivity | reflexivity |].
  exists comments.
  vm_compute in H3. vm_compute in H4. vm_compute in H5.
  injection H3 as <-. injection H4 as <-. injection H5 as <-.
  apply (map_Some_inj [("al|ice", "code", "pass"); ("bob", "qa", "in|review")]) in H6.
  subst cells. apply cells_escaped_unique in H7. subst cells'. exact H8.
Defined.

(** A row that names no requester the user mapping knows, and holds a
    requested_by_id of its own. *)
Definition orphan_review_row : dict :=
  story_row "Reviewed" "32" []
    [("requester", VStr "bob");
     ("requested_by_id", VStr "u-carol");
     ("reviewers", VList [VStr "alice"]);
     ("review_types", VList [VStr "code"]);
     ("review_states", VList [VStr "pass"])].

(** C7, as stated, fails: the requester of the row is not resolved, and the
    review comment is attributed to the requested_by_id the row holds. *)
Lemma review_author_from_row :
  resolved_requester demo_datetime demo_ctx orphan_review_row = VNone
  /\ exists text,
       dict_get (entity (built orphan_review_row)) "comments"
       = Some (VList [VDict [("author_id", VStr "u-carol"); ("text", text)]]).
Proof. split; [reflexivity|]. eexists. vm_compute. reflexivity. Qed.

Lemma release_becomes_chore_witness :
  type_ (built release_row) = "story"
  /\ dict_get (entity (built release_row)) "story_type" = Some (VStr "chore")
  /\ exists labels,
       dict_get (entity (built release_row)) "labels" = Some (VList labels)
       /\ In (label_named PIVOTAL_RELEASE_TYPE_LABEL) labels
       /\ In (label_named PIVOTAL_TO_SHORTCUT_LABEL) labels
       /\ In (label_named PIVOTAL_TO_SHORTCUT_RUN_LABEL) labels.
Proof.
  apply (release_becomes_chore demo_datetime demo_ctx release_row (built release_row));
    reflexivity.
Defined.

Lemma workflow_state_resolved_witness :
  (exists e, build_entity demo_datetime demo_ctx unmapped_row = Raise e)
  /\ type_ (built mapped_row) = "story"
  /\ dict_get (entity (built mapped_row)) "workflow_state_id" = Some (VInt 500).
Proof.
  split.
  - apply (workflow_state_resolved demo_datetime demo_ctx unmapped_row);
      [reflexivity | reflexivity | vm_compute; discriminate].
  - apply (workflow_state_resolved demo_datetime demo_ctx mapped_row);
      reflexivity.
Defined.

(* ------------------------------------------------------------------ *)
(** ** Linkage and collection *)

Definition demo_epic (name : string) (id : Z) : item :=
  let e := [("name", VStr name); ("labels", VList [VDict [("name", VStr name)]])] in
  {| type_ := "epic"; entity := e; iteration := None; pt_iteration_id := VNone;
     parsed_row := None; imported_entity := Some (demo_created "epic" id e);
     error_message := None |}.

Definition labelled (names : list string) : list value :=
  map (fun n => VDict [("name", VStr n)]) names.

(** Two created epics, and three stories: one with the labels of both
    epics, the one of "checkout" last, one with no label of an epic, one
    with the label of "search". *)
Definition epics_and_stories : state demo_backend :=
  demo_state
    [demo_epic "checkout" 7; demo_epic "search" 8;
     demo_story (Some "both") "81" (labelled ["search"; "other"; "checkout"]) None VNone;
     demo_story (Some "none") "82" (labelled ["other"]) None VNone;
     demo_story (Some "one") "83" (labelled ["search"]) None VNone]
    demo_collector.

Definition epics_linked : state demo_backend :=
  snd (assign_stories_to_epics demo_datetime demo_backend [2; 3; 4] [0; 1]
         epics_and_stories).

Lemma epic_last_match_wins_witness :
  map (fun r => dict_get (entity_at epics_linked r) "epic_id") [2; 3; 4]
  = [Some (VInt 7); None; Some (VInt 8)]
  /\ exists items m,
       Forall2 (fun r it => nth_error (heap epics_and_stories) r = Some it) [0; 1] items
       /\ collect_epic_label_mapping demo_datetime items = Ok m
       /\ [2; 3; 4] = [2; 3; 4]
       /\ (forall r, ~ In r [2; 3; 4] ->
                     nth_error (heap epics_linked) r = nth_error (heap epics_and_stories) r)
       /\ forall story,
           In story [2; 3; 4] ->
           exists it it' labels,
             nth_error (heap epics_and_stories) story = Some it
             /\ nth_error (heap epics_linked) story = Some it'
             /\ py_iter demo_datetime (py_get_default (entity it) "labels" (VList []))
                = Ok labels
             /\ Forall (well_formed_label demo_datetime) labels
             /\ (matching_epic_ids demo_datetime m labels = [] -> it' = it)
             /\ (forall epic_id,
                   matching_epic_ids demo_datetime m labels = [epic_id] ->
                   it' = with_entity it (dict_set (entity it) "epic_id" (VInt epic_id)))
             /\ (matching_epic_ids demo_datetime m labels <> [] ->
                 it' = with_entity it
                         (dict_set (entity it) "epic_id"
                            (VInt (last (matching_epic_ids demo_datetime m labels) 0%Z)))).
Proof.
  split; [vm_compute; reflexivity|].
  apply (epic_last_match_wins demo_datetime demo_backend [2; 3; 4] [0; 1]
           epics_and_stories [2; 3; 4] epics_linked).
  vm_compute. reflexivity.
Defined.

Definition demo_file_item : item :=
  {| type_ := "file"; entity := [("name", VStr "a.png")]; iteration := None;
     pt_iteration_id := VNone; parsed_row := None; imported_entity := None;
     error_message := None |}.

Lemma collect_unknown_type_witness :
  let st := demo_state [demo_file_item] demo_collector in
  collect demo_backend 0 st = (Raise (RuntimeError "Unknown entity type file"), st).
Proof.
  apply (collect_unknown_type demo_backend 0 demo_file_item
           (demo_state [demo_file_item] demo_collector));
    [reflexivity | discriminate | discriminate | discriminate].
Defined.


(* ------------------------------------------------------------------ *)
(** ** Stories sharing an iteration *)

Definition shared_rows : list dict :=
  [ story_row "A" "1" [] (in_iteration "42" "2024-01-01" "2024-01-14");
    story_row "B" "2" [] (in_iteration "42" "2024-01-01" "2024-01-14");
    story_row "C" "3" [] (in_iteration "43" "2024-01-15" "2024-01-28") ].

(** The four stories of two iterations with the source id 42: one
    iteration is created for each key, and the stories carry the id of the
    one created last. *)
Definition twin_state : state demo_backend := exported iteration_rows.

Definition twin_run : result (list created) * state demo_backend :=
  demo_commit demo_mock_emitter true twin_state.

Definition twin_created : list created :=
  match fst twin_run with Ok c => c | Raise _ => [] end.

Definition twin_final : state demo_backend := snd twin_run.

Lemma one_iteration_per_source_id_witness :
  let key := "42|2024-01-01|2024-01-14" in
  let keys := iteration_strings (self twin_state) in
  Forall2 (created_for demo_backend twin_final) (iterations (self twin_final)) keys
  /\ count_occ string_dec keys key = 1
  /\ exists i t last_key it_t c,
       nth_error (iterations (self twin_final)) i = Some t
       /\ nth_error keys i = Some last_key
       /\ (exists rest, split_pipe last_key = "42" :: rest)
       /\ (forall j key' rest,
             i < j -> nth_error keys j = Some key' -> split_pipe key' <> "42" :: rest)
       /\ nth_error (heap twin_final) t = Some it_t
       /\ imported_entity it_t = Some c
       /\ (forall r it,
             In r (stories (self twin_state)) ->
             nth_error (heap twin_state) r = Some it ->
             pt_iteration_id it = VStr "42" ->
             exists it', nth_error (heap twin_final) r = Some it'
                         /\ dict_get (entity it') "iteration_id"
                            = Some (VInt (created_id c)))
       /\ ((forall key' rest,
               In key' (iteration_strings (self twin_state)) ->
               split_pipe key' = "42" :: rest -> key' = key) ->
           last_key = key).
Proof.
  apply (one_iteration_per_source_id demo_datetime demo_repr demo_backend
           demo_upload demo_files demo_time (fun l => l) demo_mock_emitter true
           twin_state twin_created twin_final
           "42" "2024-01-01" "2024-01-14").
  - apply mock_emitter_ok.
  - intros l. apply Permutation_refl.
  - vm_compute. reflexivity.
  - intros r Hr. vm_compute in Hr. vm_compute.
    destruct Hr as [<-|[<-|[<-|[<-|[]]]]]; lia.
  - vm_compute. repeat constructor; cbn [In]; intuition discriminate.
  - reflexivity.
  - reflexivity.
  - reflexivity.
  - discriminate.
  - vm_compute. tauto.
Defined.

(* ------------------------------------------------------------------ *)
(** ** More rows built by the Entity Builder *)

Definition tasks_row : dict :=
  story_row "With tasks" "61" []
    [("task_titles", VList [VStr "write"; VStr "test"]);
     ("task_states", VList [VStr "completed"])].

Lemma story_tasks_witness :
  exists titles states,
    py_iter demo_datetime (py_get_default tasks_row "task_titles" (VList [])) = Ok titles
    /\ py_iter demo_datetime (py_get_default tasks_row "task_states" (VList [])) = Ok states
    /\ length (build_tasks demo_datetime titles states)
       = Nat.min (length titles) (length states)
    /\ dict_get (entity (built tasks_row)) "tasks"
       = match build_tasks demo_datetime titles states with
         | [] => dict_get tasks_row "tasks"
         | v :: l => Some (VList (v :: l))
         end.
Proof.
  exact (story_tasks demo_datetime demo_ctx tasks_row (built tasks_row) eq_refl eq_refl).
Defined.

Lemma story_user_fields_witness :
  dict_get (entity (built reviewed_row)) "requested_by_id" = Some (VStr "u-alice")
  /\ dict_get (entity (built reviewed_row)) "owner_ids" = None
  /\ exists reviewers,
       py_iter demo_datetime (py_get reviewed_row "reviewers") = Ok reviewers
       /\ dict_get (entity (built reviewed_row)) "follower_ids"
          = Some (VList (known_user_ids demo_datetime (user_config demo_ctx) reviewers)).
Proof.
  exact (story_user_fields demo_datetime demo_ctx reviewed_row (built reviewed_row)
           eq_refl eq_refl).
Defined.

Definition priority_row : dict :=
  story_row "Urgent" "71" [] [("priority", VStr "p1")].

Definition unknown_priority_row : dict :=
  story_row "Odd priority" "72" [] [("priority", VStr "p9")].

Lemma priority_resolved_witness :
  (exists e, build_entity demo_datetime demo_ctx unknown_priority_row = Raise e)
  /\ dict_get (entity (built priority_row)) "custom_fields"
     = Some (VList [VDict [("field_id", VStr "priority-field");
                           ("value_id", VStr "high")]]).
Proof.
  split.
  - apply (proj1 (priority_resolved demo_datetime demo_ctx unknown_priority_row
                    eq_refl eq_refl)).
    vm_compute. discriminate.
  - exact (proj2 (priority_resolved demo_datetime demo_ctx priority_row eq_refl eq_refl)
             (VStr "high") (built priority_row) eq_refl eq_refl).
Defined.

Lemma story_comments_witness :
  exists source comments,
    py_iter demo_datetime (py_get_default reviewed_row "comments" (VList [])) = Ok source
    /\ rmap (build_comment demo_datetime demo_ctx) source = Ok comments
    /\ (exists review,
          dict_get (entity (built reviewed_row)) "comments"
          = Some (VList (comments ++ [review])))
    /\ dict_get (entity (built reviewed_row)) "comments" <> Some (VList []).
Proof.
  refine (story_comments demo_datetime demo_ctx reviewed_row (built reviewed_row)
            eq_refl eq_refl _).
  vm_compute. repeat constructor; cbn [In]; intuition discriminate.
Defined.

Definition demo_comments : list value :=
  [VDict [("text", VStr "first"); ("author", VStr "alice")];
   VDict [("text", VStr "second"); ("author", VStr "bob"); ("author_id", VStr "kept")];
   VDict [("text", VStr "third")]].

Definition demo_built_comments : list value :=
  [VDict [("text", VStr "first"); ("author_id", VStr "u-alice")];
   VDict [("text", VStr "second"); ("author_id", VStr "kept")];
   VDict [("text", VStr "third")]].

Lemma built_comments_authors_witness :
  Forall2
    (fun comment new_comment =>
       exists c c',
         comment = VDict c
         /\ new_comment = VDict c'
         /\ (forall k, k <> "author" -> k <> "author_id" -> dict_get c' k = dict_get c k)
         /\ (if truthy demo_datetime (py_get c "author")
             then
               (NoDup (dict_keys c) -> dict_get c' "author" = None)
               /\ exists author_id,
                    cfg_get demo_datetime (user_config demo_ctx) (py_get c "author")
                    = Ok author_id
                    /\ dict_get c' "author_id"
                       = (if truthy demo_datetime author_id then Some author_id
                          else dict_get c "author_id")
             else c' = c))
    demo_comments demo_built_comments.
Proof.
  exact (built_comments_authors demo_datetime demo_ctx demo_comments demo_built_comments
           eq_refl).
Defined.

Lemma labels_of_built_record_witness :
  exists old,
    py_get_default release_row "labels" (VList []) = VList old
    /\ dict_get (entity (built release_row)) "labels"
       = Some (VList (old ++ [label_named PIVOTAL_TO_SHORTCUT_LABEL;
                              label_named PIVOTAL_TO_SHORTCUT_RUN_LABEL;
                              label_named PIVOTAL_RELEASE_TYPE_LABEL])).
Proof.
  exact (labels_of_built_record demo_datetime demo_ctx release_row (built release_row)
           eq_refl).
Defined.

Lemma epic_row_builds_witness :
  exists r,
    build_entity demo_datetime demo_ctx epic_row = Ok r
    /\ type_ r = "epic"
    /\ iteration r = None
    /\ dict_get (entity r) "group_ids" = Some (VList [VStr "team-1"])
    /\ dict_get (entity r) "group_id" = None
    /\ (forall k, In k ["created_at"; "description"; "external_id"; "name"] ->
                  dict_get (entity r) k = dict_get epic_row k).
Proof.
  exact (epic_row_builds demo_datetime demo_ctx epic_row
           [VDict [("name", VStr "checkout")]] [] [] eq_refl eq_refl eq_refl eq_refl).
Defined.

Definition sprint_row : dict :=
  story_row "A" "1" [] (in_iteration "42" "2024-01-01" "2024-01-14").

Lemma iteration_key_round_trip_witness :
  iteration (built sprint_row) = Some "42|2024-01-01|2024-01-14"
  /\ pt_iteration_id (built sprint_row) = VStr "42"
  /\ iteration_entity "42|2024-01-01|2024-01-14"
     = Ok {| type_ := "iteration";
             entity := [("name", VStr "PT 42"); ("start_date", VStr "2024-01-01");
                        ("end_date", VStr "2024-01-14")];
             iteration := None;
             pt_iteration_id := VStr "42";
             parsed_row := None;
             imported_entity := None;
             error_message := None |}.
Proof.
  refine (iteration_key_round_trip demo_datetime demo_ctx sprint_row (built sprint_row)
            "42" "2024-01-01" "2024-01-14"
            eq_refl eq_refl eq_refl _ eq_refl eq_refl eq_refl eq_refl eq_refl).
  discriminate.
Defined.

(* ------------------------------------------------------------------ *)
(** ** An iteration id with a pipe *)

Definition piped_state : state demo_backend :=
  exported [story_row "A" "1" [] (in_iteration "4|2" "2024-01-01" "2024-01-14")].

Lemma pipe_in_iteration_aborts_witness :
  let run := commit_iterations demo_backend (fun l => l) demo_mock_emitter true
               {| created_entities := []; written_entities := [] |} piped_state in
  fst run = Raise ValueError
  /\ self (snd run) = self piped_state
  /\ backend (snd run) = backend piped_state
  /\ imported_entities_csv (snd run) = imported_entities_csv piped_state
  /\ firstn (length (heap piped_state)) (heap (snd run)) = heap piped_state.
Proof.
  apply (pipe_in_iteration_aborts demo_backend (fun l => l) demo_mock_emitter true
           {| created_entities := []; written_entities := [] |} piped_state
           "4|2" "2024-01-01" "2024-01-14").
  - intros keys. apply Permutation_refl.
  - vm_compute. left. reflexivity.
  - reflexivity.
Defined.

(* ------------------------------------------------------------------ *)
(** ** The export *)

(** An epic, a story with its label, and the story 81 with the two
    comments the database knows. *)
Definition commented_rows : list dict :=
  [epic_row; story_row "Pay by card" "11" ["checkout"] []; commented_row].

Lemma export_collects_every_row_witness :
  let st := demo_state [] demo_collector in
  let st' := exported commented_rows in
  (labels (self st') = [0] /\ epics (self st') = [1] /\ stories (self st') = [2; 3]
   /\ option_map (fun it => dict_get (entity it) "comments") (nth_error (heap st') 3)
      = Some (Some (VList [VDict [("text", VStr "see file");
                                  ("attachments",
                                   VList [VDict [("filename", VStr "a.png");
                                                 ("content_type", VStr "image/png")];
                                          VDict [("filename", VStr "b.pdf");
                                                 ("content_type",
                                                  VStr "application/pdf")]]);
                                  ("author_id", VStr "u-alice")];
                           VDict [("text", VStr "");
                                  ("attachments", VList [])]])))
  /\ exists header rows records,
       demo_lines commented_rows = header :: rows
       /\ @None exn = None
       /\ rmap (read_row demo_datetime (demo_parse_row commented_rows) demo_dump demo_ctx
                  (map demo_lower header))
               (combine (seq 0 (length rows)) rows) = Ok records
       /\ length records = length rows
       /\ Forall (fun r => type_ r = "story" \/ type_ r = "epic") records
       /\ heap st' = heap st ++ build_run_label_entity :: records
       /\ labels (self st') = labels (self st) ++ [length (heap st)]
       /\ stories (self st')
          = stories (self st) ++ refs_of_type "story" (S (length (heap st))) records
       /\ epics (self st')
          = epics (self st) ++ refs_of_type "epic" (S (length (heap st))) records
       /\ iteration_strings (self st')
          = fold_left add_iteration_key records (iteration_strings (self st))
       /\ (NoDup (iteration_strings (self st)) -> NoDup (iteration_strings (self st')))
       /\ iterations (self st') = iterations (self st)
       /\ files (self st') = files (self st)
       /\ backend st' = backend st
       /\ imported_entities_csv st' = imported_entities_csv st
       /\ io st' = io st.
Proof.
  intros st st'. split; [vm_compute; repeat split|].
  apply (export_collects_every_row demo_datetime demo_backend
           (demo_parse_row commented_rows) demo_lower demo_dump demo_ctx
           (demo_lines commented_rows) None st st').
  vm_compute. reflexivity.
Defined.

(** Rows of which the second does not build, and a story with a comment
    the database does not know. *)
Definition failing_rows : list dict := [mapped_row; unmapped_row; release_row].

Definition unknown_comment_rows : list dict :=
  [story_row "T" "82" [] [("comments", VList [VDict [("text", VStr "lost")]])]].

Lemma export_failure_sources_witness :
  fst (demo_export unknown_comment_rows (demo_state [] demo_collector)) = Raise IndexError
  /\ exists e st',
       demo_export failing_rows (demo_state [] demo_collector) = (Raise e, st')
       /\ (demo_lines failing_rows = [] /\ e = StopIteration
           \/ exists header rows,
                demo_lines failing_rows = header :: rows
                /\ ((exists i row,
                       In (i, row) (combine (seq 0 (length rows)) rows)
                       /\ (demo_parse_row failing_rows row (map demo_lower header) = Raise e
                           \/ exists row_info,
                                demo_parse_row failing_rows row (map demo_lower header)
                                = Ok row_info
                                /\ (add_attached_files_in_comments demo_datetime
                                      (connects (demo_dump i)) (query (demo_dump i))
                                      row_info = Raise e
                                    \/ exists row_info',
                                         add_attached_files_in_comments demo_datetime
                                           (connects (demo_dump i)) (query (demo_dump i))
                                           row_info = Ok row_info'
                                         /\ build_entity demo_datetime demo_ctx row_info'
                                            = Raise e)))
                    \/ (@None exn = Some e
                        /\ exists records,
                             rmap (read_row demo_datetime (demo_parse_row failing_rows)
                                     demo_dump demo_ctx (map demo_lower header))
                                  (combine (seq 0 (length rows)) rows) = Ok records))).
Proof.
  split; [vm_compute; reflexivity|].
  destruct (demo_export failing_rows (demo_state [] demo_collector)) as [[u|e] st'] eqn:E;
    [vm_compute in E; discriminate|].
  exists e, st'. split; [reflexivity|].
  exact (export_failure_sources demo_datetime demo_backend (demo_parse_row failing_rows)
           demo_lower demo_dump demo_ctx (demo_lines failing_rows) None
           (demo_state [] demo_collector) e st' E).
Defined.

(* ------------------------------------------------------------------ *)
(** ** Batches *)

Lemma batches_partition_witness :
  let l := [1; 2; 3; 4; 5] in
  concat (chunks 2 l) = l
  /\ Forall (fun b => 0 < length b <= 2) (chunks 2 l)
  /\ (forall i, S i < length (chunks 2 l) -> length (nth i (chunks 2 l) []) = 2)
  /\ length (chunks 2 l) = (length l + 2 - 1) / 2.
Proof.
  intros l. apply (batches_partition 2 l). lia.
Defined.

(* ------------------------------------------------------------------ *)
(** ** A live run and a dry run *)

Definition live_run : result (list created) * state demo_backend :=
  demo_commit demo_sc_creator false (exported linked_rows).

Definition live_created : list created :=
  match fst live_run with Ok c => c | Raise _ => [] end.

Lemma created_entities_are_recorded_witness :
  length live_created = 3
  /\ Forall (fun c => In (Row (entity_type c) (created_id c))
                         (imported_entities_csv (snd live_run)))
            live_created.
Proof.
  split; [reflexivity|].
  apply Forall_forall.
  apply (created_entities_are_recorded demo_datetime demo_repr demo_backend demo_post
           demo_post_bulk demo_upload demo_files demo_time (fun l => l)
           (exported linked_rows) live_created (snd live_run)).
  - vm_compute. constructor.
  - vm_compute. reflexivity.
Defined.

Lemma mock_emitter_numbers_witness :
  let st := exported shared_rows in
  let st' := snd (demo_mock_emitter [1; 2; 3] st) in
  mock_global_id st' = (mock_global_id st + Z.of_nat 3)%Z
  /\ (forall i r,
        nth_error [1; 2; 3] i = Some r ->
        exists it,
          nth_error (heap st) r = Some it
          /\ nth_error (heap st') r
             = Some (with_imported_entity it
                       (mock_created (mock_global_id st + Z.of_nat i) it))).
Proof.
  intros st st'.
  refine (proj2 (mock_emitter_numbers demo_backend [1; 2; 3] st [1; 2; 3] st' _ _)).
  - repeat constructor; cbn [In]; intuition discriminate.
  - vm_compute. reflexivity.
Defined.

(** A story whose first comment has a file, and an upload that fails. *)
Definition attached_story : item :=
  {| type_ := "story";
     entity := [("name", VStr "S"); ("external_id", VStr "81");
                ("comments",
                 VList [VDict [("text", VStr "see file");
                               ("attachments",
                                VList [VDict [("filename", VStr "a.png")]])];
                        VDict [("text", VStr "plain")]])];
     iteration := None; pt_iteration_id := VNone; parsed_row := None;
     imported_entity := None; error_message := None |}.

Definition files_of_81 (pt_id : value) : option (list (string * string)) :=
  match pt_id with
  | VStr "81" => Some [("a.png", "data/81/a.png")]
  | _ => None
  end.

Definition failing_upload (paths : list string) (b : demo_backend)
  : (list uploaded * list failed_file) * demo_backend :=
  (([], map (fun path => {| ff_filename := basename path; ff_error := "timeout";
                            ff_story_id := None; ff_timestamp := None |}) paths),
   b).

Definition file_stage (st : state demo_backend) :=
  process_files_for_stories demo_datetime demo_backend failing_upload files_of_81
    demo_time [0; 1] false st.

Definition two_stories : state demo_backend :=
  demo_state [attached_story; demo_story (Some "two") "2" [] None VNone] demo_collector.

(** The same state, in which the second write to come cannot open its
    file. *)
Definition two_stories_no_file : state demo_backend :=
  set_io demo_backend two_stories [io_ok; io_open_fails].

Lemma file_stage_accounts_for_every_story_witness :
  let st := two_stories in
  let st' := snd (file_stage st) in
  (fst (file_stage st) = Ok [1]
   /\ map external_id (failed_story_rows demo_backend st') = [VStr "81"]
   /\ fst (file_stage two_stories_no_file) = Ok [1]
   /\ failed_story_rows demo_backend (snd (file_stage two_stories_no_file)) = [])
  /\ exists failed,
       Permutation ([1] ++ failed) [0; 1]
       /\ exists items written rest,
            Forall2 (fun r it => nth_error (heap st') r = Some it) failed items
            /\ map (failed_story_row demo_time) items = written ++ rest
            /\ failed_story_rows demo_backend st'
               = failed_story_rows demo_backend st ++ written
            /\ (calm demo_backend st -> rest = []).
Proof.
  intros st st'. split; [vm_compute; repeat split|].
  apply (file_stage_accounts_for_every_story demo_datetime demo_backend failing_upload
           files_of_81 demo_time [0; 1] false st [1] st').
  vm_compute. reflexivity.
Defined.

(** The record built from the row of the story 81 after the lookup of its
    comments: its parsed row holds the comments of its entity. *)
Definition commented_story : item :=
  built (match add_attached_files_in_comments demo_datetime true
                 (fun _ => Some demo_db_comments) commented_row with
         | Ok r => r
         | Raise _ => []
         end).

Lemma clean_story_strips_attachments_witness :
  let st := demo_state [commented_story] demo_collector in
  let st' := snd (clean_story demo_datetime demo_backend 0 st) in
  (option_map (fun it => (dict_get (entity it) "comments",
                          option_map (fun d => dict_get d "comments") (parsed_row it)))
              (nth_error (heap st') 0)
   = Some (Some (VList [VDict [("text", VStr "see file"); ("author_id", VStr "u-alice")];
                        VDict [("text", VStr "")]]),
           Some (Some (VList [VDict [("text", VStr "see file");
                                     ("author_id", VStr "u-alice")];
                              VDict [("text", VStr "")]]))))
  /\ 0 = 0
  /\ exists it it',
       nth_error (heap st) 0 = Some it
       /\ nth_error (heap st') 0 = Some it'
       /\ match dict_get (entity it) "comments" with
          | Some (VList cs) =>
              exists cs',
                Forall2 without_attachments cs cs'
                /\ it' = with_comments it cs'
                /\ entity it' = dict_set (entity it) "comments" (VList cs')
                /\ parsed_row it'
                   = match parsed_row it with
                     | Some d => Some (if dict_has d "comments"
                                       then dict_set d "comments" (VList cs') else d)
                     | None => None
                     end
          | _ => it' = it
          end
       /\ (forall r, r <> 0 -> nth_error (heap st') r = nth_error (heap st) r)
       /\ self st' = self st
       /\ backend st' = backend st
       /\ imported_entities_csv st' = imported_entities_csv st.
Proof.
  intros st st'. split; [vm_compute; reflexivity|].
  apply (clean_story_strips_attachments demo_datetime demo_backend 0 st 0 st').
  vm_compute. reflexivity.
Defined.

(* ------------------------------------------------------------------ *)
(** ** Epics sharing a label *)

Definition created_epic (name : string) (id : Z) : item :=
  {| type_ := "epic";
     entity := [("name", VStr name);
                ("labels", VList [VDict [("name", VStr "checkout")];
                                  VDict [("name", VStr name)]])];
     iteration := None; pt_iteration_id := VNone; parsed_row := None;
     imported_entity := Some (demo_created "epic" id []); error_message := None |}.

Lemma later_epic_wins_witness :
  exists m,
    collect_epic_label_mapping demo_datetime
      [created_epic "first" 7; created_epic "second" 8] = Ok m
    /\ emap_get m (KStr "checkout") = Some 8%Z.
Proof.
  eexists. split; [vm_compute; reflexivity|].
  apply (later_epic_wins demo_datetime [created_epic "first" 7] (created_epic "second" 8)
           _ (demo_created "epic" 8 [])
           [VDict [("name", VStr "checkout")]; VDict [("name", VStr "second")]]
           (VDict [("name", VStr "checkout")]) "checkout").
  - vm_compute. reflexivity.
  - reflexivity.
  - reflexivity.
  - left. reflexivity.
  - reflexivity.
Defined.

(** An epic that is created, with its line written or not, and an epic
    the target system refuses. *)
Definition nameless_epic : item :=
  {| type_ := "epic"; entity := [("description", VStr "no name")]; iteration := None;
     pt_iteration_id := VNone; parsed_row := None; imported_entity := None;
     error_message := None |}.

Lemma non_story_created_or_type_error_witness :
  let st := demo_state [built epic_row] demo_collector in
  let run := create_non_story demo_backend demo_post [] 0 st in
  (In (Row "epic" 100) (imported_entities_csv (snd run))
   /\ imported_entities_csv
        (snd (create_non_story demo_backend demo_post [] 0
                (set_io demo_backend st [io_open_fails]))) = []
   /\ fst (create_non_story demo_backend demo_post [] 0
             (demo_state [nameless_epic] demo_collector)) = Raise TypeError)
  /\ ((exists res written,
         fst run = Ok ([] ++ [0])
         /\ nth_error (heap (snd run)) 0 = Some (with_imported_entity (built epic_row) res)
         /\ imported_entities_csv (snd run) = imported_entities_csv st ++ written
         /\ (written = [Row (entity_type res) (created_id res)] \/ written = [])
         /\ (calm demo_backend st -> written = [Row (entity_type res) (created_id res)]))
      \/ (fst run = Raise TypeError
          /\ heap (snd run) = heap st
          /\ imported_entities_csv (snd run) = imported_entities_csv st
          /\ failed_stories_csv (snd run) = failed_stories_csv st)).
Proof.
  intros st run. split; [vm_compute; intuition|].
  apply (non_story_created_or_type_error demo_backend demo_post [] 0 (built epic_row) st).
  - reflexivity.
  - vm_compute. discriminate.
Defined.

(* ------------------------------------------------------------------ *)
(** ** Mapping files *)

Definition mapping_rows : list dict :=
  [[("pt_state", VStr "started"); ("shortcut_state_id", VStr "500")];
   [("pt_state", VStr "finished"); ("shortcut_state_id", VStr "")];
   [("pt_state", VStr "started"); ("shortcut_state_id", VStr "501")]].

Definition demo_mapping : hmap :=
  match load_mapping_csv demo_datetime mapping_rows "pt_state" "shortcut_state_id" Ok with
  | Ok d => d
  | Raise _ => []
  end.

Lemma load_mapping_csv_last_row_wins_witness :
  hmap_get demo_mapping (KStr "accepted") = None
  /\ hmap_get demo_mapping (KStr "started") = Some (VStr "501")
  /\ hmap_get demo_mapping (KStr "finished") = Some VNone.
Proof.
  pose proof (fun k => load_mapping_csv_last_row_wins demo_datetime mapping_rows
                         "pt_state" "shortcut_state_id" Ok demo_mapping k eq_refl) as H.
  split; [|split].
  - apply (proj1 (H (KStr "accepted"))).
    repeat constructor; vm_compute; discriminate.
  - destruct (proj2 (H (KStr "started"))
                [[("pt_state", VStr "started"); ("shortcut_state_id", VStr "500")];
                 [("pt_state", VStr "finished"); ("shortcut_state_id", VStr "")]]
                [("pt_state", VStr "started"); ("shortcut_state_id", VStr "501")] []
                eq_refl eq_refl (Forall_nil _)) as (val & Hget & Hval).
    vm_compute in Hval. injection Hval as <-. exact Hget.
  - destruct (proj2 (H (KStr "finished"))
                [[("pt_state", VStr "started"); ("shortcut_state_id", VStr "500")]]
                [("pt_state", VStr "finished"); ("shortcut_state_id", VStr "")]
                [[("pt_state", VStr "started"); ("shortcut_state_id", VStr "501")]]
                eq_refl eq_refl) as (val & Hget & Hval).
    + repeat constructor; vm_compute; discriminate.
    + vm_compute in Hval. subst val. exact Hget.
Defined.

Lemma load_mapping_csv_missing_column_witness :
  load_mapping_csv demo_datetime
    ([[("pt_state", VStr "started"); ("shortcut_state_id", VStr "500")]]
     ++ [("state", VStr "finished"); ("shortcut_state_id", VStr "502")]
     :: [[("pt_state", VStr "started"); ("shortcut_state_id", VStr "501")]])
    "pt_state" "shortcut_state_id" Ok
  = Raise (KeyError (VStr "pt_state")).
Proof.
  apply (load_mapping_csv_missing_column demo_datetime).
  - reflexivity.
  - intros _. eexists. reflexivity.
  - eexists. vm_compute. reflexivity.
Defined.

Definition demo_members : list value :=
  [VDict [("id", VStr "u-alice"); ("email", VStr "alice@example.com")];
   VDict [("id", VStr "u-bob"); ("email", VStr "bob@example.com")]].

Definition user_rows : list dict :=
  [[("pt_user_name", VStr "Alice A"); ("shortcut_user_email", VStr "alice@example.com")];
   [("pt_user_name", VStr "Carol C"); ("shortcut_user_email", VStr "carol@example.com")];
   [("pt_user_name", VStr "Dan D"); ("shortcut_user_email", VStr "")]].

Definition demo_users : hmap :=
  match load_users demo_datetime Ok demo_members user_rows with
  | Ok d => d
  | Raise _ => []
  end.

Lemma load_users_by_email_witness :
  exists email_to_id user_to_email,
    member_emails demo_datetime demo_members = Ok email_to_id
    /\ load_mapping_csv demo_datetime user_rows "pt_user_name" "shortcut_user_email" Ok
       = Ok user_to_email
    /\ (forall k,
          hmap_get demo_users k
          = match hmap_get user_to_email k with
            | Some sc_email =>
                if truthy demo_datetime sc_email
                then Some (member_id demo_datetime email_to_id sc_email)
                else None
            | None => None
            end).
Proof.
  apply (load_users_by_email demo_datetime Ok demo_members user_rows demo_users).
  vm_compute. reflexivity.
Defined.

(* ------------------------------------------------------------------ *)
(** ** Comments of the database *)

Definition demo_query (db_comments : list db_row) (external_id : value)
  : option (list db_row) := Some db_comments.

Definition commented_row' : dict :=
  match add_attached_files_in_comments demo_datetime true (demo_query demo_db_comments)
          commented_row with
  | Ok r => r
  | Raise _ => []
  end.

Lemma db_comments_paired_by_position_witness :
  let p := comments_by_id demo_datetime demo_db_comments in
  exists cs',
    dict_get commented_row' "comments" = Some (VList cs')
    /\ dict_get commented_row' "db_comments" = Some (VList (processed_values p))
    /\ (forall k, k <> "comments" -> k <> "db_comments" ->
                  dict_get commented_row' k = dict_get commented_row k)
    /\ length cs' = 2
    /\ (forall i c,
          nth_error [VDict [("text", VStr "see file"); ("author", VStr "alice")];
                     VDict [("text", VStr "plain"); ("author", VStr "bob")]] i = Some c ->
          exists d id text atts,
            c = VDict d
            /\ nth_error p i = Some (id, (text, atts))
            /\ nth_error cs' i
               = Some (VDict (dict_set (dict_set d "text" text)
                                       "attachments" (VList atts)))).
Proof.
  intros p.
  apply (db_comments_paired_by_position demo_datetime (demo_query demo_db_comments)
           commented_row demo_db_comments
           [VDict [("text", VStr "see file"); ("author", VStr "alice")];
            VDict [("text", VStr "plain"); ("author", VStr "bob")]]
           commented_row').
  - reflexivity.
  - reflexivity.
  - reflexivity.
  - vm_compute. reflexivity.
Defined.

Lemma fewer_db_comments_raise_witness :
  add_attached_files_in_comments demo_datetime true
    (demo_query (firstn 2 demo_db_comments)) commented_row
  = Raise IndexError.
Proof.
  apply (fewer_db_comments_raise demo_datetime (demo_query (firstn 2 demo_db_comments))
           commented_row (firstn 2 demo_db_comments)
           [VDict [("text", VStr "see file"); ("author", VStr "alice")];
            VDict [("text", VStr "plain"); ("author", VStr "bob")]]).
  - reflexivity.
  - reflexivity.
  - reflexivity.
  - repeat constructor; eexists; reflexivity.
  - vm_compute. lia.
Defined.
